(** * ZMP optimizer: the QP formulation layer of [zmp_optimizer.cc]

    A shallow embedding of [xpp::zmp::ZmpOptimizer] and the theorems that
    relate it to its specification.

    The C++ code computes with [double].  The embedding is written once,
    over an interface [Double] of the operations the code uses, and is
    instantiated twice:
    - [binary64]: IEEE 754 double precision ([spec_float], round to nearest
      even), which the definitions evaluate on;
    - [R]: the real numbers, where rounding is ignored; the algebraic
      properties (closed-form integrals, affine ZMP rows) are stated there.
    Structural properties (sizes, symmetry, control flow) are proved for
    every instance.  The numbers of samples, which the code takes from the
    floor of a rounded quotient, are proved for every instance that counts
    as [DoubleCount] states, and both instances do. *)

From Stdlib Require Import ZArith List Bool Lia Reals Lra String.
From Stdlib Require Import Floats.SpecFloat.
From stdpp Require Import base list.

Local Open Scope Z_scope.

(** ** The arithmetic of [double] *)

Class Double (T : Type) := {
  fzero : T;
  fone : T;
  fadd : T -> T -> T;
  fsub : T -> T -> T;
  fmul : T -> T -> T;
  fdiv : T -> T -> T;
  fopp : T -> T;
  fltb : T -> T -> bool;            (* operator< *)
  ffloor : T -> T;                  (* std::floor *)
  f_of_Z : Z -> T;                  (* an integer literal or an int converted *)
  f_to_int : T -> option Z          (* conversion to int; None where C++ leaves
                                       it undefined (NaN, infinite, too large) *)
}.

Declare Scope double_scope.
Delimit Scope double_scope with D.
Infix "+" := fadd : double_scope.
Infix "-" := fsub : double_scope.
Infix "*" := fmul : double_scope.
Infix "/" := fdiv : double_scope.
Notation "- x" := (fopp x) : double_scope.

(** A decimal literal [n/d] such as [9.81 = 981/100]: the correctly rounded
    quotient of two exactly represented integers is the double nearest to
    the decimal. *)
Definition lit `{Double T} (n d : Z) : T := fdiv (f_of_Z n) (f_of_Z d).

Definition INT_MAX : Z := 2147483647.
Definition INT_MIN : Z := -2147483648.
Definition in_int (z : Z) : bool := (INT_MIN <=? z) && (z <=? INT_MAX).

(** *** IEEE 754 binary64 *)

Definition binary64 : Type := spec_float.

Module B64.
Definition prec : Z := 53.
Definition emax : Z := 1024.

Definition of_Z (z : Z) : binary64 := binary_normalize prec emax z 0 false.

(** The integer part of a finite double, rounded towards minus infinity
    ([down = true]) or towards zero. *)
Definition int_part (down : bool) (s : bool) (m : positive) (e : Z) : Z :=
  let a := if 0 <=? e then Z.pos m * 2 ^ e else Z.pos m / 2 ^ (- e) in
  let exact := if 0 <=? e then true else Z.pos m mod 2 ^ (- e) =? 0 in
  if s then (if down && negb exact then - a - 1 else - a) else a.

Definition floor (x : binary64) : binary64 :=
  match x with
  | S754_finite s m e =>
      if 0 <=? e then x
      else let q := int_part true s m e in
           if q =? 0 then S754_zero s else binary_normalize prec emax q 0 s
  | _ => x
  end.

Definition to_int (x : binary64) : option Z :=
  match x with
  | S754_zero _ => Some 0
  | S754_finite s m e =>
      let q := int_part false s m e in
      if in_int q then Some q else None
  | _ => None
  end.

Definition infinity : binary64 := S754_infinity false.
End B64.

#[export] Instance Double_binary64 : Double binary64 := {
  fzero := S754_zero false;
  fone := B64.of_Z 1;
  fadd := SFadd B64.prec B64.emax;
  fsub := SFsub B64.prec B64.emax;
  fmul := SFmul B64.prec B64.emax;
  fdiv := SFdiv B64.prec B64.emax;
  fopp := SFopp;
  fltb := SFltb;
  ffloor := B64.floor;
  f_of_Z := B64.of_Z;
  f_to_int := B64.to_int
}.

(** *** Exact real arithmetic *)

Module Rd.
Definition ltb (x y : R) : bool := if Rlt_dec x y then true else false.
Definition floor (x : R) : R := IZR (Int_part x).
Definition trunc (x : R) : Z :=
  if Rle_dec 0 x then Int_part x else (- Int_part (- x))%Z.
Definition to_int (x : R) : option Z :=
  if in_int (trunc x) then Some (trunc x) else None.
End Rd.

#[export] Instance Double_R : Double R := {
  fzero := 0%R;
  fone := 1%R;
  fadd := Rplus;
  fsub := Rminus;
  fmul := Rmult;
  fdiv := Rdiv;
  fopp := Ropp;
  fltb := Rd.ltb;
  ffloor := Rd.floor;
  f_of_Z := IZR;
  f_to_int := Rd.to_int
}.

(** ** Exceptions *)

Inductive exn : Type :=
| runtime_error (what : string)   (* std::runtime_error *)
| length_error (what : string)    (* std::length_error *)
| out_of_range                    (* std::out_of_range, thrown by at() *)
| eigen_assert                    (* an index or a size outside an Eigen object *)
| undefined                       (* back() of an empty vector, a double too
                                     large for the int it is converted to *)
| no_fuel.                        (* a loop of the model out of fuel *)

Inductive result (A : Type) : Type :=
| Ok (a : A)
| Throw (e : exn).
Arguments Ok {A} a.
Arguments Throw {A} e.

#[export] Instance result_ret : MRet result := fun A a => Ok a.
#[export] Instance result_bind : MBind result := fun A B f m =>
  match m with Ok a => f a | Throw e => Throw e end.

Definition is_Ok {A} (r : result A) : Prop := exists a, r = Ok a.

Lemma bind_Ok {R1 R2} (m : result R1) (f : R1 -> result R2) b :
  m ≫= f = Ok b <-> exists a, m = Ok a /\ f a = Ok b.
Proof.
  destruct m as [a|e]; simpl; split.
  - intros Hf. exists a. auto.
  - intros (a' & Ha & Hf). congruence.
  - discriminate.
  - intros (a' & Ha & _). discriminate.
Qed.

(** [for (x : l) body], threading the loop-carried value. *)
Fixpoint for_each {El St} (l : list El) (body : El -> St -> result St) (s : St)
  : result St :=
  match l with
  | [] => Ok s
  | x :: l' => s' ← body x s; for_each l' body s'
  end.

Lemma for_each_app {El St} (l1 l2 : list El) (body : El -> St -> result St) s :
  for_each (l1 ++ l2) body s = for_each l1 body s ≫= for_each l2 body.
Proof.
  revert s. induction l1 as [|x l1 IH]; intros s; simpl; [reflexivity|].
  destruct (body x s); simpl; auto.
Qed.

(** A loop invariant rule: the loop returns, and the invariant holds of
    what it returns, when every iteration returns and keeps it. *)
Lemma for_each_inv {El St} (I : list El -> St -> Prop) (l : list El)
    (body : El -> St -> result St) (s : St) :
  I [] s ->
  (forall done x s0, (exists rest, l = done ++ x :: rest) -> I done s0 ->
     exists s1, body x s0 = Ok s1 /\ I (done ++ [x]) s1) ->
  exists s', for_each l body s = Ok s' /\ I l s'.
Proof.
  intros H0 Hstep.
  assert (Hgen : forall done rest s0, l = done ++ rest -> I done s0 ->
             exists s', for_each rest body s0 = Ok s' /\ I l s').
  { intros done rest. revert done.
    induction rest as [|x rest IH]; intros done s0 Hl HI.
    - rewrite app_nil_r in Hl. subst. exists s0. split; [reflexivity|assumption].
    - destruct (Hstep done x s0) as (s1 & Hb & HI1); [eauto|assumption|].
      simpl. rewrite Hb. simpl.
      apply (IH (done ++ [x])); [|assumption].
      rewrite <- app_assoc. exact Hl. }
  apply (Hgen [] l s); auto.
Qed.

(** ** Eigen vectors and matrices

    [VectorXd] is a list; [MatrixXd] is stored by columns, as Eigen does.
    Element access outside the object fails with [eigen_assert]. *)

Abbreviation VectorXd T := (list T).

Section Eigen.
Context {T : Type} `{Double T}.


Definition VectorXd_Zero (n : Z) : result (VectorXd T) :=
  if 0 <=? n then Ok (replicate (Z.to_nat n) fzero) else Throw eigen_assert.

Definition in_bounds (i : Z) (n : nat) : bool := (0 <=? i) && (i <? Z.of_nat n).

Definition vget (u : VectorXd T) (i : Z) : result T :=
  if in_bounds i (length u)
  then match u !! Z.to_nat i with Some x => Ok x | None => Throw eigen_assert end
  else Throw eigen_assert.

Definition vset (u : VectorXd T) (i : Z) (x : T) : result (VectorXd T) :=
  if in_bounds i (length u) then Ok (<[Z.to_nat i := x]> u)
  else Throw eigen_assert.

(** [u(i) += x] *)
Definition vadd_at (u : VectorXd T) (i : Z) (x : T) : result (VectorXd T) :=
  y ← vget u i; vset u i (y + x)%D.

(** Total read, for specifications: zero outside the vector. *)
Definition vcoeff (u : VectorXd T) (i : Z) : T :=
  if 0 <=? i then default fzero (u !! Z.to_nat i) else fzero.

(** [u + w], [u * s], [s * u] and the component-wise product. *)
Definition vplus (u w : VectorXd T) : result (VectorXd T) :=
  if Nat.eqb (length u) (length w) then Ok (zip_with fadd u w)
  else Throw eigen_assert.
Definition vscale_r (u : VectorXd T) (s : T) : VectorXd T :=
  (fun x => x * s)%D <$> u.
Definition vscale_l (s : T) (u : VectorXd T) : VectorXd T :=
  (fun x => s * x)%D <$> u.
Definition cwiseProduct (u w : VectorXd T) : result (VectorXd T) :=
  if Nat.eqb (length u) (length w) then Ok (zip_with fmul u w)
  else Throw eigen_assert.

Record MatrixXd : Type := {
  rows : nat;
  cols : nat;
  data : list (list T)      (* [data !! c !! r] is the entry (r, c) *)
}.

Definition wf_matrix (m : MatrixXd) : Prop :=
  length (data m) = cols m /\
  forall c col, data m !! c = Some col -> length col = rows m.

Definition MatrixXd_Zero (r c : Z) : result MatrixXd :=
  if (0 <=? r) && (0 <=? c)
  then Ok {| rows := Z.to_nat r; cols := Z.to_nat c;
             data := replicate (Z.to_nat c) (replicate (Z.to_nat r) fzero) |}
  else Throw eigen_assert.

(** [m(r, c)] read and written. *)
Definition mget (m : MatrixXd) (r c : Z) : result T :=
  if in_bounds r (rows m) && in_bounds c (cols m)
  then match data m !! Z.to_nat c ≫= (.!! Z.to_nat r) with
       | Some x => Ok x
       | None => Throw eigen_assert
       end
  else Throw eigen_assert.

Definition mset (m : MatrixXd) (r c : Z) (x : T) : result MatrixXd :=
  if in_bounds r (rows m) && in_bounds c (cols m)
  then Ok {| rows := rows m; cols := cols m;
             data := alter (<[Z.to_nat r := x]>) (Z.to_nat c) (data m) |}
  else Throw eigen_assert.

(** [m.col(c)] read and assigned. *)
Definition mcol (m : MatrixXd) (c : Z) : result (VectorXd T) :=
  if in_bounds c (cols m)
  then match data m !! Z.to_nat c with
       | Some col => Ok col
       | None => Throw eigen_assert
       end
  else Throw eigen_assert.

Definition mcol_set (m : MatrixXd) (c : Z) (u : VectorXd T) : result MatrixXd :=
  if in_bounds c (cols m) && Nat.eqb (length u) (rows m)
  then Ok {| rows := rows m; cols := cols m;
             data := <[Z.to_nat c := u]> (data m) |}
  else Throw eigen_assert.

(** [m.col(c) += u] *)
Definition mcol_add (m : MatrixXd) (c : Z) (u : VectorXd T) : result MatrixXd :=
  col ← mcol m c; s ← vplus col u; mcol_set m c s.

(** Total read, for specifications: zero outside the matrix. *)
Definition coeff (m : MatrixXd) (r c : Z) : T :=
  if (0 <=? r) && (0 <=? c)
  then default fzero (data m !! Z.to_nat c ≫= (.!! Z.to_nat r))
  else fzero.

Definition transpose (m : MatrixXd) : MatrixXd :=
  {| rows := cols m; cols := rows m;
     data := (fun r => (fun c => coeff m (Z.of_nat r) (Z.of_nat c))
                         <$> seq 0 (cols m)) <$> seq 0 (rows m) |}.

(** The pair of a matrix and a vector that every builder returns: one
    column of [M] and one entry of [v] per constraint. *)
Record MatVec : Type := { M : MatrixXd; v : VectorXd T }.

Definition MatVec_new (r c : Z) : result MatVec :=
  m ← MatrixXd_Zero r c; u ← VectorXd_Zero c; Ok {| M := m; v := u |}.

(** *** Facts about vectors *)

Lemma in_bounds_spec i n : in_bounds i n = true <-> 0 <= i < Z.of_nat n.
Proof. unfold in_bounds. rewrite andb_true_iff, Z.leb_le, Z.ltb_lt. tauto. Qed.

Lemma in_bounds_true i n : 0 <= i < Z.of_nat n -> in_bounds i n = true.
Proof. apply in_bounds_spec. Qed.

Lemma vcoeff_lookup (u : VectorXd T) (i : nat) x :
  u !! i = Some x -> vcoeff u (Z.of_nat i) = x.
Proof.
  intros Hx. unfold vcoeff.
  destruct (0 <=? Z.of_nat i) eqn:E; [|apply Z.leb_gt in E; lia].
  rewrite Nat2Z.id, Hx. reflexivity.
Qed.

Lemma vcoeff_ge (u : VectorXd T) i : Z.of_nat (length u) <= i -> vcoeff u i = fzero.
Proof.
  intros Hi. unfold vcoeff. destruct (0 <=? i) eqn:E; [|reflexivity].
  rewrite lookup_ge_None_2; [reflexivity|lia].
Qed.

Lemma vget_Ok (u : VectorXd T) i :
  0 <= i < Z.of_nat (length u) -> vget u i = Ok (vcoeff u i).
Proof.
  intros Hi. unfold vget, vcoeff. rewrite in_bounds_true by assumption.
  destruct (u !! Z.to_nat i) eqn:E.
  - destruct (0 <=? i) eqn:E0; [reflexivity|apply Z.leb_gt in E0; lia].
  - apply lookup_ge_None_1 in E. lia.
Qed.

Lemma vset_Ok (u : VectorXd T) i x :
  0 <= i < Z.of_nat (length u) ->
  exists u', vset u i x = Ok u' /\ length u' = length u /\
    forall j, vcoeff u' j = if decide (j = i) then x else vcoeff u j.
Proof.
  intros Hi. unfold vset. rewrite in_bounds_true by assumption.
  eexists. split; [reflexivity|]. split; [apply length_insert|].
  intros j. unfold vcoeff. destruct (decide (j = i)) as [->|Hne].
  - destruct (0 <=? i) eqn:E0; [|apply Z.leb_gt in E0; lia].
    rewrite list_lookup_insert_eq by lia. reflexivity.
  - destruct (0 <=? j) eqn:E0; [|reflexivity]. apply Z.leb_le in E0.
    rewrite list_lookup_insert_ne by lia. reflexivity.
Qed.

Lemma vadd_at_Ok (u : VectorXd T) i x :
  0 <= i < Z.of_nat (length u) ->
  exists u', vadd_at u i x = Ok u' /\ length u' = length u /\
    forall j, vcoeff u' j = if decide (j = i) then (vcoeff u i + x)%D
                            else vcoeff u j.
Proof.
  intros Hi. unfold vadd_at. rewrite vget_Ok by assumption. simpl.
  apply vset_Ok. assumption.
Qed.

Lemma VectorXd_Zero_Ok n :
  0 <= n -> exists u, VectorXd_Zero n = Ok u /\ length u = Z.to_nat n /\
    forall j, vcoeff u j = fzero.
Proof.
  intros Hn. unfold VectorXd_Zero.
  destruct (0 <=? n) eqn:E; [|apply Z.leb_gt in E; lia].
  eexists. split; [reflexivity|]. split; [apply length_replicate|].
  intros j. unfold vcoeff. destruct (0 <=? j); [|reflexivity].
  destruct (replicate (Z.to_nat n) fzero !! Z.to_nat j) eqn:Ej; [|reflexivity].
  apply lookup_replicate in Ej. simpl. tauto.
Qed.

Lemma vcoeff_zip_with (f : T -> T -> T) (u w : VectorXd T) i :
  length u = length w -> 0 <= i < Z.of_nat (length u) ->
  vcoeff (zip_with f u w) i = f (vcoeff u i) (vcoeff w i).
Proof.
  intros Hl Hi. unfold vcoeff.
  destruct (0 <=? i) eqn:E0; [|apply Z.leb_gt in E0; lia].
  rewrite lookup_zip_with.
  destruct (lookup_lt_is_Some_2 u (Z.to_nat i)) as [x ->]; [lia|].
  destruct (lookup_lt_is_Some_2 w (Z.to_nat i)) as [y ->]; [lia|].
  reflexivity.
Qed.

Lemma vcoeff_fmap (f : T -> T) (u : VectorXd T) i :
  0 <= i < Z.of_nat (length u) -> vcoeff (f <$> u) i = f (vcoeff u i).
Proof.
  intros Hi. unfold vcoeff.
  destruct (0 <=? i) eqn:E0; [|apply Z.leb_gt in E0; lia].
  rewrite list_lookup_fmap.
  destruct (lookup_lt_is_Some_2 u (Z.to_nat i)) as [x ->]; [lia|].
  reflexivity.
Qed.

Lemma vector_ext (u w : VectorXd T) :
  length u = length w ->
  (forall i, 0 <= i < Z.of_nat (length u) -> vcoeff u i = vcoeff w i) -> u = w.
Proof.
  intros Hl Hc. apply list_eq. intros i.
  destruct (u !! i) as [x|] eqn:Eu.
  - pose proof (lookup_lt_Some _ _ _ Eu) as Hi.
    destruct (lookup_lt_is_Some_2 w i) as [y Ew]; [lia|].
    rewrite Ew. f_equal.
    rewrite <- (vcoeff_lookup u i x Eu), <- (vcoeff_lookup w i y Ew).
    apply Hc. lia.
  - symmetry. apply lookup_ge_None. apply lookup_ge_None in Eu. lia.
Qed.

(** *** Facts about matrices *)

Lemma coeff_lookup (m : MatrixXd) (r c : nat) col x :
  data m !! c = Some col -> col !! r = Some x ->
  coeff m (Z.of_nat r) (Z.of_nat c) = x.
Proof.
  intros Hc Hr. unfold coeff.
  destruct (0 <=? Z.of_nat r) eqn:E1; [|apply Z.leb_gt in E1; lia].
  destruct (0 <=? Z.of_nat c) eqn:E2; [|apply Z.leb_gt in E2; lia].
  simpl. rewrite !Nat2Z.id, Hc. simpl. rewrite Hr. reflexivity.
Qed.

Lemma coeff_outside (m : MatrixXd) r c :
  wf_matrix m ->
  ~ (0 <= r < Z.of_nat (rows m) /\ 0 <= c < Z.of_nat (cols m)) ->
  coeff m r c = fzero.
Proof.
  intros [Hlen Hcol] Hout. unfold coeff.
  destruct (0 <=? r) eqn:E1; [|reflexivity].
  destruct (0 <=? c) eqn:E2; [|reflexivity]. simpl.
  apply Z.leb_le in E1, E2.
  destruct (data m !! Z.to_nat c) as [col|] eqn:Ec; [|reflexivity]. simpl.
  destruct (col !! Z.to_nat r) as [x|] eqn:Er; [|reflexivity].
  exfalso. apply Hout.
  pose proof (lookup_lt_Some _ _ _ Ec). pose proof (lookup_lt_Some _ _ _ Er).
  rewrite (Hcol _ _ Ec) in *. lia.
Qed.

Lemma wf_lookup (m : MatrixXd) r c :
  wf_matrix m -> 0 <= r < Z.of_nat (rows m) -> 0 <= c < Z.of_nat (cols m) ->
  exists col, data m !! Z.to_nat c = Some col /\ length col = rows m /\
    col !! Z.to_nat r = Some (coeff m r c).
Proof.
  intros [Hlen Hcol] Hr Hc.
  destruct (lookup_lt_is_Some_2 (data m) (Z.to_nat c)) as [col Ec]; [lia|].
  pose proof (Hcol _ _ Ec) as Hl.
  destruct (lookup_lt_is_Some_2 col (Z.to_nat r)) as [x Er]; [lia|].
  exists col. split; [assumption|]. split; [assumption|].
  rewrite Er. f_equal.
  rewrite <- (coeff_lookup m _ _ col x Ec Er). rewrite !Z2Nat.id by lia.
  reflexivity.
Qed.

Lemma MatrixXd_Zero_Ok r c :
  0 <= r -> 0 <= c ->
  exists m, MatrixXd_Zero r c = Ok m /\ wf_matrix m /\
    rows m = Z.to_nat r /\ cols m = Z.to_nat c /\
    forall i j, coeff m i j = fzero.
Proof.
  intros Hr Hc. unfold MatrixXd_Zero.
  destruct (0 <=? r) eqn:E1; [|apply Z.leb_gt in E1; lia].
  destruct (0 <=? c) eqn:E2; [|apply Z.leb_gt in E2; lia].
  eexists. split; [reflexivity|].
  split; [|split; [reflexivity|split; [reflexivity|]]].
  - split; simpl; [apply length_replicate|].
    intros j col Hj. apply lookup_replicate in Hj as [-> _].
    apply length_replicate.
  - intros i j. unfold coeff; simpl.
    destruct (0 <=? i); [|reflexivity]. destruct (0 <=? j); [|reflexivity].
    simpl.
    destruct (replicate (Z.to_nat c) (replicate (Z.to_nat r) fzero)
                !! Z.to_nat j) as [col|] eqn:Ej; [|reflexivity].
    apply lookup_replicate in Ej as [-> _]. simpl.
    destruct (replicate (Z.to_nat r) fzero !! Z.to_nat i) as [x|] eqn:Ei;
      [|reflexivity].
    apply lookup_replicate in Ei as [-> _]. reflexivity.
Qed.

Lemma mget_Ok (m : MatrixXd) r c :
  wf_matrix m -> 0 <= r < Z.of_nat (rows m) -> 0 <= c < Z.of_nat (cols m) ->
  mget m r c = Ok (coeff m r c).
Proof.
  intros Hwf Hr Hc. unfold mget. rewrite !in_bounds_true by assumption. simpl.
  destruct (wf_lookup m r c Hwf Hr Hc) as (col & -> & _ & Hx). simpl.
  rewrite Hx. reflexivity.
Qed.

Lemma mset_Ok (m : MatrixXd) r c x :
  wf_matrix m -> 0 <= r < Z.of_nat (rows m) -> 0 <= c < Z.of_nat (cols m) ->
  exists m', mset m r c x = Ok m' /\ wf_matrix m' /\
    rows m' = rows m /\ cols m' = cols m /\
    forall i j, coeff m' i j = if decide (i = r /\ j = c) then x else coeff m i j.
Proof.
  intros Hwf Hr Hc. unfold mset. rewrite !in_bounds_true by assumption. simpl.
  eexists. split; [reflexivity|].
  destruct (wf_lookup m r c Hwf Hr Hc) as (col & Ecol & Hlen & Hx).
  destruct Hwf as [Hl Hcols].
  split; [|split; [reflexivity|split; [reflexivity|]]].
  - split; simpl; [rewrite length_alter; assumption|].
    intros j col' Hj.
    destruct (decide (Z.to_nat c = j)) as [<-|Hne].
    + rewrite list_lookup_alter_eq, Ecol in Hj. simpl in Hj.
      injection Hj as <-. rewrite length_insert. assumption.
    + rewrite list_lookup_alter_ne in Hj by assumption. eauto.
  - intros i j. unfold coeff; simpl.
    destruct (0 <=? i) eqn:E1; [|destruct (decide _); [lia|reflexivity]].
    destruct (0 <=? j) eqn:E2; [|destruct (decide _); [lia|reflexivity]].
    simpl. apply Z.leb_le in E1, E2.
    destruct (decide (j = c)) as [->|Hj].
    + rewrite list_lookup_alter_eq, Ecol. simpl.
      destruct (decide (i = r)) as [->|Hi].
      * rewrite list_lookup_insert_eq by lia.
        destruct (decide _); [reflexivity|tauto].
      * rewrite list_lookup_insert_ne by lia.
        destruct (decide _); [tauto|reflexivity].
    + rewrite list_lookup_alter_ne by lia.
      destruct (decide _); [tauto|reflexivity].
Qed.

Lemma mcol_Ok (m : MatrixXd) c :
  wf_matrix m -> 0 <= c < Z.of_nat (cols m) ->
  exists col, mcol m c = Ok col /\ length col = rows m /\
    forall i, vcoeff col i = coeff m i c.
Proof.
  intros Hwf Hc. unfold mcol. rewrite in_bounds_true by assumption.
  destruct Hwf as [Hl Hcols].
  destruct (lookup_lt_is_Some_2 (data m) (Z.to_nat c)) as [col Ec]; [lia|].
  rewrite Ec. exists col. split; [reflexivity|]. split; [eauto|].
  intros i. unfold vcoeff, coeff.
  destruct (0 <=? i); [|reflexivity].
  destruct (0 <=? c) eqn:E2; [|apply Z.leb_gt in E2; lia].
  simpl. rewrite Ec. reflexivity.
Qed.

Lemma mcol_set_Ok (m : MatrixXd) c (u : VectorXd T) :
  wf_matrix m -> 0 <= c < Z.of_nat (cols m) -> length u = rows m ->
  exists m', mcol_set m c u = Ok m' /\ wf_matrix m' /\
    rows m' = rows m /\ cols m' = cols m /\
    forall i j, coeff m' i j = if decide (j = c) then vcoeff u i else coeff m i j.
Proof.
  intros [Hl Hcols] Hc Hu. unfold mcol_set.
  rewrite in_bounds_true by assumption.
  rewrite (proj2 (Nat.eqb_eq _ _) Hu). simpl.
  eexists. split; [reflexivity|].
  split; [|split; [reflexivity|split; [reflexivity|]]].
  - split; simpl; [rewrite length_insert; assumption|].
    intros j col' Hj.
    destruct (decide (Z.to_nat c = j)) as [<-|Hne].
    + rewrite list_lookup_insert_eq in Hj by lia. injection Hj as <-. assumption.
    + rewrite list_lookup_insert_ne in Hj by assumption. eauto.
  - intros i j. unfold coeff, vcoeff; simpl.
    destruct (0 <=? i) eqn:E1; [|destruct (decide _); reflexivity].
    destruct (0 <=? j) eqn:E2; [|destruct (decide _); [lia|reflexivity]].
    simpl. apply Z.leb_le in E1, E2.
    destruct (decide (j = c)) as [->|Hj].
    + rewrite list_lookup_insert_eq by lia. reflexivity.
    + rewrite list_lookup_insert_ne by lia. reflexivity.
Qed.

Lemma mcol_add_Ok (m : MatrixXd) c (u : VectorXd T) :
  wf_matrix m -> 0 <= c < Z.of_nat (cols m) -> length u = rows m ->
  exists m', mcol_add m c u = Ok m' /\ wf_matrix m' /\
    rows m' = rows m /\ cols m' = cols m /\
    forall i j, coeff m' i j =
      if decide (j = c /\ 0 <= i < Z.of_nat (rows m))
      then (coeff m i c + vcoeff u i)%D else coeff m i j.
Proof.
  intros Hwf Hc Hu. unfold mcol_add.
  destruct (mcol_Ok m c Hwf Hc) as (col & -> & Hlen & Hcol). simpl.
  unfold vplus. rewrite (proj2 (Nat.eqb_eq _ _)) by congruence. simpl.
  destruct (mcol_set_Ok m c (zip_with fadd col u) Hwf Hc)
    as (m' & -> & Hwf' & Hr & Hcs & Hco).
  { rewrite length_zip_with. lia. }
  exists m'. split; [reflexivity|]. repeat (split; [assumption|]).
  intros i j. rewrite Hco.
  destruct (decide (j = c)) as [->|Hj].
  - destruct (decide (0 <= i < Z.of_nat (rows m))) as [Hi|Hi].
    + rewrite vcoeff_zip_with by lia. rewrite Hcol.
      destruct (decide _); [reflexivity|tauto].
    + destruct (decide _); [tauto|].
      rewrite (coeff_outside m i c Hwf) by tauto.
      unfold vcoeff. destruct (0 <=? i) eqn:E; [|reflexivity].
      apply Z.leb_le in E. rewrite lookup_ge_None_2; [reflexivity|].
      rewrite length_zip_with. lia.
  - destruct (decide _); [tauto|reflexivity].
Qed.

Lemma matrix_ext (m1 m2 : MatrixXd) :
  wf_matrix m1 -> wf_matrix m2 ->
  rows m1 = rows m2 -> cols m1 = cols m2 ->
  (forall r c, 0 <= r < Z.of_nat (rows m1) -> 0 <= c < Z.of_nat (cols m1) ->
     coeff m1 r c = coeff m2 r c) ->
  m1 = m2.
Proof.
  destruct m1 as [r1 c1 d1], m2 as [r2 c2 d2]. simpl.
  intros [Hl1 Hc1] [Hl2 Hc2] -> -> Hco. simpl in *. f_equal.
  apply list_eq. intros c.
  destruct (d1 !! c) as [col1|] eqn:E1.
  - pose proof (lookup_lt_Some _ _ _ E1) as Hc.
    destruct (lookup_lt_is_Some_2 d2 c) as [col2 E2]; [lia|].
    rewrite E2. f_equal. apply list_eq. intros r.
    destruct (col1 !! r) as [x|] eqn:Ex.
    + pose proof (lookup_lt_Some _ _ _ Ex) as Hr.
      destruct (lookup_lt_is_Some_2 col2 r) as [y Ey].
      { rewrite (Hc2 _ _ E2), <- (Hc1 _ _ E1). assumption. }
      rewrite Ey. f_equal.
      rewrite <- (coeff_lookup {| rows := r2; cols := c2; data := d1 |}
                    r c col1 x E1 Ex).
      rewrite <- (coeff_lookup {| rows := r2; cols := c2; data := d2 |}
                    r c col2 y E2 Ey).
      apply Hco; rewrite <- ?(Hc1 _ _ E1); lia.
    + symmetry. apply lookup_ge_None. apply lookup_ge_None in Ex.
      rewrite (Hc2 _ _ E2), <- (Hc1 _ _ E1). assumption.
  - symmetry. apply lookup_ge_None. apply lookup_ge_None in E1. lia.
Qed.

Lemma wf_transpose (m : MatrixXd) : wf_matrix (transpose m).
Proof.
  split; simpl.
  - rewrite length_fmap, length_seq. reflexivity.
  - intros c col Hc. rewrite list_lookup_fmap in Hc.
    destruct (seq 0 (rows m) !! c); simpl in Hc; [|discriminate].
    injection Hc as <-. rewrite length_fmap, length_seq. reflexivity.
Qed.

Lemma coeff_transpose (m : MatrixXd) r c :
  0 <= r < Z.of_nat (cols m) -> 0 <= c < Z.of_nat (rows m) ->
  coeff (transpose m) r c = coeff m c r.
Proof.
  intros Hr Hc.
  rewrite <- (Z2Nat.id r), <- (Z2Nat.id c) by lia.
  apply (coeff_lookup (transpose m) (Z.to_nat r) (Z.to_nat c)
           ((fun c0 => coeff m (Z.of_nat (Z.to_nat c)) (Z.of_nat c0))
              <$> seq 0 (cols m))).
  - simpl. rewrite list_lookup_fmap.
    rewrite lookup_seq_lt by lia. reflexivity.
  - rewrite list_lookup_fmap. rewrite lookup_seq_lt by lia. reflexivity.
Qed.

(** A matrix equal to its transpose, entry by entry. *)
Lemma symmetric_transpose (m : MatrixXd) :
  wf_matrix m -> rows m = cols m ->
  (forall r c, 0 <= r < Z.of_nat (rows m) -> 0 <= c < Z.of_nat (rows m) ->
     coeff m r c = coeff m c r) ->
  m = transpose m.
Proof.
  intros Hwf Hsq Hsym.
  apply matrix_ext; [assumption|apply wf_transpose|simpl; lia..|].
  intros r c Hr Hc. rewrite coeff_transpose by lia. apply Hsym; lia.
Qed.

End Eigen.

(** Counted loops: [for (int i = lo; i < lo + n; ++i) body]. *)
Fixpoint for_range {St} (n : nat) (lo : Z) (body : Z -> St -> result St) (s : St)
  : result St :=
  match n with
  | O => Ok s
  | S n' => s' ← body lo s; for_range n' (lo + 1) body s'
  end.

Lemma for_range_inv {St} (I : Z -> St -> Prop) (n : nat) (lo : Z)
    (body : Z -> St -> result St) (s : St) :
  I lo s ->
  (forall i s0, lo <= i < lo + Z.of_nat n -> I i s0 ->
     exists s1, body i s0 = Ok s1 /\ I (i + 1) s1) ->
  exists s', for_range n lo body s = Ok s' /\ I (lo + Z.of_nat n) s'.
Proof.
  revert lo s. induction n as [|n IH]; intros lo s H0 Hstep.
  - exists s. split; [reflexivity|]. replace (lo + Z.of_nat 0) with lo by lia.
    assumption.
  - destruct (Hstep lo s) as (s1 & Hb & H1); [lia|assumption|].
    simpl. rewrite Hb. simpl.
    destruct (IH (lo + 1) s1 H1) as (s' & Hs' & HI).
    { intros i s0 Hi. apply Hstep. lia. }
    exists s'. split; [assumption|].
    replace (lo + Z.of_nat (S n)) with (lo + 1 + Z.of_nat n) by lia.
    assumption.
Qed.

(** ** The spline sequence

    The optimizer reads the spline container through its segment list,
    [GetOptCoeffCount], the static [var_index] and the two [Describe]
    functions.  The container's own source is not part of this file's
    subject; these four are modelled from the specification. *)

Definition kDim2d : Z := 2.

(** The free coefficients per segment and axis: [A] to [D] of
    [p(t) = A t^5 + B t^4 + C t^3 + D t^2 + E t + F]. *)
Definition kOptCoeff : Z := 4.

Inductive Coords : Type := X | Y.

Definition dim_int (dim : Coords) : Z :=
  match dim with X => 0 | Y => 1 end.

Lemma dim_int_bounds dim : 0 <= dim_int dim <= 1.
Proof. destruct dim; simpl; lia. Qed.

Lemma div4_index (k d i : Z) :
  0 <= d <= 1 -> 0 <= i <= 3 -> (8 * k + 4 * d + i) / 4 = 2 * k + d.
Proof. intros Hd Hi. symmetry. apply (Z.div_unique _ 4 _ i); lia. Qed.

Inductive SplineCoeff : Type := A | B | C | D | E | F.

Definition coeff_int (k : SplineCoeff) : Z :=
  match k with A => 0 | B => 1 | C => 2 | D => 3 | E => 4 | F => 5 end.

(** Modelled from the spec: [var_index], the global coefficient index, "a
    bijective, contiguous mapping (segment_id, axis, coefficient_letter) to
    integer, total count = segments x 2 axes x 4 free coefficients"; the
    optimizer adds a coefficient letter to the index of [A] and fills runs of
    [kOptCoeff] entries per axis, so the four letters of an axis are
    adjacent and the axes of a segment alternate. *)
Definition var_index (spline : Z) (dim : Z) (k : Z) : Z :=
  kOptCoeff * kDim2d * spline + kOptCoeff * dim + k.

Section Splines.
Context {T : Type} `{Double T}.

Record ZmpSpline : Type := {
  id_ : Z;
  duration_ : T;
  four_leg_supp_ : bool;
  step_ : Z
}.

Record SplineContainer : Type := { splines_ : list ZmpSpline }.

(** Modelled from the spec: [GetOptCoeffCount], "total count = segments x
    2 axes x 4 free coefficients". *)
Definition GetOptCoeffCount (sc : SplineContainer) : Z :=
  Z.of_nat (length (splines_ sc)) * kOptCoeff * kDim2d.

(** The data-model invariant "identity id (sequence position)". *)
Definition wf_splines (sc : SplineContainer) : Prop :=
  id_ <$> splines_ sc = Z.of_nat <$> seq 0 (length (splines_ sc)).

Lemma wf_splines_lookup (sc : SplineContainer) i s :
  wf_splines sc -> splines_ sc !! i = Some s -> id_ s = Z.of_nat i.
Proof.
  intros Hwf Hs.
  assert (Hid : (id_ <$> splines_ sc) !! i = Some (id_ s)).
  { rewrite list_lookup_fmap, Hs. reflexivity. }
  rewrite Hwf, list_lookup_fmap in Hid.
  rewrite lookup_seq_lt in Hid by (eapply lookup_lt_Some; eassumption).
  simpl in Hid. congruence.
Qed.

Fixpoint exponents_from (n : nat) (prev t : T) : list T :=
  match n with
  | O => []
  | S n' => prev :: exponents_from n' (prev * t)%D t
  end.

(** Modelled from the spec: [cache_exponents<N>(t)], the "power table"
    [t^0, t^1, ..., t^(N-1)], each power the previous one times [t]. *)
Definition cache_exponents (N : nat) (t : T) : list T :=
  match N with
  | O => []
  | S n => fone :: exponents_from n t t
  end.

(** [a[k]] of a [std::array] at a constant index. *)
Definition arr (a : list T) (k : nat) : T := nth k a fzero.

(** A pair of doubles indexed by the axis: [Position], [Velocity],
    [WeightsXYArray]. *)
Definition Vector2d : Type := T * T.

Definition at_dim (p : Vector2d) (dim : Coords) : T :=
  match dim with X => fst p | Y => snd p end.

End Splines.

Arguments ZmpSpline T : clear implicits.
Arguments SplineContainer T : clear implicits.
Arguments MatrixXd T : clear implicits.
Arguments MatVec T : clear implicits.
Arguments Vector2d T : clear implicits.

(** ** The cost function: [CreateMinAccCostFunction] *)

Section CostFunction.
Context {T : Type} `{Double T}.

(** The loop that copies the upper triangle below the diagonal. *)
Definition mirror (m : MatrixXd T) : result (MatrixXd T) :=
  for_range (cols m) 0 (fun c m =>
    for_range (Z.to_nat (Z.of_nat (rows m) - (c + 1))) (c + 1) (fun r m =>
      x ← mget m c r; mset m r c x) m) m.

(** The body of the loop over the axes, for the segment [s]. *)
Definition cost_block (weight : Vector2d T) (s : ZmpSpline T) (dim : Coords)
    (m : MatrixXd T) : result (MatrixXd T) :=
  let t_span := cache_exponents 10 (duration_ s) in
  let a := var_index (id_ s) (dim_int dim) (coeff_int A) in
  let b := var_index (id_ s) (dim_int dim) (coeff_int B) in
  let c := var_index (id_ s) (dim_int dim) (coeff_int C) in
  let d := var_index (id_ s) (dim_int dim) (coeff_int D) in
  let w := at_dim weight dim in
  m ← mset m a a (lit 400 7 * arr t_span 7 * w)%D;
  m ← mset m a b (f_of_Z 40 * arr t_span 6 * w)%D;
  m ← mset m a c (lit 120 5 * arr t_span 5 * w)%D;
  m ← mset m a d (f_of_Z 10 * arr t_span 4 * w)%D;
  m ← mset m b b (lit 144 5 * arr t_span 5 * w)%D;
  m ← mset m b c (f_of_Z 18 * arr t_span 4 * w)%D;
  m ← mset m b d (f_of_Z 8 * arr t_span 3 * w)%D;
  m ← mset m c c (f_of_Z 12 * arr t_span 3 * w)%D;
  m ← mset m c d (f_of_Z 6 * arr t_span 2 * w)%D;
  m ← mset m d d (f_of_Z 4 * arr t_span 1 * w)%D;
  mirror m.

Definition CreateMinAccCostFunction (zmp_splines_ : SplineContainer T)
    (weight : Vector2d T) : result (MatVec T) :=
  let n_coeff := GetOptCoeffCount zmp_splines_ in
  cf ← MatVec_new n_coeff n_coeff;
  m ← for_each (splines_ zmp_splines_) (fun s m =>
         for_each [X; Y] (cost_block weight s) m) (M cf);
  Ok {| M := m; v := v cf |}.

End CostFunction.

Section CostFunctionFacts.
Context {T : Type} `{Double T}.

Lemma mirror_Ok (m : MatrixXd T) :
  wf_matrix m -> rows m = cols m ->
  exists m', mirror m = Ok m' /\ wf_matrix m' /\
    rows m' = rows m /\ cols m' = cols m /\
    forall r c, coeff m' r c =
      if decide (0 <= c < r /\ r < Z.of_nat (rows m)) then coeff m c r
      else coeff m r c.
Proof.
  intros Hwf Hsq. unfold mirror.
  pose (I := fun (c : Z) (m1 : MatrixXd T) =>
    wf_matrix m1 /\ rows m1 = rows m /\ cols m1 = cols m /\
    forall i j, coeff m1 i j =
      if decide (0 <= j < i /\ i < Z.of_nat (rows m) /\ j < c)
      then coeff m j i else coeff m i j).
  destruct (for_range_inv I (cols m) 0
    (fun c m0 => for_range (Z.to_nat (Z.of_nat (rows m0) - (c + 1))) (c + 1)
       (fun r m1 => x ← mget m1 c r; mset m1 r c x) m0) m)
    as (m' & Hrun & Hwf' & Hr' & Hc' & Hco').
  - repeat split; try assumption; try apply Hwf.
    intros i j. destruct (decide _); [lia|reflexivity].
  - intros c m1 Hc (Hwf1 & Hr1 & Hc1 & Hco1).
    pose (J := fun (r : Z) (m2 : MatrixXd T) =>
      wf_matrix m2 /\ rows m2 = rows m /\ cols m2 = cols m /\
      forall i j, coeff m2 i j =
        if decide (j = c /\ c < i < r) then coeff m j i else coeff m1 i j).
    destruct (for_range_inv J (Z.to_nat (Z.of_nat (rows m1) - (c + 1))) (c + 1)
      (fun r m2 => x ← mget m2 c r; mset m2 r c x) m1)
      as (m2 & Hrun2 & Hwf2 & Hr2 & Hc2 & Hco2).
    + repeat split; try assumption; try apply Hwf1.
      intros i j. destruct (decide _); [lia|reflexivity].
    + intros r m2 Hr (Hwf2 & Hr2 & Hc2 & Hco2).
      rewrite mget_Ok by (try assumption; lia). simpl.
      destruct (mset_Ok m2 r c (coeff m2 c r) Hwf2) as (m3 & -> & Hwf3 & Hr3 & Hc3 & Hco3);
        [lia..|].
      exists m3. split; [reflexivity|].
      split; [assumption|]. split; [congruence|]. split; [congruence|].
      intros i j. rewrite Hco3.
      destruct (decide (i = r /\ j = c)) as [[-> ->]|Hne].
      * rewrite Hco2. destruct (decide (r = c /\ c < c < r)); [lia|].
        rewrite Hco1.
        destruct (decide (0 <= r < c /\ c < Z.of_nat (rows m) /\ r < c)); [lia|].
        destruct (decide (c = c /\ c < r < r + 1)); [reflexivity|lia].
      * rewrite Hco2.
        destruct (decide (j = c /\ c < i < r)), (decide (j = c /\ c < i < r + 1));
          try reflexivity; lia.
    + exists m2. split; [exact Hrun2|].
      split; [assumption|]. split; [assumption|]. split; [assumption|].
      intros i j. rewrite Hco2, Hco1.
      replace (c + 1 + Z.of_nat (Z.to_nat (Z.of_nat (rows m1) - (c + 1))))
        with (Z.of_nat (rows m)) by lia.
      destruct (decide (j = c /\ c < i < Z.of_nat (rows m))),
        (decide (0 <= j < i /\ i < Z.of_nat (rows m) /\ j < c)),
        (decide (0 <= j < i /\ i < Z.of_nat (rows m) /\ j < c + 1));
        try reflexivity; lia.
  - exists m'. split; [exact Hrun|].
    split; [assumption|]. split; [assumption|]. split; [assumption|].
    intros r c. rewrite Hco'.
    destruct (decide (0 <= c < r /\ r < Z.of_nat (rows m) /\ c < 0 + Z.of_nat (cols m))),
      (decide (0 <= c < r /\ r < Z.of_nat (rows m))); try reflexivity; lia.
Qed.


(** The value stored at the offsets [(i, j)], [i <= j], of the 4 x 4 block
    of a segment and axis. *)
Definition cost_coef (t_span : list T) (w : T) (i j : Z) : T :=
  match i, j with
  | 0, 0 => (lit 400 7 * arr t_span 7 * w)%D
  | 0, 1 => (f_of_Z 40 * arr t_span 6 * w)%D
  | 0, 2 => (lit 120 5 * arr t_span 5 * w)%D
  | 0, 3 => (f_of_Z 10 * arr t_span 4 * w)%D
  | 1, 1 => (lit 144 5 * arr t_span 5 * w)%D
  | 1, 2 => (f_of_Z 18 * arr t_span 4 * w)%D
  | 1, 3 => (f_of_Z 8 * arr t_span 3 * w)%D
  | 2, 2 => (f_of_Z 12 * arr t_span 3 * w)%D
  | 2, 3 => (f_of_Z 6 * arr t_span 2 * w)%D
  | 3, 3 => (f_of_Z 4 * arr t_span 1 * w)%D
  | _, _ => fzero
  end.

(** Block [b] of the matrix belongs to segment [b / 2] and axis [b mod 2]. *)
Definition block_entry (sc : SplineContainer T) (weight : Vector2d T)
    (b i j : Z) : T :=
  match splines_ sc !! Z.to_nat (b / 2) with
  | Some s => cost_coef (cache_exponents 10 (duration_ s))
                (at_dim weight (if b mod 2 =? 0 then X else Y)) i j
  | None => fzero
  end.

(** The upper triangle once the first [nb] blocks are filled. *)
Definition upper (sc : SplineContainer T) (weight : Vector2d T)
    (nb r c : Z) : T :=
  if decide (r / 4 = c / 4 /\ r / 4 < nb)
  then block_entry sc weight (r / 4) (r mod 4) (c mod 4)
  else fzero.

Lemma upper_at_block sc weight s (k : nat) dim i j :
  splines_ sc !! k = Some s -> 0 <= i <= 3 -> 0 <= j <= 3 ->
  upper sc weight (2 * Z.of_nat k + dim_int dim + 1)
    (8 * Z.of_nat k + 4 * dim_int dim + i)
    (8 * Z.of_nat k + 4 * dim_int dim + j)
  = cost_coef (cache_exponents 10 (duration_ s)) (at_dim weight dim) i j.
Proof.
  intros Hs Hi Hj. unfold upper, block_entry.
  assert (Hd : 0 <= dim_int dim <= 1) by (destruct dim; simpl; lia).
  set (r := 8 * Z.of_nat k + 4 * dim_int dim + i).
  set (c := 8 * Z.of_nat k + 4 * dim_int dim + j).
  assert (Hr4 : r / 4 = 2 * Z.of_nat k + dim_int dim).
  { subst r. symmetry. apply (Z.div_unique _ 4 _ i); lia. }
  assert (Hc4 : c / 4 = 2 * Z.of_nat k + dim_int dim).
  { subst c. symmetry. apply (Z.div_unique _ 4 _ j); lia. }
  assert (Hrm : r mod 4 = i).
  { subst r. symmetry.
    apply (Z.mod_unique _ 4 (2 * Z.of_nat k + dim_int dim)); lia. }
  assert (Hcm : c mod 4 = j).
  { subst c. symmetry.
    apply (Z.mod_unique _ 4 (2 * Z.of_nat k + dim_int dim)); lia. }
  rewrite Hr4, Hc4, Hrm, Hcm.
  destruct (decide _) as [_|Hn]; [|lia].
  assert (Hb2 : (2 * Z.of_nat k + dim_int dim) / 2 = Z.of_nat k).
  { symmetry. apply (Z.div_unique _ 2 _ (dim_int dim)); lia. }
  assert (Hbm : (2 * Z.of_nat k + dim_int dim) mod 2 = dim_int dim).
  { symmetry. apply (Z.mod_unique _ 2 (Z.of_nat k)); lia. }
  rewrite Hb2, Hbm, Nat2Z.id, Hs.
  destruct dim; reflexivity.
Qed.

Lemma upper_other sc weight nb r c :
  ~ (r / 4 = nb /\ c / 4 = nb) ->
  upper sc weight (nb + 1) r c = upper sc weight nb r c.
Proof.
  intros Hne. unfold upper.
  destruct (decide (r / 4 = c / 4 /\ r / 4 < nb + 1)),
    (decide (r / 4 = c / 4 /\ r / 4 < nb)); try reflexivity; lia.
Qed.

Ltac mset_step :=
  match goal with
  | Hwf : wf_matrix ?m |- context [mset ?m ?r ?c ?x] =>
      let m' := fresh "m" in
      let Hwf' := fresh "Hwf" in
      let Hr := fresh "Hrows" in
      let Hc := fresh "Hcols" in
      let Hco := fresh "Hco" in
      destruct (mset_Ok m r c x Hwf) as (m' & -> & Hwf' & Hr & Hc & Hco);
      [lia | lia | cbn [mbind result_bind]; clear Hwf]
  end.

Lemma cost_block_Ok sc weight s (k : nat) dim (m : MatrixXd T) :
  splines_ sc !! k = Some s -> id_ s = Z.of_nat k ->
  wf_matrix m ->
  Z.of_nat (rows m) = GetOptCoeffCount sc ->
  Z.of_nat (cols m) = GetOptCoeffCount sc ->
  (forall r c, 0 <= r <= c -> c < GetOptCoeffCount sc ->
     coeff m r c = upper sc weight (2 * Z.of_nat k + dim_int dim) r c) ->
  exists m', cost_block weight s dim m = Ok m' /\ wf_matrix m' /\
    rows m' = rows m /\ cols m' = cols m /\
    (forall r c, 0 <= r <= c -> c < GetOptCoeffCount sc ->
       coeff m' r c = upper sc weight (2 * Z.of_nat k + dim_int dim + 1) r c) /\
    (forall r c, 0 <= c < r -> r < GetOptCoeffCount sc ->
       coeff m' r c = coeff m' c r).
Proof.
  intros Hs Hid Hwf Hrows Hcols Hup.
  pose proof (lookup_lt_Some _ _ _ Hs) as Hk.
  assert (Hd : 0 <= dim_int dim <= 1) by (destruct dim; simpl; lia).
  unfold GetOptCoeffCount, kOptCoeff, kDim2d in *.
  unfold cost_block, var_index, kOptCoeff, kDim2d. rewrite Hid.
  cbn [coeff_int].
  set (ts := cache_exponents 10 (duration_ s)).
  set (w := at_dim weight dim).
  set (a := 4 * 2 * Z.of_nat k + 4 * dim_int dim) in *.
  do 10 mset_step. subst a.
  destruct (mirror_Ok m9 Hwf) as (m' & -> & Hwf' & Hr' & Hc' & Hco');
    [lia|].
  exists m'. split; [reflexivity|]. split; [assumption|].
  split; [lia|]. split; [lia|].
  assert (Hfin : forall r c, 0 <= r <= c -> c < Z.of_nat (length (splines_ sc)) * 4 * 2 ->
            coeff m9 r c = upper sc weight (2 * Z.of_nat k + dim_int dim + 1) r c).
  { intros r c Hrc Hc.
    rewrite Hco8, Hco7, Hco6, Hco5, Hco4, Hco3, Hco2, Hco1, Hco0, Hco.
    destruct (decide (r / 4 = 2 * Z.of_nat k + dim_int dim /\
                      c / 4 = 2 * Z.of_nat k + dim_int dim)) as [[Hr4 Hc4]|Hne].
    - pose proof (Z.div_mod r 4 ltac:(lia)) as Hr.
      pose proof (Z.div_mod c 4 ltac:(lia)) as Hcc.
      pose proof (Z.mod_pos_bound r 4 ltac:(lia)) as Hrb.
      pose proof (Z.mod_pos_bound c 4 ltac:(lia)) as Hcb.
      rewrite Hr4 in Hr. rewrite Hc4 in Hcc.
      set (i := r mod 4) in *. set (j := c mod 4) in *.
      assert (Hr_eq : r = 8 * Z.of_nat k + 4 * dim_int dim + i) by lia.
      assert (Hc_eq : c = 8 * Z.of_nat k + 4 * dim_int dim + j) by lia.
      pose proof (upper_at_block sc weight s k dim i j Hs ltac:(lia) ltac:(lia))
        as Hu.
      rewrite <- Hr_eq, <- Hc_eq in Hu. rewrite Hu. clear Hu.
      assert (Hi : i = 0 \/ i = 1 \/ i = 2 \/ i = 3) by lia.
      assert (Hj : j = 0 \/ j = 1 \/ j = 2 \/ j = 3) by lia.
      destruct Hi as [Hi|[Hi|[Hi|Hi]]], Hj as [Hj|[Hj|[Hj|Hj]]];
        rewrite Hi, Hj in *; try lia;
        repeat (destruct (decide _) as [?|?]; [try lia|try lia]);
        reflexivity.
    - rewrite upper_other by assumption. rewrite <- Hup by lia.
      repeat (destruct (decide _) as [[? ?]|?];
        [exfalso; apply Hne; split; symmetry;
           [apply (Z.div_unique r 4 _ (r - 4 * (2 * Z.of_nat k + dim_int dim)))
           |apply (Z.div_unique c 4 _ (c - 4 * (2 * Z.of_nat k + dim_int dim)))];
           lia|]).
      reflexivity. }
  split.
  - intros r c Hrc Hc. rewrite Hco'.
    destruct (decide _); [lia|]. apply Hfin; assumption.
  - intros r c Hrc Hr. rewrite !Hco'.
    destruct (decide (0 <= c < r /\ r < Z.of_nat (rows m9))); [|lia].
    destruct (decide (0 <= r < c /\ c < Z.of_nat (rows m9))); [lia|].
    reflexivity.
Qed.


Lemma wf_splines_prefix (sc : SplineContainer T) done s rest :
  wf_splines sc -> splines_ sc = done ++ s :: rest ->
  splines_ sc !! length done = Some s /\ id_ s = Z.of_nat (length done).
Proof.
  intros Hwf Heq.
  assert (Hs : splines_ sc !! length done = Some s).
  { rewrite Heq. rewrite lookup_app_r by lia.
    rewrite Nat.sub_diag. reflexivity. }
  split; [assumption|]. eapply wf_splines_lookup; eassumption.
Qed.

Lemma MatVec_new_Ok r c :
  0 <= r -> 0 <= c ->
  exists mv : MatVec T, MatVec_new r c = Ok mv /\ wf_matrix (M mv) /\
    rows (M mv) = Z.to_nat r /\ cols (M mv) = Z.to_nat c /\
    length (v mv) = Z.to_nat c /\
    (forall i j, coeff (M mv) i j = fzero) /\ (forall j, vcoeff (v mv) j = fzero).
Proof.
  intros Hr Hc. unfold MatVec_new.
  destruct (MatrixXd_Zero_Ok r c Hr Hc) as (m & -> & Hwf & Hrm & Hcm & Hz).
  destruct (VectorXd_Zero_Ok c Hc) as (u & -> & Hlu & Hzu).
  eexists. split; [reflexivity|]. simpl. auto 10.
Qed.

(** What [CreateMinAccCostFunction] builds, entry by entry. *)
Lemma CreateMinAccCostFunction_entries (sc : SplineContainer T) weight :
  wf_splines sc ->
  exists cf, CreateMinAccCostFunction sc weight = Ok cf /\
    wf_matrix (M cf) /\
    Z.of_nat (rows (M cf)) = GetOptCoeffCount sc /\
    Z.of_nat (cols (M cf)) = GetOptCoeffCount sc /\
    (forall r c, 0 <= r <= c -> c < GetOptCoeffCount sc ->
       coeff (M cf) r c
       = upper sc weight (2 * Z.of_nat (length (splines_ sc))) r c) /\
    (forall r c, 0 <= c < r -> r < GetOptCoeffCount sc ->
       coeff (M cf) r c = coeff (M cf) c r) /\
    length (v cf) = Z.to_nat (GetOptCoeffCount sc) /\
    (forall j, vcoeff (v cf) j = fzero).
Proof.
  intros Hwfs. unfold CreateMinAccCostFunction.
  assert (Hn : 0 <= GetOptCoeffCount sc).
  { unfold GetOptCoeffCount, kOptCoeff, kDim2d. lia. }
  destruct (MatVec_new_Ok (GetOptCoeffCount sc) (GetOptCoeffCount sc) Hn Hn)
    as (cf0 & -> & Hwf0 & Hr0 & Hc0 & Hlv & Hz & Hzv).
  cbn [mbind result_bind].
  pose (I := fun (nb : Z) (m : MatrixXd T) =>
    wf_matrix m /\ Z.of_nat (rows m) = GetOptCoeffCount sc /\
    Z.of_nat (cols m) = GetOptCoeffCount sc /\
    (forall r c, 0 <= r <= c -> c < GetOptCoeffCount sc ->
       coeff m r c = upper sc weight nb r c) /\
    (forall r c, 0 <= c < r -> r < GetOptCoeffCount sc ->
       coeff m r c = coeff m c r)).
  destruct (for_each_inv (fun done => I (2 * Z.of_nat (length done)))
    (splines_ sc)
    (fun s m => for_each [X; Y] (cost_block weight s) m) (M cf0))
    as (m & -> & Hwf & Hr & Hc & Hup & Hsym).
  - unfold I. split; [assumption|]. split; [lia|]. split; [lia|]. split.
    + intros r c Hrc _. rewrite Hz. unfold upper.
      destruct (decide _) as [[_ Hlt]|_]; [|reflexivity].
      exfalso. pose proof (Z.div_pos r 4 ltac:(lia) ltac:(lia)).
      simpl in Hlt. lia.
    + intros r c _ _. rewrite !Hz. reflexivity.
  - intros done s m [rest Hsplit] (Hwf & Hr & Hc & Hup & Hsym).
    destruct (wf_splines_prefix sc done s rest Hwfs Hsplit) as [Hs Hid].
    simpl.
    destruct (cost_block_Ok sc weight s (length done) X m Hs Hid Hwf Hr Hc)
      as (m1 & -> & Hwf1 & Hr1 & Hc1 & Hup1 & _).
    { intros r c Hrc Hlt. rewrite Hup by assumption.
      unfold dim_int. rewrite Z.add_0_r. reflexivity. }
    cbn [mbind result_bind].
    destruct (cost_block_Ok sc weight s (length done) Y m1 Hs Hid Hwf1)
      as (m2 & -> & Hwf2 & Hr2 & Hc2 & Hup2 & Hsym2); [lia|lia| |].
    { intros r c Hrc Hlt. rewrite Hup1 by assumption.
      unfold dim_int. rewrite Z.add_0_r. reflexivity. }
    cbn [mbind result_bind].
    exists m2. split; [reflexivity|].
    split; [assumption|]. split; [lia|]. split; [lia|]. split; [|assumption].
    intros r c Hrc Hlt. rewrite Hup2 by assumption.
    rewrite length_app. unfold dim_int.
    replace (2 * Z.of_nat (length done + length [s])) with
      (2 * Z.of_nat (length done) + 1 + 1); [reflexivity|].
    change (length [s]) with 1%nat. lia.
  - cbn [mbind result_bind]. eexists. split; [reflexivity|]. simpl.
    auto 10.
Qed.

End CostFunctionFacts.

(** ** Boundary propagation: [DescribeEByPrev], [DescribeFByPrev] *)

Section Describe.
Context {T : Type} `{Double T}.

(** Modelled from the spec: the accumulation [u(i) += x] on an
    "out_linear_combination"; an index outside the vector leaves it as it
    is. *)
Definition vbump (u : VectorXd T) (i : Z) (x : T) : VectorXd T :=
  if 0 <=? i then alter (fun y => y + x)%D (Z.to_nat i) u else u.

(** Modelled from the spec: the step from the derived coefficients of the
    segment [s] to those of its successor, "segment k's E,F depend on segment
    k-1's full polynomial evaluated at its own duration":
    [E' = p_s'(duration)] and [F' = p_s(duration)], each a linear combination
    of the free coefficients and a constant. *)
Definition continue_EF (s : ZmpSpline T) (dim : Coords)
    (EF : (VectorXd T * T) * (VectorXd T * T))
  : (VectorXd T * T) * (VectorXd T * T) :=
  let '((Ek, e0), (Fk, f0)) := EF in
  let t := cache_exponents 6 (duration_ s) in
  let ix k := var_index (id_ s) (dim_int dim) (coeff_int k) in
  let Ek' :=
    vbump (vbump (vbump (vbump Ek
      (ix A) (f_of_Z 5 * arr t 4)%D) (ix B) (f_of_Z 4 * arr t 3)%D)
      (ix C) (f_of_Z 3 * arr t 2)%D) (ix D) (f_of_Z 2 * arr t 1)%D in
  let Fk' :=
    vbump (vbump (vbump (vbump (zip_with fadd Fk (vscale_r Ek (arr t 1)))
      (ix A) (arr t 5)) (ix B) (arr t 4)) (ix C) (arr t 3)) (ix D) (arr t 2) in
  ((Ek', e0), (Fk', (f0 + e0 * arr t 1)%D)).

(** Modelled from the spec: the descriptions of E and F of the segment [k],
    from the initial state through the preceding segments; "these two
    derivations are recursive". *)
Definition describe_EF (sc : SplineContainer T) (k : Z) (dim : Coords)
    (start_v start_p : T) : (VectorXd T * T) * (VectorXd T * T) :=
  let zero := replicate (Z.to_nat (GetOptCoeffCount sc)) fzero in
  fold_left (fun EF s => continue_EF s dim EF)
    (take (Z.to_nat k) (splines_ sc)) ((zero, start_v), (zero, start_p)).

(** Modelled from the spec: [DescribeEByPrev], "describeVelocityContinuation
    (segment_id, axis, initial_velocity, out_linear_combination,
    out_constant)", "a sparse linear combination over all preceding free
    coefficients plus a scalar constant, representing E as an affine
    function of earlier state"; "segment k's E,F depend on segment k-1's
    full polynomial evaluated at its own duration". *)
Definition DescribeEByPrev (sc : SplineContainer T) (k : Z) (dim : Coords)
    (start_v : T) : VectorXd T * T :=
  fst (describe_EF sc k dim start_v fzero).

(** Modelled from the spec: [DescribeFByPrev], "the position analogue" of
    [DescribeEByPrev]. *)
Definition DescribeFByPrev (sc : SplineContainer T) (k : Z) (dim : Coords)
    (start_v start_p : T) : VectorXd T * T :=
  snd (describe_EF sc k dim start_v start_p).

Lemma length_vbump (u : VectorXd T) i x : length (vbump u i x) = length u.
Proof. unfold vbump. destruct (0 <=? i); [apply length_alter|reflexivity]. Qed.

Lemma length_continue_EF s dim (EF : (VectorXd T * T) * (VectorXd T * T)) n :
  length (fst (fst EF)) = n -> length (fst (snd EF)) = n ->
  length (fst (fst (continue_EF s dim EF))) = n /\
  length (fst (snd (continue_EF s dim EF))) = n.
Proof.
  destruct EF as [[Ek e0] [Fk f0]]. simpl. intros HE HF.
  rewrite !length_vbump. split; [assumption|].
  rewrite length_zip_with. unfold vscale_r. rewrite length_fmap. lia.
Qed.

Lemma length_describe_EF sc k dim start_v start_p :
  length (fst (fst (describe_EF sc k dim start_v start_p)))
  = Z.to_nat (GetOptCoeffCount sc) /\
  length (fst (snd (describe_EF sc k dim start_v start_p)))
  = Z.to_nat (GetOptCoeffCount sc).
Proof.
  unfold describe_EF.
  generalize (take (Z.to_nat k) (splines_ sc)) as l.
  assert (Hgen : forall (l : list (ZmpSpline T)) EF,
    length (fst (fst EF)) = Z.to_nat (GetOptCoeffCount sc) ->
    length (fst (snd EF)) = Z.to_nat (GetOptCoeffCount sc) ->
    length (fst (fst (fold_left (fun EF s => continue_EF s dim EF) l EF)))
    = Z.to_nat (GetOptCoeffCount sc) /\
    length (fst (snd (fold_left (fun EF s => continue_EF s dim EF) l EF)))
    = Z.to_nat (GetOptCoeffCount sc)).
  { induction l as [|s l IH]; intros EF HE HF; simpl; [auto|].
    destruct (length_continue_EF s dim EF _ HE HF). apply IH; assumption. }
  intros l. apply Hgen; simpl; apply length_replicate.
Qed.

Lemma length_DescribeEByPrev sc k dim start_v :
  length (fst (DescribeEByPrev sc k dim start_v))
  = Z.to_nat (GetOptCoeffCount sc).
Proof. apply length_describe_EF. Qed.

Lemma length_DescribeFByPrev sc k dim start_v start_p :
  length (fst (DescribeFByPrev sc k dim start_v start_p))
  = Z.to_nat (GetOptCoeffCount sc).
Proof. apply length_describe_EF. Qed.

End Describe.

(** ** The equality constraints: [CreateEqualityContraints] *)

Definition to_size_t (z : Z) : Z := z mod 2 ^ 64.
Definition to_int (z : Z) : Z := (z + 2 ^ 31) mod 2 ^ 32 - 2 ^ 31.

(** The number of constraints, as the code computes it: an [int] to which
    two [int] products and one [size_t] product are added. *)
Definition equality_constraint_count (size : nat) : Z :=
  let constraints := 0 in
  let constraints := to_int (constraints + kDim2d * 2) in
  let constraints := to_int (constraints + kDim2d * 3) in
  to_int (to_size_t (to_size_t constraints
                     + to_size_t (to_size_t (to_size_t (Z.of_nat size - 1)
                                             * kDim2d) * 2))).

Section EqualityConstraints.
Context {T : Type} `{Double T}.

(** Assignments to the members of a [MatVec]. *)
Definition set_M (ec : MatVec T) (r c : Z) (x : T) : result (MatVec T) :=
  m ← mset (M ec) r c x; Ok {| M := m; v := v ec |}.
Definition add_M_col (ec : MatVec T) (c : Z) (u : VectorXd T)
  : result (MatVec T) :=
  m ← mcol_add (M ec) c u; Ok {| M := m; v := v ec |}.
Definition set_v (ec : MatVec T) (i : Z) (x : T) : result (MatVec T) :=
  u ← vset (v ec) i x; Ok {| M := M ec; v := u |}.
Definition add_v (ec : MatVec T) (i : Z) (x : T) : result (MatVec T) :=
  u ← vadd_at (v ec) i x; Ok {| M := M ec; v := u |}.

Definition kAccStart : Vector2d T := (fzero, fzero).
Definition kJerkStart : Vector2d T := (fzero, fzero).
Definition kVelEnd : Vector2d T := (fzero, fzero).
Definition kAccEnd : Vector2d T := (fzero, fzero).

(** The body of the first loop over the axes: the initial and the final
    conditions.  The loop carries the matrices and the counter [i]. *)
Definition boundary_conditions (zmp_splines_ : SplineContainer T)
    (start_cog_p start_cog_v end_cog : Vector2d T) (dim : Coords)
    (st : MatVec T * Z) : result (MatVec T * Z) :=
  let '(ec, i) := st in
  let a := coeff_int A in let b := coeff_int B in
  let c_ := coeff_int C in let d_ := coeff_int D in
  (* acceleration set to zero *)
  let d := var_index 0 (dim_int dim) (coeff_int D) in
  ec ← set_M ec d i (f_of_Z 2);
  ec ← set_v ec i (- at_dim kAccStart dim)%D;
  let i := i + 1 in
  (* jerk set to zero *)
  let c := var_index 0 (dim_int dim) (coeff_int C) in
  ec ← set_M ec c i (f_of_Z 6);
  ec ← set_v ec i (- at_dim kJerkStart dim)%D;
  let i := i + 1 in
  (* 2. Final conditions *)
  match last (splines_ zmp_splines_) with
  | None => Throw undefined
  | Some back =>
      let K := id_ back in
      let last_spline := var_index K (dim_int dim) (coeff_int A) in
      let t_duration := cache_exponents 6 (duration_ back) in
      let '(Ek, non_dependent_e) :=
        DescribeEByPrev zmp_splines_ K dim (at_dim start_cog_v dim) in
      let '(Fk, non_dependent_f) :=
        DescribeFByPrev zmp_splines_ K dim (at_dim start_cog_v dim)
          (at_dim start_cog_p dim) in
      (* position *)
      ec ← set_M ec (last_spline + a) i (arr t_duration 5);
      ec ← set_M ec (last_spline + b) i (arr t_duration 4);
      ec ← set_M ec (last_spline + c_) i (arr t_duration 3);
      ec ← set_M ec (last_spline + d_) i (arr t_duration 2);
      ec ← add_M_col ec i (vscale_r Ek (arr t_duration 1));
      ec ← add_M_col ec i Fk;
      ec ← add_v ec i (non_dependent_e * arr t_duration 1 + non_dependent_f)%D;
      ec ← add_v ec i (- at_dim end_cog dim)%D;
      let i := i + 1 in
      (* velocities *)
      ec ← set_M ec (last_spline + a) i (f_of_Z 5 * arr t_duration 4)%D;
      ec ← set_M ec (last_spline + b) i (f_of_Z 4 * arr t_duration 3)%D;
      ec ← set_M ec (last_spline + c_) i (f_of_Z 3 * arr t_duration 2)%D;
      ec ← set_M ec (last_spline + d_) i (f_of_Z 2 * arr t_duration 1)%D;
      ec ← add_M_col ec i Ek;
      ec ← add_v ec i non_dependent_e;
      ec ← add_v ec i (- at_dim kVelEnd dim)%D;
      let i := i + 1 in
      (* accelerations *)
      ec ← set_M ec (last_spline + a) i (f_of_Z 20 * arr t_duration 3)%D;
      ec ← set_M ec (last_spline + b) i (f_of_Z 12 * arr t_duration 2)%D;
      ec ← set_M ec (last_spline + c_) i (f_of_Z 6 * arr t_duration 1)%D;
      ec ← set_M ec (last_spline + d_) i (f_of_Z 2);
      ec ← set_v ec i (- at_dim kAccEnd dim)%D;
      Ok (ec, i + 1)
  end.

(** The body of the loop over the junctions, for the axis [dim]. *)
Definition junction_conditions (t_duration : list T) (s : Z) (dim : Coords)
    (st : MatVec T * Z) : result (MatVec T * Z) :=
  let '(ec, i) := st in
  let a := coeff_int A in let b := coeff_int B in
  let c_ := coeff_int C in let d_ := coeff_int D in
  let curr_spline := var_index s (dim_int dim) (coeff_int A) in
  let next_spline := var_index (s + 1) (dim_int dim) (coeff_int A) in
  (* acceleration *)
  ec ← set_M ec (curr_spline + a) i (f_of_Z 20 * arr t_duration 3)%D;
  ec ← set_M ec (curr_spline + b) i (f_of_Z 12 * arr t_duration 2)%D;
  ec ← set_M ec (curr_spline + c_) i (f_of_Z 6 * arr t_duration 1)%D;
  ec ← set_M ec (curr_spline + d_) i (f_of_Z 2);
  ec ← set_M ec (next_spline + d_) i (- f_of_Z 2)%D;
  ec ← set_v ec i fzero;
  let i := i + 1 in
  (* jerk (derivative of acceleration) *)
  ec ← set_M ec (curr_spline + a) i (f_of_Z 60 * arr t_duration 2)%D;
  ec ← set_M ec (curr_spline + b) i (f_of_Z 24 * arr t_duration 1)%D;
  ec ← set_M ec (curr_spline + c_) i (f_of_Z 6);
  ec ← set_M ec (next_spline + c_) i (- f_of_Z 6)%D;
  ec ← set_v ec i fzero;
  Ok (ec, i + 1).

(** The builder, with the final value of its counter of constraints. *)
Definition CreateEqualityContraints_counted (zmp_splines_ : SplineContainer T)
    (start_cog_p start_cog_v end_cog : Vector2d T) : result (MatVec T * Z) :=
  let coeff := GetOptCoeffCount zmp_splines_ in
  let constraints :=
    equality_constraint_count (length (splines_ zmp_splines_)) in
  ec ← MatVec_new coeff constraints;
  st ← for_each [X; Y]
         (boundary_conditions zmp_splines_ start_cog_p start_cog_v end_cog)
         (ec, 0);
  (* 3. Equal conditions at spline junctions *)
  for_range (Z.to_nat (to_size_t (Z.of_nat (length (splines_ zmp_splines_)) - 1)))
    0 (fun s st =>
      match splines_ zmp_splines_ !! Z.to_nat s with
      | None => Throw out_of_range
      | Some sp =>
          let t_duration := cache_exponents 6 (duration_ sp) in
          for_each [X; Y] (junction_conditions t_duration s) st
      end) st.

Definition CreateEqualityContraints (zmp_splines_ : SplineContainer T)
    (start_cog_p start_cog_v end_cog : Vector2d T) : result (MatVec T) :=
  st ← CreateEqualityContraints_counted zmp_splines_
         start_cog_p start_cog_v end_cog;
  Ok (fst st).

End EqualityConstraints.

Lemma equality_constraint_count_small (size : nat) :
  (1 <= size)%nat -> 4 * Z.of_nat size + 6 <= INT_MAX ->
  equality_constraint_count size = 2 * 2 + 3 * 2 + 2 * 2 * (Z.of_nat size - 1).
Proof.
  intros Hpos Hmax. unfold INT_MAX in Hmax.
  unfold equality_constraint_count, to_int, to_size_t, kDim2d.
  change ((0 + 2 * 2 + 2 ^ 31) mod 2 ^ 32 - 2 ^ 31) with 4.
  change ((4 + 2 * 3 + 2 ^ 31) mod 2 ^ 32 - 2 ^ 31) with 10.
  change (10 mod 2 ^ 64) with 10.
  rewrite (Z.mod_small (Z.of_nat size - 1)) by lia.
  rewrite (Z.mod_small ((Z.of_nat size - 1) * 2)) by lia.
  rewrite (Z.mod_small ((Z.of_nat size - 1) * 2 * 2)) by lia.
  rewrite (Z.mod_small (10 + (Z.of_nat size - 1) * 2 * 2)) by lia.
  rewrite (Z.mod_small (10 + (Z.of_nat size - 1) * 2 * 2 + 2 ^ 31)) by lia.
  lia.
Qed.

Section EqualityConstraintsFacts.
Context {T : Type} `{Double T}.

(** The sizes of a [MatVec]: [nr] coefficients, [nc] constraints. *)
Definition shape (nr nc : nat) (ec : MatVec T) : Prop :=
  wf_matrix (M ec) /\ rows (M ec) = nr /\ cols (M ec) = nc /\
  length (v ec) = nc.

Lemma set_M_shape nr nc ec r c x :
  shape nr nc ec -> 0 <= r < Z.of_nat nr -> 0 <= c < Z.of_nat nc ->
  exists ec', set_M ec r c x = Ok ec' /\ shape nr nc ec'.
Proof.
  intros (Hwf & Hr & Hc & Hv) Hrr Hcc. unfold set_M.
  destruct (mset_Ok (M ec) r c x Hwf) as (m' & -> & Hwf' & Hr' & Hc' & _);
    [lia..|].
  eexists. split; [reflexivity|]. repeat split; simpl; try apply Hwf'; lia.
Qed.

Lemma add_M_col_shape nr nc ec c (u : VectorXd T) :
  shape nr nc ec -> 0 <= c < Z.of_nat nc -> length u = nr ->
  exists ec', add_M_col ec c u = Ok ec' /\ shape nr nc ec'.
Proof.
  intros (Hwf & Hr & Hc & Hv) Hcc Hu. unfold add_M_col.
  destruct (mcol_add_Ok (M ec) c u Hwf) as (m' & -> & Hwf' & Hr' & Hc' & _);
    [lia..|].
  eexists. split; [reflexivity|]. repeat split; simpl; try apply Hwf'; lia.
Qed.

Lemma set_v_shape nr nc ec i x :
  shape nr nc ec -> 0 <= i < Z.of_nat nc ->
  exists ec', set_v ec i x = Ok ec' /\ shape nr nc ec'.
Proof.
  intros (Hwf & Hr & Hc & Hv) Hi. unfold set_v.
  destruct (vset_Ok (v ec) i x) as (u & -> & Hl & _); [lia|].
  eexists. split; [reflexivity|]. repeat split; simpl; try apply Hwf; lia.
Qed.

Lemma add_v_shape nr nc ec i x :
  shape nr nc ec -> 0 <= i < Z.of_nat nc ->
  exists ec', add_v ec i x = Ok ec' /\ shape nr nc ec'.
Proof.
  intros (Hwf & Hr & Hc & Hv) Hi. unfold add_v.
  destruct (vadd_at_Ok (v ec) i x) as (u & -> & Hl & _); [lia|].
  eexists. split; [reflexivity|]. repeat split; simpl; try apply Hwf; lia.
Qed.

Ltac shape_step :=
  let ec' := fresh "ec" in
  let Hsh' := fresh "Hsh" in
  match goal with
  | Hsh : shape ?nr ?nc ?ec |- context [set_M ?ec ?r ?c ?x] =>
      destruct (set_M_shape nr nc ec r c x Hsh) as (ec' & -> & Hsh');
      [lia | lia | clear Hsh; cbn [mbind result_bind]]
  | Hsh : shape ?nr ?nc ?ec |- context [add_M_col ?ec ?c ?u] =>
      destruct (add_M_col_shape nr nc ec c u Hsh) as (ec' & -> & Hsh');
      [lia | | clear Hsh; cbn [mbind result_bind]]
  | Hsh : shape ?nr ?nc ?ec |- context [set_v ?ec ?i ?x] =>
      destruct (set_v_shape nr nc ec i x Hsh) as (ec' & -> & Hsh');
      [lia | clear Hsh; cbn [mbind result_bind]]
  | Hsh : shape ?nr ?nc ?ec |- context [add_v ?ec ?i ?x] =>
      destruct (add_v_shape nr nc ec i x Hsh) as (ec' & -> & Hsh');
      [lia | clear Hsh; cbn [mbind result_bind]]
  end.

Lemma last_wf_splines (sc : SplineContainer T) :
  wf_splines sc -> splines_ sc <> [] ->
  exists back, last (splines_ sc) = Some back /\
    id_ back = Z.of_nat (length (splines_ sc)) - 1.
Proof.
  intros Hwf Hne. rewrite last_lookup.
  assert (Hlen : (0 < length (splines_ sc))%nat).
  { destruct (splines_ sc); [congruence|simpl; lia]. }
  destruct (lookup_lt_is_Some_2 (splines_ sc) (pred (length (splines_ sc))))
    as [back Hb]; [lia|].
  exists back. split; [assumption|].
  rewrite (wf_splines_lookup sc _ back Hwf Hb). lia.
Qed.

Lemma boundary_conditions_shape (sc : SplineContainer T)
    start_cog_p start_cog_v end_cog dim nc ec i :
  wf_splines sc -> splines_ sc <> [] ->
  shape (length (splines_ sc) * 8) nc ec ->
  0 <= i -> i + 5 <= Z.of_nat nc ->
  exists ec', boundary_conditions sc start_cog_p start_cog_v end_cog dim (ec, i)
              = Ok (ec', i + 5) /\
    shape (length (splines_ sc) * 8) nc ec'.
Proof.
  intros Hwf Hne Hsh Hi Hnc.
  destruct (last_wf_splines sc Hwf Hne) as (back & Hlast & Hid).
  assert (Hlen : (0 < length (splines_ sc))%nat).
  { destruct (splines_ sc); [congruence|simpl; lia]. }
  pose proof (dim_int_bounds dim) as Hd.
  unfold boundary_conditions. rewrite Hlast, Hid.
  pose proof (length_DescribeEByPrev sc (Z.of_nat (length (splines_ sc)) - 1)
                dim (at_dim start_cog_v dim)) as HlE.
  pose proof (length_DescribeFByPrev sc (Z.of_nat (length (splines_ sc)) - 1)
                dim (at_dim start_cog_v dim) (at_dim start_cog_p dim)) as HlF.
  destruct (DescribeEByPrev _ _ _ _) as [Ek e0].
  destruct (DescribeFByPrev _ _ _ _ _) as [Fk f0].
  simpl in HlE, HlF.
  unfold GetOptCoeffCount, kOptCoeff, kDim2d in HlE, HlF.
  unfold var_index, kOptCoeff, kDim2d. cbn [coeff_int].
  do 8 shape_step.
  shape_step; [unfold vscale_r; rewrite length_fmap; lia|].
  shape_step; [lia|].
  do 6 shape_step.
  shape_step; [lia|].
  do 7 shape_step.
  match goal with Hsh' : shape _ _ ?e |- _ => exists e end.
  split; [|assumption].
  do 2 f_equal. lia.
Qed.

Lemma junction_conditions_shape (n : nat) t_duration s dim nc ec i :
  0 <= s -> s + 1 < Z.of_nat n ->
  shape (n * 8) nc ec ->
  0 <= i -> i + 2 <= Z.of_nat nc ->
  exists ec', junction_conditions t_duration s dim (ec, i) = Ok (ec', i + 2) /\
    shape (n * 8) nc ec'.
Proof.
  intros Hs Hs1 Hsh Hi Hnc.
  pose proof (dim_int_bounds dim) as Hd.
  unfold junction_conditions.
  unfold var_index, kOptCoeff, kDim2d. cbn [coeff_int].
  do 11 shape_step.
  match goal with Hsh' : shape _ _ ?e |- _ => exists e end.
  split; [|assumption].
  do 2 f_equal. lia.
Qed.

(** The builder returns, with as many columns as it counted constraints and
    every one of them visited. *)
Lemma CreateEqualityContraints_counted_Ok (sc : SplineContainer T)
    start_cog_p start_cog_v end_cog :
  wf_splines sc -> splines_ sc <> [] ->
  4 * Z.of_nat (length (splines_ sc)) + 6 <= INT_MAX ->
  exists ec, CreateEqualityContraints_counted sc start_cog_p start_cog_v end_cog
             = Ok (ec, 4 * Z.of_nat (length (splines_ sc)) + 6) /\
    shape (length (splines_ sc) * 8)
          (Z.to_nat (4 * Z.of_nat (length (splines_ sc)) + 6)) ec.
Proof.
  intros Hwf Hne Hmax.
  assert (Hlen : (1 <= length (splines_ sc))%nat).
  { destruct (splines_ sc); [congruence|simpl; lia]. }
  unfold CreateEqualityContraints_counted.
  rewrite equality_constraint_count_small by assumption.
  set (n := length (splines_ sc)) in *.
  destruct (MatVec_new_Ok (T := T) (GetOptCoeffCount sc)
              (2 * 2 + 3 * 2 + 2 * 2 * (Z.of_nat n - 1)))
    as (ec0 & -> & Hwf0 & Hr0 & Hc0 & Hv0 & _).
  { unfold GetOptCoeffCount, kOptCoeff, kDim2d. lia. }
  { lia. }
  cbn [mbind result_bind].
  set (nc := Z.to_nat (4 * Z.of_nat n + 6)).
  assert (Hsh0 : shape (n * 8) nc ec0).
  { unfold GetOptCoeffCount, kOptCoeff, kDim2d in Hr0. fold n in Hr0.
    repeat split; try apply Hwf0; subst nc; lia. }
  cbn [for_each].
  destruct (boundary_conditions_shape sc start_cog_p start_cog_v end_cog X
              nc ec0 0 Hwf Hne Hsh0) as (ec1 & -> & Hsh1); [lia|lia|].
  cbn [mbind result_bind].
  destruct (boundary_conditions_shape sc start_cog_p start_cog_v end_cog Y
              nc ec1 (0 + 5) Hwf Hne Hsh1) as (ec2 & -> & Hsh2); [lia|lia|].
  cbn [mbind result_bind].
  unfold to_size_t. rewrite Z.mod_small by (unfold INT_MAX in Hmax; lia).
  pose (I := fun (s : Z) (st : MatVec T * Z) =>
              snd st = 10 + 4 * s /\ shape (n * 8) nc (fst st)).
  match goal with
  | |- context [for_range ?k ?lo ?body ?st] =>
      destruct (for_range_inv I k lo body st) as ([ec i] & -> & Hi & Hsh)
  end.
  - split; simpl; [lia|assumption].
  - intros s [ec i] Hs [Hi Hsh]. simpl in Hi, Hsh. subst i.
    destruct (lookup_lt_is_Some_2 (splines_ sc) (Z.to_nat s)) as [sp ->];
      [fold n; lia|].
    cbn [for_each].
    destruct (junction_conditions_shape n (cache_exponents 6 (duration_ sp))
                s X nc ec (10 + 4 * s)) as (ec' & -> & Hsh');
      [lia|lia|assumption|lia|subst nc; lia|].
    cbn [mbind result_bind].
    destruct (junction_conditions_shape n (cache_exponents 6 (duration_ sp))
                s Y nc ec' (10 + 4 * s + 2)) as (ec'' & -> & Hsh'');
      [lia|lia|assumption|lia|subst nc; lia|].
    cbn [mbind result_bind].
    exists (ec'', 10 + 4 * s + 2 + 2). split; [reflexivity|].
    split; simpl; [lia|assumption].
  - simpl in Hi, Hsh. exists ec. split; [|assumption].
    do 2 f_equal. lia.
Qed.

End EqualityConstraintsFacts.

(** ** State and exceptions

    The methods that assign members of the optimizer run in a state and
    exception monad: an exception leaves the state as it was when thrown. *)

Definition run (St A : Type) : Type := St -> result A * St.

#[export] Instance run_ret {St} : MRet (run St) := fun A a s => (Ok a, s).
#[export] Instance run_bind {St} : MBind (run St) := fun A B f m s =>
  match m s with
  | (Ok a, s') => f a s'
  | (Throw e, s') => (Throw e, s')
  end.

Definition lift {St A} (r : result A) : run St A := fun s => (r, s).
Definition throw {St A} (e : exn) : run St A := fun s => (Throw e, s).
Definition gets {St A} (f : St -> A) : run St A := fun s => (Ok (f s), s).
Definition modify {St} (f : St -> St) : run St unit := fun s => (Ok tt, f s).

(** [for (x : l) body] and [for (double i = i0; i < bound; ++i) body]. *)
Fixpoint for_each_m {El A St} (l : list El) (body : El -> A -> run St A)
    (a : A) : run St A :=
  match l with
  | [] => mret a
  | x :: l' => a' ← body x a; for_each_m l' body a'
  end.

Fixpoint for_double `{Double T} {A St} (fuel : nat) (i bound : T)
    (body : T -> A -> run St A) (a : A) : run St A :=
  match fuel with
  | O => throw no_fuel
  | S fuel' =>
      if fltb i bound
      then a' ← body i a; for_double fuel' (i + fone)%D bound body a'
      else mret a
  end.

(** [m] run from [s] returns, and [Q] holds of what it returns and of the
    state it leaves. *)
Definition returns {St A} (m : run St A) (s : St) (Q : A -> St -> Prop) : Prop :=
  exists a s', m s = (Ok a, s') /\ Q a s'.

Lemma returns_bind {St A B} (m : run St A) (f : A -> run St B) s
    (Q' : A -> St -> Prop) (Q : B -> St -> Prop) :
  returns m s Q' ->
  (forall a s', Q' a s' -> returns (f a) s' Q) ->
  returns (m ≫= f) s Q.
Proof.
  intros (a & s' & Hm & HQ') Hf.
  destruct (Hf a s' HQ') as (b & s'' & Hfa & HQ).
  exists b, s''. split; [|assumption].
  unfold mbind, run_bind. rewrite Hm. assumption.
Qed.

Lemma returns_ret {St A} (a : A) (s : St) (Q : A -> St -> Prop) :
  Q a s -> returns (mret a) s Q.
Proof. intros HQ. exists a, s. split; [reflexivity|assumption]. Qed.

Lemma returns_lift {St A} (r : result A) (a : A) (s : St)
    (Q : A -> St -> Prop) :
  r = Ok a -> Q a s -> returns (lift r) s Q.
Proof. intros -> HQ. exists a, s. split; [reflexivity|assumption]. Qed.

Lemma returns_gets {St A} (f : St -> A) (s : St) (Q : A -> St -> Prop) :
  Q (f s) s -> returns (gets f) s Q.
Proof. intros HQ. exists (f s), s. split; [reflexivity|assumption]. Qed.

Lemma returns_modify {St} (f : St -> St) (s : St) (Q : unit -> St -> Prop) :
  Q tt (f s) -> returns (modify f) s Q.
Proof. intros HQ. exists tt, (f s). split; [reflexivity|assumption]. Qed.

Lemma returns_gets_bind {St A B} (f : St -> A) (k : A -> run St B) s
    (Q : B -> St -> Prop) :
  returns (k (f s)) s Q -> returns (gets f ≫= k) s Q.
Proof. intros Hk. exact Hk. Qed.

Lemma returns_lift_bind {St A B} (r : result A) (a : A) (k : A -> run St B) s
    (Q : B -> St -> Prop) :
  r = Ok a -> returns (k a) s Q -> returns (lift r ≫= k) s Q.
Proof. intros -> Hk. exact Hk. Qed.

Lemma returns_modify_bind {St B} (f : St -> St) (k : unit -> run St B) s
    (Q : B -> St -> Prop) :
  returns (k tt) (f s) Q -> returns (modify f ≫= k) s Q.
Proof. intros Hk. exact Hk. Qed.

Lemma returns_weaken {St A} (m : run St A) s (Q Q' : A -> St -> Prop) :
  returns m s Q -> (forall a s', Q a s' -> Q' a s') -> returns m s Q'.
Proof. intros (a & s' & Hm & HQ) Himp. exists a, s'. auto. Qed.

Lemma for_each_m_returns {El A St} (I : list El -> A -> St -> Prop)
    (l : list El) (body : El -> A -> run St A) (a : A) (s : St) :
  I [] a s ->
  (forall done x a0 s0, (exists rest, l = done ++ x :: rest) -> I done a0 s0 ->
     returns (body x a0) s0 (I (done ++ [x]))) ->
  returns (for_each_m l body a) s (I l).
Proof.
  intros H0 Hstep.
  assert (Hgen : forall done rest a0 s0, l = done ++ rest -> I done a0 s0 ->
             returns (for_each_m rest body a0) s0 (I l)).
  { intros done rest. revert done.
    induction rest as [|x rest IH]; intros done a0 s0 Hl HI.
    - rewrite app_nil_r in Hl. subst. apply returns_ret. assumption.
    - simpl. eapply returns_bind; [apply (Hstep done); eauto|].
      intros a1 s1 HI1. apply (IH (done ++ [x])); [|assumption].
      rewrite <- app_assoc. exact Hl. }
  apply (Hgen [] l a s); auto.
Qed.

(** ** The collaborators' data: namespace [xpp::hyq] *)

Module hyq.

Inductive LegID : Type := LF | RF | LH | RH.

(** Modelled from the spec: [LegIDArray], "one foothold per leg", the four
    legs that the optimizer names. *)
Definition LegIDArray : list LegID := [LF; RF; LH; RH].

(** A foothold: a position in space and the leg that stands on it. *)
Record Foothold (T : Type) : Type := { p : T * T * T; leg : LegID }.
Arguments p {T} _.
Arguments leg {T} _.

Definition LegDataMap (V : Type) : Type := LegID -> V.

Module SuppTriangle.

(** The line [p x + q y + r = 0] of an edge and its stability margin. *)
Record LineCoeff2d (T : Type) : Type := { p : T; q : T; r : T }.
Arguments p {T} _.
Arguments q {T} _.
Arguments r {T} _.

Record TrLine (T : Type) : Type := { coeff : LineCoeff2d T; s_margin : T }.
Arguments coeff {T} _.
Arguments s_margin {T} _.

(** The three edges of a triangle, [lines.at(0)] to [lines.at(2)]. *)
Definition TrLines3 (T : Type) : Type := TrLine T * TrLine T * TrLine T.

End SuppTriangle.

End hyq.

(** [p.segment<kDim2d>(X)]: the x and y components. *)
Definition segment_xy {T} (pos : T * T * T) : Vector2d T :=
  (fst (fst pos), snd (fst pos)).

(** ** The optimizer: [ZmpOptimizer] *)

Section ZmpOptimizer.
Context {T : Type} `{Double T}.

(** The collaborators, which are given and not modelled: the support
    triangles of a plan, the QP solver and the NLP solver. *)
Variable SuppTriangle : Type.
Variable CalcLines : SuppTriangle -> hyq.SuppTriangle.TrLines3 T.
Variable MarginValues : Type.
Variable FromFootholds :
  hyq.LegDataMap (hyq.Foothold T) -> list (hyq.Foothold T) -> MarginValues ->
  list SuppTriangle * hyq.LegDataMap (hyq.Foothold T).
Variable solve_quadprog :
  MatrixXd T -> VectorXd T -> MatrixXd T -> VectorXd T ->
  MatrixXd T -> VectorXd T -> binary64 * VectorXd T.

Record ZmpOptimizer : Type := {
  zmp_splines_ : SplineContainer T;
  cf_ : MatVec T;
  eq_ : MatVec T;
  ineq_ : MatVec T;
  footholds_ : list (hyq.Foothold T);
  lines_for_constraint_ : list (hyq.SuppTriangle.TrLine T);
  ineq_ipopt_ : MatrixXd T;
  ineq_ipopt_vx_ : VectorXd T;
  ineq_ipopt_vy_ : VectorXd T
}.

Definition set_cf_ (x : MatVec T) (o : ZmpOptimizer) : ZmpOptimizer :=
  {| zmp_splines_ := zmp_splines_ o; cf_ := x; eq_ := eq_ o; ineq_ := ineq_ o;
     footholds_ := footholds_ o;
     lines_for_constraint_ := lines_for_constraint_ o;
     ineq_ipopt_ := ineq_ipopt_ o; ineq_ipopt_vx_ := ineq_ipopt_vx_ o;
     ineq_ipopt_vy_ := ineq_ipopt_vy_ o |}.
Definition set_eq_ (x : MatVec T) (o : ZmpOptimizer) : ZmpOptimizer :=
  {| zmp_splines_ := zmp_splines_ o; cf_ := cf_ o; eq_ := x; ineq_ := ineq_ o;
     footholds_ := footholds_ o;
     lines_for_constraint_ := lines_for_constraint_ o;
     ineq_ipopt_ := ineq_ipopt_ o; ineq_ipopt_vx_ := ineq_ipopt_vx_ o;
     ineq_ipopt_vy_ := ineq_ipopt_vy_ o |}.
Definition set_ineq_ (x : MatVec T) (o : ZmpOptimizer) : ZmpOptimizer :=
  {| zmp_splines_ := zmp_splines_ o; cf_ := cf_ o; eq_ := eq_ o; ineq_ := x;
     footholds_ := footholds_ o;
     lines_for_constraint_ := lines_for_constraint_ o;
     ineq_ipopt_ := ineq_ipopt_ o; ineq_ipopt_vx_ := ineq_ipopt_vx_ o;
     ineq_ipopt_vy_ := ineq_ipopt_vy_ o |}.
Definition set_footholds_ (x : list (hyq.Foothold T)) (o : ZmpOptimizer)
  : ZmpOptimizer :=
  {| zmp_splines_ := zmp_splines_ o; cf_ := cf_ o; eq_ := eq_ o;
     ineq_ := ineq_ o; footholds_ := x;
     lines_for_constraint_ := lines_for_constraint_ o;
     ineq_ipopt_ := ineq_ipopt_ o; ineq_ipopt_vx_ := ineq_ipopt_vx_ o;
     ineq_ipopt_vy_ := ineq_ipopt_vy_ o |}.
Definition set_lines_for_constraint_ (x : list (hyq.SuppTriangle.TrLine T))
    (o : ZmpOptimizer) : ZmpOptimizer :=
  {| zmp_splines_ := zmp_splines_ o; cf_ := cf_ o; eq_ := eq_ o;
     ineq_ := ineq_ o; footholds_ := footholds_ o;
     lines_for_constraint_ := x;
     ineq_ipopt_ := ineq_ipopt_ o; ineq_ipopt_vx_ := ineq_ipopt_vx_ o;
     ineq_ipopt_vy_ := ineq_ipopt_vy_ o |}.
Definition set_ineq_ipopt_ (x : MatrixXd T) (o : ZmpOptimizer) : ZmpOptimizer :=
  {| zmp_splines_ := zmp_splines_ o; cf_ := cf_ o; eq_ := eq_ o;
     ineq_ := ineq_ o; footholds_ := footholds_ o;
     lines_for_constraint_ := lines_for_constraint_ o;
     ineq_ipopt_ := x; ineq_ipopt_vx_ := ineq_ipopt_vx_ o;
     ineq_ipopt_vy_ := ineq_ipopt_vy_ o |}.
Definition set_ineq_ipopt_vx_ (x : VectorXd T) (o : ZmpOptimizer)
  : ZmpOptimizer :=
  {| zmp_splines_ := zmp_splines_ o; cf_ := cf_ o; eq_ := eq_ o;
     ineq_ := ineq_ o; footholds_ := footholds_ o;
     lines_for_constraint_ := lines_for_constraint_ o;
     ineq_ipopt_ := ineq_ipopt_ o; ineq_ipopt_vx_ := x;
     ineq_ipopt_vy_ := ineq_ipopt_vy_ o |}.
Definition set_ineq_ipopt_vy_ (x : VectorXd T) (o : ZmpOptimizer)
  : ZmpOptimizer :=
  {| zmp_splines_ := zmp_splines_ o; cf_ := cf_ o; eq_ := eq_ o;
     ineq_ := ineq_ o; footholds_ := footholds_ o;
     lines_for_constraint_ := lines_for_constraint_ o;
     ineq_ipopt_ := ineq_ipopt_ o; ineq_ipopt_vx_ := ineq_ipopt_vx_ o;
     ineq_ipopt_vy_ := x |}.

(** *** [LineForConstraint] *)

(** [int n_nodes = std::floor(s.duration_/dt)] *)
Definition n_nodes (s : ZmpSpline T) (dt : T) : option Z :=
  f_to_int (ffloor (duration_ s / dt)%D).

Definition at_step (supp_triangles : list SuppTriangle) (step : Z)
  : result SuppTriangle :=
  if 0 <=? step
  then match supp_triangles !! Z.to_nat step with
       | Some tr => Ok tr
       | None => Throw out_of_range
       end
  else Throw out_of_range.

Definition LineForConstraint (sc : SplineContainer T)
    (supp_triangles : list SuppTriangle) (dt : T)
  : result (list (hyq.SuppTriangle.TrLine T)) :=
  for_each (splines_ sc) (fun s line_for_constraint =>
    if four_leg_supp_ s then Ok line_for_constraint  (* no constraints in 4ls phase *)
    else
      match n_nodes s dt with
      | None => Throw undefined
      | Some n_nodes =>
          tr ← at_step supp_triangles (step_ s);
          let '(l0, l1, l2) := CalcLines tr in
          for_range (Z.to_nat n_nodes) 0 (fun i line_for_constraint =>
            Ok (line_for_constraint ++ [l0; l1; l2])) line_for_constraint
      end) [].

(** *** [GetXyDimAlternatingVector] *)

(** [vec.middleRows(start, n) = block] *)
Definition set_middleRows (vec : VectorXd T) (start : Z) (block : VectorXd T)
  : result (VectorXd T) :=
  if (0 <=? start) && (start + Z.of_nat (length block) <=? Z.of_nat (length vec))
  then Ok (take (Z.to_nat start) vec ++ block
           ++ drop (Z.to_nat start + length block) vec)
  else Throw eigen_assert.

Definition GetXyDimAlternatingVector (sc : SplineContainer T) (x y : T)
  : result (VectorXd T) :=
  let x_abcd := replicate (Z.to_nat kOptCoeff) x in
  let y_abcd := replicate (Z.to_nat kOptCoeff) y in
  let coeff := Z.of_nat (length (splines_ sc)) * kOptCoeff * kDim2d in
  vec ← VectorXd_Zero coeff;
  for_each (splines_ sc) (fun s vec =>
    vec ← set_middleRows vec
            (var_index (id_ s) (dim_int X) (coeff_int A)) x_abcd;
    set_middleRows vec (var_index (id_ s) (dim_int Y) (coeff_int A)) y_abcd)
    vec.

(** *** [CreateInequalityContraints] *)

(** The gravity acceleration [g]. *)
Definition g : T := lit 981 100.

Definition set_ipopt (r c : Z) (x : T) : run ZmpOptimizer unit := fun o =>
  match mset (ineq_ipopt_ o) r c x with
  | Ok m => (Ok tt, set_ineq_ipopt_ m o)
  | Throw e => (Throw e, o)
  end.

Definition add_ipopt_col (c : Z) (u : VectorXd T) : run ZmpOptimizer unit :=
  fun o =>
  match mcol_add (ineq_ipopt_ o) c u with
  | Ok m => (Ok tt, set_ineq_ipopt_ m o)
  | Throw e => (Throw e, o)
  end.

Definition set_ipopt_vx (c : Z) (x : T) : run ZmpOptimizer unit := fun o =>
  match vset (ineq_ipopt_vx_ o) c x with
  | Ok u => (Ok tt, set_ineq_ipopt_vx_ u o)
  | Throw e => (Throw e, o)
  end.

Definition set_ipopt_vy (c : Z) (x : T) : run ZmpOptimizer unit := fun o =>
  match vset (ineq_ipopt_vy_ o) c x with
  | Ok u => (Ok tt, set_ineq_ipopt_vy_ u o)
  | Throw e => (Throw e, o)
  end.

(** The body of the loop over the axes, inside the loop over the edges:
    the coefficients of the ZMP on the axis [dim] at the time whose powers
    are [t], written to the column [c] of [ineq_ipopt_]. *)
Definition zmp_coefficients (k : Z) (h z_acc : T) (t : list T) (c : Z)
    (Ekx Fkx Eky Fky : VectorXd T) (dim : Coords) (_ : unit)
  : run ZmpOptimizer unit :=
  let Ek := match dim with X => Ekx | Y => Eky end in
  let Fk := match dim with X => Fkx | Y => Fky end in
  let ix letter := var_index k (dim_int dim) (coeff_int letter) in
  set_ipopt (ix A) c (arr t 5 - h / (g + z_acc) * f_of_Z 20 * arr t 3)%D;;
  set_ipopt (ix B) c (arr t 4 - h / (g + z_acc) * f_of_Z 12 * arr t 2)%D;;
  set_ipopt (ix C) c (arr t 3 - h / (g + z_acc) * f_of_Z 6 * arr t 1)%D;;
  set_ipopt (ix D) c (arr t 2 - h / (g + z_acc) * f_of_Z 2)%D;;
  add_ipopt_col c (vscale_l (arr t 1) Ek);;
  add_ipopt_col c (vscale_l (arr t 0) Fk).

(** The body of the loop over the three edges: one constraint.  The loop
    carries the matrices [ineq] and the counter [c]. *)
Definition zmp_constraint (line_for_constraint : list (hyq.SuppTriangle.TrLine T))
    (k : Z) (h : T) (t : list T) (Ekx Fkx Eky Fky : VectorXd T)
    (non_dependent_ex non_dependent_fx non_dependent_ey non_dependent_fy : T)
    (j : Z) (st : MatVec T * Z) : run ZmpOptimizer (MatVec T * Z) :=
  let '(ineq, c) := st in
  match line_for_constraint !! Z.to_nat c with
  | None => throw out_of_range
  | Some l =>
      let z_acc := fzero in
      for_each_m [X; Y] (zmp_coefficients k h z_acc t c Ekx Fkx Eky Fky) tt;;
      (* add the line coefficients *)
      sc ← gets zmp_splines_;
      line_coefficients_xy ←
        lift (GetXyDimAlternatingVector sc
                (hyq.SuppTriangle.p (hyq.SuppTriangle.coeff l))
                (hyq.SuppTriangle.q (hyq.SuppTriangle.coeff l)));
      ipopt ← gets ineq_ipopt_;
      col ← lift (mcol ipopt c);
      prod ← lift (cwiseProduct col line_coefficients_xy);
      ineq ← lift (m ← mcol_set (M ineq) c prod; Ok {| M := m; v := v ineq |});
      set_ipopt_vx c (non_dependent_ex * arr t 0 + non_dependent_fx)%D;;
      set_ipopt_vy c (non_dependent_ey * arr t 0 + non_dependent_fy)%D;;
      vx ← gets ineq_ipopt_vx_;
      vy ← gets ineq_ipopt_vy_;
      vxc ← lift (vget vx c);
      vyc ← lift (vget vy c);
      ineq ← lift (add_v ineq c
                     (hyq.SuppTriangle.p (hyq.SuppTriangle.coeff l) * vxc)%D);
      ineq ← lift (add_v ineq c
                     (hyq.SuppTriangle.q (hyq.SuppTriangle.coeff l) * vyc)%D);
      ineq ← lift (add_v ineq c
                     (hyq.SuppTriangle.r (hyq.SuppTriangle.coeff l)
                      - hyq.SuppTriangle.s_margin l)%D);
      mret (ineq, c + 1)
  end.

(** The body of the loop over the segments. *)
Definition segment_constraints (sc : SplineContainer T)
    (start_cog_p start_cog_v : Vector2d T)
    (line_for_constraint : list (hyq.SuppTriangle.TrLine T)) (h dt : T)
    (s : ZmpSpline T) (st : MatVec T * Z) : run ZmpOptimizer (MatVec T * Z) :=
  (* no constraints in 4ls phase *)
  if four_leg_supp_ s then mret st
  else
    (* calculate e and f coefficients from previous values *)
    let k := id_ s in
    let '(Ekx, non_dependent_ex) :=
      DescribeEByPrev sc k X (at_dim start_cog_v X) in
    let '(Fkx, non_dependent_fx) :=
      DescribeFByPrev sc k X (at_dim start_cog_v X) (at_dim start_cog_p X) in
    let '(Eky, non_dependent_ey) :=
      DescribeEByPrev sc k Y (at_dim start_cog_v Y) in
    let '(Fky, non_dependent_fy) :=
      DescribeFByPrev sc k Y (at_dim start_cog_v Y) (at_dim start_cog_p Y) in
    for_double (S (length line_for_constraint)) fzero
      (ffloor (duration_ s / dt)%D)
      (fun i st =>
         let time := (i * dt)%D in
         let t := cache_exponents 6 time in
         (* one constraint per line of support triangle *)
         for_each_m [0; 1; 2]
           (zmp_constraint line_for_constraint k h t Ekx Fkx Eky Fky
              non_dependent_ex non_dependent_fx
              non_dependent_ey non_dependent_fy) st) st.

(** The builder, with the final value of its counter of constraints. *)
Definition CreateInequalityContraints_counted
    (start_cog_p start_cog_v : Vector2d T)
    (line_for_constraint : list (hyq.SuppTriangle.TrLine T)) (h dt : T)
  : run ZmpOptimizer (MatVec T * Z) :=
  sc ← gets zmp_splines_;
  let coeff := GetOptCoeffCount sc in
  ineq ← lift (MatVec_new coeff (to_int (Z.of_nat (length line_for_constraint))));
  modify (set_ineq_ipopt_ (M ineq));;
  modify (set_ineq_ipopt_vx_ (v ineq));;
  modify (set_ineq_ipopt_vy_ (v ineq));;
  for_each_m (splines_ sc)
    (segment_constraints sc start_cog_p start_cog_v line_for_constraint h dt)
    (ineq, 0).

Definition CreateInequalityContraints (start_cog_p start_cog_v : Vector2d T)
    (line_for_constraint : list (hyq.SuppTriangle.TrLine T)) (h dt : T)
  : run ZmpOptimizer (MatVec T) :=
  st ← CreateInequalityContraints_counted start_cog_p start_cog_v
         line_for_constraint h dt;
  mret (fst st).

(** *** [SetupQpMatrices] *)

(** The average of the x and y positions of the last stance. *)
Definition average_stance (final_stance : hyq.LegDataMap (hyq.Foothold T))
  : Vector2d T :=
  let end_cog :=
    fold_left (fun (acc : Vector2d T) leg =>
                 let q := segment_xy (hyq.p (final_stance leg)) in
                 (fst acc + fst q, snd acc + snd q)%D)
      hyq.LegIDArray (fzero, fzero) in
  (fst end_cog / f_of_Z 4, snd end_cog / f_of_Z 4)%D.

Definition SetupQpMatrices (start_cog_p start_cog_v : Vector2d T)
    (start_stance : hyq.LegDataMap (hyq.Foothold T))
    (steps : list (hyq.Foothold T)) (weight : Vector2d T)
    (margins : MarginValues) (height_robot : T) : run ZmpOptimizer unit :=
  sc ← gets zmp_splines_;
  match splines_ sc with
  | [] => throw (runtime_error
      "zmp.optimizer.cc: spline_info vector empty. First call ConstructSplineSequence()")
  | _ :: _ =>
      cf ← lift (CreateMinAccCostFunction sc weight);
      modify (set_cf_ cf);;
      modify (set_footholds_ steps);;
      let '(tr, final_stance) := FromFootholds start_stance steps margins in
      (* calculate average(x,y) of last stance to move robot in the end *)
      let end_cog := average_stance final_stance in
      ec ← lift (CreateEqualityContraints sc start_cog_p start_cog_v end_cog);
      modify (set_eq_ ec);;
      let dt := lit 1 10 in
      lines ← lift (LineForConstraint sc tr dt);
      modify (set_lines_for_constraint_ lines);;
      lines ← gets lines_for_constraint_;
      ineq ← CreateInequalityContraints start_cog_p start_cog_v lines
               height_robot dt;
      modify (set_ineq_ ineq)
  end.

(** *** [SolveQp] *)

(** The literal [0.002] as a double. *)
Definition cost_threshold : binary64 := lit 2 1000.

Definition SolveQp : run ZmpOptimizer (VectorXd T) :=
  o ← gets (fun o => o);
  let '(cost, opt_spline_coeff_xy) :=
    solve_quadprog (M (cf_ o)) (v (cf_ o)) (M (eq_ o)) (v (eq_ o))
      (M (ineq_ o)) (v (ineq_ o)) in
  if SFeqb cost B64.infinity || SFltb cost cost_threshold
  then throw (length_error "Eigen::quadprog did not find a solution")
  else mret opt_spline_coeff_xy.

End ZmpOptimizer.

Arguments ZmpOptimizer T : clear implicits.

(** *** [SolveIpopt] *)

(** [Ipopt::ApplicationReturnStatus], by its integer value. *)
Definition ApplicationReturnStatus : Type := Z.
Definition Solve_Succeeded : ApplicationReturnStatus := 0.

Section SolveIpopt.
Context {T : Type} `{Double T}.

(** The NLP solver and the NLP object, which are given and not modelled:
    what [app.Initialize()] returns, the object that [SetupNlp] fills, and
    [app.OptimizeTNLP], which returns a status and leaves the results in the
    object.  The statistics that are printed after a successful solve are
    left out. *)
Variable NlpIpoptZmp : Type.
Variable x_final_footholds_ : NlpIpoptZmp -> VectorXd T.
Variable x_final_spline_coeff_ : NlpIpoptZmp -> VectorXd T.
Variable Initialize : ApplicationReturnStatus.
Variable SetupNlp :
  MatVec T -> MatVec T -> MatrixXd T -> VectorXd T -> VectorXd T ->
  list (hyq.SuppTriangle.TrLine T) -> ZmpOptimizer T -> VectorXd T ->
  NlpIpoptZmp.
Variable OptimizeTNLP : NlpIpoptZmp -> ApplicationReturnStatus * NlpIpoptZmp.

(** Returns the value that the C++ function assigns to its output
    parameter [final_footholds] and the vector that it returns. *)
Definition SolveIpopt (opt_coefficients_eig : VectorXd T)
  : run (ZmpOptimizer T) (VectorXd T * VectorXd T) :=
  let status := Initialize in
  if negb (status =? Solve_Succeeded)
  then throw (length_error "Ipopt could not initialize correctly")
  else
    o ← gets (fun o => o);
    let nlp_ipopt_zmp :=
      SetupNlp (cf_ o) (eq_ o) (ineq_ipopt_ o) (ineq_ipopt_vx_ o)
        (ineq_ipopt_vy_ o) (lines_for_constraint_ o) o opt_coefficients_eig in
    let '(status, nlp_ipopt_zmp) := OptimizeTNLP nlp_ipopt_zmp in
    let final_footholds := x_final_footholds_ nlp_ipopt_zmp in
    mret (final_footholds, x_final_spline_coeff_ nlp_ipopt_zmp).

End SolveIpopt.

(** *** What the inequality builder leaves alone *)

(** [m] does not change the part [f] of the state, whether it returns or
    throws. *)
Definition preserves {St A B} (f : St -> B) (m : run St A) : Prop :=
  forall s r s', m s = (r, s') -> f s' = f s.

Lemma preserves_ret {St A B} (f : St -> B) (a : A) : preserves f (mret a).
Proof. intros s r s' Heq. injection Heq as _ <-. reflexivity. Qed.

Lemma preserves_throw {St A B} (f : St -> B) e : preserves f (@throw St A e).
Proof. intros s r s' Heq. injection Heq as _ <-. reflexivity. Qed.

Lemma preserves_lift {St A B} (f : St -> B) (r0 : result A) :
  preserves f (lift r0).
Proof. intros s r s' Heq. injection Heq as _ <-. reflexivity. Qed.

Lemma preserves_gets {St A B} (f : St -> B) (g0 : St -> A) :
  preserves f (gets g0).
Proof. intros s r s' Heq. injection Heq as _ <-. reflexivity. Qed.

Lemma preserves_modify {St B} (f : St -> B) (g0 : St -> St) :
  (forall s, f (g0 s) = f s) -> preserves f (modify g0).
Proof. intros Hg s r s' Heq. injection Heq as _ <-. apply Hg. Qed.

Lemma preserves_bind {St A A' B} (f : St -> B) (m : run St A)
    (k : A -> run St A') :
  preserves f m -> (forall a, preserves f (k a)) -> preserves f (m ≫= k).
Proof.
  intros Hm Hk s r s' Heq. unfold mbind, run_bind in Heq.
  destruct (m s) as [[a|e] s1] eqn:Hms.
  - rewrite (Hk a s1 r s' Heq). apply (Hm s _ _ Hms).
  - injection Heq as _ <-. apply (Hm s _ _ Hms).
Qed.

Lemma preserves_for_each_m {St El A B} (f : St -> B) (l : list El)
    (body : El -> A -> run St A) (a : A) :
  (forall x a0, preserves f (body x a0)) -> preserves f (for_each_m l body a).
Proof.
  intros Hbody. revert a. induction l as [|x l IH]; intros a; simpl.
  - apply preserves_ret.
  - apply preserves_bind; [apply Hbody|]. intros a'. apply IH.
Qed.

Lemma preserves_for_double `{Double T} {St A B} (f : St -> B) fuel (i bound : T)
    (body : T -> A -> run St A) (a : A) :
  (forall x a0, preserves f (body x a0)) ->
  preserves f (for_double fuel i bound body a).
Proof.
  intros Hbody. revert i a. induction fuel as [|fuel IH]; intros i a; simpl.
  - apply preserves_throw.
  - destruct (fltb i bound); [|apply preserves_ret].
    apply preserves_bind; [apply Hbody|]. intros a'. apply IH.
Qed.

Section Frame.
Context {T : Type} `{Double T} {B : Type}.
Variable f : ZmpOptimizer T -> B.
Hypothesis f_ipopt : forall x o, f (set_ineq_ipopt_ x o) = f o.
Hypothesis f_vx : forall x o, f (set_ineq_ipopt_vx_ x o) = f o.
Hypothesis f_vy : forall x o, f (set_ineq_ipopt_vy_ x o) = f o.

Lemma preserves_set_ipopt r c x : preserves f (set_ipopt r c x).
Proof using f_ipopt.
  intros s r0 s' Heq. unfold set_ipopt in Heq.
  destruct (mset _ _ _ _); injection Heq as _ <-; [apply f_ipopt|reflexivity].
Qed.

Lemma preserves_add_ipopt_col c u : preserves f (add_ipopt_col c u).
Proof using f_ipopt.
  intros s r0 s' Heq. unfold add_ipopt_col in Heq.
  destruct (mcol_add _ _ _); injection Heq as _ <-; [apply f_ipopt|reflexivity].
Qed.

Lemma preserves_set_ipopt_vx c x : preserves f (set_ipopt_vx c x).
Proof using f_vx.
  intros s r0 s' Heq. unfold set_ipopt_vx in Heq.
  destruct (vset _ _ _); injection Heq as _ <-; [apply f_vx|reflexivity].
Qed.

Lemma preserves_set_ipopt_vy c x : preserves f (set_ipopt_vy c x).
Proof using f_vy.
  intros s r0 s' Heq. unfold set_ipopt_vy in Heq.
  destruct (vset _ _ _); injection Heq as _ <-; [apply f_vy|reflexivity].
Qed.

Ltac frame :=
  repeat first
    [ apply preserves_ret | apply preserves_throw | apply preserves_lift
    | apply preserves_gets | apply preserves_set_ipopt
    | apply preserves_add_ipopt_col | apply preserves_set_ipopt_vx
    | apply preserves_set_ipopt_vy
    | apply preserves_modify; intros; solve [auto]
    | apply preserves_bind; [|intros ?] ].

Lemma preserves_zmp_constraint lines k h t Ekx Fkx Eky Fky e0x f0x e0y f0y j st :
  preserves f (zmp_constraint lines k h t Ekx Fkx Eky Fky e0x f0x e0y f0y j st).
Proof using f_ipopt f_vx f_vy.
  unfold zmp_constraint. destruct st as [ineq c].
  destruct (lines !! Z.to_nat c); [|apply preserves_throw].
  apply preserves_bind.
  - apply preserves_for_each_m. intros dim []. unfold zmp_coefficients. frame.
  - intros ?. frame.
Qed.

Lemma preserves_segment_constraints sc p0 v0 lines h dt s st :
  preserves f (segment_constraints sc p0 v0 lines h dt s st).
Proof using f_ipopt f_vx f_vy.
  unfold segment_constraints.
  destruct (four_leg_supp_ s); [apply preserves_ret|].
  destruct (DescribeEByPrev sc (id_ s) X _), (DescribeFByPrev sc (id_ s) X _ _),
    (DescribeEByPrev sc (id_ s) Y _), (DescribeFByPrev sc (id_ s) Y _ _).
  apply preserves_for_double. intros i st'.
  apply preserves_for_each_m. intros j st''. apply preserves_zmp_constraint.
Qed.

Lemma preserves_CreateInequalityContraints p0 v0 lines h dt :
  preserves f (CreateInequalityContraints p0 v0 lines h dt).
Proof using f_ipopt f_vx f_vy.
  unfold CreateInequalityContraints, CreateInequalityContraints_counted.
  apply preserves_bind; [|intros ?; apply preserves_ret].
  apply preserves_bind; [apply preserves_gets|]. intros sc.
  apply preserves_bind; [apply preserves_lift|]. intros ineq.
  apply preserves_bind; [apply preserves_modify; auto|]. intros _.
  apply preserves_bind; [apply preserves_modify; auto|]. intros _.
  apply preserves_bind; [apply preserves_modify; auto|]. intros _.
  apply preserves_for_each_m. intros s st. apply preserves_segment_constraints.
Qed.

End Frame.

(** *** The sizes of what the inequality builder makes *)

Section InequalityShape.
Context {T : Type} `{Double T}.
Variable SuppTriangle : Type.
Variable CalcLines : SuppTriangle -> hyq.SuppTriangle.TrLines3 T.

(** The number of samples of a segment: none in a four-leg-support phase. *)
Definition samples (dt : T) (s : ZmpSpline T) : nat :=
  if four_leg_supp_ s then O
  else match n_nodes s dt with Some n => Z.to_nat n | None => O end.

Lemma LineForConstraint_length (sc : SplineContainer T)
    (supp_triangles : list SuppTriangle) (dt : T) :
  Forall (fun s => four_leg_supp_ s = false ->
            is_Some (n_nodes s dt) /\
            0 <= step_ s < Z.of_nat (length supp_triangles)) (splines_ sc) ->
  exists lines,
    LineForConstraint SuppTriangle CalcLines sc supp_triangles dt = Ok lines /\
    length lines = (3 * sum_list_with (samples dt) (splines_ sc))%nat.
Proof.
  intros Hall. unfold LineForConstraint.
  match goal with
  | |- context [for_each ?l ?body ?a] =>
      destruct (for_each_inv
        (fun done (lines : list (hyq.SuppTriangle.TrLine T)) =>
           length lines = (3 * sum_list_with (samples dt) done)%nat)
        l body a) as (lines & Hrun & Hlen)
  end.
  - reflexivity.
  - intros done s lines [rest Hsplit] Hlen.
    rewrite sum_list_with_app. cbn [sum_list_with]. unfold samples at 2.
    rewrite Hsplit in Hall. apply Forall_app in Hall as [_ Hall].
    apply Forall_cons in Hall as [Hs _].
    destruct (four_leg_supp_ s).
    { exists lines. split; [reflexivity|]. lia. }
    destruct (Hs eq_refl) as [[n Hn] Hstep]. rewrite Hn.
    unfold at_step.
    destruct (0 <=? step_ s) eqn:E; [|apply Z.leb_gt in E; lia].
    destruct (lookup_lt_is_Some_2 supp_triangles (Z.to_nat (step_ s)))
      as [tr ->]; [lia|].
    cbn [mbind result_bind].
    destruct (CalcLines tr) as [[l0 l1] l2].
    match goal with
    | |- context [for_range ?k ?lo ?body ?a] =>
        destruct (for_range_inv
          (fun i (ls : list (hyq.SuppTriangle.TrLine T)) =>
             length ls = (length lines + 3 * Z.to_nat i)%nat)
          k lo body a) as (ls & -> & Hls)
    end.
    + simpl. lia.
    + intros i ls Hi Hls. eexists. split; [reflexivity|].
      rewrite length_app. simpl. lia.
    + exists ls. split; [reflexivity|]. lia.
  - exists lines. split; assumption.
Qed.

Lemma set_middleRows_Ok (vec : VectorXd T) start (block : VectorXd T) :
  0 <= start -> start + Z.of_nat (length block) <= Z.of_nat (length vec) ->
  exists vec', set_middleRows vec start block = Ok vec' /\
    length vec' = length vec.
Proof.
  intros Hs Hb. unfold set_middleRows.
  destruct (0 <=? start) eqn:E1; [|apply Z.leb_gt in E1; lia].
  destruct (start + Z.of_nat (length block) <=? Z.of_nat (length vec)) eqn:E2;
    [|apply Z.leb_gt in E2; lia].
  eexists. split; [reflexivity|].
  rewrite !length_app, length_take, length_drop. lia.
Qed.

Lemma GetXyDimAlternatingVector_Ok (sc : SplineContainer T) x y :
  wf_splines sc ->
  exists u, GetXyDimAlternatingVector sc x y = Ok u /\
    length u = (length (splines_ sc) * 8)%nat.
Proof.
  intros Hwf. unfold GetXyDimAlternatingVector.
  destruct (VectorXd_Zero_Ok (T := T)
              (Z.of_nat (length (splines_ sc)) * kOptCoeff * kDim2d))
    as (u0 & -> & Hl0 & _).
  { unfold kOptCoeff, kDim2d. lia. }
  cbn [mbind result_bind].
  match goal with
  | |- context [for_each ?l ?body ?a] =>
      destruct (for_each_inv
        (fun (_ : list (ZmpSpline T)) (u : VectorXd T) =>
           length u = (length (splines_ sc) * 8)%nat)
        l body a) as (u & Hrun & Hlen)
  end.
  - unfold kOptCoeff, kDim2d in Hl0. lia.
  - intros done s u [rest Hsplit] Hlen.
    destruct (wf_splines_prefix sc done s rest Hwf Hsplit) as [Hs Hid].
    pose proof (lookup_lt_Some _ _ _ Hs) as Hk.
    rewrite Hid. unfold var_index, kOptCoeff, kDim2d. cbn [dim_int coeff_int].
    destruct (set_middleRows_Ok u (4 * 2 * Z.of_nat (length done) + 4 * 0 + 0)
                (replicate (Z.to_nat 4) x)) as (u1 & -> & Hl1).
    { lia. }
    { rewrite length_replicate. lia. }
    cbn [mbind result_bind].
    destruct (set_middleRows_Ok u1 (4 * 2 * Z.of_nat (length done) + 4 * 1 + 0)
                (replicate (Z.to_nat 4) y)) as (u2 & -> & Hl2).
    { lia. }
    { rewrite length_replicate. lia. }
    exists u2. split; [reflexivity|]. lia.
  - exists u. split; assumption.
Qed.

(** The sizes of the members that the builder writes, for [nr] coefficients
    and [L] constraints, and the spline sequence, which it only reads. *)
Definition ipopt_shape (sc : SplineContainer T) (nr L : nat)
    (o : ZmpOptimizer T) : Prop :=
  wf_matrix (ineq_ipopt_ o) /\ rows (ineq_ipopt_ o) = nr /\
  cols (ineq_ipopt_ o) = L /\
  length (ineq_ipopt_vx_ o) = L /\ length (ineq_ipopt_vy_ o) = L /\
  zmp_splines_ o = sc.

Lemma returns_set_ipopt sc nr L r c x o :
  ipopt_shape sc nr L o -> 0 <= r < Z.of_nat nr -> 0 <= c < Z.of_nat L ->
  returns (set_ipopt r c x) o (fun _ o' => ipopt_shape sc nr L o').
Proof.
  intros (Hwf & Hr & Hc & Hvx & Hvy & Hsc) Hrr Hcc. unfold set_ipopt.
  destruct (mset_Ok (ineq_ipopt_ o) r c x Hwf) as (m' & Hm & Hwf' & Hr' & Hc' & _);
    [lia..|].
  exists tt, (set_ineq_ipopt_ m' o). rewrite Hm. split; [reflexivity|].
  repeat split; simpl; try apply Hwf'; congruence.
Qed.

Lemma returns_add_ipopt_col sc nr L c (u : VectorXd T) o :
  ipopt_shape sc nr L o -> 0 <= c < Z.of_nat L -> length u = nr ->
  returns (add_ipopt_col c u) o (fun _ o' => ipopt_shape sc nr L o').
Proof.
  intros (Hwf & Hr & Hc & Hvx & Hvy & Hsc) Hcc Hu. unfold add_ipopt_col.
  destruct (mcol_add_Ok (ineq_ipopt_ o) c u Hwf)
    as (m' & Hm & Hwf' & Hr' & Hc' & _); [lia..|].
  exists tt, (set_ineq_ipopt_ m' o). rewrite Hm. split; [reflexivity|].
  repeat split; simpl; try apply Hwf'; congruence.
Qed.

Lemma returns_set_ipopt_vx sc nr L c x o :
  ipopt_shape sc nr L o -> 0 <= c < Z.of_nat L ->
  returns (set_ipopt_vx c x) o (fun _ o' => ipopt_shape sc nr L o').
Proof.
  intros (Hwf & Hr & Hc & Hvx & Hvy & Hsc) Hcc. unfold set_ipopt_vx.
  destruct (vset_Ok (ineq_ipopt_vx_ o) c x) as (u & Hu & Hl & _); [lia|].
  exists tt, (set_ineq_ipopt_vx_ u o). rewrite Hu. split; [reflexivity|].
  repeat split; simpl; try apply Hwf; congruence.
Qed.

Lemma returns_set_ipopt_vy sc nr L c x o :
  ipopt_shape sc nr L o -> 0 <= c < Z.of_nat L ->
  returns (set_ipopt_vy c x) o (fun _ o' => ipopt_shape sc nr L o').
Proof.
  intros (Hwf & Hr & Hc & Hvx & Hvy & Hsc) Hcc. unfold set_ipopt_vy.
  destruct (vset_Ok (ineq_ipopt_vy_ o) c x) as (u & Hu & Hl & _); [lia|].
  exists tt, (set_ineq_ipopt_vy_ u o). rewrite Hu. split; [reflexivity|].
  repeat split; simpl; try apply Hwf; congruence.
Qed.

Lemma returns_zmp_coefficients sc L (k : nat) h z_acc t c
    (Ekx Fkx Eky Fky : VectorXd T) dim o :
  let nr := (length (splines_ sc) * 8)%nat in
  ipopt_shape sc nr L o -> (k < length (splines_ sc))%nat ->
  0 <= c < Z.of_nat L ->
  length Ekx = nr -> length Fkx = nr -> length Eky = nr -> length Fky = nr ->
  returns (zmp_coefficients (Z.of_nat k) h z_acc t c Ekx Fkx Eky Fky dim tt) o
    (fun _ o' => ipopt_shape sc nr L o').
Proof.
  intros nr Hsh Hk Hc HEx HFx HEy HFy.
  pose proof (dim_int_bounds dim) as Hd.
  unfold zmp_coefficients, var_index, kOptCoeff, kDim2d. cbn [coeff_int].
  revert o Hsh.
  do 4 (intros o Hsh; eapply returns_bind;
        [apply (returns_set_ipopt sc nr L); [exact Hsh|unfold nr; lia|lia]
        |clear Hsh o; intros []]).
  intros o Hsh. eapply returns_bind.
  { apply (returns_add_ipopt_col sc nr L); [exact Hsh|lia|].
    unfold vscale_l. rewrite length_fmap. destruct dim; assumption. }
  clear Hsh o. intros [] o Hsh.
  apply (returns_add_ipopt_col sc nr L); [exact Hsh|lia|].
  unfold vscale_l. rewrite length_fmap. destruct dim; assumption.
Qed.

Lemma returns_zmp_constraint sc (lines : list (hyq.SuppTriangle.TrLine T))
    (k : nat) h t (Ekx Fkx Eky Fky : VectorXd T) e0x f0x e0y f0y j ineq c o :
  let nr := (length (splines_ sc) * 8)%nat in
  wf_splines sc -> (k < length (splines_ sc))%nat ->
  ipopt_shape sc nr (length lines) o -> shape nr (length lines) ineq ->
  0 <= c < Z.of_nat (length lines) ->
  length Ekx = nr -> length Fkx = nr -> length Eky = nr -> length Fky = nr ->
  returns (zmp_constraint lines (Z.of_nat k) h t Ekx Fkx Eky Fky
             e0x f0x e0y f0y j (ineq, c)) o
    (fun st o' => snd st = c + 1 /\ shape nr (length lines) (fst st) /\
                  ipopt_shape sc nr (length lines) o').
Proof.
  intros nr Hwf Hk Hsh Hineq Hc HEx HFx HEy HFy.
  unfold nr in *. unfold zmp_constraint.
  destruct (lookup_lt_is_Some_2 lines (Z.to_nat c)) as [l ->]; [lia|].
  eapply (returns_bind _ _ _
            (fun _ o' => ipopt_shape sc nr (length lines) o')).
  { cbn [for_each_m].
    eapply returns_bind;
      [apply (returns_zmp_coefficients sc (length lines) k); eassumption|].
    intros [] o1 Hsh1.
    eapply returns_bind;
      [apply (returns_zmp_coefficients sc (length lines) k); eassumption|].
    intros [] o2 Hsh2. apply returns_ret. exact Hsh2. }
  clear Hsh. intros [] o1 Hsh. cbv beta in Hsh.
  pose proof Hsh as (Hwfm & Hrows & Hcols & Hvx & Hvy & Hsc).
  apply returns_gets_bind. rewrite Hsc.
  destruct (GetXyDimAlternatingVector_Ok sc
              (hyq.SuppTriangle.p (hyq.SuppTriangle.coeff l))
              (hyq.SuppTriangle.q (hyq.SuppTriangle.coeff l)) Hwf)
    as (lc & Hlc & Hllc).
  eapply returns_lift_bind; [exact Hlc|].
  apply returns_gets_bind.
  destruct (mcol_Ok (ineq_ipopt_ o1) c Hwfm) as (col & Hcol & Hlcol & _); [lia|].
  eapply returns_lift_bind; [exact Hcol|].
  eapply returns_lift_bind.
  { unfold cwiseProduct.
    rewrite (proj2 (Nat.eqb_eq _ _)) by lia. reflexivity. }
  destruct Hineq as (Hwfi & Hri & Hci & Hvi).
  destruct (mcol_set_Ok (M ineq) c (zip_with fmul col lc) Hwfi)
    as (m' & Hm' & Hwf' & Hr' & Hc' & _).
  { lia. }
  { rewrite length_zip_with. lia. }
  eapply returns_lift_bind; [rewrite Hm'; reflexivity|].
  eapply returns_bind; [apply (returns_set_ipopt_vx sc nr (length lines));
                        [eassumption|lia]|].
  clear Hsh Hwfm Hrows Hcols Hvx Hvy Hsc Hcol. intros [] o2 Hsh.
  eapply returns_bind; [apply (returns_set_ipopt_vy sc nr (length lines));
                        [eassumption|lia]|].
  clear Hsh. intros [] o3 Hsh.
  pose proof Hsh as (Hwfm & Hrows & Hcols & Hvx & Hvy & Hsc).
  do 2 apply returns_gets_bind.
  eapply returns_lift_bind; [apply vget_Ok; lia|].
  eapply returns_lift_bind; [apply vget_Ok; lia|].
  assert (Hsh0 : shape nr (length lines) {| M := m'; v := v ineq |}).
  { repeat split; simpl; try apply Hwf'; unfold nr; lia. }
  destruct (add_v_shape nr (length lines) _ c
              (hyq.SuppTriangle.p (hyq.SuppTriangle.coeff l)
               * vcoeff (ineq_ipopt_vx_ o3) c)%D Hsh0)
    as (i1 & Hi1 & Hsh1); [lia|].
  eapply returns_lift_bind; [exact Hi1|].
  destruct (add_v_shape nr (length lines) i1 c
              (hyq.SuppTriangle.q (hyq.SuppTriangle.coeff l)
               * vcoeff (ineq_ipopt_vy_ o3) c)%D Hsh1)
    as (i2 & Hi2 & Hsh2); [lia|].
  eapply returns_lift_bind; [exact Hi2|].
  destruct (add_v_shape nr (length lines) i2 c
              (hyq.SuppTriangle.r (hyq.SuppTriangle.coeff l)
               - hyq.SuppTriangle.s_margin l)%D Hsh2)
    as (i3 & Hi3 & Hsh3); [lia|].
  eapply returns_lift_bind; [exact Hi3|].
  apply returns_ret. simpl. auto.
Qed.

Lemma returns_sample sc (lines : list (hyq.SuppTriangle.TrLine T))
    (k : nat) h t (Ekx Fkx Eky Fky : VectorXd T) e0x f0x e0y f0y ineq c o :
  let nr := (length (splines_ sc) * 8)%nat in
  wf_splines sc -> (k < length (splines_ sc))%nat ->
  ipopt_shape sc nr (length lines) o -> shape nr (length lines) ineq ->
  0 <= c -> c + 3 <= Z.of_nat (length lines) ->
  length Ekx = nr -> length Fkx = nr -> length Eky = nr -> length Fky = nr ->
  returns (for_each_m [0; 1; 2]
             (zmp_constraint lines (Z.of_nat k) h t Ekx Fkx Eky Fky
                e0x f0x e0y f0y) (ineq, c)) o
    (fun st o' => snd st = c + 3 /\ shape nr (length lines) (fst st) /\
                  ipopt_shape sc nr (length lines) o').
Proof.
  intros nr Hwf Hk Hsh Hineq Hc0 Hc HEx HFx HEy HFy.
  cbn [for_each_m].
  eapply returns_bind.
  { apply (returns_zmp_constraint sc lines k); try eassumption. lia. }
  intros [i1 c1] o1 (Hc1 & Hi1 & Ho1). simpl in Hc1, Hi1. subst c1.
  eapply returns_bind.
  { apply (returns_zmp_constraint sc lines k); try eassumption. lia. }
  intros [i2 c2] o2 (Hc2 & Hi2 & Ho2). simpl in Hc2, Hi2. subst c2.
  eapply returns_bind.
  { apply (returns_zmp_constraint sc lines k); try eassumption. lia. }
  intros [i3 c3] o3 (Hc3 & Hi3 & Ho3). simpl in Hc3, Hi3. subst c3.
  apply returns_ret. simpl. split; [lia|]. split; assumption.
Qed.

End InequalityShape.

(** *** The entries of what the inequality builder makes *)

Section InequalityEntries.
Context {T : Type} `{Double T}.

Lemma set_middleRows_entries (vec : VectorXd T) start (block : VectorXd T) :
  0 <= start -> start + Z.of_nat (length block) <= Z.of_nat (length vec) ->
  exists vec', set_middleRows vec start block = Ok vec' /\
    length vec' = length vec /\
    forall i, vcoeff vec' i =
      if decide (start <= i < start + Z.of_nat (length block))
      then vcoeff block (i - start) else vcoeff vec i.
Proof.
  intros Hs Hb. unfold set_middleRows.
  destruct (0 <=? start) eqn:E1; [|apply Z.leb_gt in E1; lia].
  destruct (start + Z.of_nat (length block) <=? Z.of_nat (length vec)) eqn:E2;
    [|apply Z.leb_gt in E2; lia].
  eexists. split; [reflexivity|]. split.
  { rewrite !length_app, length_take, length_drop. lia. }
  intros i. unfold vcoeff.
  destruct (0 <=? i) eqn:E0.
  - apply Z.leb_le in E0.
    destruct (decide (start <= i < start + Z.of_nat (length block))) as [Hin|Hout].
    + destruct (0 <=? i - start) eqn:E3; [|apply Z.leb_gt in E3; lia].
      rewrite lookup_app_r by (rewrite length_take; lia).
      rewrite length_take.
      rewrite lookup_app_l by lia.
      do 2 f_equal. lia.
    + destruct (decide (i < start)) as [Hlt|Hge].
      * rewrite lookup_app_l by (rewrite length_take; lia).
        rewrite lookup_take_lt by lia. reflexivity.
      * rewrite lookup_app_r by (rewrite length_take; lia).
        rewrite length_take.
        rewrite lookup_app_r by lia.
        rewrite lookup_drop. do 2 f_equal. lia.
  - destruct (decide _) as [Hin|_]; [|reflexivity].
    apply Z.leb_gt in E0. lia.
Qed.

(** [GetXyDimAlternatingVector x y] holds [x] at the indices of the x axis
    and [y] at those of the y axis. *)
Lemma GetXyDimAlternatingVector_entries (sc : SplineContainer T) x y :
  wf_splines sc ->
  exists u, GetXyDimAlternatingVector sc x y = Ok u /\
    length u = (length (splines_ sc) * 8)%nat /\
    forall i, 0 <= i < Z.of_nat (length (splines_ sc) * 8) ->
      vcoeff u i = if (i / 4) mod 2 =? 0 then x else y.
Proof.
  intros Hwf. unfold GetXyDimAlternatingVector.
  destruct (VectorXd_Zero_Ok (T := T)
              (Z.of_nat (length (splines_ sc)) * kOptCoeff * kDim2d))
    as (u0 & -> & Hl0 & _).
  { unfold kOptCoeff, kDim2d. lia. }
  cbn [mbind result_bind].
  match goal with
  | |- context [for_each ?l ?body ?a] =>
      destruct (for_each_inv
        (fun (done : list (ZmpSpline T)) (u : VectorXd T) =>
           length u = (length (splines_ sc) * 8)%nat /\
           forall i, 0 <= i < 8 * Z.of_nat (length done) ->
             vcoeff u i = if (i / 4) mod 2 =? 0 then x else y)
        l body a) as (u & Hrun & Hlen & Hent)
  end.
  - split; [unfold kOptCoeff, kDim2d in Hl0; lia|]. simpl. intros i Hi. lia.
  - intros done s u [rest Hsplit] [Hlen Hent].
    destruct (wf_splines_prefix sc done s rest Hwf Hsplit) as [Hs Hid].
    pose proof (lookup_lt_Some _ _ _ Hs) as Hk.
    rewrite Hid. unfold var_index, kOptCoeff, kDim2d. cbn [dim_int coeff_int].
    destruct (set_middleRows_entries u
                (4 * 2 * Z.of_nat (length done) + 4 * 0 + 0)
                (replicate (Z.to_nat 4) x)) as (u1 & -> & Hl1 & He1).
    { lia. }
    { rewrite length_replicate. lia. }
    cbn [mbind result_bind].
    destruct (set_middleRows_entries u1
                (4 * 2 * Z.of_nat (length done) + 4 * 1 + 0)
                (replicate (Z.to_nat 4) y)) as (u2 & -> & Hl2 & He2).
    { lia. }
    { rewrite length_replicate. lia. }
    exists u2. split; [reflexivity|]. split; [lia|].
    intros i Hi. rewrite length_app in Hi. simpl in Hi.
    rewrite He2, He1. rewrite !length_replicate.
    set (K := Z.of_nat (length done)) in *.
    assert (Hrep : forall (z : T) j, 0 <= j < 4 ->
              vcoeff (replicate (Z.to_nat 4) z) j = z).
    { intros z j Hj. unfold vcoeff.
      destruct (0 <=? j) eqn:E; [|apply Z.leb_gt in E; lia].
      rewrite lookup_replicate_2 by lia. reflexivity. }
    destruct (decide (4 * 2 * K + 4 * 1 + 0 <= i
                      < 4 * 2 * K + 4 * 1 + 0 + Z.of_nat (Z.to_nat 4)))
      as [HY|HnY].
    + rewrite Hrep by lia.
      replace i with (8 * K + 4 * 1 + (i - 8 * K - 4)) by lia.
      rewrite div4_index by lia.
      replace ((2 * K + 1) mod 2) with 1; [reflexivity|].
      apply (Z.mod_unique _ 2 K); lia.
    + destruct (decide (4 * 2 * K + 4 * 0 + 0 <= i
                        < 4 * 2 * K + 4 * 0 + 0 + Z.of_nat (Z.to_nat 4)))
        as [HX|HnX].
      * rewrite Hrep by lia.
        replace i with (8 * K + 4 * 0 + (i - 8 * K)) by lia.
        rewrite div4_index by lia.
        replace ((2 * K + 0) mod 2) with 0; [reflexivity|].
        apply (Z.mod_unique _ 2 K); lia.
      * apply Hent. lia.
  - exists u. split; [assumption|]. split; [assumption|].
    intros i Hi. apply Hent. lia.
Qed.

(** The members other than [ineq_ipopt_] are left as they are. *)
Definition same_vectors (o o' : ZmpOptimizer T) : Prop :=
  ineq_ipopt_vx_ o' = ineq_ipopt_vx_ o /\
  ineq_ipopt_vy_ o' = ineq_ipopt_vy_ o.

Lemma returns_set_ipopt_entries sc nr L r c x o :
  ipopt_shape sc nr L o -> 0 <= r < Z.of_nat nr -> 0 <= c < Z.of_nat L ->
  returns (set_ipopt r c x) o (fun _ o' =>
    ipopt_shape sc nr L o' /\ same_vectors o o' /\
    forall i j, coeff (ineq_ipopt_ o') i j =
      if decide (i = r /\ j = c) then x else coeff (ineq_ipopt_ o) i j).
Proof.
  intros (Hwf & Hr & Hc & Hvx & Hvy & Hsc) Hrr Hcc. unfold set_ipopt.
  destruct (mset_Ok (ineq_ipopt_ o) r c x Hwf)
    as (m' & Hm & Hwf' & Hr' & Hc' & Hco); [lia..|].
  exists tt, (set_ineq_ipopt_ m' o). rewrite Hm. split; [reflexivity|].
  split; [|split; [split; reflexivity|exact Hco]].
  repeat split; simpl; try apply Hwf'; congruence.
Qed.

Lemma returns_add_ipopt_col_entries sc nr L c (u : VectorXd T) o :
  ipopt_shape sc nr L o -> 0 <= c < Z.of_nat L -> length u = nr ->
  returns (add_ipopt_col c u) o (fun _ o' =>
    ipopt_shape sc nr L o' /\ same_vectors o o' /\
    forall i j, coeff (ineq_ipopt_ o') i j =
      if decide (j = c /\ 0 <= i < Z.of_nat nr)
      then (coeff (ineq_ipopt_ o) i c + vcoeff u i)%D
      else coeff (ineq_ipopt_ o) i j).
Proof.
  intros (Hwf & Hr & Hc & Hvx & Hvy & Hsc) Hcc Hu. unfold add_ipopt_col.
  destruct (mcol_add_Ok (ineq_ipopt_ o) c u Hwf)
    as (m' & Hm & Hwf' & Hr' & Hc' & Hco); [lia..|].
  exists tt, (set_ineq_ipopt_ m' o). rewrite Hm. split; [reflexivity|].
  split; [|split; [split; reflexivity|]].
  - repeat split; simpl; try apply Hwf'; congruence.
  - simpl. intros i j. rewrite Hco, Hr. reflexivity.
Qed.

Lemma returns_bind_run {St R1 R2} (m : run St R1) (k : R1 -> run St R2)
    s a s' (Q : R2 -> St -> Prop) :
  m s = (Ok a, s') -> returns (k a) s' Q -> returns (m ≫= k) s Q.
Proof.
  intros Hm (b & s'' & Hk & HQ). exists b, s''. split; [|assumption].
  unfold mbind, run_bind. rewrite Hm. assumption.
Qed.

Lemma returns_set_ipopt_vx_entries sc nr L c x o :
  ipopt_shape sc nr L o -> 0 <= c < Z.of_nat L ->
  returns (set_ipopt_vx c x) o (fun _ o' =>
    ipopt_shape sc nr L o' /\ ineq_ipopt_ o' = ineq_ipopt_ o /\
    ineq_ipopt_vy_ o' = ineq_ipopt_vy_ o /\
    forall j, vcoeff (ineq_ipopt_vx_ o') j =
      if decide (j = c) then x else vcoeff (ineq_ipopt_vx_ o) j).
Proof.
  intros (Hwf & Hr & Hc & Hvx & Hvy & Hsc) Hcc. unfold set_ipopt_vx.
  destruct (vset_Ok (ineq_ipopt_vx_ o) c x) as (u & Hu & Hl & Hco); [lia|].
  exists tt, (set_ineq_ipopt_vx_ u o). rewrite Hu. split; [reflexivity|].
  split; [|split; [reflexivity|split; [reflexivity|exact Hco]]].
  repeat split; simpl; try apply Hwf; congruence.
Qed.

Lemma returns_set_ipopt_vy_entries sc nr L c x o :
  ipopt_shape sc nr L o -> 0 <= c < Z.of_nat L ->
  returns (set_ipopt_vy c x) o (fun _ o' =>
    ipopt_shape sc nr L o' /\ ineq_ipopt_ o' = ineq_ipopt_ o /\
    ineq_ipopt_vx_ o' = ineq_ipopt_vx_ o /\
    forall j, vcoeff (ineq_ipopt_vy_ o') j =
      if decide (j = c) then x else vcoeff (ineq_ipopt_vy_ o) j).
Proof.
  intros (Hwf & Hr & Hc & Hvx & Hvy & Hsc) Hcc. unfold set_ipopt_vy.
  destruct (vset_Ok (ineq_ipopt_vy_ o) c x) as (u & Hu & Hl & Hco); [lia|].
  exists tt, (set_ineq_ipopt_vy_ u o). rewrite Hu. split; [reflexivity|].
  split; [|split; [reflexivity|split; [reflexivity|exact Hco]]].
  repeat split; simpl; try apply Hwf; congruence.
Qed.

(** The four coefficients that the loop over the axes assigns at the indices
    of the segment [k] and the axis [dim]; elsewhere the column keeps what
    it had, [old]. *)
Definition zmp_free (k : Z) (h z_acc : T) (t : list T) (dim : Coords)
    (old : Z -> T) (i : Z) : T :=
  let ix letter := var_index k (dim_int dim) (coeff_int letter) in
  if decide (i = ix D) then (arr t 2 - h / (g + z_acc) * f_of_Z 2)%D
  else if decide (i = ix C)
  then (arr t 3 - h / (g + z_acc) * f_of_Z 6 * arr t 1)%D
  else if decide (i = ix B)
  then (arr t 4 - h / (g + z_acc) * f_of_Z 12 * arr t 2)%D
  else if decide (i = ix A)
  then (arr t 5 - h / (g + z_acc) * f_of_Z 20 * arr t 3)%D
  else old i.

(** The column after the iteration of the loop over the axes for [dim]. *)
Definition zmp_column (k : Z) (h z_acc : T) (t : list T) (dim : Coords)
    (Ek Fk : VectorXd T) (old : Z -> T) (i : Z) : T :=
  (zmp_free k h z_acc t dim old i + arr t 1 * vcoeff Ek i
   + arr t 0 * vcoeff Fk i)%D.

Lemma zmp_column_ext k h z_acc t dim Ek Fk (old old' : Z -> T) i :
  old i = old' i ->
  zmp_column k h z_acc t dim Ek Fk old i
  = zmp_column k h z_acc t dim Ek Fk old' i.
Proof.
  intros He. unfold zmp_column, zmp_free. rewrite He. reflexivity.
Qed.

Lemma returns_zmp_coefficients_entries sc L (k : nat) h z_acc t c
    (Ekx Fkx Eky Fky : VectorXd T) dim o :
  let nr := (length (splines_ sc) * 8)%nat in
  ipopt_shape sc nr L o -> (k < length (splines_ sc))%nat ->
  0 <= c < Z.of_nat L ->
  length Ekx = nr -> length Fkx = nr -> length Eky = nr -> length Fky = nr ->
  returns (zmp_coefficients (Z.of_nat k) h z_acc t c Ekx Fkx Eky Fky dim tt) o
    (fun _ o' =>
       ipopt_shape sc nr L o' /\ same_vectors o o' /\
       forall i j, coeff (ineq_ipopt_ o') i j =
         if decide (j = c /\ 0 <= i < Z.of_nat nr)
         then zmp_column (Z.of_nat k) h z_acc t dim
                (match dim with X => Ekx | Y => Eky end)
                (match dim with X => Fkx | Y => Fky end)
                (fun i' => coeff (ineq_ipopt_ o) i' c) i
         else coeff (ineq_ipopt_ o) i j).
Proof.
  intros nr Hsh Hk Hc HEx HFx HEy HFy.
  pose proof (dim_int_bounds dim) as Hd.
  unfold zmp_coefficients.
  set (Ek := match dim with X => Ekx | Y => Eky end).
  set (Fk := match dim with X => Fkx | Y => Fky end).
  assert (HEk : length Ek = nr) by (subst Ek; destruct dim; assumption).
  assert (HFk : length Fk = nr) by (subst Fk; destruct dim; assumption).
  assert (Hix : forall letter, coeff_int letter <= 3 ->
            0 <= var_index (Z.of_nat k) (dim_int dim) (coeff_int letter)
            < Z.of_nat nr).
  { intros letter Hl. unfold var_index, kOptCoeff, kDim2d, nr.
    destruct letter; simpl in *; lia. }
  destruct (returns_set_ipopt_entries sc nr L
              (var_index (Z.of_nat k) (dim_int dim) (coeff_int A)) c
              (arr t 5 - h / (g + z_acc) * f_of_Z 20 * arr t 3)%D o Hsh)
    as ([] & o1 & Hrun1 & Hsh1 & [Hvx1 Hvy1] & Hco1);
    [apply Hix; simpl; lia|lia|].
  eapply returns_bind_run; [exact Hrun1|].
  destruct (returns_set_ipopt_entries sc nr L
              (var_index (Z.of_nat k) (dim_int dim) (coeff_int B)) c
              (arr t 4 - h / (g + z_acc) * f_of_Z 12 * arr t 2)%D o1 Hsh1)
    as ([] & o2 & Hrun2 & Hsh2 & [Hvx2 Hvy2] & Hco2);
    [apply Hix; simpl; lia|lia|].
  eapply returns_bind_run; [exact Hrun2|].
  destruct (returns_set_ipopt_entries sc nr L
              (var_index (Z.of_nat k) (dim_int dim) (coeff_int C)) c
              (arr t 3 - h / (g + z_acc) * f_of_Z 6 * arr t 1)%D o2 Hsh2)
    as ([] & o3 & Hrun3 & Hsh3 & [Hvx3 Hvy3] & Hco3);
    [apply Hix; simpl; lia|lia|].
  eapply returns_bind_run; [exact Hrun3|].
  destruct (returns_set_ipopt_entries sc nr L
              (var_index (Z.of_nat k) (dim_int dim) (coeff_int D)) c
              (arr t 2 - h / (g + z_acc) * f_of_Z 2)%D o3 Hsh3)
    as ([] & o4 & Hrun4 & Hsh4 & [Hvx4 Hvy4] & Hco4);
    [apply Hix; simpl; lia|lia|].
  eapply returns_bind_run; [exact Hrun4|].
  destruct (returns_add_ipopt_col_entries sc nr L c
              (vscale_l (arr t 1) Ek) o4 Hsh4)
    as ([] & o5 & Hrun5 & Hsh5 & [Hvx5 Hvy5] & Hco5);
    [lia|unfold vscale_l; rewrite length_fmap; assumption|].
  eapply returns_bind_run; [exact Hrun5|].
  destruct (returns_add_ipopt_col_entries sc nr L c
              (vscale_l (arr t 0) Fk) o5 Hsh5)
    as ([] & o6 & Hrun6 & Hsh6 & [Hvx6 Hvy6] & Hco6);
    [lia|unfold vscale_l; rewrite length_fmap; assumption|].
  exists tt, o6. split; [exact Hrun6|].
  split; [assumption|]. split; [split; congruence|].
  intros i j. rewrite Hco6.
  destruct (decide (j = c /\ 0 <= i < Z.of_nat nr)) as [[-> Hi]|Hne].
  - rewrite Hco5. destruct (decide _) as [_|Hn]; [|exfalso; apply Hn; auto].
    unfold zmp_column, vscale_l. rewrite !vcoeff_fmap by lia.
    do 2 f_equal.
    rewrite Hco4, Hco3, Hco2, Hco1. unfold zmp_free.
    repeat (destruct (decide _) as [?|?]; try tauto).
  - rewrite Hco5. destruct (decide _) as [?|_]; [tauto|].
    rewrite Hco4, Hco3, Hco2, Hco1.
    repeat (destruct (decide _) as [[-> ->]|?];
            [exfalso; apply Hne; split; [reflexivity|apply Hix; simpl; lia]|]).
    reflexivity.
Qed.

Lemma add_v_entries nr nc (ec : MatVec T) i x :
  shape nr nc ec -> 0 <= i < Z.of_nat nc ->
  exists ec', add_v ec i x = Ok ec' /\ shape nr nc ec' /\ M ec' = M ec /\
    forall j, vcoeff (v ec') j =
      if decide (j = i) then (vcoeff (v ec) i + x)%D else vcoeff (v ec) j.
Proof.
  intros (Hwf & Hr & Hc & Hv) Hi. unfold add_v.
  destruct (vadd_at_Ok (v ec) i x) as (u & -> & Hl & Hco); [lia|].
  eexists. split; [reflexivity|]. split; [|split; [reflexivity|exact Hco]].
  repeat split; simpl; try apply Hwf; lia.
Qed.

(** What one constraint leaves in the column [c] of [ineq_ipopt_] and of
    [ineq.M] and in the entry [c] of the three vectors, given the column and
    the entry as they were ([old], [v0]); everything else is as it was. *)
Definition constraint_written (nr : nat) (k : Z) (h : T) (t : list T)
    (Ekx Fkx Eky Fky : VectorXd T) (e0x f0x e0y f0y : T) (c : Z)
    (l : hyq.SuppTriangle.TrLine T)
    (ineq : MatVec T) (o : ZmpOptimizer T)
    (ineq' : MatVec T) (o' : ZmpOptimizer T) : Prop :=
  let colX := zmp_column k h fzero t X Ekx Fkx
                (fun i => coeff (ineq_ipopt_ o) i c) in
  let colXY := zmp_column k h fzero t Y Eky Fky colX in
  let p := hyq.SuppTriangle.p (hyq.SuppTriangle.coeff l) in
  let q := hyq.SuppTriangle.q (hyq.SuppTriangle.coeff l) in
  let r := hyq.SuppTriangle.r (hyq.SuppTriangle.coeff l) in
  (forall i, 0 <= i < Z.of_nat nr ->
     coeff (ineq_ipopt_ o') i c = colXY i /\
     coeff (M ineq') i c
     = (colXY i * (if (i / 4) mod 2 =? 0 then p else q))%D) /\
  vcoeff (ineq_ipopt_vx_ o') c = (e0x * arr t 0 + f0x)%D /\
  vcoeff (ineq_ipopt_vy_ o') c = (e0y * arr t 0 + f0y)%D /\
  vcoeff (v ineq') c
  = (vcoeff (v ineq) c + p * (e0x * arr t 0 + f0x)
     + q * (e0y * arr t 0 + f0y) + (r - hyq.SuppTriangle.s_margin l))%D /\
  (forall i j, j <> c ->
     coeff (ineq_ipopt_ o') i j = coeff (ineq_ipopt_ o) i j /\
     coeff (M ineq') i j = coeff (M ineq) i j) /\
  (forall j, j <> c ->
     vcoeff (ineq_ipopt_vx_ o') j = vcoeff (ineq_ipopt_vx_ o) j /\
     vcoeff (ineq_ipopt_vy_ o') j = vcoeff (ineq_ipopt_vy_ o) j /\
     vcoeff (v ineq') j = vcoeff (v ineq) j).

Lemma returns_zmp_constraint_entries sc
    (lines : list (hyq.SuppTriangle.TrLine T))
    (k : nat) h t (Ekx Fkx Eky Fky : VectorXd T) e0x f0x e0y f0y j ineq c l o :
  let nr := (length (splines_ sc) * 8)%nat in
  wf_splines sc -> (k < length (splines_ sc))%nat ->
  ipopt_shape sc nr (length lines) o -> shape nr (length lines) ineq ->
  0 <= c -> lines !! Z.to_nat c = Some l ->
  length Ekx = nr -> length Fkx = nr -> length Eky = nr -> length Fky = nr ->
  returns (zmp_constraint lines (Z.of_nat k) h t Ekx Fkx Eky Fky
             e0x f0x e0y f0y j (ineq, c)) o
    (fun st o' => snd st = c + 1 /\ shape nr (length lines) (fst st) /\
                  ipopt_shape sc nr (length lines) o' /\
                  constraint_written nr (Z.of_nat k) h t Ekx Fkx Eky Fky
                    e0x f0x e0y f0y c l ineq o (fst st) o').
Proof.
  intros nr Hwf Hk Hsh Hineq Hc0 Hl HEx HFx HEy HFy.
  pose proof (lookup_lt_Some _ _ _ Hl) as Hc.
  unfold zmp_constraint. rewrite Hl. cbn [for_each_m].
  destruct (returns_zmp_coefficients_entries sc (length lines) k h fzero t c
              Ekx Fkx Eky Fky X o Hsh Hk)
    as ([] & o1 & Hrun1 & Hsh1 & [Hvx1 Hvy1] & Hco1); [lia|assumption..|].
  destruct (returns_zmp_coefficients_entries sc (length lines) k h fzero t c
              Ekx Fkx Eky Fky Y o1 Hsh1 Hk)
    as ([] & o2 & Hrun2 & Hsh2 & [Hvx2 Hvy2] & Hco2); [lia|assumption..|].
  eapply returns_bind_run.
  { unfold mbind, run_bind. rewrite Hrun1, Hrun2. reflexivity. }
  pose proof Hsh2 as (Hwfm & Hrows & Hcols & Hvx & Hvy & Hsc).
  apply returns_gets_bind. rewrite Hsc.
  destruct (GetXyDimAlternatingVector_entries sc
              (hyq.SuppTriangle.p (hyq.SuppTriangle.coeff l))
              (hyq.SuppTriangle.q (hyq.SuppTriangle.coeff l)) Hwf)
    as (lc & Hlc & Hllc & Hlce).
  eapply returns_lift_bind; [exact Hlc|].
  apply returns_gets_bind.
  destruct (mcol_Ok (ineq_ipopt_ o2) c Hwfm) as (col & Hcol & Hlcol & Hcole);
    [lia|].
  eapply returns_lift_bind; [exact Hcol|].
  eapply returns_lift_bind.
  { unfold cwiseProduct.
    rewrite (proj2 (Nat.eqb_eq _ _)) by (unfold nr in *; lia). reflexivity. }
  destruct Hineq as (Hwfi & Hri & Hci & Hvi).
  destruct (mcol_set_Ok (M ineq) c (zip_with fmul col lc) Hwfi)
    as (m' & Hm' & Hwf' & Hr' & Hc' & Hm'e).
  { lia. }
  { rewrite length_zip_with. unfold nr in *. lia. }
  eapply returns_lift_bind; [rewrite Hm'; reflexivity|].
  destruct (returns_set_ipopt_vx_entries sc nr (length lines) c
              (e0x * arr t 0 + f0x)%D o2 Hsh2)
    as ([] & o3 & Hrun3 & Hsh3 & Hip3 & Hvy3 & Hvx3); [lia|].
  eapply returns_bind_run; [exact Hrun3|].
  destruct (returns_set_ipopt_vy_entries sc nr (length lines) c
              (e0y * arr t 0 + f0y)%D o3 Hsh3)
    as ([] & o4 & Hrun4 & Hsh4 & Hip4 & Hvx4 & Hvy4); [lia|].
  eapply returns_bind_run; [exact Hrun4|].
  pose proof Hsh4 as (_ & _ & _ & Hlvx4 & Hlvy4 & _).
  do 2 apply returns_gets_bind.
  eapply returns_lift_bind; [apply vget_Ok; lia|].
  eapply returns_lift_bind; [apply vget_Ok; lia|].
  assert (Hsh0 : shape nr (length lines) {| M := m'; v := v ineq |}).
  { repeat split; simpl; try apply Hwf'; unfold nr; lia. }
  destruct (add_v_entries nr (length lines) _ c
              (hyq.SuppTriangle.p (hyq.SuppTriangle.coeff l)
               * vcoeff (ineq_ipopt_vx_ o4) c)%D Hsh0)
    as (i1 & Hi1 & Hs1 & HM1 & Hv1); [lia|].
  eapply returns_lift_bind; [exact Hi1|].
  destruct (add_v_entries nr (length lines) i1 c
              (hyq.SuppTriangle.q (hyq.SuppTriangle.coeff l)
               * vcoeff (ineq_ipopt_vy_ o4) c)%D Hs1)
    as (i2 & Hi2 & Hs2 & HM2 & Hv2); [lia|].
  eapply returns_lift_bind; [exact Hi2|].
  destruct (add_v_entries nr (length lines) i2 c
              (hyq.SuppTriangle.r (hyq.SuppTriangle.coeff l)
               - hyq.SuppTriangle.s_margin l)%D Hs2)
    as (i3 & Hi3 & Hs3 & HM3 & Hv3); [lia|].
  eapply returns_lift_bind; [exact Hi3|].
  apply returns_ret. cbn [fst snd].
  split; [reflexivity|]. split; [assumption|]. split; [assumption|].
  assert (Hvxc : vcoeff (ineq_ipopt_vx_ o4) c = (e0x * arr t 0 + f0x)%D).
  { rewrite Hvx4, Hvx3. destruct (decide (c = c)); [reflexivity|congruence]. }
  assert (Hvyc : vcoeff (ineq_ipopt_vy_ o4) c = (e0y * arr t 0 + f0y)%D).
  { rewrite Hvy4. destruct (decide (c = c)); [reflexivity|congruence]. }
  assert (Hcolumn : forall i, 0 <= i < Z.of_nat nr ->
    coeff (ineq_ipopt_ o2) i c
    = zmp_column (Z.of_nat k) h fzero t Y Eky Fky
        (zmp_column (Z.of_nat k) h fzero t X Ekx Fkx
           (fun i' => coeff (ineq_ipopt_ o) i' c)) i).
  { intros i Hi. rewrite Hco2.
    destruct (decide _) as [_|Hn]; [|exfalso; apply Hn; auto].
    apply zmp_column_ext. rewrite Hco1.
    destruct (decide _) as [_|Hn]; [reflexivity|exfalso; apply Hn; auto]. }
  unfold constraint_written. cbv zeta.
  split; [|split; [|split; [|split; [|split]]]].
  - intros i Hi. rewrite Hip4, Hip3. split; [apply Hcolumn; assumption|].
    rewrite HM3, HM2, HM1. cbn [M]. rewrite Hm'e.
    destruct (decide (c = c)) as [_|?]; [|congruence].
    rewrite vcoeff_zip_with by (unfold nr in *; lia).
    rewrite Hcole, Hcolumn, Hlce by (unfold nr in *; lia). reflexivity.
  - exact Hvxc.
  - exact Hvyc.
  - rewrite Hv3, Hv2, Hv1. cbn [v].
    repeat (destruct (decide (c = c)) as [_|?]; [|congruence]).
    rewrite Hvxc, Hvyc. reflexivity.
  - intros i j' Hne. rewrite Hip4, Hip3, Hco2, Hco1.
    repeat (destruct (decide _) as [[? ?]|?]; [congruence|]).
    split; [reflexivity|].
    rewrite HM3, HM2, HM1. cbn [M]. rewrite Hm'e.
    destruct (decide _); [congruence|reflexivity].
  - intros j' Hne. rewrite Hvx4, Hvx3, Hvy4, Hvy3, Hvx2, Hvx1, Hvy2, Hvy1.
    repeat (destruct (decide _); [congruence|]).
    rewrite Hv3. destruct (decide _); [congruence|].
    rewrite Hv2. destruct (decide _); [congruence|].
    rewrite Hv1. destruct (decide _); [congruence|]. auto.
Qed.

End InequalityEntries.

(** *** The constraints, column by column

    Each constraint fills the column of its own number and leaves the others
    as they are, so a column keeps what its constraint wrote.  The columns
    are described by the list of the (segment, time) pairs of the constraints
    made so far. *)

Section ConstraintSchedule.
Context {T : Type} `{Double T}.
Variable sc : SplineContainer T.
Variables start_cog_p start_cog_v : Vector2d T.
Variable lines : list (hyq.SuppTriangle.TrLine T).
Variable h : T.

(** The descriptions of E and F of the segment [k] on the axis [dim] that
    the loop over the segments asks for. *)
Definition Ek_of (k : Z) (dim : Coords) : VectorXd T * T :=
  DescribeEByPrev sc k dim (at_dim start_cog_v dim).
Definition Fk_of (k : Z) (dim : Coords) : VectorXd T * T :=
  DescribeFByPrev sc k dim (at_dim start_cog_v dim) (at_dim start_cog_p dim).

(** The column of [ineq_ipopt_] of a constraint of the segment [k] at the
    time [time], from a column of zeros. *)
Definition ipopt_column (k : Z) (time : T) (i : Z) : T :=
  let t := cache_exponents 6 time in
  zmp_column k h fzero t Y (fst (Ek_of k Y)) (fst (Fk_of k Y))
    (zmp_column k h fzero t X (fst (Ek_of k X)) (fst (Fk_of k X))
       (fun _ => fzero)) i.

(** Its entry of [ineq_ipopt_vx_] or [ineq_ipopt_vy_]. *)
Definition ipopt_constant (k : Z) (time : T) (dim : Coords) : T :=
  (snd (Ek_of k dim) * arr (cache_exponents 6 time) 0 + snd (Fk_of k dim))%D.

(** Its entry of [ineq.v], from zero. *)
Definition constraint_constant (k : Z) (time : T)
    (l : hyq.SuppTriangle.TrLine T) : T :=
  (fzero
   + hyq.SuppTriangle.p (hyq.SuppTriangle.coeff l) * ipopt_constant k time X
   + hyq.SuppTriangle.q (hyq.SuppTriangle.coeff l) * ipopt_constant k time Y
   + (hyq.SuppTriangle.r (hyq.SuppTriangle.coeff l)
      - hyq.SuppTriangle.s_margin l))%D.

Definition column_done (c : nat) (prm : Z * T) (ineq : MatVec T)
    (o : ZmpOptimizer T) : Prop :=
  exists l, lines !! c = Some l /\
    (forall i, 0 <= i < Z.of_nat (length (splines_ sc) * 8) ->
       coeff (ineq_ipopt_ o) i (Z.of_nat c) = ipopt_column prm.1 prm.2 i /\
       coeff (M ineq) i (Z.of_nat c)
       = (ipopt_column prm.1 prm.2 i
          * (if (i / 4) mod 2 =? 0
             then hyq.SuppTriangle.p (hyq.SuppTriangle.coeff l)
             else hyq.SuppTriangle.q (hyq.SuppTriangle.coeff l)))%D) /\
    vcoeff (ineq_ipopt_vx_ o) (Z.of_nat c) = ipopt_constant prm.1 prm.2 X /\
    vcoeff (ineq_ipopt_vy_ o) (Z.of_nat c) = ipopt_constant prm.1 prm.2 Y /\
    vcoeff (v ineq) (Z.of_nat c) = constraint_constant prm.1 prm.2 l.

Definition column_fresh (c : Z) (ineq : MatVec T) (o : ZmpOptimizer T) : Prop :=
  (forall i, coeff (ineq_ipopt_ o) i c = fzero) /\ vcoeff (v ineq) c = fzero.

(** The state of the builder after the constraints of [sched]. *)
Definition written (sched : list (Z * T)) (st : MatVec T * Z)
    (o : ZmpOptimizer T) : Prop :=
  snd st = Z.of_nat (length sched) /\
  shape (length (splines_ sc) * 8) (length lines) (fst st) /\
  ipopt_shape sc (length (splines_ sc) * 8) (length lines) o /\
  (forall c, Z.of_nat (length sched) <= c -> column_fresh c (fst st) o) /\
  (forall c prm, sched !! c = Some prm -> column_done c prm (fst st) o).

Lemma returns_zmp_constraint_written sched (k : nat) time
    Ekx e0x Fkx f0x Eky e0y Fky f0y j st o :
  wf_splines sc -> (k < length (splines_ sc))%nat ->
  (length sched < length lines)%nat ->
  Ek_of (Z.of_nat k) X = (Ekx, e0x) -> Fk_of (Z.of_nat k) X = (Fkx, f0x) ->
  Ek_of (Z.of_nat k) Y = (Eky, e0y) -> Fk_of (Z.of_nat k) Y = (Fky, f0y) ->
  written sched st o ->
  returns (zmp_constraint lines (Z.of_nat k) h (cache_exponents 6 time)
             Ekx Fkx Eky Fky e0x f0x e0y f0y j st) o
    (written (sched ++ [(Z.of_nat k, time)])).
Proof.
  intros Hwf Hk Hlt HEx HFx HEy HFy.
  destruct st as [ineq c]. intros (Hc & Hsh & Hip & Hfresh & Hdone).
  cbn [fst snd] in *. subst c.
  destruct (lookup_lt_is_Some_2 lines (length sched) Hlt) as [l Hl].
  pose proof (length_DescribeEByPrev sc (Z.of_nat k) X (at_dim start_cog_v X))
    as HlEx.
  pose proof (length_DescribeFByPrev sc (Z.of_nat k) X (at_dim start_cog_v X)
                (at_dim start_cog_p X)) as HlFx.
  pose proof (length_DescribeEByPrev sc (Z.of_nat k) Y (at_dim start_cog_v Y))
    as HlEy.
  pose proof (length_DescribeFByPrev sc (Z.of_nat k) Y (at_dim start_cog_v Y)
                (at_dim start_cog_p Y)) as HlFy.
  unfold Ek_of, Fk_of in HEx, HFx, HEy, HFy.
  rewrite HEx in HlEx. rewrite HFx in HlFx. rewrite HEy in HlEy.
  rewrite HFy in HlFy. cbn [fst] in HlEx, HlFx, HlEy, HlFy.
  unfold GetOptCoeffCount, kOptCoeff, kDim2d in HlEx, HlFx, HlEy, HlFy.
  eapply returns_weaken.
  { apply (returns_zmp_constraint_entries sc lines k h (cache_exponents 6 time)
             Ekx Fkx Eky Fky e0x f0x e0y f0y j ineq (Z.of_nat (length sched))
             l o Hwf Hk Hip Hsh); [lia|rewrite Nat2Z.id; exact Hl|lia..]. }
  intros [ineq' c'] o' (Hc' & Hsh' & Hip' & Hw). cbn [fst snd] in *.
  destruct Hw as (Hcol & Hvx & Hvy & Hv & Hothers & Hvothers).
  unfold written. cbn [fst snd]. rewrite length_app. cbn [length].
  split; [lia|]. split; [assumption|]. split; [assumption|]. split.
  - intros c Hge. destruct (Hfresh c) as [Hf1 Hf2]; [lia|].
    assert (Hne : c <> Z.of_nat (length sched)) by lia.
    split.
    + intros i. rewrite (proj1 (Hothers i c Hne)). apply Hf1.
    + rewrite (proj2 (proj2 (Hvothers c Hne))). exact Hf2.
  - intros c prm Hprm.
    destruct (decide (c < length sched)%nat) as [Hlt'|Hge].
    + rewrite lookup_app_l in Hprm by assumption.
      destruct (Hdone c prm Hprm) as (l' & Hl' & Hcol' & Hvx' & Hvy' & Hv').
      assert (Hne : Z.of_nat c <> Z.of_nat (length sched)) by lia.
      exists l'. split; [assumption|].
      destruct (Hvothers _ Hne) as (Hox & Hoy & Hov).
      rewrite Hox, Hoy, Hov.
      split; [|split; [assumption|split; assumption]].
      intros i Hi. destruct (Hothers i _ Hne) as [-> ->]. apply Hcol'. exact Hi.
    + pose proof (lookup_lt_Some _ _ _ Hprm) as Hlen.
      rewrite length_app in Hlen. cbn [length] in Hlen.
      assert (c = length sched) by lia. subst c.
      rewrite lookup_app_r, Nat.sub_diag in Hprm by lia.
      injection Hprm as <-. cbn [fst snd].
      destruct (Hfresh (Z.of_nat (length sched))) as [Hf1 Hf2]; [lia|].
      assert (Hcolumn : forall i,
        zmp_column (Z.of_nat k) h fzero (cache_exponents 6 time) Y Eky Fky
          (zmp_column (Z.of_nat k) h fzero (cache_exponents 6 time) X Ekx Fkx
             (fun i' => coeff (ineq_ipopt_ o) i' (Z.of_nat (length sched)))) i
        = ipopt_column (Z.of_nat k) time i).
      { intros i. unfold ipopt_column, Ek_of, Fk_of. cbv zeta.
        rewrite HEx, HFx, HEy, HFy. cbn [fst].
        apply zmp_column_ext. apply zmp_column_ext. apply Hf1. }
      exists l. split; [assumption|].
      unfold constraint_constant, ipopt_constant, Ek_of, Fk_of.
      cbn [fst snd]. rewrite HEx, HFx, HEy, HFy. cbn [snd].
      split; [|split; [assumption|split; [assumption|]]].
      * intros i Hi. destruct (Hcol i Hi) as [-> ->].
        rewrite Hcolumn. split; reflexivity.
      * rewrite Hv, Hf2. reflexivity.
Qed.

(** The constant of a row is the same at every time: [t[0]] is 1. *)
Lemma constraint_constant_time k time time' l :
  constraint_constant k time l = constraint_constant k time' l.
Proof. reflexivity. Qed.

(** The loop over the three edges at one sample. *)
Lemma returns_sample_written sched (k : nat) time
    Ekx e0x Fkx f0x Eky e0y Fky f0y st o :
  wf_splines sc -> (k < length (splines_ sc))%nat ->
  (length sched + 3 <= length lines)%nat ->
  Ek_of (Z.of_nat k) X = (Ekx, e0x) -> Fk_of (Z.of_nat k) X = (Fkx, f0x) ->
  Ek_of (Z.of_nat k) Y = (Eky, e0y) -> Fk_of (Z.of_nat k) Y = (Fky, f0y) ->
  written sched st o ->
  returns (for_each_m [0; 1; 2]
             (zmp_constraint lines (Z.of_nat k) h (cache_exponents 6 time)
                Ekx Fkx Eky Fky e0x f0x e0y f0y) st) o
    (written (sched ++ replicate 3 (Z.of_nat k, time))).
Proof.
  intros Hwf Hk Hlen HEx HFx HEy HFy Hw.
  cbn [for_each_m replicate].
  eapply returns_bind.
  { apply (returns_zmp_constraint_written sched k time); try eassumption. lia. }
  intros st1 o1 Hw1.
  eapply returns_bind.
  { apply (returns_zmp_constraint_written (sched ++ [(Z.of_nat k, time)]) k
             time); try eassumption.
    rewrite length_app. simpl. lia. }
  intros st2 o2 Hw2.
  eapply returns_bind.
  { apply (returns_zmp_constraint_written
             ((sched ++ [(Z.of_nat k, time)]) ++ [(Z.of_nat k, time)]) k time);
      try eassumption.
    rewrite !length_app. simpl. lia. }
  intros st3 o3 Hw3.
  apply returns_ret. rewrite <- !app_assoc in Hw3. exact Hw3.
Qed.

End ConstraintSchedule.

(** The entries of the returned cost matrix, block by block. *)
Section CostEntries.
Context {T : Type} `{Double T}.
Variables (sc : SplineContainer T) (weight : Vector2d T) (cf : MatVec T).
Hypothesis Hwf : wf_splines sc.
Hypothesis Hrun : CreateMinAccCostFunction sc weight = Ok cf.

Lemma cost_entries_of_run :
  wf_matrix (M cf) /\
  Z.of_nat (rows (M cf)) = GetOptCoeffCount sc /\
  Z.of_nat (cols (M cf)) = GetOptCoeffCount sc /\
  (forall r c, 0 <= r <= c -> c < GetOptCoeffCount sc ->
     coeff (M cf) r c
     = upper sc weight (2 * Z.of_nat (length (splines_ sc))) r c) /\
  (forall r c, 0 <= c < r -> r < GetOptCoeffCount sc ->
     coeff (M cf) r c = coeff (M cf) c r).
Proof using Hwf Hrun.
  destruct (CreateMinAccCostFunction_entries sc weight Hwf)
    as (cf' & Hrun' & H1 & H2 & H3 & H4 & H5 & _).
  assert (cf' = cf) as -> by congruence. auto.
Qed.

Lemma cost_entry_in_block s (k : nat) dim i j :
  splines_ sc !! k = Some s -> 0 <= i <= 3 -> 0 <= j <= 3 ->
  coeff (M cf) (8 * Z.of_nat k + 4 * dim_int dim + i)
               (8 * Z.of_nat k + 4 * dim_int dim + j)
  = if i <=? j
    then cost_coef (cache_exponents 10 (duration_ s)) (at_dim weight dim) i j
    else cost_coef (cache_exponents 10 (duration_ s)) (at_dim weight dim) j i.
Proof using Hwf Hrun.
  intros Hs Hi Hj.
  destruct cost_entries_of_run as (_ & _ & _ & Hup & Hsym).
  pose proof (lookup_lt_Some _ _ _ Hs) as Hk.
  assert (Hd : 0 <= dim_int dim <= 1) by (destruct dim; simpl; lia).
  assert (Hupper : forall i' j', 0 <= i' <= j' -> j' <= 3 ->
    coeff (M cf) (8 * Z.of_nat k + 4 * dim_int dim + i')
                 (8 * Z.of_nat k + 4 * dim_int dim + j')
    = cost_coef (cache_exponents 10 (duration_ s)) (at_dim weight dim) i' j').
  { intros i' j' Hi' Hj'. rewrite Hup.
    - rewrite <- (upper_at_block sc weight s k dim i' j') by (assumption || lia).
      unfold upper.
      assert (Hr4 : (8 * Z.of_nat k + 4 * dim_int dim + i') / 4
                = 2 * Z.of_nat k + dim_int dim).
      { symmetry. apply (Z.div_unique _ 4 _ i'); lia. }
      assert (Hc4 : (8 * Z.of_nat k + 4 * dim_int dim + j') / 4
                = 2 * Z.of_nat k + dim_int dim).
      { symmetry. apply (Z.div_unique _ 4 _ j'); lia. }
      rewrite Hr4, Hc4.
      destruct (decide _) as [?|Hn], (decide _) as [?|Hn'];
        try reflexivity; exfalso; lia.
    - lia.
    - unfold GetOptCoeffCount, kOptCoeff, kDim2d. lia. }
  destruct (i <=? j) eqn:E.
  - apply Z.leb_le in E. apply Hupper; lia.
  - apply Z.leb_gt in E. rewrite Hsym.
    + apply Hupper; lia.
    + lia.
    + unfold GetOptCoeffCount, kOptCoeff, kDim2d. lia.
Qed.

Lemma cost_entry_off_block r c :
  0 <= r < GetOptCoeffCount sc -> 0 <= c < GetOptCoeffCount sc ->
  r / 4 <> c / 4 -> coeff (M cf) r c = fzero.
Proof using Hwf Hrun.
  intros Hr Hc Hne.
  destruct cost_entries_of_run as (_ & _ & _ & Hup & Hsym).
  assert (Hz : forall r' c', 0 <= r' <= c' -> c' < GetOptCoeffCount sc ->
            r' / 4 <> c' / 4 -> coeff (M cf) r' c' = fzero).
  { intros r' c' Hrc Hc' Hne'. rewrite Hup by assumption. unfold upper.
    destruct (decide _) as [[He _]|_]; [contradiction|reflexivity]. }
  destruct (Z.le_gt_cases r c) as [Hle|Hgt].
  - apply Hz; [lia|lia|assumption].
  - rewrite Hsym by lia. apply Hz; [lia|lia|congruence].
Qed.

End CostEntries.

(** ** The acceleration energy of a quintic, over the reals *)

Section Energy.
Local Open Scope R_scope.

Definition quintic (a b c d e f t : R) : R :=
  a * t ^ 5 + b * t ^ 4 + c * t ^ 3 + d * t ^ 2 + e * t + f.

Definition quintic_vel (a b c d e t : R) : R :=
  5 * a * t ^ 4 + 4 * b * t ^ 3 + 3 * c * t ^ 2 + 2 * d * t + e.

Definition quintic_acc (a b c d t : R) : R :=
  20 * a * t ^ 3 + 12 * b * t ^ 2 + 6 * c * t + 2 * d.

(** The integrand of the cost: the squared second derivative. *)
Definition acc_sq (a b c d t : R) : R := (quintic_acc a b c d t) ^ 2.

(** A primitive of [acc_sq] that vanishes at 0. *)
Definition acc_sq_primitive (a b c d t : R) : R :=
  400 / 7 * a ^ 2 * t ^ 7 + 80 * a * b * t ^ 6
  + (48 * a * c + 144 / 5 * b ^ 2) * t ^ 5
  + (20 * a * d + 36 * b * c) * t ^ 4
  + (16 * b * d + 12 * c ^ 2) * t ^ 3
  + 12 * c * d * t ^ 2 + 4 * d ^ 2 * t.

Lemma polynomial_derivative (An : nat -> R) (N : nat) (f : R -> R) (x l : R) :
  (forall y, sum_f_R0 (fun k => An k * y ^ k) N = f y) ->
  match N with
  | O => 0
  | S _ => sum_f_R0 (fun k => INR (S k) * An (S k) * x ^ k) (pred N)
  end = l ->
  derivable_pt_lim f x l.
Proof.
  intros Hf Hl. rewrite <- Hl.
  apply (derivable_pt_lim_ext (fun y => sum_f_R0 (fun k => An k * y ^ k) N));
    [assumption|].
  apply derivable_pt_lim_finite_sum.
Qed.

Lemma quintic_derivative a b c d e f t :
  derivable_pt_lim (quintic a b c d e f) t (quintic_vel a b c d e t).
Proof.
  apply (polynomial_derivative (fun k => nth k [f; e; d; c; b; a] 0) 5).
  - intros y. unfold quintic. simpl. ring.
  - unfold quintic_vel. simpl. ring.
Qed.

Lemma quintic_vel_derivative a b c d e t :
  derivable_pt_lim (quintic_vel a b c d e) t (quintic_acc a b c d t).
Proof.
  apply (polynomial_derivative
           (fun k => nth k [e; 2 * d; 3 * c; 4 * b; 5 * a] 0) 4).
  - intros y. unfold quintic_vel. simpl. ring.
  - unfold quintic_acc. simpl. ring.
Qed.

Lemma acc_sq_primitive_derivative a b c d t :
  derivable_pt_lim (acc_sq_primitive a b c d) t (acc_sq a b c d t).
Proof.
  apply (polynomial_derivative
           (fun k => nth k [0; 4 * d ^ 2; 12 * c * d; 16 * b * d + 12 * c ^ 2;
                            20 * a * d + 36 * b * c;
                            48 * a * c + 144 / 5 * b ^ 2;
                            80 * a * b; 400 / 7 * a ^ 2] 0) 7).
  - intros y. unfold acc_sq_primitive. simpl. field.
  - unfold acc_sq, quintic_acc. simpl. field.
Qed.

Lemma acc_sq_primitive_derivable a b c d : derivable (acc_sq_primitive a b c d).
Proof.
  intros t. exists (acc_sq a b c d t). apply acc_sq_primitive_derivative.
Qed.

Lemma acc_sq_primitive_derive a b c d :
  derive (acc_sq_primitive a b c d) (acc_sq_primitive_derivable a b c d)
  = acc_sq a b c d.
Proof.
  apply FunctionalExtensionality.functional_extensionality. intros t.
  unfold derive. apply derive_pt_eq. apply acc_sq_primitive_derivative.
Qed.

Lemma acc_sq_continuity a b c d : continuity (acc_sq a b c d).
Proof.
  intros t. apply derivable_continuous_pt.
  exists (2 * quintic_acc a b c d t
          * (60 * a * t ^ 2 + 24 * b * t + 6 * c)).
  apply (polynomial_derivative
           (fun k => nth k [4 * d ^ 2; 24 * c * d; 48 * b * d + 36 * c ^ 2;
                            80 * a * d + 144 * b * c;
                            240 * a * c + 144 * b ^ 2;
                            480 * a * b; 400 * a ^ 2] 0) 6).
  - intros y. unfold acc_sq, quintic_acc. simpl. ring.
  - unfold quintic_acc. simpl. ring.
Qed.

Definition acc_sq_C1 (a b c d : R) : C1_fun.
Proof.
  refine (@mkC1 (acc_sq_primitive a b c d)
            (acc_sq_primitive_derivable a b c d) _).
  rewrite acc_sq_primitive_derive. apply acc_sq_continuity.
Defined.

Lemma acc_sq_integrable a b c d (t0 t1 : R) :
  Riemann_integrable (acc_sq a b c d) t0 t1.
Proof.
  rewrite <- acc_sq_primitive_derive.
  apply (RiemannInt_P32 (acc_sq_C1 a b c d)).
Qed.

(** The integral of the squared second derivative over [[0, duration]]. *)
Definition acc_energy (a b c d duration : R) : R :=
  RiemannInt (acc_sq_integrable a b c d 0 duration).

(** The fundamental theorem of calculus gives the integral in closed form,
    whichever proof of integrability it is taken with. *)
Lemma acc_sq_integral a b c d t0 t1
    (pr : Riemann_integrable (acc_sq a b c d) t0 t1) :
  RiemannInt pr = acc_sq_primitive a b c d t1 - acc_sq_primitive a b c d t0.
Proof.
  revert pr. rewrite <- acc_sq_primitive_derive. intros pr.
  apply (FTC_Riemann (acc_sq_C1 a b c d)).
Qed.

Lemma acc_energy_closed_form a b c d duration :
  acc_energy a b c d duration = acc_sq_primitive a b c d duration.
Proof.
  unfold acc_energy. rewrite acc_sq_integral.
  unfold acc_sq_primitive. field.
Qed.

End Energy.

(** ** The quadratic form of the cost matrix, over the reals *)

Section QuadraticForm.
Local Open Scope R_scope.

Fixpoint sum_n (n : nat) (f : Z -> R) : R :=
  match n with
  | O => 0
  | S k => sum_n k f + f (Z.of_nat k)
  end.

(** [x^T m x] *)
Definition quad_form (m : MatrixXd R) (x : VectorXd R) : R :=
  sum_n (rows m) (fun r =>
    sum_n (cols m) (fun c => vcoeff x r * coeff m r c * vcoeff x c)).

Definition Rsum (l : list R) : R := fold_right Rplus 0 l.

(** The acceleration energy of the segment [s] on the axis [dim], for the
    free coefficients that [x] holds at the segment's indices. *)
Definition axis_energy (x : VectorXd R) (s : ZmpSpline R) (dim : Coords) : R :=
  acc_energy
    (vcoeff x (var_index (id_ s) (dim_int dim) (coeff_int A)))
    (vcoeff x (var_index (id_ s) (dim_int dim) (coeff_int B)))
    (vcoeff x (var_index (id_ s) (dim_int dim) (coeff_int C)))
    (vcoeff x (var_index (id_ s) (dim_int dim) (coeff_int D)))
    (duration_ s).

(** The sum over the segments and the axes of the weighted energies. *)
Definition min_acc_cost (sc : SplineContainer R) (weight : Vector2d R)
    (x : VectorXd R) : R :=
  Rsum (map (fun s => at_dim weight X * axis_energy x s X
                      + at_dim weight Y * axis_energy x s Y) (splines_ sc)).

Lemma sum_n_ext n f g :
  (forall i, (0 <= i < Z.of_nat n)%Z -> f i = g i) -> sum_n n f = sum_n n g.
Proof.
  induction n as [|n IH]; intros Hfg; simpl; [reflexivity|].
  rewrite IH by (intros i Hi; apply Hfg; lia).
  rewrite Hfg by lia. reflexivity.
Qed.

Lemma sum_n_zero n f :
  (forall i, (0 <= i < Z.of_nat n)%Z -> f i = 0) -> sum_n n f = 0.
Proof.
  induction n as [|n IH]; intros Hf; simpl; [reflexivity|].
  rewrite IH by (intros i Hi; apply Hf; lia).
  rewrite Hf by lia. ring.
Qed.

Lemma sum_n_single n f (k : nat) :
  (k < n)%nat ->
  (forall i, (0 <= i < Z.of_nat n)%Z -> i <> Z.of_nat k -> f i = 0) ->
  sum_n n f = f (Z.of_nat k).
Proof.
  induction n as [|n IH]; intros Hk Hf; [lia|]. simpl.
  destruct (decide (k = n)) as [->|Hne].
  - rewrite sum_n_zero; [ring|]. intros i Hi. apply Hf; lia.
  - rewrite IH; [|lia|intros i Hi ?; apply Hf; lia].
    rewrite (Hf (Z.of_nat n)) by lia. ring.
Qed.

(** The four entries of one axis of segment [k]. *)
Definition axis_sum (f : Z -> R) (k : Z) (dim : Coords) : R :=
  f (8 * k + 4 * dim_int dim + 0)%Z + f (8 * k + 4 * dim_int dim + 1)%Z
  + f (8 * k + 4 * dim_int dim + 2)%Z + f (8 * k + 4 * dim_int dim + 3)%Z.

Lemma sum_n_segments n f :
  sum_n (n * 8) f = sum_n n (fun k => axis_sum f k X + axis_sum f k Y).
Proof.
  induction n as [|n IH]; [reflexivity|].
  change (S n * 8)%nat with (8 + n * 8)%nat.
  cbn [sum_n Nat.add]. rewrite IH. unfold axis_sum, dim_int.
  replace (Z.of_nat (n * 8)) with (8 * Z.of_nat n + 4 * 0 + 0)%Z by lia.
  replace (Z.of_nat (S (n * 8))) with (8 * Z.of_nat n + 4 * 0 + 1)%Z by lia.
  replace (Z.of_nat (S (S (n * 8)))) with (8 * Z.of_nat n + 4 * 0 + 2)%Z by lia.
  replace (Z.of_nat (S (S (S (n * 8)))))
    with (8 * Z.of_nat n + 4 * 0 + 3)%Z by lia.
  replace (Z.of_nat (S (S (S (S (n * 8))))))
    with (8 * Z.of_nat n + 4 * 1 + 0)%Z by lia.
  replace (Z.of_nat (S (S (S (S (S (n * 8)))))))
    with (8 * Z.of_nat n + 4 * 1 + 1)%Z by lia.
  replace (Z.of_nat (S (S (S (S (S (S (n * 8))))))))
    with (8 * Z.of_nat n + 4 * 1 + 2)%Z by lia.
  replace (Z.of_nat (S (S (S (S (S (S (S (n * 8)))))))))
    with (8 * Z.of_nat n + 4 * 1 + 3)%Z by lia.
  ring.
Qed.

Lemma Rsum_indexed {El} (l : list El) (h : El -> R) :
  Rsum (map h l)
  = sum_n (length l) (fun k => match l !! Z.to_nat k with
                               | Some s => h s
                               | None => 0
                               end).
Proof.
  induction l as [|s l IH] using rev_ind; [reflexivity|].
  rewrite map_app, length_app. simpl. rewrite Nat.add_1_r. simpl.
  unfold Rsum in *. rewrite fold_right_app. simpl.
  rewrite Nat2Z.id, lookup_app_r, Nat.sub_diag by lia. simpl.
  assert (Hshift : forall (l' : list R) z,
            fold_right Rplus z l' = fold_right Rplus 0 l' + z).
  { induction l' as [|y l' IH']; intros z; simpl; [ring|].
    rewrite IH'. ring. }
  rewrite Hshift, IH.
  rewrite (sum_n_ext (length l)
             (fun k => match (l ++ [s]) !! Z.to_nat k with
                       | Some s0 => h s0
                       | None => 0
                       end)
             (fun k => match l !! Z.to_nat k with
                       | Some s0 => h s0
                       | None => 0
                       end)).
  - ring.
  - intros i Hi. rewrite lookup_app_l by lia. reflexivity.
Qed.

End QuadraticForm.

Section CostOverReals.
Local Open Scope R_scope.
Variables (sc : SplineContainer R) (weight : Vector2d R) (cf : MatVec R).
Hypothesis Hwf : wf_splines sc.
Hypothesis Hrun : CreateMinAccCostFunction sc weight = Ok cf.

(** The sixteen entries of the block of segment [k] and axis [dim]. *)
Lemma block_entries_R s (k : nat) dim :
  splines_ sc !! k = Some s ->
  let a := (8 * Z.of_nat k + 4 * dim_int dim)%Z in
  let w := at_dim weight dim in
  let t := duration_ s in
  let m := M cf in
  (coeff m (a + 0) (a + 0) = 400 / 7 * t ^ 7 * w /\
   coeff m (a + 0) (a + 1) = 40 * t ^ 6 * w /\
   coeff m (a + 0) (a + 2) = 24 * t ^ 5 * w /\
   coeff m (a + 0) (a + 3) = 10 * t ^ 4 * w) /\
  (coeff m (a + 1) (a + 0) = 40 * t ^ 6 * w /\
   coeff m (a + 1) (a + 1) = 144 / 5 * t ^ 5 * w /\
   coeff m (a + 1) (a + 2) = 18 * t ^ 4 * w /\
   coeff m (a + 1) (a + 3) = 8 * t ^ 3 * w) /\
  (coeff m (a + 2) (a + 0) = 24 * t ^ 5 * w /\
   coeff m (a + 2) (a + 1) = 18 * t ^ 4 * w /\
   coeff m (a + 2) (a + 2) = 12 * t ^ 3 * w /\
   coeff m (a + 2) (a + 3) = 6 * t ^ 2 * w) /\
  (coeff m (a + 3) (a + 0) = 10 * t ^ 4 * w /\
   coeff m (a + 3) (a + 1) = 8 * t ^ 3 * w /\
   coeff m (a + 3) (a + 2) = 6 * t ^ 2 * w /\
   coeff m (a + 3) (a + 3) = 4 * t * w).
Proof using Hwf Hrun.
  intros Hs a w t m. subst a w t m.
  repeat split;
    rewrite (cost_entry_in_block sc weight cf Hwf Hrun s k dim _ _ Hs) by lia;
    cbn; field.
Qed.

(** The quadratic form of one block is the weighted energy in closed
    form. *)
Lemma block_quadratic s (k : nat) dim (x : VectorXd R) :
  splines_ sc !! k = Some s ->
  axis_sum (fun r => axis_sum (fun c => vcoeff x r * coeff (M cf) r c * vcoeff x c)
                       (Z.of_nat k) dim) (Z.of_nat k) dim
  = at_dim weight dim
    * acc_sq_primitive
        (vcoeff x (8 * Z.of_nat k + 4 * dim_int dim + 0))
        (vcoeff x (8 * Z.of_nat k + 4 * dim_int dim + 1))
        (vcoeff x (8 * Z.of_nat k + 4 * dim_int dim + 2))
        (vcoeff x (8 * Z.of_nat k + 4 * dim_int dim + 3))
        (duration_ s).
Proof using Hwf Hrun.
  intros Hs.
  destruct (block_entries_R s k dim Hs)
    as ((E00 & E01 & E02 & E03) & (E10 & E11 & E12 & E13)
        & (E20 & E21 & E22 & E23) & (E30 & E31 & E32 & E33)).
  cbv zeta in *. unfold axis_sum.
  rewrite E00, E01, E02, E03, E10, E11, E12, E13,
    E20, E21, E22, E23, E30, E31, E32, E33.
  unfold acc_sq_primitive. field.
Qed.

Lemma cross_entry_zero (k k' : nat) dim dim' (i j : Z) :
  (k < length (splines_ sc))%nat -> (k' < length (splines_ sc))%nat ->
  (0 <= i <= 3)%Z -> (0 <= j <= 3)%Z ->
  (k, dim) <> (k', dim') ->
  coeff (M cf) (8 * Z.of_nat k + 4 * dim_int dim + i)
               (8 * Z.of_nat k' + 4 * dim_int dim' + j) = 0.
Proof using Hwf Hrun.
  intros Hk Hk' Hi Hj Hne.
  pose proof (dim_int_bounds dim). pose proof (dim_int_bounds dim').
  apply (cost_entry_off_block sc weight cf Hwf Hrun).
  - unfold GetOptCoeffCount, kOptCoeff, kDim2d. lia.
  - unfold GetOptCoeffCount, kOptCoeff, kDim2d. lia.
  - rewrite !div4_index by assumption.
    intros Heq. apply Hne.
    assert (k = k') as -> by lia.
    assert (dim_int dim = dim_int dim') as Hd by lia.
    destruct dim, dim'; simpl in Hd; try lia; reflexivity.
Qed.

(** A row of the quadratic form only meets its own block. *)
Lemma row_sum (k : nat) dim (i : Z) (x : VectorXd R) :
  (k < length (splines_ sc))%nat -> (0 <= i <= 3)%Z ->
  sum_n (length (splines_ sc) * 8)
    (fun c => vcoeff x (8 * Z.of_nat k + 4 * dim_int dim + i)
              * coeff (M cf) (8 * Z.of_nat k + 4 * dim_int dim + i) c
              * vcoeff x c)
  = axis_sum (fun c => vcoeff x (8 * Z.of_nat k + 4 * dim_int dim + i)
                       * coeff (M cf) (8 * Z.of_nat k + 4 * dim_int dim + i) c
                       * vcoeff x c)
      (Z.of_nat k) dim.
Proof using Hwf Hrun.
  intros Hk Hi.
  rewrite sum_n_segments.
  rewrite (sum_n_single _ _ k Hk).
  - destruct dim; unfold axis_sum.
    + rewrite !(cross_entry_zero k k X Y) by (lia || congruence). ring.
    + rewrite !(cross_entry_zero k k Y X) by (lia || congruence). ring.
  - intros k' Hk' Hne. unfold axis_sum.
    replace k' with (Z.of_nat (Z.to_nat k')) by lia.
    rewrite !(cross_entry_zero k (Z.to_nat k') dim X),
      !(cross_entry_zero k (Z.to_nat k') dim Y);
      try lia; try (intros Heq; injection Heq; lia).
    ring.
Qed.

Lemma axis_rows (k : nat) dim (x : VectorXd R) :
  (k < length (splines_ sc))%nat ->
  axis_sum (fun r => sum_n (length (splines_ sc) * 8)
                       (fun c => vcoeff x r * coeff (M cf) r c * vcoeff x c))
    (Z.of_nat k) dim
  = axis_sum (fun r => axis_sum
                (fun c => vcoeff x r * coeff (M cf) r c * vcoeff x c)
                (Z.of_nat k) dim) (Z.of_nat k) dim.
Proof using Hwf Hrun.
  intros Hk.
  unfold axis_sum at 1 2.
  rewrite (row_sum k dim 0 x), (row_sum k dim 1 x), (row_sum k dim 2 x),
    (row_sum k dim 3 x) by lia.
  reflexivity.
Qed.

Lemma quad_form_by_segments (x : VectorXd R) :
  quad_form (M cf) x
  = sum_n (length (splines_ sc)) (fun k =>
      match splines_ sc !! Z.to_nat k with
      | Some s =>
          at_dim weight X
          * acc_sq_primitive
              (vcoeff x (8 * k + 4 * dim_int X + 0))
              (vcoeff x (8 * k + 4 * dim_int X + 1))
              (vcoeff x (8 * k + 4 * dim_int X + 2))
              (vcoeff x (8 * k + 4 * dim_int X + 3)) (duration_ s)
          + at_dim weight Y
            * acc_sq_primitive
                (vcoeff x (8 * k + 4 * dim_int Y + 0))
                (vcoeff x (8 * k + 4 * dim_int Y + 1))
                (vcoeff x (8 * k + 4 * dim_int Y + 2))
                (vcoeff x (8 * k + 4 * dim_int Y + 3)) (duration_ s)
      | None => 0
      end).
Proof using Hwf Hrun.
  destruct (cost_entries_of_run sc weight cf Hwf Hrun) as (_ & Hr & Hc & _).
  unfold GetOptCoeffCount, kOptCoeff, kDim2d in Hr, Hc.
  unfold quad_form.
  replace (rows (M cf)) with (length (splines_ sc) * 8)%nat by lia.
  replace (cols (M cf)) with (length (splines_ sc) * 8)%nat by lia.
  rewrite sum_n_segments. apply sum_n_ext. intros k Hk.
  assert (Hk' : k = Z.of_nat (Z.to_nat k)) by lia.
  destruct (lookup_lt_is_Some_2 (splines_ sc) (Z.to_nat k)) as [s Hs]; [lia|].
  rewrite Hs. revert Hs. generalize (Z.to_nat k) as K, Hk'.
  intros K -> Hs.
  pose proof (lookup_lt_Some _ _ _ Hs) as HK.
  rewrite !axis_rows by assumption.
  rewrite !(block_quadratic s K _ x Hs). reflexivity.
Qed.

End CostOverReals.

(** ** Counting with doubles

    The code counts the samples of a segment twice: [LineForConstraint]
    converts [std::floor(duration / dt)] to an [int] and loops over the
    [int]s below it, and the inequality builder loops over the doubles
    [0, 1, 2, ...] below the same floor.  [DoubleCount] states what the two
    loops need of the numbers; it is proved below for binary64, from the
    definitions of the IEEE operations, and for the reals. *)

Class DoubleCount (T : Type) `{Double T} := {
  (* the well-formed values: every real number; every double whose mantissa
     and exponent are those of a binary64 number, infinities and NaN
     included *)
  fvalid : T -> bool;
  f_of_Z_0 : f_of_Z 0 = fzero;
  (* [++i] on the double of an [int] gives the double of the next *)
  f_of_Z_succ : forall k,
    0 <= k < INT_MAX -> (f_of_Z k + fone)%D = f_of_Z (k + 1);
  f_to_int_in_int : forall x n, f_to_int x = Some n -> in_int n = true;
  (* [i < std::floor(d / dt)] for the double [i] of an [int] agrees with
     [i < n_nodes] for the [int] that the floor converts to *)
  fltb_floor_fdiv : forall d dt n k,
    f_to_int (ffloor (d / dt)%D) = Some n -> 0 <= k <= INT_MAX ->
    fltb (f_of_Z k) (ffloor (d / dt)%D) = (k <? n);
  (* the quotient of a number that is not negative by a larger one floors
     to zero *)
  floor_fdiv_lt : forall d dt,
    fvalid d = true -> fvalid dt = true ->
    fltb d dt = true -> fltb d fzero = false ->
    f_to_int (ffloor (d / dt)%D) = Some 0
}.

(** *** Counting in binary64 *)

Lemma digits2_pos_bounds (p : positive) :
  2 ^ (Z.pos (digits2_pos p) - 1) <= Z.pos p < 2 ^ Z.pos (digits2_pos p).
Proof.
  induction p as [p IH|p IH|]; cbn [digits2_pos]; [| |change (1 <= 1 < 2); lia].
  - rewrite Pos2Z.inj_succ, (Pos2Z.inj_xI p).
    replace (Z.succ (Z.pos (digits2_pos p)) - 1)
      with (Z.succ (Z.pos (digits2_pos p) - 1)) by lia.
    rewrite !Z.pow_succ_r by lia. lia.
  - rewrite Pos2Z.inj_succ, (Pos2Z.inj_xO p).
    replace (Z.succ (Z.pos (digits2_pos p)) - 1)
      with (Z.succ (Z.pos (digits2_pos p) - 1)) by lia.
    rewrite !Z.pow_succ_r by lia. lia.
Qed.

Lemma digits2_pos_unique (p : positive) (d : Z) :
  2 ^ (d - 1) <= Z.pos p < 2 ^ d -> Z.pos (digits2_pos p) = d.
Proof.
  intros [Hlo Hhi]. pose proof (digits2_pos_bounds p) as [Hlo' Hhi'].
  assert (Hd : 0 < d).
  { destruct (Z.lt_trichotomy d 0) as [Hn|[->|Hp]]; [|simpl in Hhi; lia|lia].
    rewrite Z.pow_neg_r in Hhi by lia. lia. }
  destruct (Z.lt_trichotomy (Z.pos (digits2_pos p)) d) as [Hlt|[Heq|Hgt]];
    [|assumption|].
  - assert (2 ^ Z.pos (digits2_pos p) <= 2 ^ (d - 1))
      by (apply Z.pow_le_mono_r; lia). lia.
  - assert (2 ^ d <= 2 ^ (Z.pos (digits2_pos p) - 1))
      by (apply Z.pow_le_mono_r; lia). lia.
Qed.

Lemma digits2_pos_shift (p q : positive) (n : Z) :
  0 <= n -> Z.pos q = Z.pos p * 2 ^ n ->
  Z.pos (digits2_pos q) = Z.pos (digits2_pos p) + n.
Proof.
  intros Hn Hq. apply digits2_pos_unique.
  pose proof (digits2_pos_bounds p) as [Hlo Hhi].
  assert (Hpow : 0 < 2 ^ n) by (apply Z.pow_pos_nonneg; lia).
  replace (Z.pos (digits2_pos p) + n - 1)
    with ((Z.pos (digits2_pos p) - 1) + n) by lia.
  rewrite !Z.pow_add_r by lia. rewrite Hq. nia.
Qed.

Lemma iter_xO_value (p n : positive) :
  Z.pos (Pos.iter xO p n) = Z.pos p * 2 ^ Z.pos n.
Proof.
  induction n as [|n IH] using Pos.peano_ind.
  - simpl. lia.
  - rewrite Pos.iter_succ, Pos2Z.inj_xO, IH, Pos2Z.inj_succ,
      Z.pow_succ_r by lia. lia.
Qed.

Lemma iter_pos_nat {A} (f : A -> A) (n : positive) (x : A) :
  SpecFloat.iter_pos f n x = Nat.iter (Pos.to_nat n) f x.
Proof.
  revert x. induction n as [n IH|n IH|]; intros x; cbn [SpecFloat.iter_pos].
  - rewrite !IH, Pos2Nat.inj_xI, <- Nat.iter_add, <- Nat.iter_succ_r.
    f_equal. lia.
  - rewrite !IH, Pos2Nat.inj_xO, <- Nat.iter_add. f_equal. lia.
  - reflexivity.
Qed.

Lemma iter_shr_1_exact (n : nat) (q : positive) :
  Nat.iter n shr_1
    {| shr_m := Z.pos q * 2 ^ Z.of_nat n; shr_r := false; shr_s := false |}
  = {| shr_m := Z.pos q; shr_r := false; shr_s := false |}.
Proof.
  induction n as [|n IH].
  - simpl. rewrite Z.mul_1_r. reflexivity.
  - rewrite Nat.iter_succ_r, Nat2Z.inj_succ, Z.pow_succ_r by lia.
    assert (Hpos : 0 < Z.pos q * 2 ^ Z.of_nat n).
    { apply Z.mul_pos_pos; [lia|apply Z.pow_pos_nonneg; lia]. }
    destruct (Z.pos q * 2 ^ Z.of_nat n) as [|r|r] eqn:Hr; [lia| |lia].
    replace (Z.pos q * (2 * 2 ^ Z.of_nat n)) with (Z.pos r~0) by lia.
    cbn [shr_1 orb]. exact IH.
Qed.

Lemma shr_exact (q : positive) (e n : Z) :
  0 <= n ->
  shr {| shr_m := Z.pos q * 2 ^ n; shr_r := false; shr_s := false |} e n
  = ({| shr_m := Z.pos q; shr_r := false; shr_s := false |}, e + n).
Proof.
  intros Hn. destruct n as [|n|n]; [| |lia].
  - cbn [shr]. rewrite Z.pow_0_r, Z.mul_1_r, Z.add_0_r. reflexivity.
  - cbn [shr]. rewrite iter_pos_nat.
    rewrite <- (positive_nat_Z n) at 1. rewrite iter_shr_1_exact. reflexivity.
Qed.

(** Rounding a mantissa that is a normal mantissa [q] of 53 digits times a
    power of two loses nothing. *)
Lemma binary_round_aux_exact (s : bool) (q : positive) (e n : Z) :
  Z.pos (digits2_pos q) = 53 -> 0 <= n -> -1074 <= e + n <= 971 ->
  binary_round_aux B64.prec B64.emax s (Z.pos q * 2 ^ n) e loc_Exact
  = S754_finite s q (e + n).
Proof.
  intros Hq Hn He.
  assert (Hpos : 0 < Z.pos q * 2 ^ n).
  { apply Z.mul_pos_pos; [lia|apply Z.pow_pos_nonneg; lia]. }
  destruct (Z.pos q * 2 ^ n) as [|M|M] eqn:HM; [lia| |lia].
  pose proof (digits2_pos_shift q M n Hn (eq_sym HM)) as HdM.
  unfold binary_round_aux.
  assert (Hfexp : forall m e', Z.pos (digits2_pos m) = 53 + (e + n - e') ->
            e' <= e + n ->
            fexp B64.prec B64.emax (Zdigits2 (Z.pos m) + e') - e' = e + n - e').
  { intros m e' Hm He'. unfold fexp, emin, B64.prec, B64.emax.
    cbn [Zdigits2]. lia. }
  unfold shr_fexp at 1. rewrite (Hfexp M e) by lia.
  cbn [shr_record_of_loc]. rewrite <- HM.
  replace (e + n - e) with n by lia. rewrite shr_exact by assumption.
  cbn [shr_m loc_of_shr_record round_nearest_even].
  unfold shr_fexp. rewrite (Hfexp q (e + n)) by lia.
  rewrite Z.sub_diag. cbn [shr_record_of_loc shr shr_m].
  unfold B64.emax, B64.prec.
  destruct (Z.leb_spec (e + n) (1024 - 53)); [reflexivity|lia].
Qed.

(** The mantissa of the double of a positive integer below [2^53]. *)
Definition mantissa (n : Z) : positive :=
  Z.to_pos (n * 2 ^ (53 - Zdigits2 n)).

Lemma Zdigits2_bounds (n : Z) :
  0 < n -> 2 ^ (Zdigits2 n - 1) <= n < 2 ^ Zdigits2 n.
Proof.
  intros Hn. destruct n as [|p|p]; [lia| |lia]. apply digits2_pos_bounds.
Qed.

Lemma Zdigits2_small (n : Z) : 0 < n < 2 ^ 53 -> 0 < Zdigits2 n <= 53.
Proof.
  intros Hn. pose proof (Zdigits2_bounds n ltac:(lia)) as [Hlo Hhi].
  split; [destruct n; simpl; lia|].
  destruct (Z.le_gt_cases (Zdigits2 n) 53) as [|Hgt]; [assumption|].
  assert (2 ^ 53 <= 2 ^ (Zdigits2 n - 1)) by (apply Z.pow_le_mono_r; lia).
  lia.
Qed.

Lemma mantissa_value (n : Z) :
  0 < n < 2 ^ 53 -> Z.pos (mantissa n) = n * 2 ^ (53 - Zdigits2 n).
Proof.
  intros Hn. pose proof (Zdigits2_small n Hn). unfold mantissa.
  rewrite Z2Pos.id; [reflexivity|].
  apply Z.mul_pos_pos; [lia|apply Z.pow_pos_nonneg; lia].
Qed.

Lemma mantissa_digits (n : Z) :
  0 < n < 2 ^ 53 -> Z.pos (digits2_pos (mantissa n)) = 53.
Proof.
  intros Hn. pose proof (Zdigits2_small n Hn) as Hd.
  pose proof (mantissa_value n Hn) as Hm.
  destruct n as [|p|p]; [lia| |lia].
  rewrite (digits2_pos_shift p (mantissa (Z.pos p)) (53 - Zdigits2 (Z.pos p)));
    [cbn [Zdigits2]; lia|lia|assumption].
Qed.

Lemma binary_round_int (s : bool) (p : positive) :
  Z.pos p < 2 ^ 53 ->
  binary_round B64.prec B64.emax s p 0
  = S754_finite s (mantissa (Z.pos p)) (Zdigits2 (Z.pos p) - 53).
Proof.
  intros Hp. pose proof (Zdigits2_small (Z.pos p) ltac:(lia)) as Hd.
  pose proof (mantissa_value (Z.pos p) ltac:(lia)) as Hm.
  pose proof (mantissa_digits (Z.pos p) ltac:(lia)) as Hmd.
  cbn [Zdigits2] in *. unfold binary_round, shl_align.
  assert (Hf : fexp B64.prec B64.emax (Z.pos (digits2_pos p) + 0)
               = Z.pos (digits2_pos p) - 53).
  { unfold fexp, emin, B64.prec, B64.emax. lia. }
  rewrite Hf.
  destruct (Z.pos (digits2_pos p) - 53 - 0) as [|d|d] eqn:Hsub; [|lia|].
  - assert (Hd53 : Z.pos (digits2_pos p) = 53) by lia.
    rewrite Hd53, Z.sub_diag, Z.pow_0_r, Z.mul_1_r in Hm.
    injection Hm as Hm. rewrite Hm, Hd53.
    rewrite <- (Z.mul_1_r (Z.pos p)), <- (Z.pow_0_r 2).
    rewrite binary_round_aux_exact; [reflexivity|lia|lia|lia].
  - assert (Hval : Z.pos (Pos.iter xO p d) = Z.pos (mantissa (Z.pos p)) * 2 ^ 0).
    { rewrite iter_xO_value, Hm. rewrite Z.pow_0_r, Z.mul_1_r.
      do 2 f_equal. lia. }
    rewrite Hval, binary_round_aux_exact; [f_equal; lia|assumption|lia|lia].
Qed.

Lemma of_Z_pos (n : Z) :
  0 < n < 2 ^ 53 ->
  B64.of_Z n = S754_finite false (mantissa n) (Zdigits2 n - 53).
Proof.
  intros Hn. destruct n as [|p|p]; [lia| |lia].
  unfold B64.of_Z. cbn [binary_normalize]. apply binary_round_int. lia.
Qed.

Lemma of_Z_neg (n : Z) :
  0 < n < 2 ^ 53 ->
  B64.of_Z (- n) = S754_finite true (mantissa n) (Zdigits2 n - 53).
Proof.
  intros Hn. destruct n as [|p|p]; [lia| |lia].
  unfold B64.of_Z. cbn [Z.opp binary_normalize]. apply binary_round_int. lia.
Qed.

Lemma shl_align_value (mx : positive) (ex ez : Z) :
  ez <= ex -> Z.pos (fst (shl_align mx ex ez)) = Z.pos mx * 2 ^ (ex - ez).
Proof.
  intros Hle. unfold shl_align.
  destruct (ez - ex) as [|d|d] eqn:Hd; cbn [fst]; [|lia|].
  - replace (ex - ez) with 0 by lia. rewrite Z.pow_0_r. lia.
  - rewrite iter_xO_value. do 2 f_equal. lia.
Qed.

Lemma binary_round_exact (s : bool) (M q : positive) (e n : Z) :
  Z.pos M = Z.pos q * 2 ^ n -> Z.pos (digits2_pos q) = 53 -> 0 <= n ->
  -1074 <= e + n <= 971 ->
  binary_round B64.prec B64.emax s M e = S754_finite s q (e + n).
Proof.
  intros HM Hq Hn He. unfold binary_round, shl_align.
  pose proof (digits2_pos_shift q M n Hn HM) as HdM.
  assert (Hf : fexp B64.prec B64.emax (Z.pos (digits2_pos M) + e) - e = n).
  { unfold fexp, emin, B64.prec, B64.emax. lia. }
  rewrite Hf. destruct n as [|n|n]; [| |lia];
    rewrite HM; apply binary_round_aux_exact; assumption.
Qed.

Lemma pow2_split (a b : Z) : 0 <= a -> 0 <= b -> 2 ^ a * 2 ^ b = 2 ^ (a + b).
Proof. intros. rewrite Z.pow_add_r by assumption. reflexivity. Qed.

(** Adding one to the double of an integer gives the double of the next. *)
Lemma of_Z_succ (k : Z) :
  0 <= k < 2 ^ 52 -> SFadd B64.prec B64.emax (B64.of_Z k) (B64.of_Z 1)
                     = B64.of_Z (k + 1).
Proof.
  intros Hk. destruct (Z.eq_dec k 0) as [->|Hk0]; [reflexivity|].
  assert (Hk53 : 2 ^ 52 < 2 ^ 53) by (apply Z.pow_lt_mono_r; lia).
  rewrite (of_Z_pos k), (of_Z_pos (k + 1)) by lia.
  change (B64.of_Z 1) with (S754_finite false (2 ^ 52)%positive (-52)).
  pose proof (Zdigits2_small k ltac:(lia)) as Hd.
  pose proof (Zdigits2_small (k + 1) ltac:(lia)) as Hd'.
  pose proof (mantissa_value k ltac:(lia)) as Hm.
  pose proof (mantissa_value (k + 1) ltac:(lia)) as Hm'.
  pose proof (mantissa_digits (k + 1) ltac:(lia)) as Hmd'.
  assert (Hd2 : 2 <= Zdigits2 (k + 1)).
  { pose proof (Zdigits2_bounds (k + 1) ltac:(lia)) as [_ Hhi].
    destruct (Z.le_gt_cases 2 (Zdigits2 (k + 1))) as [|Hlt]; [assumption|].
    replace (Zdigits2 (k + 1)) with 1 in Hhi by lia. simpl in Hhi. lia. }
  cbn [SFadd]. cbv zeta.
  replace (Z.min (Zdigits2 k - 53) (-52)) with (-52) by lia.
  pose proof (shl_align_value (mantissa k) (Zdigits2 k - 53) (-52) ltac:(lia))
    as H1.
  pose proof (shl_align_value (2 ^ 52)%positive (-52) (-52) ltac:(lia)) as H2.
  change (- 52 - - 52) with 0 in H2. rewrite Z.pow_0_r, Z.mul_1_r in H2.
  cbn [cond_Zopp].
  assert (Hsum : Z.pos (fst (shl_align (mantissa k) (Zdigits2 k - 53) (-52)))
                 + Z.pos (fst (shl_align (2 ^ 52)%positive (-52) (-52)))
                 = Z.pos (mantissa (k + 1)) * 2 ^ (Zdigits2 (k + 1) - 1)).
  { rewrite H1, H2, Hm, Hm'.
    rewrite <- !Z.mul_assoc, !pow2_split by lia.
    replace (53 - Zdigits2 k + (Zdigits2 k - 53 - -52)) with 52 by lia.
    replace (53 - Zdigits2 (k + 1) + (Zdigits2 (k + 1) - 1)) with 52 by lia.
    change (Z.pos (2 ^ 52)) with (2 ^ 52). lia. }
  rewrite Hsum.
  assert (Hpos : 0 < Z.pos (mantissa (k + 1)) * 2 ^ (Zdigits2 (k + 1) - 1)).
  { apply Z.mul_pos_pos; [lia|apply Z.pow_pos_nonneg; lia]. }
  destruct (Z.pos (mantissa (k + 1)) * 2 ^ (Zdigits2 (k + 1) - 1))
    as [|M|M] eqn:HM; [lia| |lia].
  cbn [binary_normalize].
  rewrite (binary_round_exact false M (mantissa (k + 1)) (-52)
             (Zdigits2 (k + 1) - 1)); [f_equal; lia|lia|assumption|lia|lia].
Qed.

Lemma mantissa_compare (k n : Z) :
  0 < k < 2 ^ 53 -> 0 < n < 2 ^ 53 -> Zdigits2 k = Zdigits2 n ->
  (mantissa k ?= mantissa n)%positive = (k ?= n).
Proof.
  intros Hk Hn Hd. rewrite Pos2Z.inj_compare.
  rewrite !mantissa_value, Hd by assumption.
  pose proof (Zdigits2_small n Hn).
  assert (Hpow : 0 < 2 ^ (53 - Zdigits2 n)) by (apply Z.pow_pos_nonneg; lia).
  destruct (Z.compare_spec k n) as [->|Hlt|Hgt].
  - apply Z.compare_refl.
  - apply Z.compare_lt_iff. nia.
  - apply Z.compare_gt_iff. nia.
Qed.

Lemma Zdigits2_mono (k n : Z) :
  0 < k -> 0 < n -> Zdigits2 k < Zdigits2 n -> k < n.
Proof.
  intros Hk Hn Hd.
  pose proof (Zdigits2_bounds k Hk) as [_ Hhi].
  pose proof (Zdigits2_bounds n Hn) as [Hlo _].
  assert (2 ^ Zdigits2 k <= 2 ^ (Zdigits2 n - 1))
    by (apply Z.pow_le_mono_r; lia).
  lia.
Qed.

(** The doubles of two integers compare as the integers do. *)
Lemma of_Z_ltb (k n : Z) :
  0 <= k < 2 ^ 53 -> - 2 ^ 53 < n < 2 ^ 53 ->
  SFltb (B64.of_Z k) (B64.of_Z n) = (k <? n).
Proof.
  intros Hk Hn. unfold SFltb.
  destruct (Z.eq_dec k 0) as [->|Hk0].
  - destruct (Z.lt_trichotomy n 0) as [Hneg|[->|Hpos]].
    + replace n with (- - n) by lia. rewrite (of_Z_neg (- n)) by lia.
      cbn. destruct (Z.ltb_spec 0 (- - n)); [lia|reflexivity].
    + reflexivity.
    + rewrite (of_Z_pos n) by lia. cbn.
      destruct (Z.ltb_spec 0 n); [reflexivity|lia].
  - rewrite (of_Z_pos k) by lia.
    destruct (Z.lt_trichotomy n 0) as [Hneg|[->|Hpos]].
    + replace n with (- - n) at 1 by lia. rewrite (of_Z_neg (- n)) by lia.
      cbn. destruct (Z.ltb_spec k n); [lia|reflexivity].
    + cbn. destruct (Z.ltb_spec k 0); [lia|reflexivity].
    + rewrite (of_Z_pos n) by lia. cbn [SFcompare].
      destruct (Z.compare_spec (Zdigits2 k - 53) (Zdigits2 n - 53))
        as [Heq|Hlt|Hgt].
      * change (Pos.compare_cont Eq (mantissa k) (mantissa n))
          with (mantissa k ?= mantissa n)%positive.
        rewrite mantissa_compare by lia. unfold Z.ltb.
        destruct (k ?= n); reflexivity.
      * pose proof (Zdigits2_mono k n ltac:(lia) ltac:(lia) ltac:(lia)).
        destruct (Z.ltb_spec k n); [reflexivity|lia].
      * pose proof (Zdigits2_mono n k ltac:(lia) ltac:(lia) ltac:(lia)).
        destruct (Z.ltb_spec k n); [lia|reflexivity].
Qed.

(** *** The quotient of a double by a larger one *)

Lemma shr_1_m (mrs : shr_record) :
  0 <= shr_m mrs -> shr_m (shr_1 mrs) = shr_m mrs / 2.
Proof.
  destruct mrs as [m r s]. cbn [shr_m]. intros Hm.
  destruct m as [|p|p]; [reflexivity| |lia].
  destruct p as [p|p|]; cbn [shr_1 shr_m].
  - rewrite Pos2Z.inj_xI. apply Z.div_unique with (r := 1); lia.
  - rewrite Pos2Z.inj_xO. apply Z.div_unique with (r := 0); lia.
  - reflexivity.
Qed.

Lemma iter_shr_1_m (n : nat) (mrs : shr_record) :
  0 <= shr_m mrs ->
  shr_m (Nat.iter n shr_1 mrs) = shr_m mrs / 2 ^ Z.of_nat n.
Proof.
  intros Hm. induction n as [|n IH].
  - simpl. rewrite Z.div_1_r. reflexivity.
  - cbn [Nat.iter nat_rect]. rewrite shr_1_m.
    + change (nat_rect (fun _ => shr_record) mrs (fun _ => shr_1) n)
        with (Nat.iter n shr_1 mrs).
      rewrite IH, Nat2Z.inj_succ, Z.pow_succ_r by lia.
      rewrite Z.div_div by (try apply Z.pow_pos_nonneg; lia).
      f_equal. lia.
    + change (nat_rect (fun _ => shr_record) mrs (fun _ => shr_1) n)
        with (Nat.iter n shr_1 mrs).
      rewrite IH. apply Z.div_pos; [assumption|apply Z.pow_pos_nonneg; lia].
Qed.

(** A shift divides the mantissa and raises the exponent. *)
Lemma shr_value (mrs : shr_record) (e n : Z) :
  0 <= shr_m mrs ->
  shr_m (fst (shr mrs e n)) = shr_m mrs / 2 ^ Z.max n 0 /\
  snd (shr mrs e n) = e + Z.max n 0.
Proof.
  intros Hm. destruct n as [|n|n]; cbn [shr fst snd].
  - simpl. rewrite Z.div_1_r. split; [reflexivity|lia].
  - rewrite iter_pos_nat, iter_shr_1_m, positive_nat_Z by assumption.
    rewrite Z.max_l by lia. split; reflexivity.
  - rewrite Z.max_r by lia. simpl. rewrite Z.div_1_r. split; [reflexivity|lia].
Qed.

Lemma shr_exact_max (g : positive) (e n : Z) :
  shr {| shr_m := Z.pos g * 2 ^ Z.max n 0; shr_r := false; shr_s := false |}
    e n
  = ({| shr_m := Z.pos g; shr_r := false; shr_s := false |}, e + Z.max n 0).
Proof.
  destruct (Z.le_gt_cases 0 n) as [Hn|Hn].
  - rewrite Z.max_l by assumption. apply shr_exact. assumption.
  - rewrite Z.max_r by lia. rewrite Z.pow_0_r, Z.mul_1_r, Z.add_0_r.
    destruct n; [lia|lia|reflexivity].
Qed.

Lemma round_nearest_even_le (m : Z) (l : location) :
  m <= round_nearest_even m l <= m + 1.
Proof.
  destruct l as [|[ | | ]]; cbn [round_nearest_even]; [lia| |lia|lia].
  destruct (Z.even m); lia.
Qed.

Lemma Zdigits2_le (q d : Z) : 0 <= q < 2 ^ d -> 0 <= d -> Zdigits2 q <= d.
Proof.
  intros Hq Hd. destruct (Z.eq_dec q 0) as [->|Hq0]; [simpl; lia|].
  pose proof (Zdigits2_bounds q ltac:(lia)) as [Hlo _].
  destruct (Z.le_gt_cases (Zdigits2 q) d) as [|Hgt]; [assumption|].
  assert (2 ^ d <= 2 ^ (Zdigits2 q - 1)) by (apply Z.pow_le_mono_r; lia).
  lia.
Qed.

Lemma fexp_le (x : Z) : x <= 0 -> fexp B64.prec B64.emax x <= -53.
Proof. intros Hx. unfold fexp, emin, B64.prec, B64.emax. lia. Qed.

(** Rounding a quotient that is at most [1 - 2^-53], the largest double
    below one, gives a double below one: its floor is zero. *)
Lemma binary_round_aux_below_one (q e : Z) (l : location) :
  0 <= q -> e <= -53 ->
  q <= (2 ^ 53 - 1) * 2 ^ (- e - 53) ->
  (q = (2 ^ 53 - 1) * 2 ^ (- e - 53) -> l = loc_Exact) ->
  B64.to_int (B64.floor (binary_round_aux B64.prec B64.emax false q e l))
  = Some 0.
Proof.
  intros Hq He HB Hexact.
  assert (H53 : 0 < 2 ^ 53 - 1) by reflexivity.
  assert (Hlt1 : forall x, x <= -53 ->
            (2 ^ 53 - 1) * 2 ^ (- x - 53) < 2 ^ (- x)).
  { intros x Hx. replace (- x) with (53 + (- x - 53)) at 2 by lia.
    rewrite Z.pow_add_r by lia.
    assert (0 < 2 ^ (- x - 53)) by (apply Z.pow_pos_nonneg; lia). nia. }
  unfold binary_round_aux.
  (* the first shift *)
  set (n1 := fexp B64.prec B64.emax (Zdigits2 q + e) - e).
  assert (Hd1 : Zdigits2 q <= - e).
  { apply Zdigits2_le; [|lia]. specialize (Hlt1 e He). lia. }
  pose proof (fexp_le (Zdigits2 q + e) ltac:(lia)) as Hf1.
  pose proof (shr_value (shr_record_of_loc q l) e n1) as Hs1.
  assert (Hm0 : shr_m (shr_record_of_loc q l) = q).
  { destruct l as [|[ | | ]]; reflexivity. }
  rewrite Hm0 in Hs1. specialize (Hs1 Hq). destruct Hs1 as [Hq1 He1].
  unfold shr_fexp at 1. fold n1.
  destruct (shr (shr_record_of_loc q l) e n1) as [mrs1 e1] eqn:Hshr1.
  cbn [fst snd] in Hq1, He1.
  set (k1 := Z.max n1 0) in *.
  assert (Hk1 : 0 <= k1) by (unfold k1; lia).
  assert (He1' : e1 <= -53) by (unfold k1, n1 in *; lia).
  set (G := (2 ^ 53 - 1) * 2 ^ (- e1 - 53)).
  assert (HBG : (2 ^ 53 - 1) * 2 ^ (- e - 53) = G * 2 ^ k1).
  { unfold G. rewrite <- Z.mul_assoc, pow2_split by lia.
    do 2 f_equal. lia. }
  assert (Hpk : 0 < 2 ^ k1) by (apply Z.pow_pos_nonneg; lia).
  assert (HG : 0 < G).
  { unfold G. apply Z.mul_pos_pos; [assumption|apply Z.pow_pos_nonneg; lia]. }
  assert (Hq1G : shr_m mrs1 <= G).
  { rewrite Hq1. apply Z.div_le_upper_bound; [assumption|]. lia. }
  assert (Hq1pos : 0 <= shr_m mrs1).
  { rewrite Hq1. apply Z.div_pos; assumption. }
  set (q2 := round_nearest_even (shr_m mrs1) (loc_of_shr_record mrs1)).
  assert (Hq2 : 0 <= q2 <= G).
  { pose proof (round_nearest_even_le (shr_m mrs1) (loc_of_shr_record mrs1))
      as Hr. fold q2 in Hr.
    destruct (Z.eq_dec (shr_m mrs1) G) as [HeqG|HneG]; [|lia].
    assert (HqB : q = G * 2 ^ k1).
    { assert (G * 2 ^ k1 <= q); [|lia].
      rewrite <- HeqG, Hq1. rewrite Z.mul_comm.
      apply Z.mul_div_le. assumption. }
    rewrite <- HBG in HqB. specialize (Hexact HqB). subst l.
    cbn [shr_record_of_loc] in Hshr1. rewrite HqB, HBG in Hshr1.
    destruct G as [|g|g]; [lia| |lia].
    unfold k1 in Hshr1. rewrite shr_exact_max in Hshr1.
    injection Hshr1 as <- _. unfold q2. cbn. lia. }
  (* the second shift *)
  set (n2 := fexp B64.prec B64.emax (Zdigits2 q2 + e1) - e1).
  assert (Hd2 : Zdigits2 q2 <= - e1).
  { apply Zdigits2_le; [|lia]. specialize (Hlt1 e1 He1'). fold G in Hlt1. lia. }
  pose proof (fexp_le (Zdigits2 q2 + e1) ltac:(lia)) as Hf2.
  pose proof (shr_value (shr_record_of_loc q2 loc_Exact) e1 n2) as Hs2.
  cbn [shr_record_of_loc shr_m] in Hs2. specialize (Hs2 (proj1 Hq2)).
  destruct Hs2 as [Hm2 He2].
  unfold shr_fexp. fold n2. cbn [shr_record_of_loc].
  destruct (shr {| shr_m := q2; shr_r := false; shr_s := false |} e1 n2)
    as [mrs2 e2] eqn:Hshr2.
  cbn [fst snd] in Hm2, He2.
  set (k2 := Z.max n2 0) in *.
  assert (Hk2 : 0 <= k2) by (unfold k2; lia).
  assert (He2' : e2 <= -53) by (unfold k2, n2 in *; lia).
  assert (Hpk2 : 0 < 2 ^ k2) by (apply Z.pow_pos_nonneg; lia).
  assert (Hm2lt : 0 <= shr_m mrs2 < 2 ^ (- e2)).
  { rewrite Hm2. split; [apply Z.div_pos; lia|].
    apply Z.div_lt_upper_bound; [assumption|].
    rewrite pow2_split by lia. replace (k2 + - e2) with (- e1) by lia.
    specialize (Hlt1 e1 He1'). fold G in Hlt1. lia. }
  destruct (shr_m mrs2) as [|m|m] eqn:Hm; [reflexivity| |lia].
  unfold B64.emax, B64.prec.
  destruct (Z.leb_spec e2 (1024 - 53)) as [_|Hbig]; [|lia].
  cbn [B64.floor]. destruct (Z.leb_spec 0 e2) as [Hge|_]; [lia|].
  assert (Hip : B64.int_part true false m e2 = 0).
  { unfold B64.int_part. destruct (Z.leb_spec 0 e2) as [Hge|_]; [lia|].
    apply Z.div_small. lia. }
  rewrite Hip. reflexivity.
Qed.

Lemma bounded_canonical (m : positive) (e : Z) :
  bounded B64.prec B64.emax m e = true ->
  Z.pos (digits2_pos m) <= 53 /\ -1074 <= e /\
  (-1074 < e -> Z.pos (digits2_pos m) = 53).
Proof.
  unfold bounded, canonical_mantissa, fexp, emin, B64.prec, B64.emax.
  intros Hb. apply andb_true_iff in Hb as [Hc _]. apply Z.eqb_eq in Hc. lia.
Qed.

Lemma new_location_0 (nb : Z) : new_location nb 0 = loc_Exact.
Proof.
  unfold new_location, new_location_even, new_location_odd.
  destruct (Z.even nb); reflexivity.
Qed.

(** The quotient of a double that is not negative by a larger double is
    below one, in binary64 as over the reals: rounding to nearest cannot
    reach one from a quotient of two doubles. *)
Lemma floor_SFdiv_lt (d dt : binary64) :
  valid_binary B64.prec B64.emax d = true ->
  valid_binary B64.prec B64.emax dt = true ->
  SFltb d dt = true -> SFltb d (S754_zero false) = false ->
  B64.to_int (B64.floor (SFdiv B64.prec B64.emax d dt)) = Some 0.
Proof.
  intros Hvd Hvdt Hlt Hnn.
  destruct d as [sd|sd| |sd m1 e1]; destruct dt as [st|st| |st m2 e2];
    try discriminate; try reflexivity;
    try (destruct sd; discriminate); try (destruct st; discriminate);
    try (destruct sd, st; discriminate).
  destruct sd; [discriminate|]. destruct st; [discriminate|].
  cbn [valid_binary] in Hvd, Hvdt.
  apply bounded_canonical in Hvd as (Hd1 & He1 & Hn1).
  apply bounded_canonical in Hvdt as (Hd2 & He2 & Hn2).
  pose proof (digits2_pos_bounds m1) as [Hlo1 Hhi1].
  pose proof (digits2_pos_bounds m2) as [Hlo2 Hhi2].
  assert (Hcmp : e1 < e2 \/ e1 = e2 /\ Z.pos m1 < Z.pos m2).
  { unfold SFltb in Hlt. cbn [SFcompare] in Hlt.
    destruct (Z.compare_spec e1 e2) as [Heq|Hl|Hg]; [|left; assumption|
      discriminate].
    right. split; [assumption|].
    change (Pos.compare_cont Eq m1 m2) with (m1 ?= m2)%positive in Hlt.
    destruct (m1 ?= m2)%positive eqn:Hc; try discriminate.
    rewrite Pos2Z.inj_compare in Hc. apply Z.compare_lt_iff. exact Hc. }
  assert (Hhi53 : Z.pos m1 < 2 ^ 53 /\ Z.pos m2 < 2 ^ 53).
  { assert (2 ^ Z.pos (digits2_pos m1) <= 2 ^ 53)
      by (apply Z.pow_le_mono_r; lia).
    assert (2 ^ Z.pos (digits2_pos m2) <= 2 ^ 53)
      by (apply Z.pow_le_mono_r; lia).
    lia. }
  assert (Hdelta : Z.pos (digits2_pos m1) + e1
                   - (Z.pos (digits2_pos m2) + e2) <= 0).
  { destruct Hcmp as [Hl|[Heq Hm]]; [specialize (Hn2 ltac:(lia)); lia|].
    subst e2.
    destruct (Z.le_gt_cases (Z.pos (digits2_pos m1)) (Z.pos (digits2_pos m2)))
      as [|Hgt]; [lia|].
    assert (2 ^ Z.pos (digits2_pos m2) <= 2 ^ (Z.pos (digits2_pos m1) - 1))
      by (apply Z.pow_le_mono_r; lia).
    lia. }
  cbn [SFdiv xorb]. unfold SFdiv_core_binary. cbn [Zdigits2]. cbv zeta.
  set (e' := Z.min (fexp B64.prec B64.emax
                      (Z.pos (digits2_pos m1) + e1
                       - (Z.pos (digits2_pos m2) + e2))) (e1 - e2)).
  pose proof (fexp_le _ Hdelta) as Hfe.
  assert (He' : e' <= -53) by (unfold e'; lia).
  assert (Hs : 0 <= e1 - e2 - e') by (unfold e'; lia).
  set (m' := match e1 - e2 - e' with
             | 0 => Z.pos m1
             | Z.pos _ => Z.shiftl (Z.pos m1) (e1 - e2 - e')
             | Z.neg _ => 0
             end).
  assert (Hm' : m' = Z.pos m1 * 2 ^ (e1 - e2 - e')).
  { unfold m'. destruct (e1 - e2 - e') as [|s|s] eqn:Hse; [| |lia].
    - rewrite Z.pow_0_r. lia.
    - rewrite Z.shiftl_mul_pow2 by lia. reflexivity. }
  assert (Hps : 0 < 2 ^ (e1 - e2 - e')) by (apply Z.pow_pos_nonneg; lia).
  assert (Hbound : m' <= (2 ^ 53 - 1) * 2 ^ (- e' - 53) * Z.pos m2).
  { rewrite Hm'. destruct Hcmp as [Hl|[Heq Hm]].
    - specialize (Hn2 ltac:(lia)). rewrite Hn2 in Hlo2.
      change (2 ^ (53 - 1)) with (2 ^ 52) in Hlo2.
      assert (Hle : 2 ^ (e1 - e2 - e') * 2 <= 2 ^ (- e' - 53) * 2 ^ 53).
      { rewrite pow2_split by lia. replace (- e' - 53 + 53) with (- e') by lia.
        change 2 with (2 ^ 1) at 2. rewrite pow2_split by lia.
        apply Z.pow_le_mono_r; lia. }
      assert (Hp2 : 0 < 2 ^ (- e' - 53)) by (apply Z.pow_pos_nonneg; lia).
      change (2 ^ 53) with (2 * 2 ^ 52) in Hle.
      assert (2 ^ (e1 - e2 - e') <= 2 ^ (- e' - 53) * 2 ^ 52) by lia.
      assert (Z.pos m1 <= 2 ^ 53 - 1) by lia.
      assert (Z.pos m1 * 2 ^ (e1 - e2 - e')
              <= (2 ^ 53 - 1) * (2 ^ (- e' - 53) * 2 ^ 52)).
      { apply Z.mul_le_mono_nonneg; lia. }
      assert ((2 ^ 53 - 1) * (2 ^ (- e' - 53) * 2 ^ 52)
              <= (2 ^ 53 - 1) * 2 ^ (- e' - 53) * Z.pos m2).
      { rewrite <- Z.mul_assoc. apply Z.mul_le_mono_nonneg_l; [lia|].
        apply Z.mul_le_mono_nonneg_l; lia. }
      lia.
    - subst e2. replace (e1 - e1 - e') with (53 + (- e' - 53)) by lia.
      rewrite Z.pow_add_r by lia.
      assert (Hp2 : 0 < 2 ^ (- e' - 53)) by (apply Z.pow_pos_nonneg; lia).
      assert (Z.pos m1 * 2 ^ 53 <= (2 ^ 53 - 1) * Z.pos m2) by lia.
      assert (Z.pos m1 * 2 ^ 53 * 2 ^ (- e' - 53)
              <= (2 ^ 53 - 1) * Z.pos m2 * 2 ^ (- e' - 53)).
      { apply Z.mul_le_mono_nonneg_r; lia. }
      lia. }
  assert (Hm'pos : 0 <= m') by lia.
  pose proof (Z.div_mod m' (Z.pos m2) ltac:(lia)) as Hdm.
  pose proof (Z.mod_pos_bound m' (Z.pos m2) ltac:(lia)) as Hmod.
  assert (Hqr : Z.div_eucl m' (Z.pos m2) = (m' / Z.pos m2, m' mod Z.pos m2)).
  { unfold Z.div, Z.modulo. destruct (Z.div_eucl m' (Z.pos m2)). reflexivity. }
  rewrite Hqr.
  apply binary_round_aux_below_one.
  - apply Z.div_pos; lia.
  - assumption.
  - apply Z.div_le_upper_bound; [lia|]. lia.
  - intros Hq.
    assert (Hr0 : m' mod Z.pos m2 = 0) by nia.
    rewrite Hr0. apply new_location_0.
Qed.

(** *** Every quotient is a well-formed double *)

Lemma Zdigits2_nonneg (q : Z) : 0 <= Zdigits2 q.
Proof. destruct q; simpl; lia. Qed.

Lemma Zdigits2_unique (q d : Z) :
  2 ^ (d - 1) <= q < 2 ^ d -> 0 < q -> Zdigits2 q = d.
Proof.
  intros Hb Hq. destruct q as [|p|p]; [lia| |lia].
  apply digits2_pos_unique. assumption.
Qed.

Lemma Zdigits2_lower (q t : Z) : 0 <= t -> 2 ^ t <= q -> t < Zdigits2 q.
Proof.
  intros Ht Hq. assert (0 < 2 ^ t) by (apply Z.pow_pos_nonneg; lia).
  pose proof (Zdigits2_bounds q ltac:(lia)) as [_ Hhi].
  destruct (Z.lt_ge_cases t (Zdigits2 q)) as [|Hge]; [assumption|].
  assert (2 ^ Zdigits2 q <= 2 ^ t)
    by (apply Z.pow_le_mono_r; [lia|assumption]).
  lia.
Qed.

Lemma Zdigits2_monotone (a b : Z) : 0 <= a <= b -> Zdigits2 a <= Zdigits2 b.
Proof.
  intros [Ha Hab]. destruct (Z.eq_dec a 0) as [->|Ha0];
    [apply Zdigits2_nonneg|].
  pose proof (Zdigits2_bounds a ltac:(lia)) as [Hlo _].
  pose proof (Zdigits2_nonneg a).
  destruct (Z.eq_dec (Zdigits2 a) 0) as [H0|H0];
    [rewrite H0; apply Zdigits2_nonneg|].
  pose proof (Zdigits2_lower b (Zdigits2 a - 1) ltac:(lia) ltac:(lia)). lia.
Qed.

Lemma Zdigits2_shr (q n : Z) :
  0 < q -> 0 <= n -> n < Zdigits2 q -> Zdigits2 (q / 2 ^ n) = Zdigits2 q - n.
Proof.
  intros Hq Hn Hlt. pose proof (Zdigits2_bounds q Hq) as [Hlo Hhi].
  assert (Hp : 0 < 2 ^ n) by (apply Z.pow_pos_nonneg; lia).
  assert (Hb : 2 ^ (Zdigits2 q - n - 1) <= q / 2 ^ n < 2 ^ (Zdigits2 q - n)).
  { split.
    - apply Z.div_le_lower_bound; [assumption|].
      rewrite pow2_split by lia.
      replace (n + (Zdigits2 q - n - 1)) with (Zdigits2 q - 1) by lia.
      assumption.
    - apply Z.div_lt_upper_bound; [assumption|].
      rewrite pow2_split by lia.
      replace (n + (Zdigits2 q - n)) with (Zdigits2 q) by lia. assumption. }
  apply Zdigits2_unique; [assumption|].
  assert (0 < 2 ^ (Zdigits2 q - n - 1)) by (apply Z.pow_pos_nonneg; lia).
  lia.
Qed.

Lemma fexp_monotone (x y : Z) :
  x <= y -> fexp B64.prec B64.emax x <= fexp B64.prec B64.emax y.
Proof. unfold fexp, emin, B64.prec, B64.emax. lia. Qed.

(** Rounding gives a well-formed double when the mantissa comes with at
    least the digits that its magnitude asks for. *)
Lemma binary_round_aux_valid (s : bool) (q e : Z) (l : location) :
  0 <= q -> e <= fexp B64.prec B64.emax (Zdigits2 q + e) ->
  valid_binary B64.prec B64.emax
    (binary_round_aux B64.prec B64.emax s q e l) = true.
Proof.
  intros Hq He. unfold binary_round_aux.
  set (n1 := fexp B64.prec B64.emax (Zdigits2 q + e) - e).
  pose proof (shr_value (shr_record_of_loc q l) e n1) as Hs1.
  assert (Hm0 : shr_m (shr_record_of_loc q l) = q).
  { destruct l as [|[ | | ]]; reflexivity. }
  rewrite Hm0 in Hs1. specialize (Hs1 Hq). destruct Hs1 as [Hq1 He1].
  unfold shr_fexp at 1. fold n1.
  destruct (shr (shr_record_of_loc q l) e n1) as [mrs1 e1].
  cbn [fst snd] in Hq1, He1. rewrite Z.max_l in Hq1, He1 by (unfold n1; lia).
  assert (Hn1 : 0 <= n1) by (unfold n1; lia).
  assert (Hp1 : 0 < 2 ^ n1) by (apply Z.pow_pos_nonneg; lia).
  assert (Hq1pos : 0 <= shr_m mrs1).
  { rewrite Hq1. apply Z.div_pos; assumption. }
  set (q2 := round_nearest_even (shr_m mrs1) (loc_of_shr_record mrs1)).
  pose proof (round_nearest_even_le (shr_m mrs1) (loc_of_shr_record mrs1))
    as Hr. fold q2 in Hr.
  set (n2 := fexp B64.prec B64.emax (Zdigits2 q2 + e1) - e1).
  pose proof (shr_value (shr_record_of_loc q2 loc_Exact) e1 n2) as Hs2.
  cbn [shr_record_of_loc shr_m] in Hs2. specialize (Hs2 ltac:(lia)).
  destruct Hs2 as [Hm2 He2].
  unfold shr_fexp. fold n2. cbn [shr_record_of_loc].
  destruct (shr {| shr_m := q2; shr_r := false; shr_s := false |} e1 n2)
    as [mrs2 e2].
  cbn [fst snd] in Hm2, He2.
  destruct (shr_m mrs2) as [|m|m] eqn:Hm; [reflexivity| |reflexivity].
  destruct (Z.leb_spec e2 (B64.emax - B64.prec)) as [Hle|Hgt]; [|reflexivity].
  cbn [valid_binary]. unfold bounded, canonical_mantissa.
  apply andb_true_iff. split; [|apply Z.leb_le; assumption].
  apply Z.eqb_eq.
  assert (Hq2pos : 0 < q2).
  { destruct (Z.eq_dec q2 0) as [H0|H0]; [|lia].
    rewrite H0 in Hm2. rewrite Z.div_0_l in Hm2; [lia|].
    apply Z.pow_nonzero; lia. }
  (* the second shift starts from enough digits *)
  assert (HA : e1 <= fexp B64.prec B64.emax (Zdigits2 q2 + e1)).
  { destruct (Z.eq_dec (shr_m mrs1) 0) as [Hz|Hnz].
    - (* the first shift left nothing: the exponent is the least one *)
      assert (Hsmall : Zdigits2 q <= n1).
      { destruct (Z.eq_dec q 0) as [->|Hq0]; [simpl; lia|].
        destruct (Z.le_gt_cases (Zdigits2 q) n1) as [|Hgt]; [assumption|].
        pose proof (Zdigits2_shr q n1 ltac:(lia) Hn1 Hgt) as Hd.
        rewrite <- Hq1, Hz in Hd. simpl in Hd. lia. }
      pose proof (Zdigits2_nonneg q2).
      unfold n1, fexp, emin, B64.prec, B64.emax in *. lia.
    - assert (Hlt : n1 < Zdigits2 q).
      { destruct (Z.lt_ge_cases n1 (Zdigits2 q)) as [|Hge]; [assumption|].
        exfalso. apply Hnz. rewrite Hq1. apply Z.div_small.
        destruct (Z.eq_dec q 0) as [->|Hq0]; [lia|].
        pose proof (Zdigits2_bounds q ltac:(lia)) as [_ Hhi].
        assert (2 ^ Zdigits2 q <= 2 ^ n1)
          by (apply Z.pow_le_mono_r; lia).
        lia. }
      assert (Hq0 : 0 < q).
      { destruct (Z.eq_dec q 0) as [->|]; [simpl in Hlt; lia|lia]. }
      pose proof (Zdigits2_shr q n1 Hq0 Hn1 Hlt) as Hd. rewrite <- Hq1 in Hd.
      pose proof (Zdigits2_monotone (shr_m mrs1) q2 ltac:(lia)) as Hmono.
      rewrite He1. unfold n1 at 1.
      replace (e + (fexp B64.prec B64.emax (Zdigits2 q + e) - e))
        with (fexp B64.prec B64.emax (Zdigits2 q + e)) by lia.
      apply fexp_monotone. unfold n1 in *. lia. }
  assert (Hn2 : 0 <= n2) by (unfold n2; lia).
  rewrite Z.max_l in Hm2, He2 by assumption.
  assert (Hlt2 : n2 < Zdigits2 q2).
  { destruct (Z.lt_ge_cases n2 (Zdigits2 q2)) as [|Hge]; [assumption|].
    exfalso. rewrite Z.div_small in Hm2; [lia|].
    pose proof (Zdigits2_bounds q2 Hq2pos) as [_ Hhi].
    assert (2 ^ Zdigits2 q2 <= 2 ^ n2) by (apply Z.pow_le_mono_r; lia).
    lia. }
  pose proof (Zdigits2_shr q2 n2 Hq2pos Hn2 Hlt2) as Hd2.
  rewrite <- Hm2 in Hd2. cbn [Zdigits2] in Hd2. rewrite Hd2, He2.
  replace (Zdigits2 q2 - n2 + (e1 + n2)) with (Zdigits2 q2 + e1) by lia.
  unfold n2. lia.
Qed.

Lemma SFdiv_valid (x y : binary64) :
  valid_binary B64.prec B64.emax (SFdiv B64.prec B64.emax x y) = true.
Proof.
  destruct x as [sx|sx| |sx m1 e1]; destruct y as [sy|sy| |sy m2 e2];
    try reflexivity.
  cbn [SFdiv]. unfold SFdiv_core_binary. cbn [Zdigits2]. cbv zeta.
  set (delta := Z.pos (digits2_pos m1) + e1 - (Z.pos (digits2_pos m2) + e2)).
  set (e' := Z.min (fexp B64.prec B64.emax delta) (e1 - e2)).
  assert (Hs : 0 <= e1 - e2 - e') by (unfold e'; lia).
  set (m' := match e1 - e2 - e' with
             | 0 => Z.pos m1
             | Z.pos _ => Z.shiftl (Z.pos m1) (e1 - e2 - e')
             | Z.neg _ => 0
             end).
  assert (Hm' : m' = Z.pos m1 * 2 ^ (e1 - e2 - e')).
  { unfold m'. destruct (e1 - e2 - e') as [|s|s] eqn:Hse; [| |lia].
    - rewrite Z.pow_0_r. lia.
    - rewrite Z.shiftl_mul_pow2 by lia. reflexivity. }
  assert (Hps : 0 < 2 ^ (e1 - e2 - e')) by (apply Z.pow_pos_nonneg; lia).
  assert (Hqr : Z.div_eucl m' (Z.pos m2) = (m' / Z.pos m2, m' mod Z.pos m2)).
  { unfold Z.div, Z.modulo. destruct (Z.div_eucl m' (Z.pos m2)). reflexivity. }
  rewrite Hqr.
  pose proof (digits2_pos_bounds m1) as [Hlo1 Hhi1].
  pose proof (digits2_pos_bounds m2) as [Hlo2 Hhi2].
  assert (Hlow : 2 ^ (Z.pos (digits2_pos m1) - 1 + (e1 - e2 - e')) <= m').
  { rewrite Hm', <- pow2_split by lia. apply Z.mul_le_mono_nonneg_r; lia. }
  apply binary_round_aux_valid; [apply Z.div_pos; lia|].
  destruct (Z.eq_dec (m' / Z.pos m2) 0) as [Hz|Hnz].
  - rewrite Hz. cbn [Zdigits2].
    assert (Hlt : m' < Z.pos m2).
    { pose proof (Z.div_mod m' (Z.pos m2) ltac:(lia)) as Hdm.
      pose proof (Z.mod_pos_bound m' (Z.pos m2) ltac:(lia)). lia. }
    assert (Z.pos (digits2_pos m1) - 1 + (e1 - e2 - e')
            < Z.pos (digits2_pos m2)).
    { destruct (Z.lt_ge_cases (Z.pos (digits2_pos m1) - 1 + (e1 - e2 - e'))
                  (Z.pos (digits2_pos m2))) as [|Hge]; [assumption|].
      assert (2 ^ Z.pos (digits2_pos m2)
              <= 2 ^ (Z.pos (digits2_pos m1) - 1 + (e1 - e2 - e')))
        by (apply Z.pow_le_mono_r; lia).
      lia. }
    unfold e', delta, fexp, emin, B64.prec, B64.emax in *. lia.
  - assert (Hq : 0 < m' / Z.pos m2).
    { pose proof (Z.div_pos m' (Z.pos m2) ltac:(lia) ltac:(lia)). lia. }
    apply Z.le_trans with (fexp B64.prec B64.emax delta); [unfold e'; lia|].
    apply fexp_monotone.
    destruct (Z.le_gt_cases (delta - e') 1) as [Hsm|Hbig].
    + pose proof (Zdigits2_bounds _ Hq).
      destruct (m' / Z.pos m2); simpl in *; lia.
    + assert (Ht : 2 ^ (delta - e' - 1) <= m' / Z.pos m2).
      { apply Z.div_le_lower_bound; [lia|].
        apply Z.le_trans with (2 ^ Z.pos (digits2_pos m2) * 2 ^ (delta - e' - 1)).
        - apply Z.mul_le_mono_nonneg_r; [apply Z.pow_nonneg|]; lia.
        - rewrite pow2_split by lia.
          replace (Z.pos (digits2_pos m2) + (delta - e' - 1))
            with (Z.pos (digits2_pos m1) - 1 + (e1 - e2 - e'))
            by (unfold delta; lia).
          assumption. }
      pose proof (Zdigits2_lower _ (delta - e' - 1) ltac:(lia) Ht). lia.
Qed.

Lemma to_int_of_Z_small (n : Z) :
  - 2 ^ 53 < n < 2 ^ 53 ->
  B64.to_int (B64.of_Z n) = if in_int n then Some n else None.
Proof.
  intros Hn.
  assert (Hgen : forall s a, 0 < a < 2 ^ 53 ->
            B64.int_part false s (mantissa a) (Zdigits2 a - 53)
            = if s then - a else a).
  { intros s a Ha. pose proof (Zdigits2_small a Ha) as Hd.
    unfold B64.int_part. rewrite andb_false_l.
    destruct (Z.leb_spec 0 (Zdigits2 a - 53)) as [Hge|Hlt].
    - replace (Zdigits2 a - 53) with 0 by lia.
      rewrite mantissa_value by assumption.
      replace (53 - Zdigits2 a) with 0 by lia.
      rewrite !Z.pow_0_r, !Z.mul_1_r. reflexivity.
    - rewrite mantissa_value by assumption.
      replace (- (Zdigits2 a - 53)) with (53 - Zdigits2 a) by lia.
      rewrite Z.div_mul; [reflexivity|].
      apply Z.pow_nonzero; lia. }
  destruct (Z.lt_trichotomy n 0) as [Hneg|[->|Hpos]].
  - replace n with (- - n) at 1 by lia. rewrite (of_Z_neg (- n)) by lia.
    cbn [B64.to_int]. rewrite Hgen by lia.
    replace (- - n) with n by lia. reflexivity.
  - reflexivity.
  - rewrite (of_Z_pos n) by lia. cbn [B64.to_int]. rewrite Hgen by lia.
    reflexivity.
Qed.

Lemma to_int_in_int (x : binary64) (n : Z) :
  B64.to_int x = Some n -> in_int n = true.
Proof.
  destruct x as [s|s| |s m e]; cbn [B64.to_int]; try discriminate.
  - intros [= <-]. reflexivity.
  - destruct (in_int (B64.int_part false s m e)) eqn:Hin; [|discriminate].
    intros [= <-]. assumption.
Qed.

(** The floor of a well-formed double that converts to an [int] compares
    with the doubles of the [int]s as that [int] does. *)
Lemma fltb_floor_valid (x : binary64) (n k : Z) :
  valid_binary B64.prec B64.emax x = true ->
  B64.to_int (B64.floor x) = Some n -> 0 <= k <= INT_MAX ->
  SFltb (B64.of_Z k) (B64.floor x) = (k <? n).
Proof.
  intros Hv Hn Hk.
  assert (H31 : INT_MAX < 2 ^ 53) by reflexivity.
  assert (Hzero : forall s, SFltb (B64.of_Z k) (S754_zero s) = (k <? 0)).
  { intros s. destruct (Z.eq_dec k 0) as [->|Hk0]; [reflexivity|].
    rewrite (of_Z_pos k) by lia. cbn.
    destruct (Z.ltb_spec k 0); [lia|reflexivity]. }
  assert (Hwhole : forall q s, q <> 0 -> - 2 ^ 53 < q < 2 ^ 53 ->
            B64.to_int (binary_normalize B64.prec B64.emax q 0 s) = Some n ->
            SFltb (B64.of_Z k) (binary_normalize B64.prec B64.emax q 0 s)
            = (k <? n)).
  { intros q s Hq0 Hq Hto.
    assert (Hof : binary_normalize B64.prec B64.emax q 0 s = B64.of_Z q).
    { destruct q; [lia|reflexivity|reflexivity]. }
    rewrite Hof in *. rewrite to_int_of_Z_small in Hto by assumption.
    destruct (in_int q); [|discriminate]. injection Hto as <-.
    apply of_Z_ltb; lia. }
  destruct x as [s|s| |s m e]; cbn [B64.floor] in *; try discriminate.
  - injection Hn as <-. apply Hzero.
  - cbn [valid_binary] in Hv. apply bounded_canonical in Hv as (Hd & He & Hnorm).
    pose proof (digits2_pos_bounds m) as [Hlo Hhi].
    assert (Hm53 : Z.pos m < 2 ^ 53).
    { assert (2 ^ Z.pos (digits2_pos m) <= 2 ^ 53)
        by (apply Z.pow_le_mono_r; lia). lia. }
    destruct (Z.leb_spec 0 e) as [Hge|Hlt].
    + exfalso. cbn [B64.to_int] in Hn.
      specialize (Hnorm ltac:(lia)). rewrite Hnorm in Hlo.
      change (2 ^ (53 - 1)) with (2 ^ 52) in Hlo.
      assert (Hpe : 0 < 2 ^ e) by (apply Z.pow_pos_nonneg; lia).
      assert (Hbig : 2 ^ 52 <= Z.pos m * 2 ^ e) by nia.
      assert (Hip : B64.int_part false s m e
                    = if s then - (Z.pos m * 2 ^ e) else Z.pos m * 2 ^ e).
      { unfold B64.int_part. rewrite andb_false_l.
        destruct (Z.leb_spec 0 e); [reflexivity|lia]. }
      rewrite Hip in Hn.
      assert (Hout : in_int (if s then - (Z.pos m * 2 ^ e)
                             else Z.pos m * 2 ^ e) = false).
      { unfold in_int, INT_MIN, INT_MAX.
        change (2 ^ 52) with 4503599627370496 in Hbig.
        destruct s; apply andb_false_iff;
          [left; apply Z.leb_gt; lia|right; apply Z.leb_gt; lia]. }
      rewrite Hout in Hn. discriminate.
    + assert (Hpe : 0 < 2 ^ (- e)) by (apply Z.pow_pos_nonneg; lia).
      assert (Hpe2 : 2 <= 2 ^ (- e)).
      { change 2 with (2 ^ 1) at 1. apply Z.pow_le_mono_r; lia. }
      pose proof (Z.div_pos (Z.pos m) (2 ^ (- e)) ltac:(lia) Hpe) as Ha0.
      assert (Ha : Z.pos m / 2 ^ (- e) < 2 ^ 52).
      { apply Z.div_lt_upper_bound; [assumption|].
        change (2 ^ 53) with (2 * 2 ^ 52) in Hm53. nia. }
      change (2 ^ 52) with 4503599627370496 in Ha.
      assert (H53 : 2 ^ 53 = 9007199254740992) by reflexivity.
      remember (B64.int_part true s m e) as q eqn:Hq.
      assert (Hqb : - 2 ^ 53 < q < 2 ^ 53).
      { subst q. unfold B64.int_part.
        destruct (Z.leb_spec 0 e); [lia|].
        destruct s; [destruct (true && negb _)|]; lia. }
      destruct (Z.eqb_spec q 0) as [Hq0|Hq0].
      * cbn [B64.to_int] in Hn. injection Hn as <-. apply Hzero.
      * apply Hwhole; assumption.
Qed.

Lemma fltb_floor_SFdiv (d dt : binary64) (n k : Z) :
  B64.to_int (B64.floor (SFdiv B64.prec B64.emax d dt)) = Some n ->
  0 <= k <= INT_MAX ->
  SFltb (B64.of_Z k) (B64.floor (SFdiv B64.prec B64.emax d dt)) = (k <? n).
Proof. apply fltb_floor_valid, SFdiv_valid. Qed.

Lemma of_Z_succ_int (k : Z) :
  0 <= k < INT_MAX ->
  SFadd B64.prec B64.emax (B64.of_Z k) (B64.of_Z 1) = B64.of_Z (k + 1).
Proof.
  intros Hk. apply of_Z_succ. unfold INT_MAX in Hk.
  change (2 ^ 52) with 4503599627370496. lia.
Qed.

#[export] Instance DoubleCount_binary64 : DoubleCount binary64 := {
  fvalid := valid_binary B64.prec B64.emax;
  f_of_Z_0 := eq_refl;
  f_of_Z_succ := of_Z_succ_int;
  f_to_int_in_int := to_int_in_int;
  fltb_floor_fdiv := fltb_floor_SFdiv;
  floor_fdiv_lt := floor_SFdiv_lt
}.

(** *** Counting in the reals *)

Lemma Int_part_IZR (z : Z) : Int_part (IZR z) = z.
Proof. symmetry. apply Int_part_spec. lra. Qed.

Lemma Rd_trunc_IZR (z : Z) : Rd.trunc (IZR z) = z.
Proof.
  unfold Rd.trunc. destruct (Rle_dec 0 (IZR z)) as [Hle|Hgt].
  - apply Int_part_IZR.
  - rewrite <- opp_IZR, Int_part_IZR. lia.
Qed.

Lemma Rd_to_int_in_int (x : R) (n : Z) :
  Rd.to_int x = Some n -> in_int n = true.
Proof.
  unfold Rd.to_int. destruct (in_int (Rd.trunc x)) eqn:Hin; [|discriminate].
  intros [= <-]. assumption.
Qed.

Lemma Rd_to_int_floor (x : R) (n : Z) :
  Rd.to_int (Rd.floor x) = Some n -> n = Int_part x.
Proof.
  unfold Rd.to_int, Rd.floor. rewrite Rd_trunc_IZR.
  destruct (in_int (Int_part x)); [|discriminate].
  intros [= <-]. reflexivity.
Qed.

Lemma Rd_ltb_IZR (k n : Z) : Rd.ltb (IZR k) (IZR n) = (k <? n).
Proof.
  unfold Rd.ltb. destruct (Rlt_dec (IZR k) (IZR n)) as [Hlt|Hge].
  - apply lt_IZR in Hlt. symmetry. apply Z.ltb_lt. assumption.
  - symmetry. apply Z.ltb_ge. apply Z.nlt_ge. intros Hlt. apply Hge.
    apply IZR_lt. assumption.
Qed.

Lemma Int_part_small (x : R) : (0 <= x < 1)%R -> Int_part x = 0.
Proof. intros Hx. symmetry. apply Int_part_spec. lra. Qed.

Lemma Rd_succ (k : Z) : 0 <= k < INT_MAX -> (IZR k + 1)%R = IZR (k + 1).
Proof. intros _. rewrite plus_IZR. reflexivity. Qed.

Lemma Rd_ltb_floor (d dt : R) (n k : Z) :
  Rd.to_int (Rd.floor (d / dt)) = Some n -> 0 <= k <= INT_MAX ->
  Rd.ltb (IZR k) (Rd.floor (d / dt)) = (k <? n).
Proof.
  intros Hn _. apply Rd_to_int_floor in Hn as ->. apply Rd_ltb_IZR.
Qed.

Lemma Rd_floor_div_lt (d dt : R) :
  true = true -> true = true -> Rd.ltb d dt = true -> Rd.ltb d 0 = false ->
  Rd.to_int (Rd.floor (d / dt)) = Some 0.
Proof.
  intros _ _ Hlt Hnn. unfold Rd.ltb in Hlt, Hnn.
  destruct (Rlt_dec d dt) as [Hlt'|]; [|discriminate].
  destruct (Rlt_dec d 0) as [|Hge]; [discriminate|].
  assert (Hq : Int_part (d / dt) = 0).
  { apply Int_part_small. split.
    - apply Rmult_le_pos; [lra|]. apply Rlt_le, Rinv_0_lt_compat. lra.
    - apply (Rmult_lt_reg_r dt); [lra|].
      unfold Rdiv. rewrite Rmult_assoc, Rinv_l by lra. lra. }
  unfold Rd.to_int, Rd.floor. rewrite Rd_trunc_IZR, Hq. reflexivity.
Qed.

#[export] Instance DoubleCount_R : DoubleCount R := {
  fvalid := fun _ => true;
  f_of_Z_0 := eq_refl;
  f_of_Z_succ := Rd_succ;
  f_to_int_in_int := Rd_to_int_in_int;
  fltb_floor_fdiv := Rd_ltb_floor;
  floor_fdiv_lt := Rd_floor_div_lt
}.

(** ** The inequality builder, sample by sample *)

Definition Zsum (l : list Z) : Z := fold_right Z.add 0 l.

Section InequalitySamples.
Context {T : Type} `{DoubleCount T}.

(** The loop over the samples runs [N] times, at the doubles of [0], ...,
    [N - 1], when the floor that bounds it converts to the [int] [N], given
    more fuel than that. *)
Lemma for_double_returns {Acc St} (I : nat -> Acc -> St -> Prop)
    (fuel : nat) (d dt : T) (N : Z) (body : T -> Acc -> run St Acc)
    (a : Acc) (s : St) :
  f_to_int (ffloor (d / dt)%D) = Some N ->
  (Z.to_nat N < fuel)%nat ->
  I O a s ->
  (forall k a0 s0, Z.of_nat k < N -> I k a0 s0 ->
     returns (body (f_of_Z (Z.of_nat k)) a0) s0 (I (S k))) ->
  returns (for_double fuel fzero (ffloor (d / dt)%D) body a) s
    (I (Z.to_nat N)).
Proof.
  intros HN Hfuel Hstart Hstep.
  pose proof (f_to_int_in_int _ _ HN) as Hin.
  unfold in_int, INT_MIN in Hin. apply andb_true_iff in Hin as [_ Hmax].
  apply Z.leb_le in Hmax.
  assert (Hgen : forall fuel' k a0 s0,
    Z.of_nat k <= Z.max 0 N -> (Z.to_nat N - k < fuel')%nat -> I k a0 s0 ->
    returns (for_double fuel' (f_of_Z (Z.of_nat k)) (ffloor (d / dt)%D)
               body a0) s0 (I (Z.to_nat N))).
  { induction fuel' as [|fuel' IH]; intros k a0 s0 Hk Hf HI; [lia|].
    cbn [for_double].
    rewrite (fltb_floor_fdiv d dt N (Z.of_nat k) HN)
      by (unfold INT_MAX in *; lia).
    destruct (Z.ltb_spec (Z.of_nat k) N) as [Hlt|Hge].
    - eapply returns_bind; [apply Hstep; eassumption|].
      intros a1 s1 HI1.
      rewrite f_of_Z_succ by (unfold INT_MAX in *; lia).
      replace (Z.of_nat k + 1) with (Z.of_nat (S k)) by lia.
      apply IH; [lia|lia|assumption].
    - apply returns_ret. replace (Z.to_nat N) with k by lia. assumption. }
  rewrite <- f_of_Z_0. apply (Hgen fuel O a s); [lia|lia|exact Hstart].
Qed.

(** What the specification counts for a segment: nothing in a full-support
    phase, and otherwise the [int] that [std::floor(duration / dt)]
    converts to, the [n_nodes] of [LineForConstraint]. *)
Definition floor_samples (dt : T) (s : ZmpSpline T) : Z :=
  if four_leg_supp_ s then 0
  else match n_nodes s dt with Some n => n | None => 0 end.

Lemma samples_floor_samples (dt : T) (s : ZmpSpline T) :
  0 <= floor_samples dt s -> Z.of_nat (samples dt s) = floor_samples dt s.
Proof.
  unfold samples, floor_samples. destruct (four_leg_supp_ s); [lia|].
  destruct (n_nodes s dt); lia.
Qed.

Lemma samples_floor (dt : T) (l : list (ZmpSpline T)) :
  Forall (fun s => 0 <= floor_samples dt s) l ->
  Z.of_nat (sum_list_with (samples dt) l) = Zsum (map (floor_samples dt) l).
Proof.
  induction 1 as [|s l Hs Hl IH]; [reflexivity|].
  cbn [sum_list_with map Zsum fold_right]. fold (Zsum (map (floor_samples dt) l)).
  rewrite <- IH, <- (samples_floor_samples dt s Hs). lia.
Qed.

Lemma returns_segment_constraints_counted (sc : SplineContainer T)
    (start_cog_p start_cog_v : Vector2d T)
    (lines : list (hyq.SuppTriangle.TrLine T)) (h dt : T)
    (s : ZmpSpline T) (k : nat) ineq c o :
  let nr := (length (splines_ sc) * 8)%nat in
  wf_splines sc -> splines_ sc !! k = Some s ->
  (four_leg_supp_ s = false -> is_Some (n_nodes s dt)) ->
  ipopt_shape sc nr (length lines) o -> shape nr (length lines) ineq ->
  0 <= c ->
  c + 3 * Z.of_nat (samples dt s) <= Z.of_nat (length lines) ->
  returns (segment_constraints sc start_cog_p start_cog_v lines h dt s (ineq, c))
    o (fun st o' => snd st = c + 3 * Z.of_nat (samples dt s) /\
                    shape nr (length lines) (fst st) /\
                    ipopt_shape sc nr (length lines) o').
Proof.
  intros nr Hwf Hs Hnodes Hsh Hineq Hc0 Hc.
  pose proof (lookup_lt_Some _ _ _ Hs) as Hk.
  unfold segment_constraints, samples in *.
  destruct (four_leg_supp_ s).
  { apply returns_ret. simpl. split; [lia|]. split; assumption. }
  destruct (Hnodes eq_refl) as [N HN]. rewrite HN in *.
  rewrite (wf_splines_lookup sc k s Hwf Hs).
  pose proof (length_DescribeEByPrev sc (Z.of_nat k) X (at_dim start_cog_v X)) as HEx.
  pose proof (length_DescribeFByPrev sc (Z.of_nat k) X (at_dim start_cog_v X)
                (at_dim start_cog_p X)) as HFx.
  pose proof (length_DescribeEByPrev sc (Z.of_nat k) Y (at_dim start_cog_v Y)) as HEy.
  pose proof (length_DescribeFByPrev sc (Z.of_nat k) Y (at_dim start_cog_v Y)
                (at_dim start_cog_p Y)) as HFy.
  destruct (DescribeEByPrev sc (Z.of_nat k) X _) as [Ekx e0x].
  destruct (DescribeFByPrev sc (Z.of_nat k) X _ _) as [Fkx f0x].
  destruct (DescribeEByPrev sc (Z.of_nat k) Y _) as [Eky e0y].
  destruct (DescribeFByPrev sc (Z.of_nat k) Y _ _) as [Fky f0y].
  cbn [fst] in HEx, HFx, HEy, HFy.
  unfold GetOptCoeffCount, kOptCoeff, kDim2d in HEx, HFx, HEy, HFy.
  unfold n_nodes in HN.
  eapply returns_weaken.
  - apply (for_double_returns
             (fun (i : nat) (st : MatVec T * Z) o' =>
                snd st = c + 3 * Z.of_nat i /\
                shape nr (length lines) (fst st) /\
                ipopt_shape sc nr (length lines) o')
             _ _ _ N _ _ _ HN).
    + lia.
    + simpl. split; [lia|]. split; assumption.
    + intros i [ineq0 c0] o0 Hi (Hc1 & Hi1 & Ho1). simpl in Hc1, Hi1. subst c0.
      eapply returns_weaken.
      * apply (returns_sample sc lines k); try eassumption; unfold nr; lia.
      * intros [ineq1 c1] o1 (Hc2 & Hi2 & Ho2). simpl in *.
        split; [lia|]. split; assumption.
  - intros st o' HI. exact HI.
Qed.

(** The segments that are not full-support have a number of nodes: the
    conversion of the floor to [int] is defined. *)
Definition nodes_defined (dt : T) (sc : SplineContainer T) : Prop :=
  Forall (fun s => four_leg_supp_ s = false -> is_Some (n_nodes s dt))
    (splines_ sc).

Lemma nodes_defined_at (dt : T) (sc : SplineContainer T) done s rest :
  nodes_defined dt sc -> splines_ sc = done ++ s :: rest ->
  four_leg_supp_ s = false -> is_Some (n_nodes s dt).
Proof.
  unfold nodes_defined. intros Hall Hsplit. rewrite Hsplit in Hall.
  apply Forall_app in Hall as [_ Hall]. apply Forall_cons in Hall as [Hs _].
  exact Hs.
Qed.

Lemma CreateInequalityContraints_counted_Ok (o : ZmpOptimizer T)
    (start_cog_p start_cog_v : Vector2d T)
    (lines : list (hyq.SuppTriangle.TrLine T)) (h dt : T) :
  let sc := zmp_splines_ o in
  wf_splines sc -> nodes_defined dt sc ->
  length lines = (3 * sum_list_with (samples dt) (splines_ sc))%nat ->
  Z.of_nat (length lines) <= INT_MAX ->
  returns (CreateInequalityContraints_counted start_cog_p start_cog_v lines h dt)
    o (fun st o' =>
         snd st = Z.of_nat (length lines) /\
         shape (length (splines_ sc) * 8) (length lines) (fst st) /\
         ipopt_shape sc (length (splines_ sc) * 8) (length lines) o').
Proof.
  intros sc Hwf Hnodes Hlen Hmax.
  unfold CreateInequalityContraints_counted.
  apply returns_gets_bind. fold sc.
  assert (Hint : to_int (Z.of_nat (length lines)) = Z.of_nat (length lines)).
  { unfold to_int, INT_MAX in *. rewrite Z.mod_small; lia. }
  rewrite Hint.
  destruct (MatVec_new_Ok (T := T) (GetOptCoeffCount sc)
              (Z.of_nat (length lines)))
    as (ineq0 & Hnew & Hwf0 & Hr0 & Hc0 & Hv0 & _).
  { unfold GetOptCoeffCount, kOptCoeff, kDim2d. lia. }
  { lia. }
  eapply returns_lift_bind; [exact Hnew|].
  do 3 apply returns_modify_bind.
  unfold GetOptCoeffCount, kOptCoeff, kDim2d in Hr0.
  eapply returns_weaken.
  - apply (for_each_m_returns
             (fun done (st : MatVec T * Z) o' =>
                snd st = 3 * Z.of_nat (sum_list_with (samples dt) done) /\
                shape (length (splines_ sc) * 8) (length lines) (fst st) /\
                ipopt_shape sc (length (splines_ sc) * 8) (length lines) o')).
    + simpl. split; [reflexivity|]. split.
      * repeat split; try apply Hwf0; lia.
      * repeat split; simpl; try apply Hwf0; lia.
    + intros done s [ineq c] o0 [rest Hsplit] (Hc & Hsh & Hip).
      simpl in Hc, Hsh. subst c.
      destruct (wf_splines_prefix sc done s rest Hwf Hsplit) as [Hs _].
      assert (Hle : (3 * sum_list_with (samples dt) (done ++ [s])
                     <= length lines)%nat).
      { rewrite Hlen, Hsplit. rewrite !sum_list_with_app. simpl. lia. }
      rewrite sum_list_with_app in Hle. simpl in Hle.
      eapply returns_weaken.
      * apply (returns_segment_constraints_counted sc start_cog_p start_cog_v
                 lines h dt s (length done)); try eassumption; try lia.
        apply (nodes_defined_at dt sc done s rest); assumption.
      * intros [ineq1 c1] o1 (Hc1 & Hsh1 & Hip1). simpl in *.
        split; [|split; assumption].
        rewrite sum_list_with_app. simpl. lia.
  - intros [ineq c] o' (Hc & Hsh & Hip). simpl in *.
    split; [lia|]. split; assumption.
Qed.

(** The (segment, time) pairs of the constraints of a segment and of the
    plan, in the order of their columns: three at each sample, whose time is
    the product [i * dt] of the double [i] of the sample's number. *)
Definition segment_schedule (dt : T) (s : ZmpSpline T) : list (Z * T) :=
  flat_map (fun i => replicate 3 (id_ s, (f_of_Z (Z.of_nat i) * dt)%D))
    (seq 0 (samples dt s)).

Definition schedule (dt : T) (sc : SplineContainer T) : list (Z * T) :=
  flat_map (segment_schedule dt) (splines_ sc).

Lemma length_segment_schedule dt s :
  length (segment_schedule dt s) = (3 * samples dt s)%nat.
Proof.
  unfold segment_schedule. rewrite (flat_map_constant_length (c := 3)).
  - rewrite length_seq. lia.
  - intros i _. apply length_replicate.
Qed.

Lemma length_schedule_prefix dt (l : list (ZmpSpline T)) :
  length (flat_map (segment_schedule dt) l)
  = (3 * sum_list_with (samples dt) l)%nat.
Proof.
  induction l as [|s l IH]; [reflexivity|].
  cbn [flat_map sum_list_with]. rewrite length_app, length_segment_schedule. lia.
Qed.

Lemma returns_segment_constraints_written (sc : SplineContainer T)
    (start_cog_p start_cog_v : Vector2d T)
    (lines : list (hyq.SuppTriangle.TrLine T)) (h dt : T)
    (s : ZmpSpline T) (k : nat) sched st o :
  wf_splines sc -> splines_ sc !! k = Some s ->
  (four_leg_supp_ s = false -> is_Some (n_nodes s dt)) ->
  (length sched + 3 * samples dt s <= length lines)%nat ->
  written sc start_cog_p start_cog_v lines h sched st o ->
  returns (segment_constraints sc start_cog_p start_cog_v lines h dt s st) o
    (written sc start_cog_p start_cog_v lines h
       (sched ++ segment_schedule dt s)).
Proof.
  intros Hwf Hs Hnodes Hlen Hw.
  pose proof (lookup_lt_Some _ _ _ Hs) as Hk.
  unfold segment_constraints, segment_schedule, samples in *.
  destruct (four_leg_supp_ s).
  { apply returns_ret. cbn [seq flat_map]. rewrite app_nil_r. assumption. }
  destruct (Hnodes eq_refl) as [N HN]. rewrite HN in *.
  rewrite (wf_splines_lookup sc k s Hwf Hs).
  destruct (DescribeEByPrev sc (Z.of_nat k) X _) as [Ekx e0x] eqn:HEx.
  destruct (DescribeFByPrev sc (Z.of_nat k) X _ _) as [Fkx f0x] eqn:HFx.
  destruct (DescribeEByPrev sc (Z.of_nat k) Y _) as [Eky e0y] eqn:HEy.
  destruct (DescribeFByPrev sc (Z.of_nat k) Y _ _) as [Fky f0y] eqn:HFy.
  unfold n_nodes in HN.
  set (per_sample := fun i : nat =>
         replicate 3 (Z.of_nat k, (f_of_Z (Z.of_nat i) * dt)%D)).
  apply (for_double_returns
           (fun (i : nat) (st : MatVec T * Z) o' =>
              written sc start_cog_p start_cog_v lines h
                (sched ++ flat_map per_sample (seq 0 i)) st o')
           _ _ _ N _ _ _ HN).
  - lia.
  - simpl. rewrite app_nil_r. assumption.
  - intros i st0 o0 Hi Hw0.
    rewrite seq_S, flat_map_app. cbn [flat_map Nat.add]. rewrite app_nil_r.
    rewrite app_assoc.
    apply (returns_sample_written sc start_cog_p start_cog_v lines h
             (sched ++ flat_map per_sample (seq 0 i)) k
             (f_of_Z (Z.of_nat i) * dt)%D
             Ekx e0x Fkx f0x Eky e0y Fky f0y); try assumption.
    rewrite length_app.
    rewrite (flat_map_constant_length (c := 3)).
    + rewrite length_seq. lia.
    + intros i' _. apply length_replicate.
Qed.

Lemma CreateInequalityContraints_counted_written (o : ZmpOptimizer T)
    (start_cog_p start_cog_v : Vector2d T)
    (lines : list (hyq.SuppTriangle.TrLine T)) (h dt : T) :
  let sc := zmp_splines_ o in
  wf_splines sc -> nodes_defined dt sc ->
  length lines = (3 * sum_list_with (samples dt) (splines_ sc))%nat ->
  Z.of_nat (length lines) <= INT_MAX ->
  returns (CreateInequalityContraints_counted start_cog_p start_cog_v lines h dt)
    o (written sc start_cog_p start_cog_v lines h (schedule dt sc)).
Proof.
  intros sc Hwf Hnodes Hlen Hmax.
  unfold CreateInequalityContraints_counted.
  apply returns_gets_bind. fold sc.
  assert (Hint : to_int (Z.of_nat (length lines)) = Z.of_nat (length lines)).
  { unfold to_int, INT_MAX in *. rewrite Z.mod_small; lia. }
  rewrite Hint.
  destruct (MatVec_new_Ok (T := T) (GetOptCoeffCount sc)
              (Z.of_nat (length lines)))
    as (ineq0 & Hnew & Hwf0 & Hr0 & Hc0 & Hv0 & Hz0 & Hzv0).
  { unfold GetOptCoeffCount, kOptCoeff, kDim2d. lia. }
  { lia. }
  eapply returns_lift_bind; [exact Hnew|].
  do 3 apply returns_modify_bind.
  unfold GetOptCoeffCount, kOptCoeff, kDim2d in Hr0.
  apply (for_each_m_returns
           (fun done (st : MatVec T * Z) o' =>
              written sc start_cog_p start_cog_v lines h
                (flat_map (segment_schedule dt) done) st o')).
  - unfold written. cbn [flat_map length fst snd]. split; [reflexivity|]. split.
    { repeat split; try apply Hwf0; lia. }
    split.
    { repeat split; simpl; try apply Hwf0; lia. }
    split.
    + intros c _. split; [intros i; apply Hz0|apply Hzv0].
    + intros c prm Hprm. rewrite lookup_nil in Hprm. discriminate.
  - intros done s st o0 [rest Hsplit] Hw.
    destruct (wf_splines_prefix sc done s rest Hwf Hsplit) as [Hs _].
    rewrite flat_map_app. cbn [flat_map]. rewrite app_nil_r.
    apply (returns_segment_constraints_written sc start_cog_p start_cog_v lines
             h dt s (length done)); try assumption.
    + apply (nodes_defined_at dt sc done s rest); assumption.
    + rewrite length_schedule_prefix, Hlen, Hsplit.
      rewrite !sum_list_with_app. simpl. lia.
Qed.

(** Every entry of the schedule is a sample of a segment of the plan that is
    not full-support: the product of the double of a number below the
    segment's number of nodes and [dt]. *)
Lemma schedule_lookup dt (sc : SplineContainer T) c k time :
  wf_splines sc ->
  schedule dt sc !! c = Some (k, time) ->
  exists (kn i : nat) s n,
    k = Z.of_nat kn /\ splines_ sc !! kn = Some s /\
    four_leg_supp_ s = false /\ n_nodes s dt = Some n /\
    Z.of_nat i < n /\ time = (f_of_Z (Z.of_nat i) * dt)%D.
Proof.
  intros Hwf Hc. apply list_elem_of_lookup_2 in Hc.
  apply list_elem_of_In in Hc. unfold schedule in Hc.
  apply in_flat_map in Hc as (s & Hs & Hin).
  apply list_elem_of_In, list_elem_of_lookup in Hs as [kn Hs].
  unfold segment_schedule in Hin.
  apply in_flat_map in Hin as (i & Hi & Hin).
  apply in_seq in Hi.
  apply list_elem_of_In, elem_of_replicate in Hin as [Heq _].
  injection Heq as -> ->.
  unfold samples in Hi.
  destruct (four_leg_supp_ s) eqn:H4; [lia|].
  destruct (n_nodes s dt) as [n|] eqn:Hn; [|lia].
  exists kn, i, s, n. split; [eapply wf_splines_lookup; eassumption|].
  split; [assumption|]. split; [assumption|]. split; [assumption|].
  split; [lia|reflexivity].
Qed.

(** The value that the builder assigns to the row of a free coefficient
    (lines 350 to 353 of the source), for the gravity [grav], the height [h]
    and the cached powers [t] of the time. *)
Definition zmp_weight (grav h : T) (t : list T) (letter : SplineCoeff) : T :=
  match letter with
  | A => (arr t 5 - h / (grav + fzero) * f_of_Z 20 * arr t 3)%D
  | B => (arr t 4 - h / (grav + fzero) * f_of_Z 12 * arr t 2)%D
  | C => (arr t 3 - h / (grav + fzero) * f_of_Z 6 * arr t 1)%D
  | D => (arr t 2 - h / (grav + fzero) * f_of_Z 2)%D
  | E | F => fzero
  end.

(** What the column holds on that row after the loop over the two axes, for
    the entries [ekx], [fkx], [eky], [fky] of the descriptions of E and F on
    the same row: the pass for the x axis assigns the rows of x and adds
    its descriptions to the whole column, and the pass for the y axis then
    assigns the rows of y and adds its own. *)
Definition zmp_entry (grav h : T) (t : list T) (dim : Coords)
    (letter : SplineCoeff) (ekx fkx eky fky : T) : T :=
  match dim with
  | X => (zmp_weight grav h t letter + arr t 1 * ekx + arr t 0 * fkx
          + arr t 1 * eky + arr t 0 * fky)%D
  | Y => (zmp_weight grav h t letter + arr t 1 * eky + arr t 0 * fky)%D
  end.

Lemma ipopt_column_own (sc : SplineContainer T)
    (start_cog_p start_cog_v : Vector2d T) (h : T) (k : Z) (time : T)
    (dim : Coords) (letter : SplineCoeff) :
  coeff_int letter < kOptCoeff ->
  let i := var_index k (dim_int dim) (coeff_int letter) in
  ipopt_column sc start_cog_p start_cog_v h k time i
  = zmp_entry (lit 981 100) h (cache_exponents 6 time) dim letter
      (vcoeff (fst (Ek_of sc start_cog_v k X)) i)
      (vcoeff (fst (Fk_of sc start_cog_p start_cog_v k X)) i)
      (vcoeff (fst (Ek_of sc start_cog_v k Y)) i)
      (vcoeff (fst (Fk_of sc start_cog_p start_cog_v k Y)) i).
Proof.
  intros Hletter i. subst i.
  unfold ipopt_column, zmp_column, zmp_free, zmp_entry, zmp_weight, g.
  cbv zeta.
  unfold var_index, kOptCoeff, kDim2d in *.
  destruct dim, letter; cbn [coeff_int dim_int] in *; try lia;
    repeat (destruct (decide _) as [?|?]; try lia); reflexivity.
Qed.

(** The columns that the inequality builder makes: for a list of lines of
    the length that the plan needs, the builder returns, and the column of
    each entry of the schedule is the one that its constraint wrote. *)
Lemma CreateInequalityContraints_columns (o : ZmpOptimizer T)
    (start_cog_p start_cog_v : Vector2d T)
    (lines : list (hyq.SuppTriangle.TrLine T)) (h dt : T) :
  let sc := zmp_splines_ o in
  wf_splines sc -> nodes_defined dt sc ->
  length lines = (3 * sum_list_with (samples dt) (splines_ sc))%nat ->
  Z.of_nat (length lines) <= INT_MAX ->
  exists ineq o',
    CreateInequalityContraints start_cog_p start_cog_v lines h dt o
    = (Ok ineq, o') /\
    shape (length (splines_ sc) * 8) (length lines) ineq /\
    ipopt_shape sc (length (splines_ sc) * 8) (length lines) o' /\
    length (schedule dt sc) = length lines /\
    forall c prm,
      schedule dt sc !! c = Some prm ->
      column_done sc start_cog_p start_cog_v lines h c prm ineq o'.
Proof.
  intros sc Hwf Hnodes Hlen Hmax.
  destruct (CreateInequalityContraints_counted_written o start_cog_p start_cog_v
              lines h dt Hwf Hnodes Hlen Hmax) as ([ineq c] & o' & Hrun & Hw).
  exists ineq, o'. split.
  { unfold CreateInequalityContraints, mbind, run_bind. rewrite Hrun.
    reflexivity. }
  destruct Hw as (Hc & Hsh & Hip & Hfresh & Hdone). cbn [fst snd] in *.
  fold sc in Hsh, Hip, Hdone. split; [assumption|]. split; [assumption|].
  split; [|assumption].
  unfold schedule. rewrite length_schedule_prefix. fold sc. lia.
Qed.

(** The axis of a row: the rows of [x] and [y] alternate in blocks of
    four. *)
Lemma var_index_axis (k : nat) (dim : Coords) (letter : SplineCoeff) :
  coeff_int letter < kOptCoeff ->
  ((var_index (Z.of_nat k) (dim_int dim) (coeff_int letter) / 4) mod 2 =? 0)
  = match dim with X => true | Y => false end.
Proof.
  intros Hletter. pose proof (dim_int_bounds dim) as Hdim.
  assert (Hletter' : 0 <= coeff_int letter <= 3).
  { unfold kOptCoeff in Hletter. destruct letter; cbn [coeff_int] in *; lia. }
  unfold var_index, kOptCoeff, kDim2d.
  replace (4 * 2 * Z.of_nat k + 4 * dim_int dim + coeff_int letter)
    with (8 * Z.of_nat k + 4 * dim_int dim + coeff_int letter) by lia.
  rewrite div4_index by assumption.
  rewrite Z.add_comm, Z.mul_comm, Z.mod_add by lia.
  destruct dim; reflexivity.
Qed.

End InequalitySamples.

(** ** The inequality builder over the reals *)

Section InequalityOverReals.
Local Open Scope R_scope.

Lemma vcoeff_vbump_other (u : VectorXd R) i x j :
  j <> i -> vcoeff (vbump u i x) j = vcoeff u j.
Proof.
  intros Hne. unfold vbump, vcoeff.
  destruct (0 <=? i)%Z eqn:Ei; [|reflexivity].
  destruct (0 <=? j)%Z eqn:Ej; [|reflexivity].
  apply Z.leb_le in Ei, Ej.
  rewrite list_lookup_alter_ne by lia. reflexivity.
Qed.

(** The descriptions of E and F of a segment have no part on the free
    coefficients of that segment or of a later one: they are "a sparse
    linear combination over all preceding free coefficients". *)
Lemma continue_EF_support (s : ZmpSpline R) dim
    (EF : (VectorXd R * R) * (VectorXd R * R)) (n : nat) (b : Z) :
  length (fst (fst EF)) = n -> length (fst (snd EF)) = n ->
  (0 <= id_ s < b)%Z ->
  (forall i, (8 * b <= i)%Z ->
     vcoeff (fst (fst EF)) i = 0 /\ vcoeff (fst (snd EF)) i = 0) ->
  forall i, (8 * b <= i)%Z ->
    vcoeff (fst (fst (continue_EF s dim EF))) i = 0 /\
    vcoeff (fst (snd (continue_EF s dim EF))) i = 0.
Proof.
  destruct EF as [[Ek e0] [Fk f0]]. cbn [fst snd]. intros HE HF Hid Hz i Hi.
  destruct (Hz i Hi) as [HzE HzF].
  pose proof (dim_int_bounds dim) as Hdim.
  unfold continue_EF. cbn [fst snd].
  assert (Hne : forall letter, (coeff_int letter < 4)%Z ->
    i <> var_index (id_ s) (dim_int dim) (coeff_int letter)).
  { intros letter. unfold var_index, kOptCoeff, kDim2d.
    destruct letter; cbn [coeff_int]; lia. }
  rewrite !vcoeff_vbump_other by (apply Hne; cbn [coeff_int]; lia).
  split; [assumption|].
  destruct (Z_lt_le_dec i (Z.of_nat n)) as [Hlt|Hge].
  - rewrite vcoeff_zip_with.
    + unfold vscale_r. rewrite vcoeff_fmap by lia.
      rewrite HzE, HzF. cbn. ring.
    + unfold vscale_r. rewrite length_fmap. lia.
    + lia.
  - apply (@vcoeff_ge R Double_R). rewrite length_zip_with. unfold vscale_r.
    rewrite length_fmap. lia.
Qed.

Lemma describe_EF_support (sc : SplineContainer R) (k : nat) dim v0 p0 i :
  wf_splines sc -> (8 * Z.of_nat k <= i)%Z ->
  vcoeff (fst (fst (describe_EF sc (Z.of_nat k) dim v0 p0))) i = 0 /\
  vcoeff (fst (snd (describe_EF sc (Z.of_nat k) dim v0 p0))) i = 0.
Proof.
  intros Hwf Hi. unfold describe_EF. rewrite Nat2Z.id.
  assert (Hids : Forall (fun s => (0 <= id_ s < Z.of_nat k)%Z)
                   (take k (splines_ sc))).
  { apply Forall_forall. intros s Hs.
    apply list_elem_of_lookup in Hs as [j Hj].
    apply lookup_take_Some in Hj as [Hj Hlt].
    rewrite (wf_splines_lookup sc j s Hwf Hj). lia. }
  revert Hids. generalize (take k (splines_ sc)) as l.
  set (n := Z.to_nat (GetOptCoeffCount sc)).
  assert (Hgen : forall (l : list (ZmpSpline R)) EF,
    length (fst (fst EF)) = n -> length (fst (snd EF)) = n ->
    (forall i, (8 * Z.of_nat k <= i)%Z ->
       vcoeff (fst (fst EF)) i = 0 /\ vcoeff (fst (snd EF)) i = 0) ->
    Forall (fun s => (0 <= id_ s < Z.of_nat k)%Z) l ->
    vcoeff (fst (fst (fold_left (fun EF s => continue_EF s dim EF) l EF))) i = 0
    /\
    vcoeff (fst (snd (fold_left (fun EF s => continue_EF s dim EF) l EF))) i
    = 0).
  { induction l as [|s l IH]; intros EF HE HF Hz Hall; cbn [fold_left].
    - apply Hz. assumption.
    - inversion Hall as [|s' l' Hs Hl]; subst.
      destruct (length_continue_EF s dim EF n HE HF) as [HE' HF'].
      apply IH; try assumption.
      apply (continue_EF_support s dim EF n); assumption. }
  intros l Hall. apply Hgen; cbn [fst snd]; try apply length_replicate;
    try assumption.
  intros i' _.
  assert (Hzero : forall j, vcoeff (replicate n (0 : R)) j = 0).
  { intros j. unfold vcoeff. destruct (0 <=? j)%Z; [|reflexivity].
    destruct (replicate n (0 : R) !! Z.to_nat j) eqn:Ej; [|reflexivity].
    apply lookup_replicate in Ej as [-> _]. reflexivity. }
  split; apply Hzero.
Qed.

(** The weight of a free coefficient in the ZMP at the time [t], for the
    gravity [g] and the height [h]: the position minus [h / g] times the
    acceleration. *)
Definition zmp_term (g h t : R) (letter : SplineCoeff) : R :=
  match letter with
  | A => t ^ 5 - h / g * 20 * t ^ 3
  | B => t ^ 4 - h / g * 12 * t ^ 2
  | C => t ^ 3 - h / g * 6 * t
  | D => t ^ 2 - h / g * 2
  | E | F => 0
  end.

Lemma ipopt_column_free (sc : SplineContainer R)
    (start_cog_p start_cog_v : Vector2d R) (h : R) (k : nat) (time : R)
    (dim : Coords) (letter : SplineCoeff) :
  wf_splines sc -> (coeff_int letter < kOptCoeff)%Z ->
  ipopt_column sc start_cog_p start_cog_v h (Z.of_nat k) time
    (var_index (Z.of_nat k) (dim_int dim) (coeff_int letter))
  = zmp_term (981 / 100) h time letter.
Proof.
  intros Hwf Hletter.
  pose proof (dim_int_bounds dim) as Hdim.
  assert (Hi : (8 * Z.of_nat k
                <= var_index (Z.of_nat k) (dim_int dim) (coeff_int letter))%Z).
  { unfold var_index, kOptCoeff, kDim2d. destruct letter; cbn [coeff_int]; lia. }
  unfold ipopt_column, zmp_column, Ek_of, Fk_of, DescribeEByPrev,
    DescribeFByPrev. cbv zeta.
  pose proof (describe_EF_support sc k X (at_dim start_cog_v X) fzero _
                Hwf Hi) as [HEx _].
  pose proof (describe_EF_support sc k X (at_dim start_cog_v X)
                (at_dim start_cog_p X) _ Hwf Hi) as [_ HFx].
  pose proof (describe_EF_support sc k Y (at_dim start_cog_v Y) fzero _
                Hwf Hi) as [HEy _].
  pose proof (describe_EF_support sc k Y (at_dim start_cog_v Y)
                (at_dim start_cog_p Y) _ Hwf Hi) as [_ HFy].
  rewrite HEy, HFy.
  unfold zmp_free, var_index, kOptCoeff, kDim2d in *.
  destruct dim, letter; cbn [coeff_int dim_int] in *; try lia;
    repeat (destruct (decide _) as [?|?]; try lia);
    rewrite ?HEx, ?HFx; unfold g, lit; cbn; field.
Qed.

(** The rows that the inequality builder returns, over the reals: the row
    of a constraint of the segment [k] at the time [time] against the line
    [l] has, on each free coefficient of the segment, the weight of the
    coefficient in the ZMP for the gravity 9.81, times [p] on the x axis and
    [q] on the y axis; its constant is [constraint_constant]. *)
Lemma CreateInequalityContraints_rows (o : ZmpOptimizer R)
    (start_cog_p start_cog_v : Vector2d R)
    (lines : list (hyq.SuppTriangle.TrLine R)) (h dt : R) :
  let sc := zmp_splines_ o in
  wf_splines sc -> nodes_defined dt sc ->
  length lines = (3 * sum_list_with (samples dt) (splines_ sc))%nat ->
  (Z.of_nat (length lines) <= INT_MAX)%Z ->
  exists ineq o',
    CreateInequalityContraints start_cog_p start_cog_v lines h dt o
    = (Ok ineq, o') /\
    shape (length (splines_ sc) * 8) (length lines) ineq /\
    length (schedule dt sc) = length lines /\
    forall c k time l,
      schedule dt sc !! c = Some (k, time) -> lines !! c = Some l ->
      (forall dim letter, (coeff_int letter < kOptCoeff)%Z ->
         coeff (M ineq) (var_index k (dim_int dim) (coeff_int letter))
           (Z.of_nat c)
         = zmp_term (981 / 100) h time letter
           * match dim with
             | X => hyq.SuppTriangle.p (hyq.SuppTriangle.coeff l)
             | Y => hyq.SuppTriangle.q (hyq.SuppTriangle.coeff l)
             end) /\
      vcoeff (v ineq) (Z.of_nat c)
      = constraint_constant sc start_cog_p start_cog_v k time l.
Proof.
  intros sc Hwf Hnodes Hlen Hmax.
  destruct (CreateInequalityContraints_columns o start_cog_p start_cog_v lines
              h dt Hwf Hnodes Hlen Hmax)
    as (ineq & o' & Hrun & Hsh & _ & Hsl & Hdone).
  fold sc in Hsh, Hsl, Hdone.
  exists ineq, o'. split; [assumption|]. split; [assumption|].
  split; [assumption|].
  intros c0 k time l Hsched Hl.
  destruct (schedule_lookup dt sc c0 k time Hwf Hsched)
    as (kn & i & s & n & -> & Hs & H4 & Hn & Hi & ->).
  pose proof (lookup_lt_Some _ _ _ Hs) as Hkn.
  destruct (Hdone c0 _ Hsched) as (l' & Hl' & Hcol & Hvx & Hvy & Hv).
  cbn [fst snd] in *.
  assert (l' = l) by congruence. subst l'.
  split; [|exact Hv].
  intros dim letter Hletter.
  pose proof (dim_int_bounds dim) as Hdim.
  assert (Hletter' : (0 <= coeff_int letter <= 3)%Z).
  { unfold kOptCoeff in Hletter. destruct letter; cbn [coeff_int] in *; lia. }
  assert (Hrange : (0 <= var_index (Z.of_nat kn) (dim_int dim) (coeff_int letter)
                    < Z.of_nat (length (splines_ sc) * 8))%Z).
  { unfold var_index, kOptCoeff, kDim2d. lia. }
  destruct (Hcol _ Hrange) as [_ HM]. rewrite HM.
  rewrite (ipopt_column_free sc start_cog_p start_cog_v h kn _ dim letter Hwf
             Hletter).
  change (@fmul R Double_R) with Rmult. f_equal.
  rewrite var_index_axis by assumption. destruct dim; reflexivity.
Qed.

End InequalityOverReals.


(** ** The entries of the equality constraints

    The matrix and the vector of a [MatVec] seen as functions of the
    indices, and what each assignment of the builder does to them. *)

Section EqualityEntries.
Context {T : Type} `{Double T}.

Definition upd_M (F : Z -> Z -> T) (r c : Z) (x : T) : Z -> Z -> T :=
  fun i j => if decide (i = r /\ j = c) then x else F i j.
Definition add_col (F : Z -> Z -> T) (nr : nat) (c : Z) (u : VectorXd T)
  : Z -> Z -> T :=
  fun i j => if decide (j = c /\ 0 <= i < Z.of_nat nr)
             then (F i c + vcoeff u i)%D else F i j.
Definition upd_v (V : Z -> T) (c : Z) (x : T) : Z -> T :=
  fun j => if decide (j = c) then x else V j.
Definition bump_v (V : Z -> T) (c : Z) (x : T) : Z -> T :=
  fun j => if decide (j = c) then (V c + x)%D else V j.

Lemma upd_M_other F r0 c0 x0 r c :
  r <> r0 \/ c <> c0 -> upd_M F r0 c0 x0 r c = F r c.
Proof.
  intros Hne. unfold upd_M. destruct (decide _) as [[? ?]|_]; [lia|reflexivity].
Qed.

Lemma add_col_other F nr c0 u r c :
  c <> c0 -> add_col F nr c0 u r c = F r c.
Proof.
  intros Hne. unfold add_col.
  destruct (decide _) as [[? _]|_]; [contradiction|reflexivity].
Qed.

Lemma upd_v_same V c0 x0 c : c = c0 -> upd_v V c0 x0 c = x0.
Proof.
  intros ->. unfold upd_v. destruct (decide _); [reflexivity|contradiction].
Qed.

Lemma upd_v_other V c0 x0 c : c <> c0 -> upd_v V c0 x0 c = V c.
Proof.
  intros Hne. unfold upd_v. destruct (decide _); [contradiction|reflexivity].
Qed.

Lemma bump_v_same V c0 x0 c : c = c0 -> bump_v V c0 x0 c = (V c + x0)%D.
Proof.
  intros ->. unfold bump_v. destruct (decide _); [reflexivity|contradiction].
Qed.

Lemma bump_v_other V c0 x0 c : c <> c0 -> bump_v V c0 x0 c = V c.
Proof.
  intros Hne. unfold bump_v. destruct (decide _); [contradiction|reflexivity].
Qed.

Definition views (nr nc : nat) (ec : MatVec T) (F : Z -> Z -> T) (V : Z -> T)
  : Prop :=
  shape nr nc ec /\ (forall i j, coeff (M ec) i j = F i j) /\
  (forall j, vcoeff (v ec) j = V j).

Lemma set_M_views nr nc ec F V r c x :
  views nr nc ec F V -> 0 <= r < Z.of_nat nr -> 0 <= c < Z.of_nat nc ->
  exists ec', set_M ec r c x = Ok ec' /\ views nr nc ec' (upd_M F r c x) V.
Proof.
  intros ((Hwf & Hr & Hc & Hv) & HF & HV) Hrr Hcc. unfold set_M.
  destruct (mset_Ok (M ec) r c x Hwf) as (m' & -> & Hwf' & Hr' & Hc' & Hco);
    [lia..|].
  eexists. split; [reflexivity|]. split; [|split].
  - repeat split; simpl; try apply Hwf'; lia.
  - intros i j. cbn [M]. rewrite Hco. unfold upd_M. rewrite HF. reflexivity.
  - exact HV.
Qed.

Lemma add_M_col_views nr nc ec F V c (u : VectorXd T) :
  views nr nc ec F V -> 0 <= c < Z.of_nat nc -> length u = nr ->
  exists ec', add_M_col ec c u = Ok ec' /\ views nr nc ec' (add_col F nr c u) V.
Proof.
  intros ((Hwf & Hr & Hc & Hv) & HF & HV) Hcc Hu. unfold add_M_col.
  destruct (mcol_add_Ok (M ec) c u Hwf) as (m' & -> & Hwf' & Hr' & Hc' & Hco);
    [lia..|].
  eexists. split; [reflexivity|]. split; [|split].
  - repeat split; simpl; try apply Hwf'; lia.
  - intros i j. cbn [M]. rewrite Hco, Hr. unfold add_col. rewrite !HF.
    reflexivity.
  - exact HV.
Qed.

Lemma set_v_views nr nc ec F V i x :
  views nr nc ec F V -> 0 <= i < Z.of_nat nc ->
  exists ec', set_v ec i x = Ok ec' /\ views nr nc ec' F (upd_v V i x).
Proof.
  intros ((Hwf & Hr & Hc & Hv) & HF & HV) Hi. unfold set_v.
  destruct (vset_Ok (v ec) i x) as (u & -> & Hl & Hco); [lia|].
  eexists. split; [reflexivity|]. split; [|split].
  - repeat split; simpl; try apply Hwf; lia.
  - exact HF.
  - intros j. cbn [v]. rewrite Hco. unfold upd_v. rewrite HV. reflexivity.
Qed.

Lemma add_v_views nr nc ec F V i x :
  views nr nc ec F V -> 0 <= i < Z.of_nat nc ->
  exists ec', add_v ec i x = Ok ec' /\ views nr nc ec' F (bump_v V i x).
Proof.
  intros ((Hwf & Hr & Hc & Hv) & HF & HV) Hi. unfold add_v.
  destruct (vadd_at_Ok (v ec) i x) as (u & -> & Hl & Hco); [lia|].
  eexists. split; [reflexivity|]. split; [|split].
  - repeat split; simpl; try apply Hwf; lia.
  - exact HF.
  - intros j. cbn [v]. rewrite Hco. unfold bump_v. rewrite !HV. reflexivity.
Qed.

Ltac view_step :=
  let ec' := fresh "ec" in
  let Hv' := fresh "Hview" in
  match goal with
  | Hv : views ?nr ?nc ?ec ?F ?V |- context [set_M ?ec ?r ?c ?x] =>
      destruct (set_M_views nr nc ec F V r c x Hv) as (ec' & -> & Hv');
      [lia | lia | clear Hv; cbn [mbind result_bind]]
  | Hv : views ?nr ?nc ?ec ?F ?V |- context [add_M_col ?ec ?c ?u] =>
      destruct (add_M_col_views nr nc ec F V c u Hv) as (ec' & -> & Hv');
      [lia | | clear Hv; cbn [mbind result_bind]]
  | Hv : views ?nr ?nc ?ec ?F ?V |- context [set_v ?ec ?i ?x] =>
      destruct (set_v_views nr nc ec F V i x Hv) as (ec' & -> & Hv');
      [lia | clear Hv; cbn [mbind result_bind]]
  | Hv : views ?nr ?nc ?ec ?F ?V |- context [add_v ?ec ?i ?x] =>
      destruct (add_v_views nr nc ec F V i x Hv) as (ec' & -> & Hv');
      [lia | clear Hv; cbn [mbind result_bind]]
  end.

(** What the body of the first loop over the axes does to the matrix and to
    the vector, assignment by assignment. *)
Definition boundary_M (sc : SplineContainer T)
    (start_cog_p start_cog_v : Vector2d T) (dim : Coords) (i : Z)
    (back : ZmpSpline T) (F : Z -> Z -> T) : Z -> Z -> T :=
  let nr := (length (splines_ sc) * 8)%nat in
  let a := coeff_int A in let b := coeff_int B in
  let c_ := coeff_int C in let d_ := coeff_int D in
  let d := var_index 0 (dim_int dim) (coeff_int D) in
  let F := upd_M F d i (f_of_Z 2) in
  let i := i + 1 in
  let c := var_index 0 (dim_int dim) (coeff_int C) in
  let F := upd_M F c i (f_of_Z 6) in
  let i := i + 1 in
  let K := id_ back in
  let last_spline := var_index K (dim_int dim) (coeff_int A) in
  let t_duration := cache_exponents 6 (duration_ back) in
  let Ek := fst (DescribeEByPrev sc K dim (at_dim start_cog_v dim)) in
  let Fk := fst (DescribeFByPrev sc K dim (at_dim start_cog_v dim)
                   (at_dim start_cog_p dim)) in
  let F := upd_M F (last_spline + a) i (arr t_duration 5) in
  let F := upd_M F (last_spline + b) i (arr t_duration 4) in
  let F := upd_M F (last_spline + c_) i (arr t_duration 3) in
  let F := upd_M F (last_spline + d_) i (arr t_duration 2) in
  let F := add_col F nr i (vscale_r Ek (arr t_duration 1)) in
  let F := add_col F nr i Fk in
  let i := i + 1 in
  let F := upd_M F (last_spline + a) i (f_of_Z 5 * arr t_duration 4)%D in
  let F := upd_M F (last_spline + b) i (f_of_Z 4 * arr t_duration 3)%D in
  let F := upd_M F (last_spline + c_) i (f_of_Z 3 * arr t_duration 2)%D in
  let F := upd_M F (last_spline + d_) i (f_of_Z 2 * arr t_duration 1)%D in
  let F := add_col F nr i Ek in
  let i := i + 1 in
  let F := upd_M F (last_spline + a) i (f_of_Z 20 * arr t_duration 3)%D in
  let F := upd_M F (last_spline + b) i (f_of_Z 12 * arr t_duration 2)%D in
  let F := upd_M F (last_spline + c_) i (f_of_Z 6 * arr t_duration 1)%D in
  upd_M F (last_spline + d_) i (f_of_Z 2).

Definition boundary_v (sc : SplineContainer T)
    (start_cog_p start_cog_v end_cog : Vector2d T) (dim : Coords) (i : Z)
    (back : ZmpSpline T) (V : Z -> T) : Z -> T :=
  let V := upd_v V i (- at_dim kAccStart dim)%D in
  let i := i + 1 in
  let V := upd_v V i (- at_dim kJerkStart dim)%D in
  let i := i + 1 in
  let K := id_ back in
  let t_duration := cache_exponents 6 (duration_ back) in
  let non_dependent_e :=
    snd (DescribeEByPrev sc K dim (at_dim start_cog_v dim)) in
  let non_dependent_f :=
    snd (DescribeFByPrev sc K dim (at_dim start_cog_v dim)
           (at_dim start_cog_p dim)) in
  let V := bump_v V i (non_dependent_e * arr t_duration 1 + non_dependent_f)%D in
  let V := bump_v V i (- at_dim end_cog dim)%D in
  let i := i + 1 in
  let V := bump_v V i non_dependent_e in
  let V := bump_v V i (- at_dim kVelEnd dim)%D in
  let i := i + 1 in
  upd_v V i (- at_dim kAccEnd dim)%D.

Lemma boundary_conditions_views (sc : SplineContainer T)
    start_cog_p start_cog_v end_cog dim nc ec i back F V :
  wf_splines sc -> last (splines_ sc) = Some back ->
  views (length (splines_ sc) * 8) nc ec F V ->
  0 <= i -> i + 5 <= Z.of_nat nc ->
  exists ec', boundary_conditions sc start_cog_p start_cog_v end_cog dim (ec, i)
              = Ok (ec', i + 1 + 1 + 1 + 1 + 1) /\
    views (length (splines_ sc) * 8) nc ec'
      (boundary_M sc start_cog_p start_cog_v dim i back F)
      (boundary_v sc start_cog_p start_cog_v end_cog dim i back V).
Proof.
  intros Hwf Hlast Hview Hi Hnc.
  assert (Hne : splines_ sc <> []).
  { intros He. rewrite He in Hlast. discriminate. }
  destruct (last_wf_splines sc Hwf Hne) as (back' & Hlast' & Hid).
  assert (back' = back) by congruence. subst back'.
  assert (Hlen : (0 < length (splines_ sc))%nat).
  { destruct (splines_ sc); [congruence|simpl; lia]. }
  pose proof (dim_int_bounds dim) as Hd.
  unfold boundary_conditions, boundary_M, boundary_v. rewrite Hlast.
  pose proof (length_DescribeEByPrev sc (id_ back)
                dim (at_dim start_cog_v dim)) as HlE.
  pose proof (length_DescribeFByPrev sc (id_ back)
                dim (at_dim start_cog_v dim) (at_dim start_cog_p dim)) as HlF.
  destruct (DescribeEByPrev _ _ _ _) as [Ek e0].
  destruct (DescribeFByPrev _ _ _ _ _) as [Fk f0].
  cbn [fst snd] in *.
  unfold GetOptCoeffCount, kOptCoeff, kDim2d in HlE, HlF.
  unfold var_index, kOptCoeff, kDim2d. cbn [coeff_int]. cbv zeta.
  do 8 view_step.
  view_step; [unfold vscale_r; rewrite length_fmap; lia|].
  view_step; [lia|].
  do 6 view_step.
  view_step; [lia|].
  do 7 view_step.
  match goal with Hv : views _ _ ?e _ _ |- _ => exists e end.
  split; [reflexivity|]. assumption.
Qed.

(** The same for the body of the loop over the junctions. *)
Definition junction_M (t_duration : list T) (s : Z) (dim : Coords) (i : Z)
    (F : Z -> Z -> T) : Z -> Z -> T :=
  let a := coeff_int A in let b := coeff_int B in
  let c_ := coeff_int C in let d_ := coeff_int D in
  let curr_spline := var_index s (dim_int dim) (coeff_int A) in
  let next_spline := var_index (s + 1) (dim_int dim) (coeff_int A) in
  let F := upd_M F (curr_spline + a) i (f_of_Z 20 * arr t_duration 3)%D in
  let F := upd_M F (curr_spline + b) i (f_of_Z 12 * arr t_duration 2)%D in
  let F := upd_M F (curr_spline + c_) i (f_of_Z 6 * arr t_duration 1)%D in
  let F := upd_M F (curr_spline + d_) i (f_of_Z 2) in
  let F := upd_M F (next_spline + d_) i (- f_of_Z 2)%D in
  let i := i + 1 in
  let F := upd_M F (curr_spline + a) i (f_of_Z 60 * arr t_duration 2)%D in
  let F := upd_M F (curr_spline + b) i (f_of_Z 24 * arr t_duration 1)%D in
  let F := upd_M F (curr_spline + c_) i (f_of_Z 6) in
  upd_M F (next_spline + c_) i (- f_of_Z 6)%D.

Definition junction_v (i : Z) (V : Z -> T) : Z -> T :=
  let V := upd_v V i fzero in
  let i := i + 1 in
  upd_v V i fzero.

Lemma junction_conditions_views (n : nat) t_duration s dim nc ec i F V :
  0 <= s -> s + 1 < Z.of_nat n ->
  views (n * 8) nc ec F V ->
  0 <= i -> i + 2 <= Z.of_nat nc ->
  exists ec', junction_conditions t_duration s dim (ec, i)
              = Ok (ec', i + 1 + 1) /\
    views (n * 8) nc ec' (junction_M t_duration s dim i F) (junction_v i V).
Proof.
  intros Hs Hs1 Hview Hi Hnc.
  pose proof (dim_int_bounds dim) as Hd.
  unfold junction_conditions, junction_M, junction_v.
  unfold var_index, kOptCoeff, kDim2d. cbn [coeff_int]. cbv zeta.
  do 11 view_step.
  match goal with Hv : views _ _ ?e _ _ |- _ => exists e end.
  split; [reflexivity|]. assumption.
Qed.

End EqualityEntries.

(** ** What the equality constraints say, over the reals *)

Section EqualityOverReals.
Local Open Scope R_scope.

(** The third derivative of the quintic. *)
Definition quintic_jerk (a b c t : R) : R := 60 * a * t ^ 2 + 24 * b * t + 6 * c.

Lemma quintic_acc_derivative a b c d t :
  derivable_pt_lim (quintic_acc a b c d) t (quintic_jerk a b c t).
Proof.
  unfold quintic_jerk.
  replace (60 * a * t ^ 2 + 24 * b * t + 6 * c)
    with (0 + 6 * c + (12 * b) * (2 * t) + (20 * a) * (3 * t ^ 2)) by ring.
  unfold quintic_acc.
  apply (derivable_pt_lim_ext
           (fun y => 2 * d + 6 * c * y + (12 * b) * (y * y)
                     + (20 * a) * (y * y * y))).
  { intros y. ring. }
  repeat apply derivable_pt_lim_plus.
  - apply derivable_pt_lim_const.
  - replace (6 * c) with (6 * c * 1) at 2 by ring.
    apply derivable_pt_lim_scal. apply derivable_pt_lim_id.
  - apply derivable_pt_lim_scal.
    replace (2 * t) with (1 * t + t * 1) by ring.
    apply (derivable_pt_lim_mult id id); apply derivable_pt_lim_id.
  - apply derivable_pt_lim_scal.
    replace (3 * t ^ 2) with ((1 * t + t * 1) * t + (t * t) * 1) by ring.
    apply (derivable_pt_lim_mult (fun y => y * y) id);
      [|apply derivable_pt_lim_id].
    apply (derivable_pt_lim_mult id id); apply derivable_pt_lim_id.
Qed.

(** The sum of a column against [x], and the value of the constraint of a
    column: the solver is given [M^T x + v = 0]. *)
Definition col_sum (F : Z -> Z -> R) (x : VectorXd R) (n : nat) (c : Z) : R :=
  sum_n n (fun r => F r c * vcoeff x r).

Definition dot (u x : VectorXd R) (n : nat) : R :=
  sum_n n (fun r => vcoeff u r * vcoeff x r).

Definition constraint_value (ec : MatVec R) (x : VectorXd R) (c : Z) : R :=
  col_sum (coeff (M ec)) x (rows (M ec)) c + vcoeff (v ec) c.

Lemma sum_n_plus n f g :
  sum_n n (fun r => f r + g r) = sum_n n f + sum_n n g.
Proof. induction n as [|n IH]; simpl; [ring|]. rewrite IH. ring. Qed.

Lemma sum_n_pick n f (r0 : Z) (d : R) :
  (0 <= r0 < Z.of_nat n)%Z ->
  sum_n n (fun r => if decide (r = r0) then f r + d else f r) = sum_n n f + d.
Proof.
  induction n as [|n IH]; intros Hr; [lia|]. cbn [sum_n].
  destruct (decide (Z.of_nat n = r0)) as [<-|Hne].
  - rewrite (sum_n_ext n _ f).
    + ring.
    + intros i Hi. destruct (decide _); [lia|reflexivity].
  - rewrite IH by lia. ring.
Qed.

Lemma col_sum_upd_M_same F r0 c0 x0 xs n c :
  c = c0 -> (0 <= r0 < Z.of_nat n)%Z ->
  col_sum (upd_M F r0 c0 x0) xs n c
  = col_sum F xs n c + (x0 - F r0 c) * vcoeff xs r0.
Proof.
  intros Hc Hr. subst c0. unfold col_sum, upd_M.
  rewrite <- (sum_n_pick n (fun r => F r c * vcoeff xs r) r0 _ Hr).
  apply sum_n_ext. intros r _.
  destruct (decide (r = r0)) as [->|Hne].
  - destruct (decide _) as [_|Hn]; [ring|exfalso; apply Hn; auto].
  - destruct (decide _) as [[? _]|_]; [contradiction|reflexivity].
Qed.

Lemma col_sum_upd_M_other F r0 c0 x0 xs n c :
  c <> c0 -> col_sum (upd_M F r0 c0 x0) xs n c = col_sum F xs n c.
Proof.
  intros Hne. unfold col_sum, upd_M. apply sum_n_ext. intros r _.
  destruct (decide _) as [[_ ?]|_]; [contradiction|reflexivity].
Qed.

Lemma col_sum_add_col_same F c0 u xs n c :
  c = c0 ->
  col_sum (add_col F n c0 u) xs n c = col_sum F xs n c + dot u xs n.
Proof.
  intros ->. unfold col_sum, add_col, dot. rewrite <- sum_n_plus.
  apply sum_n_ext. intros r Hr.
  destruct (decide _) as [_|Hn]; [|exfalso; apply Hn; auto].
  change (@fadd R Double_R) with Rplus. ring.
Qed.

Lemma col_sum_add_col_other F c0 u xs n c :
  c <> c0 -> col_sum (add_col F n c0 u) xs n c = col_sum F xs n c.
Proof.
  intros Hne. unfold col_sum, add_col. apply sum_n_ext. intros r _.
  destruct (decide _) as [[? _]|_]; [contradiction|reflexivity].
Qed.

Lemma col_sum_zero F xs n c :
  (forall r, F r c = 0) -> col_sum F xs n c = 0.
Proof.
  intros Hz. unfold col_sum. apply sum_n_zero. intros r _. rewrite Hz. ring.
Qed.

Lemma sum_n_scal n (s : R) f :
  sum_n n (fun r => s * f r) = s * sum_n n f.
Proof. induction n as [|n IH]; simpl; [ring|]. rewrite IH. ring. Qed.

Lemma dot_vscale_r (u xs : VectorXd R) (s : R) n :
  length u = n -> dot (vscale_r u s) xs n = dot u xs n * s.
Proof.
  intros Hl. unfold dot, vscale_r.
  rewrite (sum_n_ext n _ (fun r => s * (vcoeff u r * vcoeff xs r))).
  - rewrite sum_n_scal. ring.
  - intros r Hr. rewrite (@vcoeff_fmap R Double_R) by lia.
    change (@fmul R Double_R) with Rmult. ring.
Qed.

(** The free coefficient [letter] of the segment [k] on the axis [dim] that
    the vector [x] holds, and the derived coefficients E and F that the
    descriptions give for [x]. *)
Definition free (x : VectorXd R) (k : Z) (dim : Coords) (letter : SplineCoeff)
  : R :=
  vcoeff x (var_index k (dim_int dim) (coeff_int letter)).

Definition E_at (sc : SplineContainer R) (start_cog_v : Vector2d R)
    (x : VectorXd R) (k : Z) (dim : Coords) : R :=
  dot (fst (DescribeEByPrev sc k dim (at_dim start_cog_v dim))) x
    (length (splines_ sc) * 8)
  + snd (DescribeEByPrev sc k dim (at_dim start_cog_v dim)).

Definition F_at (sc : SplineContainer R) (start_cog_p start_cog_v : Vector2d R)
    (x : VectorXd R) (k : Z) (dim : Coords) : R :=
  dot (fst (DescribeFByPrev sc k dim (at_dim start_cog_v dim)
              (at_dim start_cog_p dim))) x (length (splines_ sc) * 8)
  + snd (DescribeFByPrev sc k dim (at_dim start_cog_v dim)
           (at_dim start_cog_p dim)).

Ltac col_sums :=
  repeat first
    [ rewrite col_sum_add_col_same by lia
    | rewrite col_sum_add_col_other by lia
    | rewrite col_sum_upd_M_same by lia
    | rewrite col_sum_upd_M_other by lia ].

Ltac entries :=
  repeat first
    [ rewrite upd_M_other by lia
    | rewrite add_col_other by lia
    | rewrite upd_v_same by lia
    | rewrite upd_v_other by lia
    | rewrite bump_v_same by lia
    | rewrite bump_v_other by lia ].

Lemma boundary_values (sc : SplineContainer R)
    (start_cog_p start_cog_v end_cog : Vector2d R) (dim : Coords) (i : Z)
    (back : ZmpSpline R) (F : Z -> Z -> R) (V : Z -> R) (x : VectorXd R) :
  wf_splines sc -> last (splines_ sc) = Some back -> (0 <= i)%Z ->
  (forall r c, (i <= c)%Z -> F r c = 0) -> (forall c, (i <= c)%Z -> V c = 0) ->
  let n := (length (splines_ sc) * 8)%nat in
  let K := id_ back in
  let F' := boundary_M sc start_cog_p start_cog_v dim i back F in
  let V' := boundary_v sc start_cog_p start_cog_v end_cog dim i back V in
  (col_sum F' x n i + V' i
   = quintic_acc (free x 0 dim A) (free x 0 dim B) (free x 0 dim C)
       (free x 0 dim D) 0 /\
   col_sum F' x n (i + 1) + V' (i + 1)%Z
   = quintic_jerk (free x 0 dim A) (free x 0 dim B) (free x 0 dim C) 0 /\
   col_sum F' x n (i + 2) + V' (i + 2)%Z
   = quintic (free x K dim A) (free x K dim B) (free x K dim C)
       (free x K dim D) (E_at sc start_cog_v x K dim)
       (F_at sc start_cog_p start_cog_v x K dim) (duration_ back)
     - at_dim end_cog dim /\
   col_sum F' x n (i + 3) + V' (i + 3)%Z
   = quintic_vel (free x K dim A) (free x K dim B) (free x K dim C)
       (free x K dim D) (E_at sc start_cog_v x K dim) (duration_ back) /\
   col_sum F' x n (i + 4) + V' (i + 4)%Z
   = quintic_acc (free x K dim A) (free x K dim B) (free x K dim C)
       (free x K dim D) (duration_ back)) /\
  (forall r c, (c < i \/ i + 5 <= c)%Z -> F' r c = F r c) /\
  (forall c, (c < i \/ i + 5 <= c)%Z -> V' c = V c).
Proof.
  intros Hwf Hlast Hi HF HV n K F' V'.
  assert (Hne : splines_ sc <> []).
  { intros He. rewrite He in Hlast. discriminate. }
  destruct (last_wf_splines sc Hwf Hne) as (back' & Hlast' & Hid).
  assert (back' = back) by congruence. subst back'.
  assert (Hlen : (0 < length (splines_ sc))%nat).
  { destruct (splines_ sc); [congruence|simpl; lia]. }
  pose proof (dim_int_bounds dim) as Hd.
  pose proof (length_DescribeEByPrev sc (id_ back)
                dim (at_dim start_cog_v dim)) as HlE.
  pose proof (length_DescribeFByPrev sc (id_ back)
                dim (at_dim start_cog_v dim) (at_dim start_cog_p dim)) as HlF.
  unfold GetOptCoeffCount, kOptCoeff, kDim2d in HlE, HlF.
  assert (HlE' : length (fst (DescribeEByPrev sc (id_ back) dim
                               (at_dim start_cog_v dim))) = n)
    by (subst n; lia).
  subst F' V' K. unfold boundary_M, boundary_v, E_at, F_at, free.
  fold n. cbv zeta.
  set (Ek := fst (DescribeEByPrev sc (id_ back) dim (at_dim start_cog_v dim)))
    in *.
  set (e0 := snd (DescribeEByPrev sc (id_ back) dim (at_dim start_cog_v dim))).
  set (Fk := fst (DescribeFByPrev sc (id_ back) dim (at_dim start_cog_v dim)
                    (at_dim start_cog_p dim))) in *.
  set (f0 := snd (DescribeFByPrev sc (id_ back) dim (at_dim start_cog_v dim)
                    (at_dim start_cog_p dim))).
  unfold var_index, kOptCoeff, kDim2d. cbn [coeff_int].
  assert (Hn : Z.of_nat n = (8 * Z.of_nat (length (splines_ sc)))%Z)
    by (subst n; lia).
  split; [split; [|split; [|split; [|split]]]|split].
  - col_sums. entries. rewrite (col_sum_zero F) by (intros; apply HF; lia).
    rewrite ?HF, ?HV by lia.
    unfold quintic_acc, kAccStart. destruct dim; cbn; ring.
  - col_sums. entries. rewrite (col_sum_zero F) by (intros; apply HF; lia).
    rewrite ?HF, ?HV by lia.
    unfold quintic_jerk, kJerkStart. destruct dim; cbn; ring.
  - col_sums. entries. rewrite (col_sum_zero F) by (intros; apply HF; lia).
    rewrite dot_vscale_r by assumption.
    rewrite ?HF, ?HV by lia.
    unfold quintic. destruct dim; cbn; rewrite ?Z.add_0_r; ring.
  - col_sums. entries. rewrite (col_sum_zero F) by (intros; apply HF; lia).
    rewrite ?HF, ?HV by lia.
    unfold quintic_vel, kVelEnd. destruct dim; cbn; rewrite ?Z.add_0_r; ring.
  - col_sums. entries. rewrite (col_sum_zero F) by (intros; apply HF; lia).
    rewrite ?HF, ?HV by lia.
    unfold quintic_acc, kAccEnd. destruct dim; cbn; rewrite ?Z.add_0_r; ring.
  - intros r c Hc. entries. reflexivity.
  - intros c Hc. entries. reflexivity.
Qed.

Lemma junction_values (n : nat) (duration : R) (s : Z) (dim : Coords) (i : Z)
    (F : Z -> Z -> R) (V : Z -> R) (x : VectorXd R) :
  (0 <= s)%Z -> (s + 1 < Z.of_nat n)%Z -> (0 <= i)%Z ->
  (forall r c, (i <= c)%Z -> F r c = 0) -> (forall c, (i <= c)%Z -> V c = 0) ->
  let F' := junction_M (cache_exponents 6 duration) s dim i F in
  let V' := junction_v i V in
  (col_sum F' x (n * 8) i + V' i
   = quintic_acc (free x s dim A) (free x s dim B) (free x s dim C)
       (free x s dim D) duration
     - quintic_acc (free x (s + 1) dim A) (free x (s + 1) dim B)
         (free x (s + 1) dim C) (free x (s + 1) dim D) 0 /\
   col_sum F' x (n * 8) (i + 1) + V' (i + 1)%Z
   = quintic_jerk (free x s dim A) (free x s dim B) (free x s dim C) duration
     - quintic_jerk (free x (s + 1) dim A) (free x (s + 1) dim B)
         (free x (s + 1) dim C) 0) /\
  (forall r c, (c < i \/ i + 2 <= c)%Z -> F' r c = F r c) /\
  (forall c, (c < i \/ i + 2 <= c)%Z -> V' c = V c).
Proof.
  intros Hs Hs1 Hi HF HV F' V'.
  pose proof (dim_int_bounds dim) as Hd.
  subst F' V'. unfold junction_M, junction_v, free. cbv zeta.
  unfold var_index, kOptCoeff, kDim2d. cbn [coeff_int].
  split; [split|split].
  - col_sums. entries. rewrite (col_sum_zero F) by (intros; apply HF; lia).
    rewrite ?HF, ?HV by lia.
    unfold quintic_acc. cbn. rewrite ?Z.add_0_r. ring.
  - col_sums. entries. rewrite (col_sum_zero F) by (intros; apply HF; lia).
    rewrite ?HF, ?HV by lia.
    unfold quintic_jerk. cbn. rewrite ?Z.add_0_r. ring.
  - intros r c Hc. entries. reflexivity.
  - intros c Hc. entries. reflexivity.
Qed.

(** Nothing is written yet in the columns from [i] on. *)
Definition fresh_from (i : Z) (ec : MatVec R) : Prop :=
  forall c, (i <= c)%Z ->
    (forall r, coeff (M ec) r c = 0) /\ vcoeff (v ec) c = 0.

Lemma constraint_value_views nr nc ec F V x c :
  views nr nc ec F V -> constraint_value ec x c = col_sum F x nr c + V c.
Proof.
  intros ((_ & Hr & _ & _) & HF & HV). unfold constraint_value, col_sum.
  rewrite Hr, HV. f_equal. apply sum_n_ext. intros r _. rewrite HF.
  reflexivity.
Qed.

Lemma views_self nr nc (ec : MatVec R) :
  shape nr nc ec -> views nr nc ec (coeff (M ec)) (vcoeff (v ec)).
Proof. intros Hsh. split; [assumption|]. split; reflexivity. Qed.

Lemma boundary_conditions_values (sc : SplineContainer R)
    (start_cog_p start_cog_v end_cog : Vector2d R) (dim : Coords) (nc : nat)
    (ec : MatVec R) (i : Z) (back : ZmpSpline R) (x : VectorXd R) :
  wf_splines sc -> last (splines_ sc) = Some back ->
  shape (length (splines_ sc) * 8) nc ec -> fresh_from i ec ->
  (0 <= i)%Z -> (i + 5 <= Z.of_nat nc)%Z ->
  let K := id_ back in
  exists ec',
    boundary_conditions sc start_cog_p start_cog_v end_cog dim (ec, i)
    = Ok (ec', (i + 5)%Z) /\
    shape (length (splines_ sc) * 8) nc ec' /\ fresh_from (i + 5) ec' /\
    (forall c, (c < i)%Z ->
       constraint_value ec' x c = constraint_value ec x c) /\
    constraint_value ec' x i
    = quintic_acc (free x 0 dim A) (free x 0 dim B) (free x 0 dim C)
        (free x 0 dim D) 0 /\
    constraint_value ec' x (i + 1)
    = quintic_jerk (free x 0 dim A) (free x 0 dim B) (free x 0 dim C) 0 /\
    constraint_value ec' x (i + 2)
    = quintic (free x K dim A) (free x K dim B) (free x K dim C)
        (free x K dim D) (E_at sc start_cog_v x K dim)
        (F_at sc start_cog_p start_cog_v x K dim) (duration_ back)
      - at_dim end_cog dim /\
    constraint_value ec' x (i + 3)
    = quintic_vel (free x K dim A) (free x K dim B) (free x K dim C)
        (free x K dim D) (E_at sc start_cog_v x K dim) (duration_ back) /\
    constraint_value ec' x (i + 4)
    = quintic_acc (free x K dim A) (free x K dim B) (free x K dim C)
        (free x K dim D) (duration_ back).
Proof.
  intros Hwf Hlast Hsh Hfresh Hi Hnc K.
  destruct (boundary_conditions_views sc start_cog_p start_cog_v end_cog dim nc
              ec i back _ _ Hwf Hlast (views_self _ _ ec Hsh) Hi Hnc)
    as (ec' & Hrun & Hview).
  destruct (boundary_values sc start_cog_p start_cog_v end_cog dim i back
              (coeff (M ec)) (vcoeff (v ec)) x Hwf Hlast Hi)
    as ((H0 & H1 & H2 & H3 & H4) & HFframe & HVframe).
  { intros r c Hc. apply (Hfresh c Hc). }
  { intros c Hc. apply (Hfresh c Hc). }
  exists ec'. split.
  { rewrite Hrun. do 2 f_equal. lia. }
  pose proof Hview as (Hsh' & HF' & HV').
  split; [assumption|]. split.
  { intros c Hc. split.
    - intros r. rewrite HF', HFframe by lia. apply (Hfresh c). lia.
    - rewrite HV', HVframe by lia. apply (Hfresh c). lia. }
  split.
  { intros c Hc.
    rewrite (constraint_value_views _ _ _ _ _ x c Hview).
    rewrite (constraint_value_views _ _ _ _ _ x c (views_self _ _ ec Hsh)).
    rewrite HVframe by lia. f_equal. apply sum_n_ext. intros r _.
    rewrite HFframe by lia. reflexivity. }
  rewrite !(constraint_value_views _ _ _ _ _ x _ Hview). auto.
Qed.

Lemma junction_conditions_values (n : nat) (duration : R) (s : Z)
    (dim : Coords) (nc : nat) (ec : MatVec R) (i : Z) (x : VectorXd R) :
  (0 <= s)%Z -> (s + 1 < Z.of_nat n)%Z ->
  shape (n * 8) nc ec -> fresh_from i ec ->
  (0 <= i)%Z -> (i + 2 <= Z.of_nat nc)%Z ->
  exists ec',
    junction_conditions (cache_exponents 6 duration) s dim (ec, i)
    = Ok (ec', (i + 2)%Z) /\
    shape (n * 8) nc ec' /\ fresh_from (i + 2) ec' /\
    (forall c, (c < i)%Z ->
       constraint_value ec' x c = constraint_value ec x c) /\
    constraint_value ec' x i
    = quintic_acc (free x s dim A) (free x s dim B) (free x s dim C)
        (free x s dim D) duration
      - quintic_acc (free x (s + 1) dim A) (free x (s + 1) dim B)
          (free x (s + 1) dim C) (free x (s + 1) dim D) 0 /\
    constraint_value ec' x (i + 1)
    = quintic_jerk (free x s dim A) (free x s dim B) (free x s dim C) duration
      - quintic_jerk (free x (s + 1) dim A) (free x (s + 1) dim B)
          (free x (s + 1) dim C) 0.
Proof.
  intros Hs Hs1 Hsh Hfresh Hi Hnc.
  destruct (junction_conditions_views n (cache_exponents 6 duration) s dim nc
              ec i _ _ Hs Hs1 (views_self _ _ ec Hsh) Hi Hnc)
    as (ec' & Hrun & Hview).
  destruct (junction_values n duration s dim i
              (coeff (M ec)) (vcoeff (v ec)) x Hs Hs1 Hi)
    as ((H0 & H1) & HFframe & HVframe).
  { intros r c Hc. apply (Hfresh c Hc). }
  { intros c Hc. apply (Hfresh c Hc). }
  exists ec'. split.
  { rewrite Hrun. do 2 f_equal. lia. }
  pose proof Hview as (Hsh' & HF' & HV').
  split; [assumption|]. split.
  { intros c Hc. split.
    - intros r. rewrite HF', HFframe by lia. apply (Hfresh c). lia.
    - rewrite HV', HVframe by lia. apply (Hfresh c). lia. }
  split.
  { intros c Hc.
    rewrite (constraint_value_views _ _ _ _ _ x c Hview).
    rewrite (constraint_value_views _ _ _ _ _ x c (views_self _ _ ec Hsh)).
    rewrite HVframe by lia. f_equal. apply sum_n_ext. intros r _.
    rewrite HFframe by lia. reflexivity. }
  rewrite !(constraint_value_views _ _ _ _ _ x _ Hview). auto.
Qed.

(** What every column of the equality constraints says of a coefficient
    vector [x]: the value [M^T x + v] of the column. *)
Lemma CreateEqualityContraints_values (sc : SplineContainer R)
    (start_cog_p start_cog_v end_cog : Vector2d R) (back : ZmpSpline R)
    (x : VectorXd R) :
  wf_splines sc -> last (splines_ sc) = Some back ->
  (4 * Z.of_nat (length (splines_ sc)) + 6 <= INT_MAX)%Z ->
  let K := id_ back in
  exists ec,
    CreateEqualityContraints sc start_cog_p start_cog_v end_cog = Ok ec /\
    (forall dim,
       let i := (5 * dim_int dim)%Z in
       constraint_value ec x i
       = quintic_acc (free x 0 dim A) (free x 0 dim B) (free x 0 dim C)
           (free x 0 dim D) 0 /\
       constraint_value ec x (i + 1)
       = quintic_jerk (free x 0 dim A) (free x 0 dim B) (free x 0 dim C) 0 /\
       constraint_value ec x (i + 2)
       = quintic (free x K dim A) (free x K dim B) (free x K dim C)
           (free x K dim D) (E_at sc start_cog_v x K dim)
           (F_at sc start_cog_p start_cog_v x K dim) (duration_ back)
         - at_dim end_cog dim /\
       constraint_value ec x (i + 3)
       = quintic_vel (free x K dim A) (free x K dim B) (free x K dim C)
           (free x K dim D) (E_at sc start_cog_v x K dim) (duration_ back) /\
       constraint_value ec x (i + 4)
       = quintic_acc (free x K dim A) (free x K dim B) (free x K dim C)
           (free x K dim D) (duration_ back)) /\
    (forall (s : nat) sp dim,
       splines_ sc !! s = Some sp -> (S s < length (splines_ sc))%nat ->
       let i := (10 + 4 * Z.of_nat s + 2 * dim_int dim)%Z in
       let k := Z.of_nat s in
       constraint_value ec x i
       = quintic_acc (free x k dim A) (free x k dim B) (free x k dim C)
           (free x k dim D) (duration_ sp)
         - quintic_acc (free x (k + 1) dim A) (free x (k + 1) dim B)
             (free x (k + 1) dim C) (free x (k + 1) dim D) 0 /\
       constraint_value ec x (i + 1)
       = quintic_jerk (free x k dim A) (free x k dim B) (free x k dim C)
           (duration_ sp)
         - quintic_jerk (free x (k + 1) dim A) (free x (k + 1) dim B)
             (free x (k + 1) dim C) 0).
Proof.
  intros Hwf Hlast Hmax K.
  assert (Hne : splines_ sc <> []).
  { intros He. rewrite He in Hlast. discriminate. }
  assert (Hlen : (1 <= length (splines_ sc))%nat).
  { destruct (splines_ sc); [congruence|simpl; lia]. }
  unfold CreateEqualityContraints, CreateEqualityContraints_counted.
  rewrite equality_constraint_count_small by assumption.
  set (n := length (splines_ sc)) in *.
  destruct (MatVec_new_Ok (T := R) (GetOptCoeffCount sc)
              (2 * 2 + 3 * 2 + 2 * 2 * (Z.of_nat n - 1)))
    as (ec0 & -> & Hwf0 & Hr0 & Hc0 & Hv0 & Hz0 & Hzv0).
  { unfold GetOptCoeffCount, kOptCoeff, kDim2d. lia. }
  { lia. }
  cbn [mbind result_bind].
  set (nc := Z.to_nat (4 * Z.of_nat n + 6)).
  assert (Hsh0 : shape (n * 8) nc ec0).
  { unfold GetOptCoeffCount, kOptCoeff, kDim2d in Hr0. fold n in Hr0.
    repeat split; try apply Hwf0; subst nc; lia. }
  assert (Hf0 : fresh_from 0 ec0).
  { intros c _. split; [intros r; apply Hz0|apply Hzv0]. }
  cbn [for_each].
  destruct (boundary_conditions_values sc start_cog_p start_cog_v end_cog X
              nc ec0 0 back x Hwf Hlast Hsh0 Hf0)
    as (ec1 & -> & Hsh1 & Hf1 & _ & HX0 & HX1 & HX2 & HX3 & HX4);
    [lia|subst nc; lia|].
  cbn [mbind result_bind].
  destruct (boundary_conditions_values sc start_cog_p start_cog_v end_cog Y
              nc ec1 (0 + 5) back x Hwf Hlast Hsh1 Hf1)
    as (ec2 & -> & Hsh2 & Hf2 & Hframe2 & HY0 & HY1 & HY2 & HY3 & HY4);
    [lia|subst nc; lia|].
  cbn [mbind result_bind].
  unfold to_size_t. rewrite Z.mod_small by (unfold INT_MAX in Hmax; lia).
  pose (I := fun (s : Z) (st : MatVec R * Z) =>
    snd st = (10 + 4 * s)%Z /\ shape (n * 8) nc (fst st) /\
    fresh_from (10 + 4 * s) (fst st) /\
    (forall c, (c < 10)%Z ->
       constraint_value (fst st) x c = constraint_value ec2 x c) /\
    (forall (s' : nat) sp dim,
       splines_ sc !! s' = Some sp -> (Z.of_nat s' < s)%Z ->
       constraint_value (fst st) x (10 + 4 * Z.of_nat s' + 2 * dim_int dim)
       = quintic_acc (free x (Z.of_nat s') dim A) (free x (Z.of_nat s') dim B)
           (free x (Z.of_nat s') dim C) (free x (Z.of_nat s') dim D)
           (duration_ sp)
         - quintic_acc (free x (Z.of_nat s' + 1) dim A)
             (free x (Z.of_nat s' + 1) dim B) (free x (Z.of_nat s' + 1) dim C)
             (free x (Z.of_nat s' + 1) dim D) 0 /\
       constraint_value (fst st) x
         (10 + 4 * Z.of_nat s' + 2 * dim_int dim + 1)
       = quintic_jerk (free x (Z.of_nat s') dim A)
           (free x (Z.of_nat s') dim B) (free x (Z.of_nat s') dim C)
           (duration_ sp)
         - quintic_jerk (free x (Z.of_nat s' + 1) dim A)
             (free x (Z.of_nat s' + 1) dim B) (free x (Z.of_nat s' + 1) dim C)
             0)).
  match goal with
  | |- context [for_range ?k ?lo ?body ?st] =>
      destruct (for_range_inv I k lo body st)
        as ([ec i] & -> & Hi & Hsh & _ & Hbound & Hjunction)
  end.
  - split; [reflexivity|]. split; [assumption|]. split; [exact Hf2|].
    split; [reflexivity|]. intros s' sp dim _ Hlt. lia.
  - intros s [ec i] Hs (Hi & Hsh & Hfresh & Hbound & Hjunction).
    cbn [fst snd] in *. subst i.
    destruct (lookup_lt_is_Some_2 (splines_ sc) (Z.to_nat s)) as [sp Hsp];
      [fold n; lia|].
    rewrite Hsp. cbn [for_each].
    destruct (junction_conditions_values n (duration_ sp) s X nc ec
                (10 + 4 * s) x) as (ec' & -> & Hsh' & Hf' & Hfr' & HA & HJ);
      [lia|lia|assumption|assumption|lia|subst nc; lia|].
    cbn [mbind result_bind].
    destruct (junction_conditions_values n (duration_ sp) s Y nc ec'
                (10 + 4 * s + 2) x)
      as (ec'' & -> & Hsh'' & Hf'' & Hfr'' & HA' & HJ');
      [lia|lia|assumption|assumption|lia|subst nc; lia|].
    cbn [mbind result_bind].
    exists (ec'', (10 + 4 * s + 2 + 2)%Z). split; [reflexivity|].
    unfold I. cbn [fst snd]. split; [lia|]. split; [assumption|]. split.
    { replace (10 + 4 * (s + 1))%Z with (10 + 4 * s + 2 + 2)%Z by lia.
      exact Hf''. }
    split.
    { intros c Hc. rewrite Hfr'', Hfr' by lia. apply Hbound. assumption. }
    intros s' sp' dim Hsp' Hlt.
    destruct (decide (Z.of_nat s' = s)) as [Heq|Hneq].
    + subst s. rewrite Nat2Z.id in Hsp.
      assert (sp' = sp) by congruence. subst sp'.
      destruct dim; cbn [dim_int].
      * rewrite !Hfr'' by lia.
        replace (10 + 4 * Z.of_nat s' + 2 * 0)%Z
          with (10 + 4 * Z.of_nat s')%Z by lia.
        split; assumption.
      * replace (10 + 4 * Z.of_nat s' + 2 * 1)%Z
          with (10 + 4 * Z.of_nat s' + 2)%Z by lia.
        split; assumption.
    + pose proof (dim_int_bounds dim) as Hd.
      rewrite !Hfr'', !Hfr' by lia.
      apply Hjunction; [assumption|lia].
  - cbn [fst snd] in *. exists ec. split; [reflexivity|]. split.
    + intros dim. cbv zeta. destruct dim; cbn [dim_int].
      * rewrite !Hbound, !Hframe2 by lia.
        repeat split; assumption.
      * rewrite !Hbound by lia.
        repeat split; assumption.
    + intros s sp dim Hsp Hlt. cbv zeta.
      apply Hjunction; [assumption|lia].
Qed.

End EqualityOverReals.

(** ** Theorems *)

(** A two-segment plan in binary64: half a second on four legs, then 0.35 s
    on three. *)
Definition example_splines : SplineContainer binary64 :=
  {| splines_ :=
       [ {| id_ := 0; duration_ := lit 1 2; four_leg_supp_ := true; step_ := 0 |};
         {| id_ := 1; duration_ := lit 35 100; four_leg_supp_ := false;
            step_ := 0 |} ] |}.

Definition example_weight : Vector2d binary64 := (f_of_Z 1, f_of_Z 2).

(** C5: for every spline sequence (segment ids equal to sequence positions)
    and per-axis weights, the cost function builder returns, and the cost
    matrix it returns is equal to its transpose. *)
Theorem cost_matrix_symmetric {T : Type} `{Double T}
    (sc : SplineContainer T) (weight : Vector2d T) :
  wf_splines sc ->
  exists cf, CreateMinAccCostFunction sc weight = Ok cf /\
    M cf = transpose (M cf).
Proof.
  intros Hwf.
  destruct (CreateMinAccCostFunction_entries sc weight Hwf)
    as (cf & Hrun & Hwfm & Hr & Hc & Hup & Hsym & _).
  exists cf. split; [assumption|].
  apply symmetric_transpose; [assumption|lia|].
  intros r c Hr' Hc'.
  destruct (Z.lt_trichotomy r c) as [Hlt|[->|Hgt]].
  - symmetry. apply Hsym; lia.
  - reflexivity.
  - apply Hsym; lia.
Qed.

Lemma cost_matrix_symmetric_witness :
  wf_splines example_splines /\
  exists cf, CreateMinAccCostFunction example_splines example_weight = Ok cf /\
    M cf = transpose (M cf).
Proof.
  split; [reflexivity|].
  apply (cost_matrix_symmetric example_splines example_weight). reflexivity.
Defined.

(** The same plan over the reals. *)
Definition example_splines_R : SplineContainer R :=
  {| splines_ :=
       [ {| id_ := 0; duration_ := (1 / 2)%R; four_leg_supp_ := true;
            step_ := 0 |};
         {| id_ := 1; duration_ := (35 / 100)%R; four_leg_supp_ := false;
            step_ := 0 |} ] |}.

(** C4: over the reals, for every spline sequence (segment ids equal to
    sequence positions), weights and coefficient vector [x], the builder
    returns a matrix whose quadratic form [x^T M x] is the sum over the
    segments and the axes of the weight times the integral over
    [[0, duration]] of the squared second derivative of the quintic with the
    free coefficients that [x] holds for that segment and axis
    ([quintic_derivative] and [quintic_vel_derivative]: the second derivative
    is [quintic_acc], in which E and F do not occur); and every entry that
    couples two different (segment, axis) blocks is zero. *)
Theorem cost_matrix_quadratic_form
    (sc : SplineContainer R) (weight : Vector2d R) (x : VectorXd R) :
  wf_splines sc ->
  exists cf, CreateMinAccCostFunction sc weight = Ok cf /\
    quad_form (M cf) x = min_acc_cost sc weight x /\
    forall (s1 s2 : nat) (d1 d2 : Coords) (k1 k2 : SplineCoeff),
      (s1 < length (splines_ sc))%nat -> (s2 < length (splines_ sc))%nat ->
      coeff_int k1 < kOptCoeff -> coeff_int k2 < kOptCoeff ->
      (s1, d1) <> (s2, d2) ->
      coeff (M cf) (var_index (Z.of_nat s1) (dim_int d1) (coeff_int k1))
                   (var_index (Z.of_nat s2) (dim_int d2) (coeff_int k2)) = 0%R.
Proof.
  intros Hwf.
  destruct (CreateMinAccCostFunction_entries sc weight Hwf)
    as (cf & Hrun & _).
  exists cf. split; [assumption|]. split.
  - rewrite (quad_form_by_segments sc weight cf Hwf Hrun).
    unfold min_acc_cost. rewrite Rsum_indexed.
    apply sum_n_ext. intros k Hk.
    destruct (splines_ sc !! Z.to_nat k) as [s|] eqn:Hs; [|reflexivity].
    unfold axis_energy. rewrite !acc_energy_closed_form.
    rewrite (wf_splines_lookup sc _ s Hwf Hs).
    unfold var_index, kOptCoeff, kDim2d. cbn [coeff_int].
    rewrite Z2Nat.id by lia.
    replace (4 * 2 * k)%Z with (8 * k)%Z by lia. reflexivity.
  - intros s1 s2 d1 d2 k1 k2 Hs1 Hs2 Hk1 Hk2 Hne.
    unfold var_index, kOptCoeff, kDim2d in *.
    replace (4 * 2 * Z.of_nat s1)%Z with (8 * Z.of_nat s1)%Z by lia.
    replace (4 * 2 * Z.of_nat s2)%Z with (8 * Z.of_nat s2)%Z by lia.
    apply (cross_entry_zero sc weight cf Hwf Hrun); try assumption.
    + destruct k1; simpl in *; lia.
    + destruct k2; simpl in *; lia.
Qed.

Lemma cost_matrix_quadratic_form_witness :
  wf_splines example_splines_R /\
  exists cf, CreateMinAccCostFunction example_splines_R (1, 2)%R = Ok cf /\
    quad_form (M cf) [1; 0; 0; 0; 0; 0; 0; 1]%R
    = min_acc_cost example_splines_R (1, 2)%R [1; 0; 0; 0; 0; 0; 0; 1]%R /\
    forall (s1 s2 : nat) (d1 d2 : Coords) (k1 k2 : SplineCoeff),
      (s1 < length (splines_ example_splines_R))%nat ->
      (s2 < length (splines_ example_splines_R))%nat ->
      coeff_int k1 < kOptCoeff -> coeff_int k2 < kOptCoeff ->
      (s1, d1) <> (s2, d2) ->
      coeff (M cf) (var_index (Z.of_nat s1) (dim_int d1) (coeff_int k1))
                   (var_index (Z.of_nat s2) (dim_int d2) (coeff_int k2)) = 0%R.
Proof.
  split; [reflexivity|].
  apply (cost_matrix_quadratic_form example_splines_R (1, 2)%R). reflexivity.
Defined.

(** C1, as the code has it: for every non-empty spline sequence of [n]
    segments (ids equal to positions, [n] small enough for the count to fit
    an [int]), the equality constraint builder returns a matrix with exactly
    [2*2 + 3*2 + 2*2*(n-1)] constraint columns and as many vector entries:
    four initial conditions, six final conditions and four per junction; its
    counter of written constraints ends at the same number. *)
Theorem equality_constraint_rows {T : Type} `{Double T}
    (sc : SplineContainer T) (start_cog_p start_cog_v end_cog : Vector2d T) :
  wf_splines sc ->
  (1 <= length (splines_ sc))%nat ->
  4 * Z.of_nat (length (splines_ sc)) + 6 <= INT_MAX ->
  exists ec,
    CreateEqualityContraints sc start_cog_p start_cog_v end_cog = Ok ec /\
    Z.of_nat (cols (M ec))
    = 2 * 2 + 3 * 2 + 2 * 2 * (Z.of_nat (length (splines_ sc)) - 1) /\
    Z.of_nat (length (v ec))
    = 2 * 2 + 3 * 2 + 2 * 2 * (Z.of_nat (length (splines_ sc)) - 1) /\
    CreateEqualityContraints_counted sc start_cog_p start_cog_v end_cog
    = Ok (ec, 2 * 2 + 3 * 2 + 2 * 2 * (Z.of_nat (length (splines_ sc)) - 1)).
Proof.
  intros Hwf Hlen Hmax.
  assert (Hne : splines_ sc <> []).
  { intros Heq. rewrite Heq in Hlen. simpl in Hlen. lia. }
  destruct (CreateEqualityContraints_counted_Ok sc start_cog_p start_cog_v
              end_cog Hwf Hne Hmax) as (ec & Hrun & _ & _ & Hc & Hv).
  exists ec. unfold CreateEqualityContraints. rewrite Hrun.
  split; [reflexivity|]. split; [lia|]. split; [lia|].
  do 2 f_equal. lia.
Qed.

Lemma equality_constraint_rows_witness :
  wf_splines example_splines /\
  (1 <= length (splines_ example_splines))%nat /\
  4 * Z.of_nat (length (splines_ example_splines)) + 6 <= INT_MAX /\
  exists ec,
    CreateEqualityContraints example_splines
      (f_of_Z 0, f_of_Z 0) (f_of_Z 1, f_of_Z 0) (lit 2 10, f_of_Z 0) = Ok ec /\
    Z.of_nat (cols (M ec))
    = 2 * 2 + 3 * 2 + 2 * 2 * (Z.of_nat (length (splines_ example_splines)) - 1) /\
    Z.of_nat (length (v ec))
    = 2 * 2 + 3 * 2 + 2 * 2 * (Z.of_nat (length (splines_ example_splines)) - 1) /\
    CreateEqualityContraints_counted example_splines
      (f_of_Z 0, f_of_Z 0) (f_of_Z 1, f_of_Z 0) (lit 2 10, f_of_Z 0)
    = Ok (ec, 2 * 2 + 3 * 2
              + 2 * 2 * (Z.of_nat (length (splines_ example_splines)) - 1)).
Proof.
  split; [reflexivity|]. split; [simpl; lia|]. split; [vm_compute; discriminate|].
  apply (equality_constraint_rows example_splines);
    [reflexivity | simpl; lia | vm_compute; discriminate].
Defined.

(** C1, as the specification states it, fails: for the two-segment plan the
    builder makes 14 columns, not [4*2 + 3*2 + 2*2*(2-1) = 18]. *)
Lemma equality_constraint_rows_not_eight_boundary :
  exists ec,
    CreateEqualityContraints example_splines
      (f_of_Z 0, f_of_Z 0) (f_of_Z 1, f_of_Z 0) (lit 2 10, f_of_Z 0) = Ok ec /\
    Z.of_nat (cols (M ec)) = 14 /\
    Z.of_nat (cols (M ec))
    <> 4 * 2 + 3 * 2 + 2 * 2 * (Z.of_nat (length (splines_ example_splines)) - 1).
Proof.
  eexists. split; [vm_compute; reflexivity|].
  split; [reflexivity|]. vm_compute. discriminate.
Qed.

(** *** The facade *)

Definition empty_MatVec {T} : MatVec T :=
  {| M := {| rows := 0; cols := 0; data := [] |}; v := [] |}.

(** An optimizer before [SetupQpMatrices], for the spline sequence [sc]. *)
Definition new_optimizer {T} (sc : SplineContainer T) : ZmpOptimizer T :=
  {| zmp_splines_ := sc; cf_ := empty_MatVec; eq_ := empty_MatVec;
     ineq_ := empty_MatVec; footholds_ := []; lines_for_constraint_ := [];
     ineq_ipopt_ := M empty_MatVec; ineq_ipopt_vx_ := [];
     ineq_ipopt_vy_ := [] |}.

(** C6: when the spline sequence is empty, [SetupQpMatrices] throws the
    runtime error and leaves the optimizer, and with it the cost, equality
    and inequality matrices, as it found it. *)
Theorem setup_empty_plan_throws {T : Type} `{Double T}
    (SuppTriangle : Type)
    (CalcLines : SuppTriangle -> hyq.SuppTriangle.TrLines3 T)
    (MarginValues : Type)
    (FromFootholds :
       hyq.LegDataMap (hyq.Foothold T) -> list (hyq.Foothold T) ->
       MarginValues -> list SuppTriangle * hyq.LegDataMap (hyq.Foothold T))
    (start_cog_p start_cog_v : Vector2d T)
    (start_stance : hyq.LegDataMap (hyq.Foothold T))
    (steps : list (hyq.Foothold T)) (weight : Vector2d T)
    (margins : MarginValues) (height_robot : T) (o : ZmpOptimizer T) :
  splines_ (zmp_splines_ o) = [] ->
  SetupQpMatrices SuppTriangle CalcLines MarginValues FromFootholds
    start_cog_p start_cog_v start_stance steps weight margins height_robot o
  = (Throw (runtime_error
      "zmp.optimizer.cc: spline_info vector empty. First call ConstructSplineSequence()"),
     o).
Proof.
  intros Hempty. unfold SetupQpMatrices, gets, mbind, run_bind.
  rewrite Hempty. reflexivity.
Qed.

Definition example_foothold (leg : hyq.LegID) : hyq.Foothold binary64 :=
  {| hyq.p := (match leg with
               | hyq.LF | hyq.LH => lit 1 10
               | hyq.RF | hyq.RH => lit 3 10
               end,
               match leg with
               | hyq.LF | hyq.RF => lit 2 10
               | hyq.LH | hyq.RH => lit (-2) 10
               end, f_of_Z 0);
     hyq.leg := leg |}.

Definition example_line : hyq.SuppTriangle.TrLine binary64 :=
  {| hyq.SuppTriangle.coeff :=
       {| hyq.SuppTriangle.p := f_of_Z 1; hyq.SuppTriangle.q := f_of_Z 0;
          hyq.SuppTriangle.r := f_of_Z 0 |};
     hyq.SuppTriangle.s_margin := f_of_Z 0 |}.

(** Collaborators for the examples: every triangle has three times the edge
    [x >= 0], and the last stance is the first. *)
Definition example_CalcLines (_ : unit) : hyq.SuppTriangle.TrLines3 binary64 :=
  (example_line, example_line, example_line).
Definition example_FromFootholds
    (start_stance : hyq.LegDataMap (hyq.Foothold binary64))
    (steps : list (hyq.Foothold binary64)) (_ : unit)
  : list unit * hyq.LegDataMap (hyq.Foothold binary64) :=
  ([tt], start_stance).

Definition example_empty_optimizer : ZmpOptimizer binary64 :=
  new_optimizer {| splines_ := [] |}.

Lemma setup_empty_plan_throws_witness :
  splines_ (zmp_splines_ example_empty_optimizer) = [] /\
  SetupQpMatrices unit example_CalcLines unit example_FromFootholds
    (f_of_Z 0, f_of_Z 0) (f_of_Z 1, f_of_Z 0) example_foothold []
    example_weight tt (lit 58 100) example_empty_optimizer
  = (Throw (runtime_error
      "zmp.optimizer.cc: spline_info vector empty. First call ConstructSplineSequence()"),
     example_empty_optimizer).
Proof.
  split; [reflexivity|].
  apply (setup_empty_plan_throws unit example_CalcLines unit
           example_FromFootholds). reflexivity.
Defined.

(** What the specification calls an unbounded cost and a cost below the
    sanity threshold. *)
Definition unbounded_cost (cost : binary64) : Prop :=
  match cost with S754_infinity _ => True | _ => False end.

Definition below_threshold (cost : binary64) : Prop :=
  SFcompare cost cost_threshold = Some Lt.

(** C7: [SolveQp] throws the length error exactly when the cost that the QP
    solver returns is infinite or below the threshold 0.002; otherwise it
    returns the solver's vector; the optimizer is left as it was. *)
Theorem solve_qp_throws_iff {T : Type}
    (solve_quadprog :
       MatrixXd T -> VectorXd T -> MatrixXd T -> VectorXd T ->
       MatrixXd T -> VectorXd T -> binary64 * VectorXd T)
    (o : ZmpOptimizer T) :
  let solved :=
    solve_quadprog (M (cf_ o)) (v (cf_ o)) (M (eq_ o)) (v (eq_ o))
      (M (ineq_ o)) (v (ineq_ o)) in
  ((unbounded_cost (fst solved) \/ below_threshold (fst solved)) /\
   SolveQp solve_quadprog o
   = (Throw (length_error "Eigen::quadprog did not find a solution"), o))
  \/
  (~ (unbounded_cost (fst solved) \/ below_threshold (fst solved)) /\
   SolveQp solve_quadprog o = (Ok (snd solved), o)).
Proof.
  intros solved. unfold SolveQp, gets, mbind, run_bind. fold solved.
  destruct solved as [cost x]. simpl fst. simpl snd.
  unfold unbounded_cost, below_threshold, SFeqb, SFltb.
  destruct cost as [s| [|] | |s m e].
  - (* zero *)
    destruct (SFcompare (S754_zero s) cost_threshold) as [[| |]|] eqn:Hc;
      vm_compute in Hc; try discriminate.
    left. split; [right; reflexivity|reflexivity].
  - (* minus infinity *)
    left. split; [left; exact I|reflexivity].
  - (* plus infinity *)
    left. split; [left; exact I|reflexivity].
  - (* NaN *)
    right. split; [|reflexivity].
    intros [[]|Hlt]. vm_compute in Hlt. discriminate.
  - (* finite *)
    assert (Hinf : SFcompare (S754_finite s m e) B64.infinity = Some Lt)
      by reflexivity.
    rewrite Hinf. cbn [orb].
    destruct (SFcompare (S754_finite s m e) cost_threshold) as [[| |]|] eqn:Hc.
    + right. split; [|reflexivity]. intros [[]|Hlt]. discriminate.
    + left. split; [right; reflexivity|reflexivity].
    + right. split; [|reflexivity]. intros [[]|Hlt]. discriminate.
    + right. split; [|reflexivity]. intros [[]|Hlt]. discriminate.
Qed.

(** C9: [SolveIpopt] throws only when the initialization of the NLP solver
    does not return [Solve_Succeeded]; when it does, then whatever status
    the optimization returns, the function throws nothing, assigns the final
    footholds of the NLP object to its output parameter and returns the
    object's coefficient vector. *)
Theorem solve_ipopt_throws_only_on_init {T : Type}
    (NlpIpoptZmp : Type)
    (x_final_footholds_ x_final_spline_coeff_ : NlpIpoptZmp -> VectorXd T)
    (Initialize : ApplicationReturnStatus)
    (SetupNlp :
       MatVec T -> MatVec T -> MatrixXd T -> VectorXd T -> VectorXd T ->
       list (hyq.SuppTriangle.TrLine T) -> ZmpOptimizer T -> VectorXd T ->
       NlpIpoptZmp)
    (OptimizeTNLP : NlpIpoptZmp -> ApplicationReturnStatus * NlpIpoptZmp)
    (opt_coefficients_eig : VectorXd T) (o : ZmpOptimizer T)
    (status : ApplicationReturnStatus) (nlp : NlpIpoptZmp) :
  OptimizeTNLP
    (SetupNlp (cf_ o) (eq_ o) (ineq_ipopt_ o) (ineq_ipopt_vx_ o)
       (ineq_ipopt_vy_ o) (lines_for_constraint_ o) o opt_coefficients_eig)
  = (status, nlp) ->
  (Initialize <> Solve_Succeeded /\
   SolveIpopt NlpIpoptZmp x_final_footholds_ x_final_spline_coeff_ Initialize
     SetupNlp OptimizeTNLP opt_coefficients_eig o
   = (Throw (length_error "Ipopt could not initialize correctly"), o))
  \/
  (Initialize = Solve_Succeeded /\
   SolveIpopt NlpIpoptZmp x_final_footholds_ x_final_spline_coeff_ Initialize
     SetupNlp OptimizeTNLP opt_coefficients_eig o
   = (Ok (x_final_footholds_ nlp, x_final_spline_coeff_ nlp), o)).
Proof.
  intros Hopt. unfold SolveIpopt.
  destruct (Initialize =? Solve_Succeeded) eqn:Hinit.
  - right. apply Z.eqb_eq in Hinit. split; [assumption|].
    cbn [negb]. unfold gets, mbind, run_bind. rewrite Hopt. reflexivity.
  - left. apply Z.eqb_neq in Hinit. split; [assumption|reflexivity].
Qed.

(** An NLP solver that initializes and then stops at its iteration limit
    (status -1), leaving the footholds [[1; 2]] and the initial guess. *)
Definition example_nlp : Type := VectorXd binary64 * VectorXd binary64.
Definition example_SetupNlp (cf eq : MatVec binary64) (m : MatrixXd binary64)
    (vx vy : VectorXd binary64) (l : list (hyq.SuppTriangle.TrLine binary64))
    (o : ZmpOptimizer binary64) (guess : VectorXd binary64) : example_nlp :=
  ([], guess).
Definition example_guess : VectorXd binary64 := [f_of_Z 7].
Definition example_final_footholds : VectorXd binary64 := [f_of_Z 1; f_of_Z 2].
Definition example_OptimizeTNLP (nlp : example_nlp)
  : ApplicationReturnStatus * example_nlp :=
  (-1, (example_final_footholds, snd nlp)).

Lemma solve_ipopt_throws_only_on_init_witness :
  example_OptimizeTNLP
    (example_SetupNlp (cf_ (new_optimizer example_splines))
       (eq_ (new_optimizer example_splines))
       (ineq_ipopt_ (new_optimizer example_splines))
       (ineq_ipopt_vx_ (new_optimizer example_splines))
       (ineq_ipopt_vy_ (new_optimizer example_splines))
       (lines_for_constraint_ (new_optimizer example_splines))
       (new_optimizer example_splines) example_guess)
  = (-1, (example_final_footholds, example_guess)) /\
  ((Solve_Succeeded <> Solve_Succeeded /\
    SolveIpopt example_nlp fst snd Solve_Succeeded example_SetupNlp
      example_OptimizeTNLP example_guess (new_optimizer example_splines)
    = (Throw (length_error "Ipopt could not initialize correctly"),
       new_optimizer example_splines))
   \/
   (Solve_Succeeded = Solve_Succeeded /\
    SolveIpopt example_nlp fst snd Solve_Succeeded example_SetupNlp
      example_OptimizeTNLP example_guess (new_optimizer example_splines)
    = (Ok (fst (example_final_footholds, example_guess),
           snd (example_final_footholds, example_guess)),
       new_optimizer example_splines))).
Proof.
  split; [reflexivity|].
  apply (solve_ipopt_throws_only_on_init example_nlp fst snd Solve_Succeeded
           example_SetupNlp example_OptimizeTNLP example_guess
           (new_optimizer example_splines) (-1)).
  reflexivity.
Defined.

(** C8: whenever [SetupQpMatrices] returns, the equality constraints that it
    leaves in [eq_] are those that the builder makes for the terminal
    position that is the sum, from zero and leg by leg, of the x and y
    positions of the four footholds of the final stance, divided by 4. *)
Theorem setup_end_cog_is_average {T : Type} `{Double T}
    (SuppTriangle : Type)
    (CalcLines : SuppTriangle -> hyq.SuppTriangle.TrLines3 T)
    (MarginValues : Type)
    (FromFootholds :
       hyq.LegDataMap (hyq.Foothold T) -> list (hyq.Foothold T) ->
       MarginValues -> list SuppTriangle * hyq.LegDataMap (hyq.Foothold T))
    (start_cog_p start_cog_v : Vector2d T)
    (start_stance : hyq.LegDataMap (hyq.Foothold T))
    (steps : list (hyq.Foothold T)) (weight : Vector2d T)
    (margins : MarginValues) (height_robot : T) (o o' : ZmpOptimizer T) :
  SetupQpMatrices SuppTriangle CalcLines MarginValues FromFootholds
    start_cog_p start_cog_v start_stance steps weight margins height_robot o
  = (Ok tt, o') ->
  let final_stance := snd (FromFootholds start_stance steps margins) in
  let x leg := fst (segment_xy (hyq.p (final_stance leg))) in
  let y leg := snd (segment_xy (hyq.p (final_stance leg))) in
  CreateEqualityContraints (zmp_splines_ o) start_cog_p start_cog_v
    ((fzero + x hyq.LF + x hyq.RF + x hyq.LH + x hyq.RH) / f_of_Z 4,
     (fzero + y hyq.LF + y hyq.RF + y hyq.LH + y hyq.RH) / f_of_Z 4)%D
  = Ok (eq_ o').
Proof.
  intros Hrun final_stance x y. subst final_stance x y.
  unfold SetupQpMatrices in Hrun.
  unfold mbind at 1, run_bind at 1, gets at 1 in Hrun.
  destruct (splines_ (zmp_splines_ o)) as [|s0 l] eqn:Hsp; [discriminate|].
  cbn [mbind run_bind lift modify] in Hrun.
  destruct (CreateMinAccCostFunction (zmp_splines_ o) weight) as [cf|e];
    [|discriminate].
  destruct (FromFootholds start_stance steps margins) as [tr final_stance].
  cbn [mbind run_bind lift modify snd] in Hrun |- *.
  change (average_stance final_stance) with
    ((fzero + fst (segment_xy (hyq.p (final_stance hyq.LF)))
      + fst (segment_xy (hyq.p (final_stance hyq.RF)))
      + fst (segment_xy (hyq.p (final_stance hyq.LH)))
      + fst (segment_xy (hyq.p (final_stance hyq.RH)))) / f_of_Z 4,
     (fzero + snd (segment_xy (hyq.p (final_stance hyq.LF)))
      + snd (segment_xy (hyq.p (final_stance hyq.RF)))
      + snd (segment_xy (hyq.p (final_stance hyq.LH)))
      + snd (segment_xy (hyq.p (final_stance hyq.RH)))) / f_of_Z 4)%D in Hrun.
  destruct (CreateEqualityContraints (zmp_splines_ o) start_cog_p start_cog_v _)
    as [ec|e]; [|discriminate].
  f_equal.
  destruct (LineForConstraint SuppTriangle CalcLines (zmp_splines_ o) tr _)
    as [lines|e]; [|discriminate].
  cbv [mbind run_bind lift modify gets] in Hrun.
  cbn [lines_for_constraint_ set_lines_for_constraint_] in Hrun.
  match type of Hrun with
  | context [CreateInequalityContraints ?p0 ?v0 ?ls ?h0 ?dt0 ?s0] =>
      destruct (CreateInequalityContraints p0 v0 ls h0 dt0 s0)
        as [[ineq|e] o1] eqn:Hineq; [|discriminate];
      pose proof (preserves_CreateInequalityContraints eq_
                    ltac:(reflexivity) ltac:(reflexivity) ltac:(reflexivity)
                    p0 v0 ls h0 dt0 _ _ _ Hineq) as Hframe
  end.
  injection Hrun as <-. simpl. rewrite Hframe. reflexivity.
Qed.

(** [SetupQpMatrices] run on the two-segment plan, from rest at the origin
    with unit velocity along x. *)
Definition example_setup : result unit * ZmpOptimizer binary64 :=
  SetupQpMatrices unit example_CalcLines unit example_FromFootholds
    (f_of_Z 0, f_of_Z 0) (f_of_Z 1, f_of_Z 0) example_foothold []
    example_weight tt (lit 58 100) (new_optimizer example_splines).

Lemma setup_end_cog_is_average_witness :
  SetupQpMatrices unit example_CalcLines unit example_FromFootholds
    (f_of_Z 0, f_of_Z 0) (f_of_Z 1, f_of_Z 0) example_foothold []
    example_weight tt (lit 58 100) (new_optimizer example_splines)
  = (Ok tt, snd example_setup) /\
  let final_stance := snd (example_FromFootholds example_foothold [] tt) in
  let x leg := fst (segment_xy (hyq.p (final_stance leg))) in
  let y leg := snd (segment_xy (hyq.p (final_stance leg))) in
  CreateEqualityContraints (zmp_splines_ (new_optimizer example_splines))
    (f_of_Z 0, f_of_Z 0) (f_of_Z 1, f_of_Z 0)
    ((fzero + x hyq.LF + x hyq.RF + x hyq.LH + x hyq.RH) / f_of_Z 4,
     (fzero + y hyq.LF + y hyq.RF + y hyq.LH + y hyq.RH) / f_of_Z 4)%D
  = Ok (eq_ (snd example_setup)).
Proof.
  split; [vm_compute; reflexivity|].
  apply (setup_end_cog_is_average unit example_CalcLines unit
           example_FromFootholds (f_of_Z 0, f_of_Z 0) (f_of_Z 1, f_of_Z 0)
           example_foothold [] example_weight tt (lit 58 100)
           (new_optimizer example_splines) (snd example_setup)).
  vm_compute. reflexivity.
Defined.

(** C2: in every number model that counts as [DoubleCount] states (binary64
    and the reals), for every spline sequence (ids equal to positions; on
    the segments that are not full-support a floor of [duration / dt] that
    converts to an [int] that is not negative, and a valid step index) and
    every sampling interval [dt] for which the count fits an [int]:
    [LineForConstraint] and the inequality builder return, and the number of
    lines, the number of constraint columns and the final value of the
    builder's counter all equal three times the sum over the segments of
    [floor_samples], which is zero for a full-support segment and otherwise
    the [int] that the floor of the quotient [duration / dt], as the number
    model computes it, converts to; a segment whose duration is not negative
    and less than [dt] counts zero, and nothing is thrown for it. *)
Theorem inequality_row_count {T : Type} `{DoubleCount T}
    (SuppTriangle : Type)
    (CalcLines : SuppTriangle -> hyq.SuppTriangle.TrLines3 T)
    (o : ZmpOptimizer T) (supp_triangles : list SuppTriangle)
    (start_cog_p start_cog_v : Vector2d T) (h dt : T) :
  wf_splines (zmp_splines_ o) ->
  Forall (fun s => four_leg_supp_ s = false ->
            is_Some (n_nodes s dt) /\ 0 <= floor_samples dt s /\
            0 <= step_ s < Z.of_nat (length supp_triangles))
    (splines_ (zmp_splines_ o)) ->
  3 * Zsum (map (floor_samples dt) (splines_ (zmp_splines_ o))) <= INT_MAX ->
  exists lines ineq o',
    LineForConstraint SuppTriangle CalcLines (zmp_splines_ o) supp_triangles dt
    = Ok lines /\
    CreateInequalityContraints_counted start_cog_p start_cog_v lines h dt o
    = (Ok (ineq, 3 * Zsum (map (floor_samples dt) (splines_ (zmp_splines_ o)))),
       o') /\
    CreateInequalityContraints start_cog_p start_cog_v lines h dt o
    = (Ok ineq, o') /\
    Z.of_nat (length lines)
    = 3 * Zsum (map (floor_samples dt) (splines_ (zmp_splines_ o))) /\
    Z.of_nat (cols (M ineq))
    = 3 * Zsum (map (floor_samples dt) (splines_ (zmp_splines_ o))) /\
    Z.of_nat (length (v ineq))
    = 3 * Zsum (map (floor_samples dt) (splines_ (zmp_splines_ o))) /\
    (forall s, four_leg_supp_ s = true -> floor_samples dt s = 0) /\
    (forall s, fvalid (duration_ s) = true -> fvalid dt = true ->
       fltb (duration_ s) dt = true -> fltb (duration_ s) fzero = false ->
       floor_samples dt s = 0).
Proof.
  intros Hwf Hall Hmax.
  set (sc := zmp_splines_ o) in *.
  assert (Hnonneg : Forall (fun s => 0 <= floor_samples dt s) (splines_ sc)).
  { eapply Forall_impl; [exact Hall|]. simpl. intros s Hs.
    destruct (four_leg_supp_ s) eqn:H4; [|apply Hs; reflexivity].
    unfold floor_samples. rewrite H4. lia. }
  pose proof (samples_floor dt (splines_ sc) Hnonneg) as Hsum.
  destruct (LineForConstraint_length SuppTriangle CalcLines sc supp_triangles dt)
    as (lines & Hlines & Hlen).
  { eapply Forall_impl; [exact Hall|]. simpl. intros s Hs H4.
    destruct (Hs H4) as (Hn & _ & Hstep). split; assumption. }
  assert (Hnodes : nodes_defined dt sc).
  { unfold nodes_defined. eapply Forall_impl; [exact Hall|]. simpl.
    intros s Hs H4. apply (Hs H4). }
  destruct (CreateInequalityContraints_counted_Ok o start_cog_p start_cog_v
              lines h dt Hwf Hnodes Hlen) as ([ineq c] & o' & Hrun & Hc & Hsh & _).
  { fold sc. lia. }
  simpl in Hc, Hsh. destruct Hsh as (_ & _ & Hcols & Hv).
  exists lines, ineq, o'. fold sc in Hlen, Hcols, Hv.
  split; [assumption|]. split; [rewrite Hrun; do 3 f_equal; lia|].
  split.
  { unfold CreateInequalityContraints, mbind, run_bind. rewrite Hrun.
    reflexivity. }
  split; [lia|]. split; [lia|]. split; [lia|]. split.
  - intros s H4. unfold floor_samples. rewrite H4. reflexivity.
  - intros s Hvd Hvdt Hlt Hnn. unfold floor_samples, n_nodes.
    destruct (four_leg_supp_ s); [reflexivity|].
    rewrite (floor_fdiv_lt _ _ Hvd Hvdt Hlt Hnn). reflexivity.
Qed.

(** Three phases in binary64: half a second on four legs, then 0.3 s and
    0.05 s on three.  Sampled every 0.1 s, the second makes two samples and
    not three, the double quotient [0.3 / 0.1] being just below 3, and the
    third, shorter than the interval, makes none. *)
Definition example_three_phases : SplineContainer binary64 :=
  {| splines_ :=
       [ {| id_ := 0; duration_ := lit 1 2; four_leg_supp_ := true; step_ := 0 |};
         {| id_ := 1; duration_ := lit 3 10; four_leg_supp_ := false;
            step_ := 0 |};
         {| id_ := 2; duration_ := lit 5 100; four_leg_supp_ := false;
            step_ := 0 |} ] |}.

Lemma example_three_phases_samples :
  map (floor_samples (lit 1 10)) (splines_ example_three_phases) = [0; 2; 0].
Proof. vm_compute. reflexivity. Qed.

Lemma inequality_row_count_witness :
  wf_splines (zmp_splines_ (new_optimizer example_three_phases)) /\
  Forall (fun s => four_leg_supp_ s = false ->
            is_Some (n_nodes s (lit 1 10)) /\
            0 <= floor_samples (lit 1 10) s /\
            0 <= step_ s < Z.of_nat (length [tt]))
    (splines_ (zmp_splines_ (new_optimizer example_three_phases))) /\
  3 * Zsum (map (floor_samples (lit 1 10))
              (splines_ (zmp_splines_ (new_optimizer example_three_phases))))
  <= INT_MAX /\
  exists lines ineq o',
    LineForConstraint unit example_CalcLines
      (zmp_splines_ (new_optimizer example_three_phases)) [tt] (lit 1 10)
    = Ok lines /\
    CreateInequalityContraints_counted (f_of_Z 0, f_of_Z 0)
      (f_of_Z 1, f_of_Z 0) lines (lit 58 100) (lit 1 10)
      (new_optimizer example_three_phases)
    = (Ok (ineq,
           3 * Zsum (map (floor_samples (lit 1 10))
                       (splines_ (zmp_splines_
                                    (new_optimizer example_three_phases))))),
       o') /\
    CreateInequalityContraints (f_of_Z 0, f_of_Z 0) (f_of_Z 1, f_of_Z 0) lines
      (lit 58 100) (lit 1 10) (new_optimizer example_three_phases)
    = (Ok ineq, o') /\
    Z.of_nat (length lines)
    = 3 * Zsum (map (floor_samples (lit 1 10))
                  (splines_ (zmp_splines_ (new_optimizer example_three_phases)))) /\
    Z.of_nat (cols (M ineq))
    = 3 * Zsum (map (floor_samples (lit 1 10))
                  (splines_ (zmp_splines_ (new_optimizer example_three_phases)))) /\
    Z.of_nat (length (v ineq))
    = 3 * Zsum (map (floor_samples (lit 1 10))
                  (splines_ (zmp_splines_ (new_optimizer example_three_phases)))) /\
    (forall s : ZmpSpline binary64,
       four_leg_supp_ s = true -> floor_samples (lit 1 10) s = 0) /\
    (forall s : ZmpSpline binary64,
       fvalid (duration_ s) = true -> fvalid (lit 1 10 : binary64) = true ->
       fltb (duration_ s) (lit 1 10) = true ->
       fltb (duration_ s) fzero = false ->
       floor_samples (lit 1 10) s = 0).
Proof.
  assert (H1 : wf_splines (zmp_splines_ (new_optimizer example_three_phases)))
    by reflexivity.
  assert (H2 : Forall (fun s => four_leg_supp_ s = false ->
            is_Some (n_nodes s (lit 1 10)) /\
            0 <= floor_samples (lit 1 10) s /\
            0 <= step_ s < Z.of_nat (length [tt]))
    (splines_ (zmp_splines_ (new_optimizer example_three_phases)))).
  { apply Forall_cons. split; [discriminate|].
    apply Forall_cons. split.
    { intros _. split; [eexists; vm_compute; reflexivity|].
      vm_compute. repeat split; discriminate. }
    apply Forall_cons. split; [|apply Forall_nil; exact I].
    intros _. split; [eexists; vm_compute; reflexivity|].
    vm_compute. repeat split; discriminate. }
  assert (H3 : 3 * Zsum (map (floor_samples (lit 1 10))
              (splines_ (zmp_splines_ (new_optimizer example_three_phases))))
               <= INT_MAX).
  { vm_compute. discriminate. }
  split; [exact H1|]. split; [exact H2|]. split; [exact H3|].
  exact (inequality_row_count unit example_CalcLines
           (new_optimizer example_three_phases) [tt]
           (f_of_Z 0, f_of_Z 0) (f_of_Z 1, f_of_Z 0) (lit 58 100) (lit 1 10)
           H1 H2 H3).
Defined.

(** *** The constant entry of a ZMP row *)

(** The constant part of [p zmp_x(t) + q zmp_y(t) + r - margin], where the
    position on an axis at the time [t] is [... + E t + F] and the constant
    parts of [E] and [F] are [e0] and [f0]: what the specification states
    for the constant entry of a row. *)
Definition zmp_constant `{Double T} (l : hyq.SuppTriangle.TrLine T)
    (e0x f0x e0y f0y t : T) : T :=
  (hyq.SuppTriangle.p (hyq.SuppTriangle.coeff l) * (e0x * t + f0x)
   + hyq.SuppTriangle.q (hyq.SuppTriangle.coeff l) * (e0y * t + f0y)
   + (hyq.SuppTriangle.r (hyq.SuppTriangle.coeff l)
      - hyq.SuppTriangle.s_margin l))%D.

(** One segment of 0.35 s on three legs. *)
Definition example_single_segment : SplineContainer binary64 :=
  {| splines_ :=
       [ {| id_ := 0; duration_ := lit 35 100; four_leg_supp_ := false;
            step_ := 0 |} ] |}.

(** C3 at a failing input: one segment sampled every 0.1 s, start at the
    origin with velocity (1, 0), the edge [x >= 0] without margin.  The
    builder returns nine rows and the constant entry of every one is 1,
    that is [e0 * t^0 + f0] with [e0 = 1] and [f0 = 0]; the constant part of
    the ZMP expression at the sample times 0, 0.1 and 0.2 is [e0 * t + f0],
    that is 0, 0.1 and 0.2. *)
Lemma inequality_constant_ignores_sample_time :
  exists lines ineq o',
    LineForConstraint unit example_CalcLines example_single_segment [tt]
      (lit 1 10) = Ok lines /\
    CreateInequalityContraints (f_of_Z 0, f_of_Z 0) (f_of_Z 1, f_of_Z 0)
      lines (lit 58 100) (lit 1 10) (new_optimizer example_single_segment)
    = (Ok ineq, o') /\
    DescribeEByPrev example_single_segment 0 X (f_of_Z 1)
    = (replicate 8 fzero, f_of_Z 1) /\
    DescribeFByPrev example_single_segment 0 X (f_of_Z 1) (f_of_Z 0)
    = (replicate 8 fzero, f_of_Z 0) /\
    v ineq = replicate 9 (f_of_Z 1) /\
    (fun i => zmp_constant example_line (f_of_Z 1) (f_of_Z 0)
                (f_of_Z 0) (f_of_Z 0) (f_of_Z i * lit 1 10)%D)
      <$> [0; 0; 0; 1; 1; 1; 2; 2; 2]
    = [f_of_Z 0; f_of_Z 0; f_of_Z 0; lit 1 10; lit 1 10; lit 1 10;
       lit 2 10; lit 2 10; lit 2 10] /\
    v ineq <> [f_of_Z 0; f_of_Z 0; f_of_Z 0; lit 1 10; lit 1 10; lit 1 10;
               lit 2 10; lit 2 10; lit 2 10].
Proof.
  eexists. eexists. eexists.
  split; [vm_compute; reflexivity|].
  split; [vm_compute; reflexivity|].
  split; [vm_compute; reflexivity|].
  split; [vm_compute; reflexivity|].
  split; [vm_compute; reflexivity|].
  split; [vm_compute; reflexivity|].
  vm_compute. discriminate.
Qed.

(** *** The sampling interval and the gravity *)

(** C10: in every number model that counts as [DoubleCount] states
    (binary64 and the reals), for every argument of [SetupQpMatrices] (none
    of which is a sampling interval or a gravity) and every optimizer whose
    plan is not empty (segment ids equal to sequence positions; on the
    segments that are not full-support a floor of [duration / 0.1] that
    converts to an [int], and a valid step index; counts that fit an
    [int]), the setup returns; the lines it leaves in
    [lines_for_constraint_] are those of [LineForConstraint] for the
    interval [0.1]; the inequality matrix it leaves in [ineq_] has one
    column for each entry of the schedule for the interval [0.1], three at
    each time [i * 0.1] for the doubles [i] of the numbers below the
    segment's number of nodes; and in the column of the constraint of the
    segment [k] at the time [time] against the line [l], the entry of
    [ineq_ipopt_] on the row of a free coefficient of that segment is what
    the builder assigns for the gravity [9.81], [zmp_weight], followed by
    the additions of the descriptions of E and F ([zmp_entry]), and the
    entry of [ineq_.M] is that entry times [p] on the x axis and [q] on the
    y axis. *)
Theorem setup_fixes_dt_and_g {T : Type} `{DoubleCount T}
    (SuppTriangle : Type)
    (CalcLines : SuppTriangle -> hyq.SuppTriangle.TrLines3 T)
    (MarginValues : Type)
    (FromFootholds :
       hyq.LegDataMap (hyq.Foothold T) -> list (hyq.Foothold T) ->
       MarginValues -> list SuppTriangle * hyq.LegDataMap (hyq.Foothold T))
    (start_cog_p start_cog_v : Vector2d T)
    (start_stance : hyq.LegDataMap (hyq.Foothold T))
    (steps : list (hyq.Foothold T)) (weight : Vector2d T)
    (margins : MarginValues) (height_robot : T) (o : ZmpOptimizer T) :
  let sc := zmp_splines_ o in
  let supp_triangles := fst (FromFootholds start_stance steps margins) in
  splines_ sc <> [] ->
  wf_splines sc ->
  Forall (fun s => four_leg_supp_ s = false ->
            is_Some (n_nodes s (lit 1 10)) /\
            0 <= step_ s < Z.of_nat (length supp_triangles))
    (splines_ sc) ->
  4 * Z.of_nat (length (splines_ sc)) + 6 <= INT_MAX ->
  3 * Z.of_nat (sum_list_with (samples (lit 1 10)) (splines_ sc)) <= INT_MAX ->
  exists o',
    SetupQpMatrices SuppTriangle CalcLines MarginValues FromFootholds
      start_cog_p start_cog_v start_stance steps weight margins height_robot o
    = (Ok tt, o') /\
    LineForConstraint SuppTriangle CalcLines sc supp_triangles (lit 1 10)
    = Ok (lines_for_constraint_ o') /\
    length (schedule (lit 1 10) sc) = cols (M (ineq_ o')) /\
    forall c k time l,
      schedule (lit 1 10) sc !! c = Some (k, time) ->
      lines_for_constraint_ o' !! c = Some l ->
      (exists (i : nat) s n,
         splines_ sc !! Z.to_nat k = Some s /\ four_leg_supp_ s = false /\
         n_nodes s (lit 1 10) = Some n /\ Z.of_nat i < n /\
         time = (f_of_Z (Z.of_nat i) * lit 1 10)%D) /\
      forall dim letter, coeff_int letter < kOptCoeff ->
        let row := var_index k (dim_int dim) (coeff_int letter) in
        coeff (ineq_ipopt_ o') row (Z.of_nat c)
        = zmp_entry (lit 981 100) height_robot (cache_exponents 6 time)
            dim letter
            (vcoeff (fst (DescribeEByPrev sc k X (at_dim start_cog_v X))) row)
            (vcoeff (fst (DescribeFByPrev sc k X (at_dim start_cog_v X)
                            (at_dim start_cog_p X))) row)
            (vcoeff (fst (DescribeEByPrev sc k Y (at_dim start_cog_v Y))) row)
            (vcoeff (fst (DescribeFByPrev sc k Y (at_dim start_cog_v Y)
                            (at_dim start_cog_p Y))) row) /\
        coeff (M (ineq_ o')) row (Z.of_nat c)
        = (coeff (ineq_ipopt_ o') row (Z.of_nat c)
           * match dim with
             | X => hyq.SuppTriangle.p (hyq.SuppTriangle.coeff l)
             | Y => hyq.SuppTriangle.q (hyq.SuppTriangle.coeff l)
             end)%D.
Proof.
  intros sc supp_triangles Hne Hwf Hall Heq Hmax.
  destruct (CreateMinAccCostFunction_entries sc weight Hwf) as (cf & Hcf & _).
  subst supp_triangles.
  destruct (FromFootholds start_stance steps margins) as [tr final_stance]
    eqn:HFF.
  cbn [fst] in *.
  destruct (CreateEqualityContraints_counted_Ok sc start_cog_p start_cog_v
              (average_stance final_stance) Hwf Hne Heq) as (ec & Hec & _).
  assert (Hec' : CreateEqualityContraints sc start_cog_p start_cog_v
                   (average_stance final_stance) = Ok ec).
  { unfold CreateEqualityContraints. rewrite Hec. reflexivity. }
  destruct (LineForConstraint_length SuppTriangle CalcLines sc tr (lit 1 10)
              Hall) as (lines & Hlines & Hlen).
  assert (Hnodes : nodes_defined (lit 1 10) sc).
  { unfold nodes_defined. eapply Forall_impl; [exact Hall|]. simpl.
    intros s Hs H4. apply (Hs H4). }
  set (o_mid := set_lines_for_constraint_ lines
                  (set_eq_ ec (set_footholds_ steps (set_cf_ cf o)))).
  destruct (CreateInequalityContraints_columns o_mid start_cog_p start_cog_v
              lines height_robot (lit 1 10) Hwf Hnodes Hlen)
    as (ineq & o1 & Hrun & Hsh & Hip & Hsl & Hdone); [lia|].
  change (zmp_splines_ o_mid) with sc in Hsh, Hip, Hsl, Hdone.
  pose proof (preserves_CreateInequalityContraints lines_for_constraint_
                ltac:(reflexivity) ltac:(reflexivity) ltac:(reflexivity)
                start_cog_p start_cog_v lines height_robot (lit 1 10)
                _ _ _ Hrun) as Hframe.
  exists (set_ineq_ ineq o1). split.
  { unfold SetupQpMatrices. cbv [mbind run_bind gets lift modify].
    fold sc. destruct (splines_ sc) as [|s0 l0] eqn:Hsp; [congruence|].
    rewrite Hcf, HFF, Hec', Hlines.
    change (lines_for_constraint_ (set_lines_for_constraint_ lines _))
      with lines.
    fold o_mid. rewrite Hrun. reflexivity. }
  split; [cbn [lines_for_constraint_ set_ineq_]; rewrite Hframe; exact Hlines|].
  destruct Hsh as (_ & _ & Hcols & _).
  split; [cbn [ineq_ set_ineq_]; congruence|].
  intros c k time l Hsched Hl.
  cbn [lines_for_constraint_ set_ineq_] in Hl. rewrite Hframe in Hl.
  change (lines_for_constraint_ o_mid) with lines in Hl.
  cbn [ineq_ ineq_ipopt_ set_ineq_].
  destruct (schedule_lookup _ sc c k time Hwf Hsched)
    as (kn & i & s & n & -> & Hs & H4 & Hn & Hi & ->).
  split.
  - exists i, s, n. rewrite Nat2Z.id. auto.
  - intros dim letter Hletter.
    set (row := var_index (Z.of_nat kn) (dim_int dim) (coeff_int letter)).
    pose proof (lookup_lt_Some _ _ _ Hs) as Hkn.
    pose proof (dim_int_bounds dim) as Hdim.
    assert (Hletter' : 0 <= coeff_int letter <= 3).
    { unfold kOptCoeff in Hletter. destruct letter; cbn [coeff_int] in *; lia. }
    assert (Hrange : 0 <= row < Z.of_nat (length (splines_ sc) * 8)).
    { unfold row, var_index, kOptCoeff, kDim2d. lia. }
    destruct (Hdone c _ Hsched) as (l' & Hl' & Hcol & _).
    cbn [fst snd] in Hcol.
    assert (l' = l) by congruence. subst l'.
    destruct (Hcol _ Hrange) as [Hi' HM]. rewrite HM, Hi'. split.
    + apply (ipopt_column_own sc start_cog_p start_cog_v height_robot
               (Z.of_nat kn) _ dim letter Hletter).
    + unfold row. rewrite var_index_axis by assumption.
      destruct dim; reflexivity.
Qed.

(** Sampled every 0.1 s, the 0.35 s of the second segment of the example
    make three samples. *)
Lemma example_samples_tenth :
  map (samples (lit 1 10)) (splines_ example_splines) = [0; 3]%nat.
Proof. vm_compute. reflexivity. Qed.

Lemma setup_fixes_dt_and_g_witness :
  splines_ (zmp_splines_ (new_optimizer example_splines)) <> [] /\
  wf_splines (zmp_splines_ (new_optimizer example_splines)) /\
  Forall (fun s => four_leg_supp_ s = false ->
            is_Some (n_nodes s (lit 1 10)) /\
            0 <= step_ s
            < Z.of_nat (length (fst (example_FromFootholds
                                       example_foothold [] tt))))
    (splines_ (zmp_splines_ (new_optimizer example_splines))) /\
  4 * Z.of_nat (length (splines_ (zmp_splines_
                                    (new_optimizer example_splines)))) + 6
  <= INT_MAX /\
  3 * Z.of_nat (sum_list_with (samples (lit 1 10))
                  (splines_ (zmp_splines_ (new_optimizer example_splines))))
  <= INT_MAX /\
  exists o',
    SetupQpMatrices unit example_CalcLines unit example_FromFootholds
      (f_of_Z 0, f_of_Z 0) (f_of_Z 1, f_of_Z 0) example_foothold []
      example_weight tt (lit 58 100) (new_optimizer example_splines)
    = (Ok tt, o') /\
    LineForConstraint unit example_CalcLines
      (zmp_splines_ (new_optimizer example_splines))
      (fst (example_FromFootholds example_foothold [] tt)) (lit 1 10)
    = Ok (lines_for_constraint_ o') /\
    length (schedule (lit 1 10) (zmp_splines_ (new_optimizer example_splines)))
    = cols (M (ineq_ o')) /\
    forall c k time l,
      schedule (lit 1 10) (zmp_splines_ (new_optimizer example_splines)) !! c
      = Some (k, time) ->
      lines_for_constraint_ o' !! c = Some l ->
      (exists (i : nat) s n,
         splines_ (zmp_splines_ (new_optimizer example_splines))
           !! Z.to_nat k = Some s /\
         four_leg_supp_ s = false /\
         n_nodes s (lit 1 10) = Some n /\ Z.of_nat i < n /\
         time = (f_of_Z (Z.of_nat i) * lit 1 10)%D) /\
      forall dim letter, coeff_int letter < kOptCoeff ->
        let row := var_index k (dim_int dim) (coeff_int letter) in
        coeff (ineq_ipopt_ o') row (Z.of_nat c)
        = zmp_entry (lit 981 100) (lit 58 100) (cache_exponents 6 time)
            dim letter
            (vcoeff (fst (DescribeEByPrev
                            (zmp_splines_ (new_optimizer example_splines))
                            k X (at_dim (f_of_Z 1, f_of_Z 0) X))) row)
            (vcoeff (fst (DescribeFByPrev
                            (zmp_splines_ (new_optimizer example_splines))
                            k X (at_dim (f_of_Z 1, f_of_Z 0) X)
                            (at_dim (f_of_Z 0, f_of_Z 0) X))) row)
            (vcoeff (fst (DescribeEByPrev
                            (zmp_splines_ (new_optimizer example_splines))
                            k Y (at_dim (f_of_Z 1, f_of_Z 0) Y))) row)
            (vcoeff (fst (DescribeFByPrev
                            (zmp_splines_ (new_optimizer example_splines))
                            k Y (at_dim (f_of_Z 1, f_of_Z 0) Y)
                            (at_dim (f_of_Z 0, f_of_Z 0) Y))) row) /\
        coeff (M (ineq_ o')) row (Z.of_nat c)
        = (coeff (ineq_ipopt_ o') row (Z.of_nat c)
           * match dim with
             | X => hyq.SuppTriangle.p (hyq.SuppTriangle.coeff l)
             | Y => hyq.SuppTriangle.q (hyq.SuppTriangle.coeff l)
             end)%D.
Proof.
  assert (H1 : splines_ (zmp_splines_ (new_optimizer example_splines)) <> [])
    by discriminate.
  assert (H2 : wf_splines (zmp_splines_ (new_optimizer example_splines)))
    by reflexivity.
  assert (H3 : Forall (fun s => four_leg_supp_ s = false ->
            is_Some (n_nodes s (lit 1 10)) /\
            0 <= step_ s
            < Z.of_nat (length (fst (example_FromFootholds
                                       example_foothold [] tt))))
    (splines_ (zmp_splines_ (new_optimizer example_splines)))).
  { apply Forall_cons. split; [discriminate|].
    apply Forall_cons. split; [|apply Forall_nil; exact I].
    intros _. split; [eexists; vm_compute; reflexivity|].
    vm_compute. repeat split; discriminate. }
  assert (H4 : 4 * Z.of_nat (length (splines_ (zmp_splines_
                 (new_optimizer example_splines)))) + 6 <= INT_MAX).
  { vm_compute. discriminate. }
  assert (H5 : 3 * Z.of_nat (sum_list_with (samples (lit 1 10))
                 (splines_ (zmp_splines_ (new_optimizer example_splines))))
               <= INT_MAX).
  { vm_compute. discriminate. }
  split; [exact H1|]. split; [exact H2|]. split; [exact H3|].
  split; [exact H4|]. split; [exact H5|].
  exact (setup_fixes_dt_and_g unit example_CalcLines unit
           example_FromFootholds (f_of_Z 0, f_of_Z 0) (f_of_Z 1, f_of_Z 0)
           example_foothold [] example_weight tt (lit 58 100)
           (new_optimizer example_splines) H1 H2 H3 H4 H5).
Defined.

(** The nine constraints of the example: three at each of the times 0,
    [1 * 0.1] and [2 * 0.1] of its second segment. *)
Lemma example_schedule :
  schedule (lit 1 10) example_splines
  = (fun i : Z => (1, (f_of_Z i * lit 1 10)%D))
      <$> [0; 0; 0; 1; 1; 1; 2; 2; 2].
Proof. vm_compute. reflexivity. Qed.

(** In every number model, binary64 among them, a setup that returns has
    made its lines and its inequality constraints with the literal [0.1]. *)
Lemma SetupQpMatrices_sampling_interval {T : Type} `{Double T}
    (SuppTriangle : Type)
    (CalcLines : SuppTriangle -> hyq.SuppTriangle.TrLines3 T)
    (MarginValues : Type)
    (FromFootholds :
       hyq.LegDataMap (hyq.Foothold T) -> list (hyq.Foothold T) ->
       MarginValues -> list SuppTriangle * hyq.LegDataMap (hyq.Foothold T))
    (start_cog_p start_cog_v : Vector2d T)
    (start_stance : hyq.LegDataMap (hyq.Foothold T))
    (steps : list (hyq.Foothold T)) (weight : Vector2d T)
    (margins : MarginValues) (height_robot : T) (o o' : ZmpOptimizer T) :
  SetupQpMatrices SuppTriangle CalcLines MarginValues FromFootholds
    start_cog_p start_cog_v start_stance steps weight margins height_robot o
  = (Ok tt, o') ->
  exists o1 o2,
    LineForConstraint SuppTriangle CalcLines (zmp_splines_ o)
      (fst (FromFootholds start_stance steps margins)) (lit 1 10)
    = Ok (lines_for_constraint_ o') /\
    CreateInequalityContraints start_cog_p start_cog_v
      (lines_for_constraint_ o') height_robot (lit 1 10) o1
    = (Ok (ineq_ o'), o2).
Proof.
  intros Hrun.
  unfold SetupQpMatrices in Hrun.
  unfold mbind at 1, run_bind at 1, gets at 1 in Hrun.
  destruct (splines_ (zmp_splines_ o)) as [|s0 l] eqn:Hsp; [discriminate|].
  cbn [mbind run_bind lift modify] in Hrun.
  destruct (CreateMinAccCostFunction (zmp_splines_ o) weight) as [cf|e];
    [|discriminate].
  destruct (FromFootholds start_stance steps margins) as [tr final_stance].
  cbn [mbind run_bind lift modify fst] in Hrun |- *.
  destruct (CreateEqualityContraints (zmp_splines_ o) start_cog_p start_cog_v _)
    as [ec|e]; [|discriminate].
  destruct (LineForConstraint SuppTriangle CalcLines (zmp_splines_ o) tr _)
    as [lines|e]; [|discriminate].
  cbv [mbind run_bind lift modify gets] in Hrun.
  cbn [lines_for_constraint_ set_lines_for_constraint_] in Hrun.
  match type of Hrun with
  | context [CreateInequalityContraints ?p0 ?v0 ?ls ?h0 ?dt0 ?s0] =>
      destruct (CreateInequalityContraints p0 v0 ls h0 dt0 s0)
        as [[ineq|e] o1] eqn:Hineq; [|discriminate];
      pose proof (preserves_CreateInequalityContraints lines_for_constraint_
                    ltac:(reflexivity) ltac:(reflexivity) ltac:(reflexivity)
                    p0 v0 ls h0 dt0 _ _ _ Hineq) as Hframe;
      exists s0, o1
  end.
  injection Hrun as <-. cbn [lines_for_constraint_ ineq_ set_ineq_].
  rewrite Hframe. cbn [lines_for_constraint_ set_lines_for_constraint_].
  split; [reflexivity|exact Hineq].
Qed.

(** ** Further properties of the builders *)

(** *** The cost function *)

Lemma vcoeff_replicate_zero {T : Type} `{Double T} (n : nat) (j : Z) :
  vcoeff (replicate n fzero) j = fzero.
Proof.
  unfold vcoeff. destruct (0 <=? j); [|reflexivity].
  destruct (replicate n fzero !! Z.to_nat j) eqn:Ej; [|reflexivity].
  apply lookup_replicate in Ej as [-> _]. reflexivity.
Qed.

(** X1: for every spline sequence (segment ids equal to sequence positions)
    and weights, in every number model, the cost function builder returns a
    square matrix with eight rows for each segment, and a linear term that is
    the zero vector of that length: the builder writes the matrix only. *)
Theorem cost_linear_term_zero {T : Type} `{Double T}
    (sc : SplineContainer T) (weight : Vector2d T) :
  wf_splines sc ->
  exists cf, CreateMinAccCostFunction sc weight = Ok cf /\
    rows (M cf) = (8 * length (splines_ sc))%nat /\
    cols (M cf) = (8 * length (splines_ sc))%nat /\
    v cf = replicate (8 * length (splines_ sc)) fzero.
Proof.
  intros Hwf.
  destruct (CreateMinAccCostFunction_entries sc weight Hwf)
    as (cf & Hrun & _ & Hr & Hc & _ & _ & Hlen & Hz).
  unfold GetOptCoeffCount, kOptCoeff, kDim2d in *.
  exists cf. split; [assumption|]. split; [lia|]. split; [lia|].
  apply vector_ext.
  - rewrite length_replicate. lia.
  - intros i _. rewrite Hz, vcoeff_replicate_zero. reflexivity.
Qed.

Lemma cost_linear_term_zero_witness :
  wf_splines example_splines /\
  exists cf, CreateMinAccCostFunction example_splines example_weight = Ok cf /\
    rows (M cf) = (8 * length (splines_ example_splines))%nat /\
    cols (M cf) = (8 * length (splines_ example_splines))%nat /\
    v cf = replicate (8 * length (splines_ example_splines)) fzero.
Proof.
  split; [reflexivity|].
  apply (cost_linear_term_zero example_splines example_weight). reflexivity.
Defined.

(** X2: in every number model, the 4 x 4 block of the cost matrix on the
    rows and the columns of a segment and an axis holds the table of the
    source, [cost_coef], in its upper triangle and the mirror image below
    the diagonal; every entry whose row and column belong to different
    segments or axes is zero.  The mirroring that runs after every block
    leaves the blocks filled before as they are. *)
Theorem cost_block_structure {T : Type} `{Double T}
    (sc : SplineContainer T) (weight : Vector2d T) :
  wf_splines sc ->
  exists cf, CreateMinAccCostFunction sc weight = Ok cf /\
    (forall (k : nat) s (dim : Coords) (k1 k2 : SplineCoeff),
       splines_ sc !! k = Some s ->
       coeff_int k1 < kOptCoeff -> coeff_int k2 < kOptCoeff ->
       coeff (M cf) (var_index (Z.of_nat k) (dim_int dim) (coeff_int k1))
                    (var_index (Z.of_nat k) (dim_int dim) (coeff_int k2))
       = cost_coef (cache_exponents 10 (duration_ s)) (at_dim weight dim)
           (Z.min (coeff_int k1) (coeff_int k2))
           (Z.max (coeff_int k1) (coeff_int k2))) /\
    (forall (s1 s2 : nat) (d1 d2 : Coords) (k1 k2 : SplineCoeff),
       (s1 < length (splines_ sc))%nat -> (s2 < length (splines_ sc))%nat ->
       coeff_int k1 < kOptCoeff -> coeff_int k2 < kOptCoeff ->
       (s1, d1) <> (s2, d2) ->
       coeff (M cf) (var_index (Z.of_nat s1) (dim_int d1) (coeff_int k1))
                    (var_index (Z.of_nat s2) (dim_int d2) (coeff_int k2))
       = fzero).
Proof.
  intros Hwf.
  destruct (CreateMinAccCostFunction_entries sc weight Hwf)
    as (cf & Hrun & _).
  exists cf. split; [assumption|]. split.
  - intros k s dim k1 k2 Hs Hk1 Hk2.
    unfold var_index, kOptCoeff, kDim2d in *.
    replace (4 * 2 * Z.of_nat k) with (8 * Z.of_nat k) by lia.
    assert (H1 : 0 <= coeff_int k1 <= 3) by (destruct k1; simpl in *; lia).
    assert (H2 : 0 <= coeff_int k2 <= 3) by (destruct k2; simpl in *; lia).
    rewrite (cost_entry_in_block sc weight cf Hwf Hrun s k dim _ _ Hs H1 H2).
    destruct (coeff_int k1 <=? coeff_int k2) eqn:E.
    + apply Z.leb_le in E. rewrite Z.min_l, Z.max_r by lia. reflexivity.
    + apply Z.leb_gt in E. rewrite Z.min_r, Z.max_l by lia. reflexivity.
  - intros s1 s2 d1 d2 k1 k2 Hs1 Hs2 Hk1 Hk2 Hne.
    pose proof (dim_int_bounds d1) as Hd1.
    pose proof (dim_int_bounds d2) as Hd2.
    assert (Hc1 : 0 <= coeff_int k1 <= 3).
    { unfold kOptCoeff in *. destruct k1; simpl in *; lia. }
    assert (Hc2 : 0 <= coeff_int k2 <= 3).
    { unfold kOptCoeff in *. destruct k2; simpl in *; lia. }
    apply (cost_entry_off_block sc weight cf Hwf Hrun);
      unfold GetOptCoeffCount, var_index, kOptCoeff, kDim2d; try lia.
    replace (4 * 2 * Z.of_nat s1) with (8 * Z.of_nat s1) by lia.
    replace (4 * 2 * Z.of_nat s2) with (8 * Z.of_nat s2) by lia.
    rewrite !div4_index by assumption.
    intros Heq. apply Hne.
    assert (Z.of_nat s1 = Z.of_nat s2 /\ dim_int d1 = dim_int d2) as [Hs Hd]
      by lia.
    apply Nat2Z.inj in Hs. subst s2.
    destruct d1, d2; simpl in Hd; try lia; reflexivity.
Qed.

Lemma cost_block_structure_witness :
  wf_splines example_splines /\
  exists cf, CreateMinAccCostFunction example_splines example_weight = Ok cf /\
    (forall (k : nat) s (dim : Coords) (k1 k2 : SplineCoeff),
       splines_ example_splines !! k = Some s ->
       coeff_int k1 < kOptCoeff -> coeff_int k2 < kOptCoeff ->
       coeff (M cf) (var_index (Z.of_nat k) (dim_int dim) (coeff_int k1))
                    (var_index (Z.of_nat k) (dim_int dim) (coeff_int k2))
       = cost_coef (cache_exponents 10 (duration_ s))
           (at_dim example_weight dim)
           (Z.min (coeff_int k1) (coeff_int k2))
           (Z.max (coeff_int k1) (coeff_int k2))) /\
    (forall (s1 s2 : nat) (d1 d2 : Coords) (k1 k2 : SplineCoeff),
       (s1 < length (splines_ example_splines))%nat ->
       (s2 < length (splines_ example_splines))%nat ->
       coeff_int k1 < kOptCoeff -> coeff_int k2 < kOptCoeff ->
       (s1, d1) <> (s2, d2) ->
       coeff (M cf) (var_index (Z.of_nat s1) (dim_int d1) (coeff_int k1))
                    (var_index (Z.of_nat s2) (dim_int d2) (coeff_int k2))
       = fzero).
Proof.
  split; [reflexivity|].
  apply (cost_block_structure example_splines example_weight). reflexivity.
Defined.

(** The quadratic form of the cost matrix is the weighted sum of the
    acceleration energies. *)
Lemma quad_form_min_acc_cost (sc : SplineContainer R) (weight : Vector2d R)
    (cf : MatVec R) (x : VectorXd R) :
  wf_splines sc -> CreateMinAccCostFunction sc weight = Ok cf ->
  quad_form (M cf) x = min_acc_cost sc weight x.
Proof.
  intros Hwf Hrun.
  rewrite (quad_form_by_segments sc weight cf Hwf Hrun).
  unfold min_acc_cost. rewrite Rsum_indexed.
  apply sum_n_ext. intros k Hk.
  destruct (splines_ sc !! Z.to_nat k) as [s|] eqn:Hs; [|reflexivity].
  unfold axis_energy. rewrite !acc_energy_closed_form.
  rewrite (wf_splines_lookup sc _ s Hwf Hs).
  unfold var_index, kOptCoeff, kDim2d. cbn [coeff_int].
  rewrite Z2Nat.id by lia.
  replace (4 * 2 * k)%Z with (8 * k)%Z by lia. reflexivity.
Qed.

Lemma acc_energy_nonneg (a b c d duration : R) :
  (0 <= duration)%R -> (0 <= acc_energy a b c d duration)%R.
Proof.
  intros Hd. unfold acc_energy.
  apply Rle_trans with (RiemannInt (RiemannInt_P14 0%R duration 0%R)).
  { rewrite RiemannInt_P15. lra. }
  apply RiemannInt_P19; [assumption|].
  intros t _. unfold fct_cte, acc_sq. apply pow2_ge_0.
Qed.

Lemma Rsum_nonneg (l : list R) :
  Forall (fun y => (0 <= y)%R) l -> (0 <= Rsum l)%R.
Proof.
  induction 1 as [|y l Hy Hl IH]; simpl; [lra|]. lra.
Qed.

(** X3: over the reals, when the two weights and the durations are not
    negative, the cost matrix that the builder returns is positive
    semidefinite: [x^T M x >= 0] for every coefficient vector [x]. *)
Theorem cost_matrix_positive_semidefinite
    (sc : SplineContainer R) (weight : Vector2d R) (x : VectorXd R) :
  wf_splines sc ->
  (0 <= at_dim weight X)%R -> (0 <= at_dim weight Y)%R ->
  Forall (fun s => (0 <= duration_ s)%R) (splines_ sc) ->
  exists cf, CreateMinAccCostFunction sc weight = Ok cf /\
    (0 <= quad_form (M cf) x)%R.
Proof.
  intros Hwf Hwx Hwy Hdur.
  destruct (CreateMinAccCostFunction_entries sc weight Hwf)
    as (cf & Hrun & _).
  exists cf. split; [assumption|].
  rewrite (quad_form_min_acc_cost sc weight cf x Hwf Hrun).
  unfold min_acc_cost. apply Rsum_nonneg.
  apply Forall_map. eapply Forall_impl; [exact Hdur|].
  intros s Hs. cbn beta.
  pose proof (acc_energy_nonneg
                (vcoeff x (var_index (id_ s) (dim_int X) (coeff_int A)))
                (vcoeff x (var_index (id_ s) (dim_int X) (coeff_int B)))
                (vcoeff x (var_index (id_ s) (dim_int X) (coeff_int C)))
                (vcoeff x (var_index (id_ s) (dim_int X) (coeff_int D)))
                (duration_ s) Hs) as Hx.
  pose proof (acc_energy_nonneg
                (vcoeff x (var_index (id_ s) (dim_int Y) (coeff_int A)))
                (vcoeff x (var_index (id_ s) (dim_int Y) (coeff_int B)))
                (vcoeff x (var_index (id_ s) (dim_int Y) (coeff_int C)))
                (vcoeff x (var_index (id_ s) (dim_int Y) (coeff_int D)))
                (duration_ s) Hs) as Hy.
  unfold axis_energy.
  apply Rplus_le_le_0_compat; apply Rmult_le_pos; assumption.
Qed.

Lemma cost_matrix_positive_semidefinite_witness :
  wf_splines example_splines_R /\
  (0 <= at_dim (1, 2)%R X)%R /\ (0 <= at_dim (1, 2)%R Y)%R /\
  Forall (fun s => (0 <= duration_ s)%R) (splines_ example_splines_R) /\
  exists cf, CreateMinAccCostFunction example_splines_R (1, 2)%R = Ok cf /\
    (0 <= quad_form (M cf) [1; -2; 0; 0; 0; 0; 0; 1]%R)%R.
Proof.
  assert (H1 : wf_splines example_splines_R) by reflexivity.
  assert (H2 : (0 <= at_dim (1, 2)%R X)%R) by (simpl; lra).
  assert (H3 : (0 <= at_dim (1, 2)%R Y)%R) by (simpl; lra).
  assert (H4 : Forall (fun s => (0 <= duration_ s)%R)
                 (splines_ example_splines_R)).
  { repeat constructor; simpl; lra. }
  split; [exact H1|]. split; [exact H2|]. split; [exact H3|].
  split; [exact H4|].
  exact (cost_matrix_positive_semidefinite example_splines_R (1, 2)%R
           [1; -2; 0; 0; 0; 0; 0; 1]%R H1 H2 H3 H4).
Defined.

(** *** The lines of the constraints *)

(** The lines that a segment contributes: none in a full-support phase, and
    otherwise the three lines of the triangle of its step, once for each
    node. *)
Definition lines_of_segment {T : Type} `{Double T} (SuppTriangle : Type)
    (CalcLines : SuppTriangle -> hyq.SuppTriangle.TrLines3 T)
    (supp_triangles : list SuppTriangle) (dt : T) (s : ZmpSpline T)
  : list (hyq.SuppTriangle.TrLine T) :=
  if four_leg_supp_ s then []
  else match n_nodes s dt, supp_triangles !! Z.to_nat (step_ s) with
       | Some n, Some tr =>
           let '(l0, l1, l2) := CalcLines tr in
           concat (replicate (Z.to_nat n) [l0; l1; l2])
       | _, _ => []
       end.

Lemma LineForConstraint_segments {T : Type} `{Double T} (SuppTriangle : Type)
    (CalcLines : SuppTriangle -> hyq.SuppTriangle.TrLines3 T)
    (supp_triangles : list SuppTriangle) (dt : T)
    (l : list (ZmpSpline T)) :
  Forall (fun s => four_leg_supp_ s = false ->
            is_Some (n_nodes s dt) /\
            0 <= step_ s < Z.of_nat (length supp_triangles)) l ->
  LineForConstraint SuppTriangle CalcLines {| splines_ := l |} supp_triangles dt
  = Ok (flat_map (lines_of_segment SuppTriangle CalcLines supp_triangles dt) l).
Proof.
  intros Hall. unfold LineForConstraint. cbn [splines_].
  match goal with
  | |- for_each ?l ?body ?a = _ =>
      destruct (for_each_inv
        (fun done (lines : list (hyq.SuppTriangle.TrLine T)) =>
           lines = flat_map (lines_of_segment SuppTriangle CalcLines
                               supp_triangles dt) done)
        l body a) as (lines & Hrun & Hlines)
  end.
  - reflexivity.
  - intros done s lines [rest Hsplit] ->.
    rewrite flat_map_app. cbn [flat_map]. rewrite app_nil_r.
    rewrite Hsplit in Hall. apply Forall_app in Hall as [_ Hall].
    apply Forall_cons in Hall as [Hs _].
    destruct (four_leg_supp_ s) eqn:H4.
    { eexists. split; [reflexivity|]. unfold lines_of_segment.
      rewrite H4, app_nil_r. reflexivity. }
    destruct (Hs eq_refl) as [[n Hn] Hstep]. rewrite Hn.
    unfold at_step.
    destruct (0 <=? step_ s) eqn:E; [|apply Z.leb_gt in E; lia].
    destruct (lookup_lt_is_Some_2 supp_triangles (Z.to_nat (step_ s)))
      as [tr Htr]; [lia|].
    rewrite Htr. cbn [mbind result_bind].
    assert (Hseg : lines_of_segment SuppTriangle CalcLines supp_triangles dt s
                   = let '(l0, l1, l2) := CalcLines tr in
                     concat (replicate (Z.to_nat n) [l0; l1; l2])).
    { unfold lines_of_segment. rewrite H4, Hn, Htr. reflexivity. }
    rewrite Hseg. clear Hseg.
    destruct (CalcLines tr) as [[l0 l1] l2].
    set (before := flat_map _ done).
    match goal with
    | |- context [for_range ?k ?lo ?body ?a] =>
        destruct (for_range_inv
          (fun i (ls : list (hyq.SuppTriangle.TrLine T)) =>
             ls = before ++ concat (replicate (Z.to_nat i) [l0; l1; l2]))
          k lo body a) as (ls & -> & Hls)
    end.
    + simpl. rewrite app_nil_r. reflexivity.
    + intros i ls Hi ->. eexists. split; [reflexivity|].
      replace (Z.to_nat (i + 1)) with (S (Z.to_nat i)) by lia.
      rewrite replicate_S_end, concat_app. cbn [concat].
      rewrite app_nil_r, app_assoc. reflexivity.
    + exists ls. split; [reflexivity|]. rewrite Hls.
      replace (Z.to_nat (0 + Z.of_nat (Z.to_nat n))) with (Z.to_nat n) by lia.
      reflexivity.
  - rewrite Hrun, Hlines. reflexivity.
Qed.

(** X4: in every number model, when every segment that is not full-support
    has a number of nodes that fits an [int] and a step index inside the
    list of triangles, [LineForConstraint] returns, segment by segment and in
    order, the three lines of the triangle of the segment's step, once for
    each node; a full-support segment contributes nothing, and neither its
    duration nor its step index is looked at. *)
Theorem line_for_constraint_lines {T : Type} `{Double T} (SuppTriangle : Type)
    (CalcLines : SuppTriangle -> hyq.SuppTriangle.TrLines3 T)
    (sc : SplineContainer T) (supp_triangles : list SuppTriangle) (dt : T) :
  Forall (fun s => four_leg_supp_ s = false ->
            is_Some (n_nodes s dt) /\
            0 <= step_ s < Z.of_nat (length supp_triangles)) (splines_ sc) ->
  LineForConstraint SuppTriangle CalcLines sc supp_triangles dt
  = Ok (flat_map (lines_of_segment SuppTriangle CalcLines supp_triangles dt)
          (splines_ sc)).
Proof.
  intros Hall. destruct sc as [l]. cbn [splines_] in *.
  apply LineForConstraint_segments. assumption.
Qed.

Lemma line_for_constraint_lines_witness :
  Forall (fun s => four_leg_supp_ s = false ->
            is_Some (n_nodes s (lit 1 10)) /\
            0 <= step_ s < Z.of_nat (length [tt])) (splines_ example_splines) /\
  LineForConstraint unit example_CalcLines example_splines [tt] (lit 1 10)
  = Ok (flat_map (lines_of_segment unit example_CalcLines [tt] (lit 1 10))
          (splines_ example_splines)).
Proof.
  assert (Hall : Forall (fun s => four_leg_supp_ s = false ->
            is_Some (n_nodes s (lit 1 10)) /\
            0 <= step_ s < Z.of_nat (length [tt])) (splines_ example_splines)).
  { apply Forall_cons. split; [intros Hd; discriminate Hd|].
    apply Forall_cons. split; [|constructor].
    intros _. split; [eexists; vm_compute; reflexivity|simpl; lia]. }
  split; [exact Hall|].
  exact (line_for_constraint_lines unit example_CalcLines example_splines [tt]
           (lit 1 10) Hall).
Defined.

(** X5: in every number model, [LineForConstraint] throws [out_of_range]
    at the first segment that is not full-support and whose step index is
    outside the list of triangles, whatever the number of nodes of that
    segment, zero included: the triangle is looked up before the nodes are
    counted out. *)
Theorem line_for_constraint_bad_step {T : Type} `{Double T}
    (SuppTriangle : Type)
    (CalcLines : SuppTriangle -> hyq.SuppTriangle.TrLines3 T)
    (sc : SplineContainer T) (supp_triangles : list SuppTriangle) (dt : T)
    (done rest : list (ZmpSpline T)) (s : ZmpSpline T) :
  splines_ sc = done ++ s :: rest ->
  Forall (fun s => four_leg_supp_ s = false ->
            is_Some (n_nodes s dt) /\
            0 <= step_ s < Z.of_nat (length supp_triangles)) done ->
  four_leg_supp_ s = false ->
  is_Some (n_nodes s dt) ->
  ~ (0 <= step_ s < Z.of_nat (length supp_triangles)) ->
  LineForConstraint SuppTriangle CalcLines sc supp_triangles dt
  = Throw out_of_range.
Proof.
  intros Hsplit Hdone H4 [n Hn] Hstep.
  pose proof (LineForConstraint_segments SuppTriangle CalcLines supp_triangles
                dt done Hdone) as Hrun.
  unfold LineForConstraint in *. cbn [splines_] in Hrun.
  rewrite Hsplit, for_each_app, Hrun. cbn [mbind result_bind for_each].
  rewrite H4, Hn. unfold at_step.
  destruct (0 <=? step_ s) eqn:E; [|reflexivity].
  apply Z.leb_le in E.
  rewrite lookup_ge_None_2 by lia. reflexivity.
Qed.

(** A plan whose second segment belongs to the sixth step. *)
Definition example_bad_step : SplineContainer binary64 :=
  {| splines_ :=
       [ {| id_ := 0; duration_ := lit 1 2; four_leg_supp_ := true; step_ := 0 |};
         {| id_ := 1; duration_ := lit 5 100; four_leg_supp_ := false;
            step_ := 5 |} ] |}.

Lemma line_for_constraint_bad_step_witness :
  splines_ example_bad_step
  = [ {| id_ := 0; duration_ := lit 1 2; four_leg_supp_ := true; step_ := 0 |} ]
    ++ {| id_ := 1; duration_ := lit 5 100; four_leg_supp_ := false;
          step_ := 5 |} :: [] /\
  LineForConstraint unit example_CalcLines example_bad_step [tt] (lit 1 10)
  = Throw out_of_range.
Proof.
  split; [reflexivity|].
  apply (line_for_constraint_bad_step unit example_CalcLines example_bad_step
           [tt] (lit 1 10)
           [ {| id_ := 0; duration_ := lit 1 2; four_leg_supp_ := true;
                step_ := 0 |} ] []
           {| id_ := 1; duration_ := lit 5 100; four_leg_supp_ := false;
              step_ := 5 |}).
  - reflexivity.
  - apply Forall_cons. split; [intros Hd; discriminate Hd|constructor].
  - reflexivity.
  - eexists. vm_compute. reflexivity.
  - simpl. lia.
Defined.

(** X6: in every number model, for a spline sequence whose segment ids are
    the sequence positions, [GetXyDimAlternatingVector] returns a vector with
    eight entries for each segment, whose entries are [x] on the four
    coefficients of the x axis of every segment and [y] on the four of the y
    axis; no entry keeps the zero it starts with. *)
Theorem xy_alternating_vector_entries {T : Type} `{Double T}
    (sc : SplineContainer T) (x y : T) :
  wf_splines sc ->
  exists u, GetXyDimAlternatingVector sc x y = Ok u /\
    length u = (8 * length (splines_ sc))%nat /\
    forall (k : nat) (dim : Coords) (letter : SplineCoeff),
      (k < length (splines_ sc))%nat -> coeff_int letter < kOptCoeff ->
      u !! Z.to_nat (var_index (Z.of_nat k) (dim_int dim) (coeff_int letter))
      = Some (match dim with X => x | Y => y end).
Proof.
  intros Hwf.
  destruct (GetXyDimAlternatingVector_entries sc x y Hwf)
    as (u & Hrun & Hlen & Hco).
  exists u. split; [assumption|]. split; [lia|].
  intros k dim letter Hk Hletter.
  pose proof (dim_int_bounds dim) as Hdim.
  assert (Hl : 0 <= coeff_int letter <= 3).
  { unfold kOptCoeff in Hletter. destruct letter; simpl in *; lia. }
  set (i := var_index (Z.of_nat k) (dim_int dim) (coeff_int letter)).
  assert (Hi : 0 <= i < Z.of_nat (length (splines_ sc) * 8)).
  { subst i. unfold var_index, kOptCoeff, kDim2d. lia. }
  destruct (lookup_lt_is_Some_2 u (Z.to_nat i)) as [z Hz]; [lia|].
  rewrite Hz. f_equal.
  pose proof (vcoeff_lookup u (Z.to_nat i) z Hz) as Hv.
  rewrite Z2Nat.id in Hv by lia. rewrite <- Hv, (Hco i Hi).
  subst i. unfold var_index, kOptCoeff, kDim2d.
  replace (4 * 2 * Z.of_nat k) with (8 * Z.of_nat k) by lia.
  rewrite div4_index by assumption.
  rewrite Z.add_comm, Z.mul_comm, Z.mod_add by lia.
  destruct dim; reflexivity.
Qed.

Lemma xy_alternating_vector_entries_witness :
  wf_splines example_splines /\
  exists u, GetXyDimAlternatingVector example_splines (f_of_Z 1) (f_of_Z 2)
            = Ok u /\
    length u = (8 * length (splines_ example_splines))%nat /\
    forall (k : nat) (dim : Coords) (letter : SplineCoeff),
      (k < length (splines_ example_splines))%nat ->
      coeff_int letter < kOptCoeff ->
      u !! Z.to_nat (var_index (Z.of_nat k) (dim_int dim) (coeff_int letter))
      = Some (match dim with X => f_of_Z 1 | Y => f_of_Z 2 end).
Proof.
  split; [reflexivity|].
  apply (xy_alternating_vector_entries example_splines (f_of_Z 1) (f_of_Z 2)).
  reflexivity.
Defined.

(** *** The facade *)

(** X7: when the cost that the QP solver returns is not a number, [SolveQp]
    throws nothing and returns the solver's vector: both comparisons of the
    guard are false for a NaN. *)
Theorem solve_qp_accepts_nan {T : Type}
    (solve_quadprog :
       MatrixXd T -> VectorXd T -> MatrixXd T -> VectorXd T ->
       MatrixXd T -> VectorXd T -> binary64 * VectorXd T)
    (o : ZmpOptimizer T) :
  let solved :=
    solve_quadprog (M (cf_ o)) (v (cf_ o)) (M (eq_ o)) (v (eq_ o))
      (M (ineq_ o)) (v (ineq_ o)) in
  fst solved = S754_nan ->
  SolveQp solve_quadprog o = (Ok (snd solved), o).
Proof.
  intros solved Hnan. unfold SolveQp, gets, mbind, run_bind. fold solved.
  destruct solved as [cost x]. simpl in Hnan. subst cost. reflexivity.
Qed.

Definition example_nan_solver (cfM : MatrixXd binary64) (cfv : VectorXd binary64)
    (eqM : MatrixXd binary64) (eqv : VectorXd binary64)
    (ineqM : MatrixXd binary64) (ineqv : VectorXd binary64)
  : binary64 * VectorXd binary64 :=
  (S754_nan, [f_of_Z 7]).

Lemma solve_qp_accepts_nan_witness :
  fst (example_nan_solver (M (cf_ example_empty_optimizer))
         (v (cf_ example_empty_optimizer)) (M (eq_ example_empty_optimizer))
         (v (eq_ example_empty_optimizer)) (M (ineq_ example_empty_optimizer))
         (v (ineq_ example_empty_optimizer))) = S754_nan /\
  SolveQp example_nan_solver example_empty_optimizer
  = (Ok [f_of_Z 7], example_empty_optimizer).
Proof.
  split; [reflexivity|].
  apply (solve_qp_accepts_nan example_nan_solver example_empty_optimizer).
  reflexivity.
Defined.

(** X8: when the cost that the QP solver returns is zero, of either sign,
    or negative, finite or infinite, [SolveQp] throws the length error and
    leaves the optimizer as it was: an optimum of cost zero is reported as
    no solution. *)
Theorem solve_qp_rejects_zero_and_negative {T : Type}
    (solve_quadprog :
       MatrixXd T -> VectorXd T -> MatrixXd T -> VectorXd T ->
       MatrixXd T -> VectorXd T -> binary64 * VectorXd T)
    (o : ZmpOptimizer T) :
  let solved :=
    solve_quadprog (M (cf_ o)) (v (cf_ o)) (M (eq_ o)) (v (eq_ o))
      (M (ineq_ o)) (v (ineq_ o)) in
  (exists s, fst solved = S754_zero s) \/
  (exists m e, fst solved = S754_finite true m e) \/
  fst solved = S754_infinity true ->
  SolveQp solve_quadprog o
  = (Throw (length_error "Eigen::quadprog did not find a solution"), o).
Proof.
  intros solved Hcost. unfold SolveQp, gets, mbind, run_bind. fold solved.
  destruct solved as [cost x]. simpl in Hcost.
  destruct Hcost as [[s ->]|[(m & e & ->)| ->]].
  - destruct s; reflexivity.
  - reflexivity.
  - reflexivity.
Qed.

Definition example_zero_solver (cfM : MatrixXd binary64)
    (cfv : VectorXd binary64) (eqM : MatrixXd binary64) (eqv : VectorXd binary64)
    (ineqM : MatrixXd binary64) (ineqv : VectorXd binary64)
  : binary64 * VectorXd binary64 :=
  (S754_zero false, [f_of_Z 7]).

Lemma solve_qp_rejects_zero_and_negative_witness :
  ((exists s,
      fst (example_zero_solver (M (cf_ example_empty_optimizer))
             (v (cf_ example_empty_optimizer)) (M (eq_ example_empty_optimizer))
             (v (eq_ example_empty_optimizer))
             (M (ineq_ example_empty_optimizer))
             (v (ineq_ example_empty_optimizer))) = S754_zero s) \/
   (exists m e,
      fst (example_zero_solver (M (cf_ example_empty_optimizer))
             (v (cf_ example_empty_optimizer)) (M (eq_ example_empty_optimizer))
             (v (eq_ example_empty_optimizer))
             (M (ineq_ example_empty_optimizer))
             (v (ineq_ example_empty_optimizer))) = S754_finite true m e) \/
   fst (example_zero_solver (M (cf_ example_empty_optimizer))
          (v (cf_ example_empty_optimizer)) (M (eq_ example_empty_optimizer))
          (v (eq_ example_empty_optimizer)) (M (ineq_ example_empty_optimizer))
          (v (ineq_ example_empty_optimizer))) = S754_infinity true) /\
  SolveQp example_zero_solver example_empty_optimizer
  = (Throw (length_error "Eigen::quadprog did not find a solution"),
     example_empty_optimizer).
Proof.
  assert (Hcost :
    (exists s,
      fst (example_zero_solver (M (cf_ example_empty_optimizer))
             (v (cf_ example_empty_optimizer)) (M (eq_ example_empty_optimizer))
             (v (eq_ example_empty_optimizer))
             (M (ineq_ example_empty_optimizer))
             (v (ineq_ example_empty_optimizer))) = S754_zero s) \/
   (exists m e,
      fst (example_zero_solver (M (cf_ example_empty_optimizer))
             (v (cf_ example_empty_optimizer)) (M (eq_ example_empty_optimizer))
             (v (eq_ example_empty_optimizer))
             (M (ineq_ example_empty_optimizer))
             (v (ineq_ example_empty_optimizer))) = S754_finite true m e) \/
   fst (example_zero_solver (M (cf_ example_empty_optimizer))
          (v (cf_ example_empty_optimizer)) (M (eq_ example_empty_optimizer))
          (v (eq_ example_empty_optimizer)) (M (ineq_ example_empty_optimizer))
          (v (ineq_ example_empty_optimizer))) = S754_infinity true).
  { left. exists false. reflexivity. }
  split; [exact Hcost|].
  exact (solve_qp_rejects_zero_and_negative example_zero_solver
           example_empty_optimizer Hcost).
Defined.

(** X9: in every number model, when the plan is not empty (ids equal to
    positions, a count of equality constraints that fits an [int]) and
    [LineForConstraint] throws, [SetupQpMatrices] throws the same exception
    after it has assigned the new cost function, the footholds and the new
    equality constraints: the optimizer is left with these three members
    new, and with the lines and the inequality constraints, [ineq_ipopt_]
    included, of before. *)
Theorem setup_partial_update_on_line_failure {T : Type} `{Double T}
    (SuppTriangle : Type)
    (CalcLines : SuppTriangle -> hyq.SuppTriangle.TrLines3 T)
    (MarginValues : Type)
    (FromFootholds :
       hyq.LegDataMap (hyq.Foothold T) -> list (hyq.Foothold T) ->
       MarginValues -> list SuppTriangle * hyq.LegDataMap (hyq.Foothold T))
    (start_cog_p start_cog_v : Vector2d T)
    (start_stance : hyq.LegDataMap (hyq.Foothold T))
    (steps : list (hyq.Foothold T)) (weight : Vector2d T)
    (margins : MarginValues) (height_robot : T) (o : ZmpOptimizer T)
    (e : exn) :
  let sc := zmp_splines_ o in
  splines_ sc <> [] ->
  wf_splines sc ->
  4 * Z.of_nat (length (splines_ sc)) + 6 <= INT_MAX ->
  LineForConstraint SuppTriangle CalcLines sc
    (fst (FromFootholds start_stance steps margins)) (lit 1 10)
  = Throw e ->
  exists cf ec,
    CreateMinAccCostFunction sc weight = Ok cf /\
    CreateEqualityContraints sc start_cog_p start_cog_v
      (average_stance (snd (FromFootholds start_stance steps margins)))
    = Ok ec /\
    SetupQpMatrices SuppTriangle CalcLines MarginValues FromFootholds
      start_cog_p start_cog_v start_stance steps weight margins height_robot o
    = (Throw e,
       {| zmp_splines_ := zmp_splines_ o; cf_ := cf; eq_ := ec;
          ineq_ := ineq_ o; footholds_ := steps;
          lines_for_constraint_ := lines_for_constraint_ o;
          ineq_ipopt_ := ineq_ipopt_ o; ineq_ipopt_vx_ := ineq_ipopt_vx_ o;
          ineq_ipopt_vy_ := ineq_ipopt_vy_ o |}).
Proof.
  intros sc Hne Hwf Hmax Hlines.
  destruct (CreateMinAccCostFunction_entries sc weight Hwf) as (cf & Hcf & _).
  destruct (FromFootholds start_stance steps margins) as [tr final_stance]
    eqn:HFF.
  cbn [fst snd] in *.
  destruct (CreateEqualityContraints_counted_Ok sc start_cog_p start_cog_v
              (average_stance final_stance) Hwf Hne Hmax) as (ec & Hec & _).
  assert (Hec' : CreateEqualityContraints sc start_cog_p start_cog_v
                   (average_stance final_stance) = Ok ec).
  { unfold CreateEqualityContraints. rewrite Hec. reflexivity. }
  exists cf, ec. split; [assumption|]. split; [assumption|].
  unfold SetupQpMatrices. cbv [mbind run_bind gets lift modify].
  fold sc. destruct (splines_ sc) as [|s0 l0] eqn:Hsp; [congruence|].
  rewrite Hcf, HFF, Hec', Hlines. reflexivity.
Qed.

Lemma setup_partial_update_on_line_failure_witness :
  splines_ (zmp_splines_ (new_optimizer example_bad_step)) <> [] /\
  wf_splines (zmp_splines_ (new_optimizer example_bad_step)) /\
  4 * Z.of_nat (length (splines_ (zmp_splines_
                                    (new_optimizer example_bad_step)))) + 6
  <= INT_MAX /\
  LineForConstraint unit example_CalcLines
    (zmp_splines_ (new_optimizer example_bad_step))
    (fst (example_FromFootholds example_foothold [] tt)) (lit 1 10)
  = Throw out_of_range /\
  exists cf ec,
    CreateMinAccCostFunction (zmp_splines_ (new_optimizer example_bad_step))
      example_weight = Ok cf /\
    CreateEqualityContraints (zmp_splines_ (new_optimizer example_bad_step))
      (f_of_Z 0, f_of_Z 0) (f_of_Z 1, f_of_Z 0)
      (average_stance (snd (example_FromFootholds example_foothold [] tt)))
    = Ok ec /\
    SetupQpMatrices unit example_CalcLines unit example_FromFootholds
      (f_of_Z 0, f_of_Z 0) (f_of_Z 1, f_of_Z 0) example_foothold []
      example_weight tt (lit 58 100) (new_optimizer example_bad_step)
    = (Throw out_of_range,
       {| zmp_splines_ := zmp_splines_ (new_optimizer example_bad_step);
          cf_ := cf; eq_ := ec;
          ineq_ := ineq_ (new_optimizer example_bad_step); footholds_ := [];
          lines_for_constraint_ :=
            lines_for_constraint_ (new_optimizer example_bad_step);
          ineq_ipopt_ := ineq_ipopt_ (new_optimizer example_bad_step);
          ineq_ipopt_vx_ := ineq_ipopt_vx_ (new_optimizer example_bad_step);
          ineq_ipopt_vy_ :=
            ineq_ipopt_vy_ (new_optimizer example_bad_step) |}).
Proof.
  assert (H1 : splines_ (zmp_splines_ (new_optimizer example_bad_step)) <> [])
    by discriminate.
  assert (H2 : wf_splines (zmp_splines_ (new_optimizer example_bad_step)))
    by reflexivity.
  assert (H3 : 4 * Z.of_nat (length (splines_ (zmp_splines_
                 (new_optimizer example_bad_step)))) + 6 <= INT_MAX).
  { vm_compute. discriminate. }
  assert (H4 : LineForConstraint unit example_CalcLines
    (zmp_splines_ (new_optimizer example_bad_step))
    (fst (example_FromFootholds example_foothold [] tt)) (lit 1 10)
    = Throw out_of_range).
  { vm_compute. reflexivity. }
  split; [exact H1|]. split; [exact H2|]. split; [exact H3|].
  split; [exact H4|].
  exact (setup_partial_update_on_line_failure unit example_CalcLines unit
           example_FromFootholds (f_of_Z 0, f_of_Z 0) (f_of_Z 1, f_of_Z 0)
           example_foothold [] example_weight tt (lit 58 100)
           (new_optimizer example_bad_step) out_of_range H1 H2 H3 H4).
Defined.

(** X10: in every number model, a setup that returns leaves the plan as it
    was, the footholds it was given in [footholds_], and in [cf_] what the
    cost function builder returns for the weights it was given. *)
Theorem setup_stores_cost_and_footholds {T : Type} `{Double T}
    (SuppTriangle : Type)
    (CalcLines : SuppTriangle -> hyq.SuppTriangle.TrLines3 T)
    (MarginValues : Type)
    (FromFootholds :
       hyq.LegDataMap (hyq.Foothold T) -> list (hyq.Foothold T) ->
       MarginValues -> list SuppTriangle * hyq.LegDataMap (hyq.Foothold T))
    (start_cog_p start_cog_v : Vector2d T)
    (start_stance : hyq.LegDataMap (hyq.Foothold T))
    (steps : list (hyq.Foothold T)) (weight : Vector2d T)
    (margins : MarginValues) (height_robot : T) (o o' : ZmpOptimizer T) :
  SetupQpMatrices SuppTriangle CalcLines MarginValues FromFootholds
    start_cog_p start_cog_v start_stance steps weight margins height_robot o
  = (Ok tt, o') ->
  zmp_splines_ o' = zmp_splines_ o /\
  footholds_ o' = steps /\
  CreateMinAccCostFunction (zmp_splines_ o) weight = Ok (cf_ o').
Proof.
  intros Hrun.
  unfold SetupQpMatrices in Hrun.
  unfold mbind at 1, run_bind at 1, gets at 1 in Hrun.
  destruct (splines_ (zmp_splines_ o)) as [|s0 l] eqn:Hsp; [discriminate|].
  cbn [mbind run_bind lift modify] in Hrun.
  destruct (CreateMinAccCostFunction (zmp_splines_ o) weight) as [cf|e];
    [|discriminate].
  destruct (FromFootholds start_stance steps margins) as [tr final_stance].
  cbn [mbind run_bind lift modify] in Hrun.
  destruct (CreateEqualityContraints (zmp_splines_ o) start_cog_p start_cog_v _)
    as [ec|e]; [|discriminate].
  destruct (LineForConstraint SuppTriangle CalcLines (zmp_splines_ o) tr _)
    as [lines|e]; [|discriminate].
  cbv [mbind run_bind lift modify gets] in Hrun.
  cbn [lines_for_constraint_ set_lines_for_constraint_] in Hrun.
  match type of Hrun with
  | context [CreateInequalityContraints ?p0 ?v0 ?ls ?h0 ?dt0 ?s0] =>
      destruct (CreateInequalityContraints p0 v0 ls h0 dt0 s0)
        as [[ineq|e] o1] eqn:Hineq; [|discriminate];
      pose proof (preserves_CreateInequalityContraints
                    (fun o => (zmp_splines_ o, footholds_ o, cf_ o))
                    ltac:(reflexivity) ltac:(reflexivity) ltac:(reflexivity)
                    p0 v0 ls h0 dt0 _ _ _ Hineq) as Hframe
  end.
  injection Hrun as <-. cbn [zmp_splines_ footholds_ cf_ set_ineq_].
  injection Hframe as -> -> ->. auto.
Qed.

Lemma setup_stores_cost_and_footholds_witness :
  SetupQpMatrices unit example_CalcLines unit example_FromFootholds
    (f_of_Z 0, f_of_Z 0) (f_of_Z 1, f_of_Z 0) example_foothold []
    example_weight tt (lit 58 100) (new_optimizer example_splines)
  = (Ok tt, snd example_setup) /\
  zmp_splines_ (snd example_setup)
  = zmp_splines_ (new_optimizer example_splines) /\
  footholds_ (snd example_setup) = [] /\
  CreateMinAccCostFunction (zmp_splines_ (new_optimizer example_splines))
    example_weight = Ok (cf_ (snd example_setup)).
Proof.
  split; [vm_compute; reflexivity|].
  apply (setup_stores_cost_and_footholds unit example_CalcLines unit
           example_FromFootholds (f_of_Z 0, f_of_Z 0) (f_of_Z 1, f_of_Z 0)
           example_foothold [] example_weight tt (lit 58 100)
           (new_optimizer example_splines) (snd example_setup)).
  vm_compute. reflexivity.
Defined.

(** X11: in every number model and for every argument, whether it returns
    or throws, the inequality builder changes no member of the optimizer but
    [ineq_ipopt_], [ineq_ipopt_vx_] and [ineq_ipopt_vy_]: the plan, the cost
    function, the equality and the inequality constraints, the footholds and
    the lines are those of before. *)
Theorem inequality_builder_writes_ipopt_only {T : Type} `{Double T}
    (start_cog_p start_cog_v : Vector2d T)
    (lines : list (hyq.SuppTriangle.TrLine T)) (h dt : T)
    (o o' : ZmpOptimizer T) (r : result (MatVec T)) :
  CreateInequalityContraints start_cog_p start_cog_v lines h dt o = (r, o') ->
  zmp_splines_ o' = zmp_splines_ o /\ cf_ o' = cf_ o /\ eq_ o' = eq_ o /\
  ineq_ o' = ineq_ o /\ footholds_ o' = footholds_ o /\
  lines_for_constraint_ o' = lines_for_constraint_ o.
Proof.
  intros Hrun.
  pose proof (preserves_CreateInequalityContraints
                (fun o => (zmp_splines_ o, cf_ o, eq_ o, ineq_ o, footholds_ o,
                           lines_for_constraint_ o))
                ltac:(reflexivity) ltac:(reflexivity) ltac:(reflexivity)
                start_cog_p start_cog_v lines h dt _ _ _ Hrun) as Hframe.
  injection Hframe as -> -> -> -> -> ->. auto 10.
Qed.

Lemma inequality_builder_writes_ipopt_only_witness :
  CreateInequalityContraints (f_of_Z 0, f_of_Z 0) (f_of_Z 1, f_of_Z 0)
    [] (lit 58 100) (lit 1 10) (new_optimizer example_splines)
  = (Throw out_of_range,
     snd (CreateInequalityContraints (f_of_Z 0, f_of_Z 0) (f_of_Z 1, f_of_Z 0)
            [] (lit 58 100) (lit 1 10) (new_optimizer example_splines))) /\
  let o := new_optimizer example_splines in
  let o' :=
    snd (CreateInequalityContraints (f_of_Z 0, f_of_Z 0) (f_of_Z 1, f_of_Z 0)
           [] (lit 58 100) (lit 1 10) (new_optimizer example_splines)) in
  zmp_splines_ o' = zmp_splines_ o /\ cf_ o' = cf_ o /\ eq_ o' = eq_ o /\
  ineq_ o' = ineq_ o /\ footholds_ o' = footholds_ o /\
  lines_for_constraint_ o' = lines_for_constraint_ o.
Proof.
  assert (Hrun :
    CreateInequalityContraints (f_of_Z 0, f_of_Z 0) (f_of_Z 1, f_of_Z 0)
      [] (lit 58 100) (lit 1 10) (new_optimizer example_splines)
    = (Throw out_of_range,
       snd (CreateInequalityContraints (f_of_Z 0, f_of_Z 0)
              (f_of_Z 1, f_of_Z 0) [] (lit 58 100) (lit 1 10)
              (new_optimizer example_splines)))).
  { vm_compute. reflexivity. }
  split; [exact Hrun|].
  exact (inequality_builder_writes_ipopt_only (f_of_Z 0, f_of_Z 0)
           (f_of_Z 1, f_of_Z 0) [] (lit 58 100) (lit 1 10)
           (new_optimizer example_splines) _ _ Hrun).
Defined.

(** *** The equality constraints, row by row *)

Definition example_coefficients : VectorXd R :=
  [1; 2; 3; 4; 5; 6; 7; 8; -1; -2; -3; -4; -5; -6; -7; -8]%R.

(** X12: over the reals, for every plan that is not empty (ids equal to
    positions, a count that fits an [int]) and every coefficient vector [x],
    the first two constraints of each axis, columns [5 dim] and [5 dim + 1],
    have as value [M^T x + v] the acceleration and the jerk of the quintic
    of the first segment at the time 0: the solver, which is given
    [M^T x + v = 0], makes the motion start with no acceleration and no
    jerk. *)
Theorem equality_initial_conditions (sc : SplineContainer R)
    (start_cog_p start_cog_v end_cog : Vector2d R) (x : VectorXd R)
    (dim : Coords) :
  wf_splines sc -> splines_ sc <> [] ->
  4 * Z.of_nat (length (splines_ sc)) + 6 <= INT_MAX ->
  exists ec,
    CreateEqualityContraints sc start_cog_p start_cog_v end_cog = Ok ec /\
    constraint_value ec x (5 * dim_int dim)
    = quintic_acc (free x 0 dim A) (free x 0 dim B) (free x 0 dim C)
        (free x 0 dim D) 0 /\
    constraint_value ec x (5 * dim_int dim + 1)
    = quintic_jerk (free x 0 dim A) (free x 0 dim B) (free x 0 dim C) 0.
Proof.
  intros Hwf Hne Hmax.
  destruct (last_wf_splines sc Hwf Hne) as (back & Hlast & _).
  destruct (CreateEqualityContraints_values sc start_cog_p start_cog_v end_cog
              back x Hwf Hlast Hmax) as (ec & Hrun & Hbound & _).
  exists ec. split; [assumption|].
  destruct (Hbound dim) as (H0 & H1 & _). split; assumption.
Qed.

Lemma equality_initial_conditions_witness :
  wf_splines example_splines_R /\ splines_ example_splines_R <> [] /\
  4 * Z.of_nat (length (splines_ example_splines_R)) + 6 <= INT_MAX /\
  exists ec,
    CreateEqualityContraints example_splines_R (0, 0)%R (1, 0)%R (2, 3)%R
    = Ok ec /\
    constraint_value ec example_coefficients (5 * dim_int Y)
    = quintic_acc (free example_coefficients 0 Y A)
        (free example_coefficients 0 Y B) (free example_coefficients 0 Y C)
        (free example_coefficients 0 Y D) 0 /\
    constraint_value ec example_coefficients (5 * dim_int Y + 1)
    = quintic_jerk (free example_coefficients 0 Y A)
        (free example_coefficients 0 Y B) (free example_coefficients 0 Y C) 0.
Proof.
  assert (H1 : wf_splines example_splines_R) by reflexivity.
  assert (H2 : splines_ example_splines_R <> []) by discriminate.
  assert (H3 : 4 * Z.of_nat (length (splines_ example_splines_R)) + 6
               <= INT_MAX) by (vm_compute; discriminate).
  split; [exact H1|]. split; [exact H2|]. split; [exact H3|].
  exact (equality_initial_conditions example_splines_R (0, 0)%R (1, 0)%R
           (2, 3)%R example_coefficients Y H1 H2 H3).
Defined.

(** X13: over the reals, with [K] the last segment and [E], [F] its derived
    coefficients as their descriptions give them for [x], the three
    constraints of each axis in the columns [5 dim + 2], [5 dim + 3] and
    [5 dim + 4] have as values the position of the quintic of the last
    segment at the end of its duration minus the terminal position, its
    velocity there, and its acceleration there: the motion ends at
    [end_cog], at rest and with no acceleration. *)
Theorem equality_final_conditions (sc : SplineContainer R)
    (start_cog_p start_cog_v end_cog : Vector2d R) (back : ZmpSpline R)
    (x : VectorXd R) (dim : Coords) :
  wf_splines sc -> last (splines_ sc) = Some back ->
  4 * Z.of_nat (length (splines_ sc)) + 6 <= INT_MAX ->
  let K := id_ back in
  exists ec,
    CreateEqualityContraints sc start_cog_p start_cog_v end_cog = Ok ec /\
    constraint_value ec x (5 * dim_int dim + 2)
    = (quintic (free x K dim A) (free x K dim B) (free x K dim C)
         (free x K dim D) (E_at sc start_cog_v x K dim)
         (F_at sc start_cog_p start_cog_v x K dim) (duration_ back)
       - at_dim end_cog dim)%R /\
    constraint_value ec x (5 * dim_int dim + 3)
    = quintic_vel (free x K dim A) (free x K dim B) (free x K dim C)
        (free x K dim D) (E_at sc start_cog_v x K dim) (duration_ back) /\
    constraint_value ec x (5 * dim_int dim + 4)
    = quintic_acc (free x K dim A) (free x K dim B) (free x K dim C)
        (free x K dim D) (duration_ back).
Proof.
  intros Hwf Hlast Hmax K.
  destruct (CreateEqualityContraints_values sc start_cog_p start_cog_v end_cog
              back x Hwf Hlast Hmax) as (ec & Hrun & Hbound & _).
  exists ec. split; [assumption|].
  destruct (Hbound dim) as (_ & _ & H2 & H3 & H4). auto.
Qed.

Lemma equality_final_conditions_witness :
  let back := {| id_ := 1; duration_ := (35 / 100)%R; four_leg_supp_ := false;
                 step_ := 0 |} in
  wf_splines example_splines_R /\
  last (splines_ example_splines_R) = Some back /\
  4 * Z.of_nat (length (splines_ example_splines_R)) + 6 <= INT_MAX /\
  exists ec,
    CreateEqualityContraints example_splines_R (0, 0)%R (1, 0)%R (2, 3)%R
    = Ok ec /\
    constraint_value ec example_coefficients (5 * dim_int X + 2)
    = (quintic (free example_coefficients 1 X A)
         (free example_coefficients 1 X B) (free example_coefficients 1 X C)
         (free example_coefficients 1 X D)
         (E_at example_splines_R (1, 0)%R example_coefficients 1 X)
         (F_at example_splines_R (0, 0)%R (1, 0)%R example_coefficients 1 X)
         (35 / 100)
       - at_dim (2, 3)%R X)%R /\
    constraint_value ec example_coefficients (5 * dim_int X + 3)
    = quintic_vel (free example_coefficients 1 X A)
        (free example_coefficients 1 X B) (free example_coefficients 1 X C)
        (free example_coefficients 1 X D)
        (E_at example_splines_R (1, 0)%R example_coefficients 1 X)
        (35 / 100)%R /\
    constraint_value ec example_coefficients (5 * dim_int X + 4)
    = quintic_acc (free example_coefficients 1 X A)
        (free example_coefficients 1 X B) (free example_coefficients 1 X C)
        (free example_coefficients 1 X D) (35 / 100)%R.
Proof.
  intros back.
  assert (H1 : wf_splines example_splines_R) by reflexivity.
  assert (H2 : last (splines_ example_splines_R) = Some back) by reflexivity.
  assert (H3 : 4 * Z.of_nat (length (splines_ example_splines_R)) + 6
               <= INT_MAX) by (vm_compute; discriminate).
  split; [exact H1|]. split; [exact H2|]. split; [exact H3|].
  exact (equality_final_conditions example_splines_R (0, 0)%R (1, 0)%R
           (2, 3)%R back example_coefficients X H1 H2 H3).
Defined.

(** X14: over the reals, for every segment [s] that has a successor, the
    two constraints of each axis in the columns [10 + 4 s + 2 dim] and
    [10 + 4 s + 2 dim + 1] have as values the acceleration of the quintic of
    the segment at the end of its duration minus that of its successor at
    the time 0, and the same difference of the jerks
    ([quintic_acc_derivative]): acceleration and jerk are continuous at
    every junction. *)
Theorem equality_junction_conditions (sc : SplineContainer R)
    (start_cog_p start_cog_v end_cog : Vector2d R) (x : VectorXd R)
    (s : nat) (sp : ZmpSpline R) (dim : Coords) :
  wf_splines sc ->
  4 * Z.of_nat (length (splines_ sc)) + 6 <= INT_MAX ->
  splines_ sc !! s = Some sp -> (S s < length (splines_ sc))%nat ->
  let k := Z.of_nat s in
  exists ec,
    CreateEqualityContraints sc start_cog_p start_cog_v end_cog = Ok ec /\
    constraint_value ec x (10 + 4 * k + 2 * dim_int dim)
    = (quintic_acc (free x k dim A) (free x k dim B) (free x k dim C)
         (free x k dim D) (duration_ sp)
       - quintic_acc (free x (k + 1) dim A) (free x (k + 1) dim B)
           (free x (k + 1) dim C) (free x (k + 1) dim D) 0)%R /\
    constraint_value ec x (10 + 4 * k + 2 * dim_int dim + 1)
    = (quintic_jerk (free x k dim A) (free x k dim B) (free x k dim C)
         (duration_ sp)
       - quintic_jerk (free x (k + 1) dim A) (free x (k + 1) dim B)
           (free x (k + 1) dim C) 0)%R.
Proof.
  intros Hwf Hmax Hsp Hlt k.
  assert (Hne : splines_ sc <> []).
  { intros He. rewrite He in Hsp. discriminate. }
  destruct (last_wf_splines sc Hwf Hne) as (back & Hlast & _).
  destruct (CreateEqualityContraints_values sc start_cog_p start_cog_v end_cog
              back x Hwf Hlast Hmax) as (ec & Hrun & _ & Hjunction).
  exists ec. split; [assumption|].
  apply (Hjunction s sp dim Hsp Hlt).
Qed.

Lemma equality_junction_conditions_witness :
  let sp := {| id_ := 0; duration_ := (1 / 2)%R; four_leg_supp_ := true;
               step_ := 0 |} in
  wf_splines example_splines_R /\
  4 * Z.of_nat (length (splines_ example_splines_R)) + 6 <= INT_MAX /\
  splines_ example_splines_R !! 0%nat = Some sp /\
  (1 < length (splines_ example_splines_R))%nat /\
  exists ec,
    CreateEqualityContraints example_splines_R (0, 0)%R (1, 0)%R (2, 3)%R
    = Ok ec /\
    constraint_value ec example_coefficients (10 + 4 * Z.of_nat 0 + 2 * dim_int Y)
    = (quintic_acc (free example_coefficients (Z.of_nat 0) Y A)
         (free example_coefficients (Z.of_nat 0) Y B)
         (free example_coefficients (Z.of_nat 0) Y C)
         (free example_coefficients (Z.of_nat 0) Y D) (1 / 2)
       - quintic_acc (free example_coefficients (Z.of_nat 0 + 1) Y A)
           (free example_coefficients (Z.of_nat 0 + 1) Y B)
           (free example_coefficients (Z.of_nat 0 + 1) Y C)
           (free example_coefficients (Z.of_nat 0 + 1) Y D) 0)%R /\
    constraint_value ec example_coefficients
      (10 + 4 * Z.of_nat 0 + 2 * dim_int Y + 1)
    = (quintic_jerk (free example_coefficients (Z.of_nat 0) Y A)
         (free example_coefficients (Z.of_nat 0) Y B)
         (free example_coefficients (Z.of_nat 0) Y C) (1 / 2)
       - quintic_jerk (free example_coefficients (Z.of_nat 0 + 1) Y A)
           (free example_coefficients (Z.of_nat 0 + 1) Y B)
           (free example_coefficients (Z.of_nat 0 + 1) Y C) 0)%R.
Proof.
  intros sp.
  assert (H1 : wf_splines example_splines_R) by reflexivity.
  assert (H2 : 4 * Z.of_nat (length (splines_ example_splines_R)) + 6
               <= INT_MAX) by (vm_compute; discriminate).
  assert (H3 : splines_ example_splines_R !! 0%nat = Some sp) by reflexivity.
  assert (H4 : (1 < length (splines_ example_splines_R))%nat) by (simpl; lia).
  split; [exact H1|]. split; [exact H2|]. split; [exact H3|].
  split; [exact H4|].
  exact (equality_junction_conditions example_splines_R (0, 0)%R (1, 0)%R
           (2, 3)%R example_coefficients 0 sp Y H1 H2 H3 H4).
Defined.

(** *** The inequality constraints, row by row *)

(** X15: in every number model that counts as [DoubleCount] states, for a
    plan whose segment ids are the positions and whose segments have a
    number of nodes, and a list of lines of the length that the plan needs,
    the inequality builder returns, and the constant of the row of a
    constraint of the segment [k] against the line [(p, q, r)] with margin
    [m] is, as the code adds it up from zero,
    [0 + p (e0x * 1 + f0x) + q (e0y * 1 + f0y) + (r - m)], where [e0], [f0]
    are the constants of the descriptions of E and F of the segment on each
    axis: the time of the sample does not occur in it, so all the rows of a
    segment against the same line have the same constant. *)
Theorem inequality_row_constant {T : Type} `{DoubleCount T}
    (o : ZmpOptimizer T) (start_cog_p start_cog_v : Vector2d T)
    (lines : list (hyq.SuppTriangle.TrLine T)) (h dt : T) :
  let sc := zmp_splines_ o in
  wf_splines sc -> nodes_defined dt sc ->
  length lines = (3 * sum_list_with (samples dt) (splines_ sc))%nat ->
  Z.of_nat (length lines) <= INT_MAX ->
  exists ineq o',
    CreateInequalityContraints start_cog_p start_cog_v lines h dt o
    = (Ok ineq, o') /\
    forall c k time l,
      schedule dt sc !! c = Some (k, time) -> lines !! c = Some l ->
      vcoeff (v ineq) (Z.of_nat c)
      = (fzero
         + hyq.SuppTriangle.p (hyq.SuppTriangle.coeff l)
           * (snd (DescribeEByPrev sc k X (at_dim start_cog_v X)) * fone
              + snd (DescribeFByPrev sc k X (at_dim start_cog_v X)
                       (at_dim start_cog_p X)))
         + hyq.SuppTriangle.q (hyq.SuppTriangle.coeff l)
           * (snd (DescribeEByPrev sc k Y (at_dim start_cog_v Y)) * fone
              + snd (DescribeFByPrev sc k Y (at_dim start_cog_v Y)
                       (at_dim start_cog_p Y)))
         + (hyq.SuppTriangle.r (hyq.SuppTriangle.coeff l)
            - hyq.SuppTriangle.s_margin l))%D.
Proof.
  intros sc Hwf Hnodes Hlen Hmax.
  destruct (CreateInequalityContraints_columns o start_cog_p start_cog_v lines
              h dt Hwf Hnodes Hlen Hmax)
    as (ineq & o' & Hrun & _ & _ & _ & Hdone).
  exists ineq, o'. split; [assumption|].
  intros c k time l Hsched Hl.
  destruct (Hdone c _ Hsched) as (l' & Hl' & _ & _ & _ & Hv).
  assert (l' = l) by congruence. subst l'.
  rewrite Hv. reflexivity.
Qed.

(** The nine lines of the three samples of the one-segment example. *)
Definition example_lines : list (hyq.SuppTriangle.TrLine binary64) :=
  replicate 9 example_line.

Lemma inequality_row_constant_witness :
  wf_splines (zmp_splines_ (new_optimizer example_single_segment)) /\
  nodes_defined (lit 1 10)
    (zmp_splines_ (new_optimizer example_single_segment)) /\
  length example_lines
  = (3 * sum_list_with (samples (lit 1 10))
           (splines_ (zmp_splines_ (new_optimizer example_single_segment))))%nat
  /\
  Z.of_nat (length example_lines) <= INT_MAX /\
  exists ineq o',
    CreateInequalityContraints (f_of_Z 0, f_of_Z 0) (f_of_Z 1, f_of_Z 0)
      example_lines (lit 58 100) (lit 1 10)
      (new_optimizer example_single_segment)
    = (Ok ineq, o') /\
    forall c k time l,
      schedule (lit 1 10)
        (zmp_splines_ (new_optimizer example_single_segment)) !! c
      = Some (k, time) ->
      example_lines !! c = Some l ->
      vcoeff (v ineq) (Z.of_nat c)
      = (fzero
         + hyq.SuppTriangle.p (hyq.SuppTriangle.coeff l)
           * (snd (DescribeEByPrev
                     (zmp_splines_ (new_optimizer example_single_segment))
                     k X (at_dim (f_of_Z 1, f_of_Z 0) X)) * fone
              + snd (DescribeFByPrev
                       (zmp_splines_ (new_optimizer example_single_segment))
                       k X (at_dim (f_of_Z 1, f_of_Z 0) X)
                       (at_dim (f_of_Z 0, f_of_Z 0) X)))
         + hyq.SuppTriangle.q (hyq.SuppTriangle.coeff l)
           * (snd (DescribeEByPrev
                     (zmp_splines_ (new_optimizer example_single_segment))
                     k Y (at_dim (f_of_Z 1, f_of_Z 0) Y)) * fone
              + snd (DescribeFByPrev
                       (zmp_splines_ (new_optimizer example_single_segment))
                       k Y (at_dim (f_of_Z 1, f_of_Z 0) Y)
                       (at_dim (f_of_Z 0, f_of_Z 0) Y)))
         + (hyq.SuppTriangle.r (hyq.SuppTriangle.coeff l)
            - hyq.SuppTriangle.s_margin l))%D.
Proof.
  assert (H1 : wf_splines
                 (zmp_splines_ (new_optimizer example_single_segment)))
    by reflexivity.
  assert (H2 : nodes_defined (lit 1 10)
                 (zmp_splines_ (new_optimizer example_single_segment))).
  { apply Forall_cons. split; [|apply Forall_nil; exact I].
    intros _. eexists. vm_compute. reflexivity. }
  assert (H3 : length example_lines
    = (3 * sum_list_with (samples (lit 1 10))
             (splines_ (zmp_splines_
                          (new_optimizer example_single_segment))))%nat).
  { vm_compute. reflexivity. }
  assert (H4 : Z.of_nat (length example_lines) <= INT_MAX).
  { vm_compute. discriminate. }
  split; [exact H1|]. split; [exact H2|].
  split; [exact H3|]. split; [exact H4|].
  exact (inequality_row_constant (new_optimizer example_single_segment)
           (f_of_Z 0, f_of_Z 0) (f_of_Z 1, f_of_Z 0) example_lines
           (lit 58 100) (lit 1 10) H1 H2 H3 H4).
Defined.

(** X16: in every number model that counts as [DoubleCount] states, under
    the same conditions, the matrices that the builder returns for the QP
    solver and those that it leaves in the optimizer for the NLP solver are
    related column by column: for the line [(p, q, r)] with margin [m] of
    the column, every entry of [ineq.M] on a row of the x axis is the entry
    of [ineq_ipopt_] times [p], every entry on a row of the y axis is that
    entry times [q], and the constant is, as the code adds it up from zero,
    [0 + p * ineq_ipopt_vx_ + q * ineq_ipopt_vy_ + (r - m)]. *)
Theorem inequality_rows_from_ipopt {T : Type} `{DoubleCount T}
    (o : ZmpOptimizer T) (start_cog_p start_cog_v : Vector2d T)
    (lines : list (hyq.SuppTriangle.TrLine T)) (h dt : T) :
  let sc := zmp_splines_ o in
  wf_splines sc -> nodes_defined dt sc ->
  length lines = (3 * sum_list_with (samples dt) (splines_ sc))%nat ->
  Z.of_nat (length lines) <= INT_MAX ->
  exists ineq o',
    CreateInequalityContraints start_cog_p start_cog_v lines h dt o
    = (Ok ineq, o') /\
    rows (ineq_ipopt_ o') = rows (M ineq) /\
    cols (ineq_ipopt_ o') = cols (M ineq) /\
    forall (c : nat) l,
      lines !! c = Some l ->
      (forall (k : nat) (dim : Coords) (letter : SplineCoeff),
         (k < length (splines_ sc))%nat -> coeff_int letter < kOptCoeff ->
         coeff (M ineq) (var_index (Z.of_nat k) (dim_int dim) (coeff_int letter))
           (Z.of_nat c)
         = (coeff (ineq_ipopt_ o')
              (var_index (Z.of_nat k) (dim_int dim) (coeff_int letter))
              (Z.of_nat c)
            * match dim with
              | X => hyq.SuppTriangle.p (hyq.SuppTriangle.coeff l)
              | Y => hyq.SuppTriangle.q (hyq.SuppTriangle.coeff l)
              end)%D) /\
      vcoeff (v ineq) (Z.of_nat c)
      = (fzero
         + hyq.SuppTriangle.p (hyq.SuppTriangle.coeff l)
           * vcoeff (ineq_ipopt_vx_ o') (Z.of_nat c)
         + hyq.SuppTriangle.q (hyq.SuppTriangle.coeff l)
           * vcoeff (ineq_ipopt_vy_ o') (Z.of_nat c)
         + (hyq.SuppTriangle.r (hyq.SuppTriangle.coeff l)
            - hyq.SuppTriangle.s_margin l))%D.
Proof.
  intros sc Hwf Hnodes Hlen Hmax.
  destruct (CreateInequalityContraints_columns o start_cog_p start_cog_v lines
              h dt Hwf Hnodes Hlen Hmax)
    as (ineq & o' & Hrun & Hsh & Hip & Hsl & Hdone).
  fold sc in Hsh, Hip, Hsl, Hdone.
  exists ineq, o'. split; [assumption|].
  destruct Hsh as (_ & Hr & Hcl & _). destruct Hip as (_ & Hr' & Hcl' & _).
  split; [congruence|]. split; [congruence|].
  intros c l Hl.
  pose proof (lookup_lt_Some _ _ _ Hl) as Hlt.
  destruct (lookup_lt_is_Some_2 (schedule dt sc) c) as [prm Hprm]; [lia|].
  destruct (Hdone c prm Hprm) as (l' & Hl' & Hcol & Hvx & Hvy & Hv).
  assert (l' = l) by congruence. subst l'.
  split.
  - intros k dim letter Hk Hletter.
    pose proof (dim_int_bounds dim) as Hdim.
    assert (Hletter' : 0 <= coeff_int letter <= 3).
    { unfold kOptCoeff in Hletter. destruct letter; cbn [coeff_int] in *; lia. }
    assert (Hrange : 0 <= var_index (Z.of_nat k) (dim_int dim) (coeff_int letter)
                     < Z.of_nat (length (splines_ sc) * 8)).
    { unfold var_index, kOptCoeff, kDim2d. lia. }
    destruct (Hcol _ Hrange) as [Hi HM]. rewrite HM, Hi.
    rewrite var_index_axis by assumption. destruct dim; reflexivity.
  - rewrite Hv, Hvx, Hvy. reflexivity.
Qed.

Lemma inequality_rows_from_ipopt_witness :
  wf_splines (zmp_splines_ (new_optimizer example_single_segment)) /\
  nodes_defined (lit 1 10)
    (zmp_splines_ (new_optimizer example_single_segment)) /\
  length example_lines
  = (3 * sum_list_with (samples (lit 1 10))
           (splines_ (zmp_splines_ (new_optimizer example_single_segment))))%nat
  /\
  Z.of_nat (length example_lines) <= INT_MAX /\
  exists ineq o',
    CreateInequalityContraints (f_of_Z 0, f_of_Z 0) (f_of_Z 1, f_of_Z 0)
      example_lines (lit 58 100) (lit 1 10)
      (new_optimizer example_single_segment)
    = (Ok ineq, o') /\
    rows (ineq_ipopt_ o') = rows (M ineq) /\
    cols (ineq_ipopt_ o') = cols (M ineq) /\
    forall (c : nat) l,
      example_lines !! c = Some l ->
      (forall (k : nat) (dim : Coords) (letter : SplineCoeff),
         (k < length (splines_ (zmp_splines_
                                  (new_optimizer example_single_segment))))%nat ->
         coeff_int letter < kOptCoeff ->
         coeff (M ineq) (var_index (Z.of_nat k) (dim_int dim) (coeff_int letter))
           (Z.of_nat c)
         = (coeff (ineq_ipopt_ o')
              (var_index (Z.of_nat k) (dim_int dim) (coeff_int letter))
              (Z.of_nat c)
            * match dim with
              | X => hyq.SuppTriangle.p (hyq.SuppTriangle.coeff l)
              | Y => hyq.SuppTriangle.q (hyq.SuppTriangle.coeff l)
              end)%D) /\
      vcoeff (v ineq) (Z.of_nat c)
      = (fzero
         + hyq.SuppTriangle.p (hyq.SuppTriangle.coeff l)
           * vcoeff (ineq_ipopt_vx_ o') (Z.of_nat c)
         + hyq.SuppTriangle.q (hyq.SuppTriangle.coeff l)
           * vcoeff (ineq_ipopt_vy_ o') (Z.of_nat c)
         + (hyq.SuppTriangle.r (hyq.SuppTriangle.coeff l)
            - hyq.SuppTriangle.s_margin l))%D.
Proof.
  assert (H1 : wf_splines
                 (zmp_splines_ (new_optimizer example_single_segment)))
    by reflexivity.
  assert (H2 : nodes_defined (lit 1 10)
                 (zmp_splines_ (new_optimizer example_single_segment))).
  { apply Forall_cons. split; [|apply Forall_nil; exact I].
    intros _. eexists. vm_compute. reflexivity. }
  assert (H3 : length example_lines
    = (3 * sum_list_with (samples (lit 1 10))
             (splines_ (zmp_splines_
                          (new_optimizer example_single_segment))))%nat).
  { vm_compute. reflexivity. }
  assert (H4 : Z.of_nat (length example_lines) <= INT_MAX).
  { vm_compute. discriminate. }
  split; [exact H1|]. split; [exact H2|].
  split; [exact H3|]. split; [exact H4|].
  exact (inequality_rows_from_ipopt (new_optimizer example_single_segment)
           (f_of_Z 0, f_of_Z 0) (f_of_Z 1, f_of_Z 0) example_lines
           (lit 58 100) (lit 1 10) H1 H2 H3 H4).
Defined.

(** *** A list of lines that is too short *)

(** [m] run from [s] throws [e]. *)
Definition throws {St A} (m : run St A) (s : St) (e : exn) : Prop :=
  exists s', m s = (Throw e, s').

Lemma throws_bind_l {St A B} (m : run St A) (f : A -> run St B) s e :
  throws m s e -> throws (m ≫= f) s e.
Proof.
  intros (s' & Hm). exists s'. unfold mbind, run_bind. rewrite Hm. reflexivity.
Qed.

Lemma throws_bind_r {St A B} (m : run St A) (f : A -> run St B) s e
    (Q : A -> St -> Prop) :
  returns m s Q -> (forall a s', Q a s' -> throws (f a) s' e) ->
  throws (m ≫= f) s e.
Proof.
  intros (a & s' & Hm & HQ) Hf. destruct (Hf a s' HQ) as (s'' & Hfa).
  exists s''. unfold mbind, run_bind. rewrite Hm. assumption.
Qed.

Lemma for_each_m_app {El A St} (l1 l2 : list El) (body : El -> A -> run St A)
    (a : A) (s : St) :
  for_each_m (l1 ++ l2) body a s
  = (for_each_m l1 body a ≫= for_each_m l2 body) s.
Proof.
  revert a s. induction l1 as [|x l1 IH]; intros a s; [reflexivity|].
  cbn [app for_each_m]. unfold mbind, run_bind.
  destruct (body x a s) as [[a'|e] s']; [|reflexivity].
  rewrite IH. reflexivity.
Qed.

(** The loop over the samples throws what its body throws at the sample
    [m], when the samples before return. *)
Lemma for_double_throws {T : Type} `{DoubleCount T} {Acc St}
    (I : nat -> Acc -> St -> Prop)
    (fuel : nat) (d dt : T) (N : Z) (body : T -> Acc -> run St Acc)
    (a : Acc) (s : St) (m : nat) (e : exn) :
  f_to_int (ffloor (d / dt)%D) = Some N ->
  (m < fuel)%nat -> Z.of_nat m < N ->
  I O a s ->
  (forall k a0 s0, (k < m)%nat -> I k a0 s0 ->
     returns (body (f_of_Z (Z.of_nat k)) a0) s0 (I (S k))) ->
  (forall a0 s0, I m a0 s0 -> throws (body (f_of_Z (Z.of_nat m)) a0) s0 e) ->
  throws (for_double fuel fzero (ffloor (d / dt)%D) body a) s e.
Proof.
  intros HN Hfuel Hm Hstart Hstep Hthrow.
  pose proof (f_to_int_in_int _ _ HN) as Hin.
  unfold in_int, INT_MIN in Hin. apply andb_true_iff in Hin as [_ Hmax].
  apply Z.leb_le in Hmax.
  assert (Hgen : forall fuel' k a0 s0,
    (k <= m)%nat -> (m - k < fuel')%nat -> I k a0 s0 ->
    throws (for_double fuel' (f_of_Z (Z.of_nat k)) (ffloor (d / dt)%D)
              body a0) s0 e).
  { induction fuel' as [|fuel' IH]; intros k a0 s0 Hk Hf HI; [lia|].
    cbn [for_double].
    rewrite (fltb_floor_fdiv d dt N (Z.of_nat k) HN)
      by (unfold INT_MAX in *; lia).
    destruct (Z.ltb_spec (Z.of_nat k) N) as [_|Hge]; [|lia].
    destruct (decide (k = m)) as [->|Hne].
    - apply throws_bind_l. apply Hthrow. assumption.
    - eapply throws_bind_r; [apply Hstep; [lia|eassumption]|].
      intros a1 s1 HI1.
      rewrite f_of_Z_succ by (unfold INT_MAX in *; lia).
      replace (Z.of_nat k + 1) with (Z.of_nat (S k)) by lia.
      apply IH; [lia|lia|assumption]. }
  rewrite <- f_of_Z_0. apply (Hgen fuel O a s); [lia|lia|exact Hstart].
Qed.

Lemma zmp_constraint_throws {T : Type} `{Double T}
    (lines : list (hyq.SuppTriangle.TrLine T)) k h t
    (Ekx Fkx Eky Fky : VectorXd T) e0x f0x e0y f0y j (st : MatVec T * Z) o :
  Z.of_nat (length lines) <= snd st ->
  throws (zmp_constraint lines k h t Ekx Fkx Eky Fky e0x f0x e0y f0y j st) o
    out_of_range.
Proof.
  destruct st as [ineq c]. cbn [snd]. intros Hc. unfold zmp_constraint.
  rewrite lookup_ge_None_2 by lia. exists o. reflexivity.
Qed.

(** At a sample for which fewer than three lines are left, the loop over
    the edges throws. *)
Lemma sample_throws {T : Type} `{Double T} (sc : SplineContainer T)
    (start_cog_p start_cog_v : Vector2d T)
    (lines : list (hyq.SuppTriangle.TrLine T)) (h : T)
    sched (k : nat) time Ekx e0x Fkx f0x Eky e0y Fky f0y st o :
  wf_splines sc -> (k < length (splines_ sc))%nat ->
  (length sched <= length lines < length sched + 3)%nat ->
  Ek_of sc start_cog_v (Z.of_nat k) X = (Ekx, e0x) ->
  Fk_of sc start_cog_p start_cog_v (Z.of_nat k) X = (Fkx, f0x) ->
  Ek_of sc start_cog_v (Z.of_nat k) Y = (Eky, e0y) ->
  Fk_of sc start_cog_p start_cog_v (Z.of_nat k) Y = (Fky, f0y) ->
  written sc start_cog_p start_cog_v lines h sched st o ->
  throws (for_each_m [0; 1; 2]
            (zmp_constraint lines (Z.of_nat k) h (cache_exponents 6 time)
               Ekx Fkx Eky Fky e0x f0x e0y f0y) st) o out_of_range.
Proof.
  intros Hwf Hk Hlen HEx HFx HEy HFy Hw.
  cbn [for_each_m].
  destruct (decide (length sched = length lines)) as [Heq|Hne1].
  { apply throws_bind_l. apply zmp_constraint_throws.
    destruct Hw as (-> & _). lia. }
  eapply throws_bind_r.
  { apply (returns_zmp_constraint_written sc start_cog_p start_cog_v lines h
             sched k time); try eassumption. lia. }
  intros st1 o1 Hw1.
  destruct (decide (length sched + 1 = length lines)%nat) as [Heq|Hne2].
  { apply throws_bind_l. apply zmp_constraint_throws.
    destruct Hw1 as (-> & _). rewrite length_app. simpl. lia. }
  eapply throws_bind_r.
  { apply (returns_zmp_constraint_written sc start_cog_p start_cog_v lines h
             (sched ++ [(Z.of_nat k, time)]) k time); try eassumption.
    rewrite length_app. simpl. lia. }
  intros st2 o2 Hw2.
  apply throws_bind_l. apply zmp_constraint_throws.
  destruct Hw2 as (-> & _). rewrite !length_app. simpl. lia.
Qed.

Lemma segment_constraints_throws {T : Type} `{DoubleCount T}
    (sc : SplineContainer T) (start_cog_p start_cog_v : Vector2d T)
    (lines : list (hyq.SuppTriangle.TrLine T)) (h dt : T)
    (s : ZmpSpline T) (k : nat) sched st o :
  wf_splines sc -> splines_ sc !! k = Some s ->
  (four_leg_supp_ s = false -> is_Some (n_nodes s dt)) ->
  (length sched <= length lines < length sched + 3 * samples dt s)%nat ->
  written sc start_cog_p start_cog_v lines h sched st o ->
  throws (segment_constraints sc start_cog_p start_cog_v lines h dt s st) o
    out_of_range.
Proof.
  intros Hwf Hs Hnodes Hlen Hw.
  pose proof (lookup_lt_Some _ _ _ Hs) as Hk.
  unfold segment_constraints, samples in *.
  destruct (four_leg_supp_ s); [lia|].
  destruct (Hnodes eq_refl) as [N HN]. rewrite HN in *.
  rewrite (wf_splines_lookup sc k s Hwf Hs).
  destruct (DescribeEByPrev sc (Z.of_nat k) X _) as [Ekx e0x] eqn:HEx.
  destruct (DescribeFByPrev sc (Z.of_nat k) X _ _) as [Fkx f0x] eqn:HFx.
  destruct (DescribeEByPrev sc (Z.of_nat k) Y _) as [Eky e0y] eqn:HEy.
  destruct (DescribeFByPrev sc (Z.of_nat k) Y _ _) as [Fky f0y] eqn:HFy.
  unfold n_nodes in HN.
  set (per_sample := fun i : nat =>
         replicate 3 (Z.of_nat k, (f_of_Z (Z.of_nat i) * dt)%D)).
  set (m := ((length lines - length sched) / 3)%nat).
  assert (Hm : (3 * m <= length lines - length sched < 3 * m + 3)%nat).
  { subst m.
    pose proof (Nat.div_mod_eq (length lines - length sched) 3) as Hdiv.
    pose proof (Nat.mod_upper_bound (length lines - length sched) 3
                  ltac:(lia)) as Hmod.
    lia. }
  assert (Hflat : forall i, length (flat_map per_sample (seq 0 i))
                            = (3 * i)%nat).
  { intros i. rewrite (flat_map_constant_length (c := 3)).
    - rewrite length_seq. lia.
    - intros i' _. apply length_replicate. }
  apply (for_double_throws
           (fun (i : nat) (st : MatVec T * Z) o' =>
              written sc start_cog_p start_cog_v lines h
                (sched ++ flat_map per_sample (seq 0 i)) st o')
           _ _ _ N _ st o m out_of_range HN).
  - lia.
  - lia.
  - simpl. rewrite app_nil_r. assumption.
  - intros i st0 o0 Hi Hw0.
    rewrite seq_S, flat_map_app. cbn [flat_map Nat.add]. rewrite app_nil_r.
    rewrite app_assoc.
    apply (returns_sample_written sc start_cog_p start_cog_v lines h
             (sched ++ flat_map per_sample (seq 0 i)) k
             (f_of_Z (Z.of_nat i) * dt)%D
             Ekx e0x Fkx f0x Eky e0y Fky f0y); try assumption.
    rewrite length_app, Hflat. lia.
  - intros st0 o0 Hw0.
    apply (sample_throws sc start_cog_p start_cog_v lines h
             (sched ++ flat_map per_sample (seq 0 m)) k
             (f_of_Z (Z.of_nat m) * dt)%D
             Ekx e0x Fkx f0x Eky e0y Fky f0y); try assumption.
    rewrite length_app, Hflat. lia.
Qed.

Lemma prefix_sum_split {El} (f : El -> nat) (l : list El) (L : nat) :
  (L < sum_list_with f l)%nat ->
  exists done s rest, l = done ++ s :: rest /\
    (sum_list_with f done <= L < sum_list_with f done + f s)%nat.
Proof.
  revert L. induction l as [|a l IH]; intros L HL; [simpl in HL; lia|].
  cbn [sum_list_with] in HL.
  destruct (decide (L < f a)%nat) as [Hlt|Hge].
  - exists [], a, l. split; [reflexivity|]. simpl. lia.
  - destruct (IH (L - f a)%nat) as (done & s & rest & -> & Hs); [lia|].
    exists (a :: done), s, rest. split; [reflexivity|].
    cbn [sum_list_with]. lia.
Qed.

(** X17: in every number model that counts as [DoubleCount] states, for a
    plan whose segment ids are the positions and whose segments have a
    number of nodes, when the list of lines is shorter than three times the
    number of samples of the plan, the inequality builder throws
    [out_of_range]: the lookup of the line of a constraint comes before
    every write of that constraint, so nothing is written beyond the last
    column. *)
Theorem inequality_lines_too_short {T : Type} `{DoubleCount T}
    (o : ZmpOptimizer T) (start_cog_p start_cog_v : Vector2d T)
    (lines : list (hyq.SuppTriangle.TrLine T)) (h dt : T) :
  let sc := zmp_splines_ o in
  wf_splines sc -> nodes_defined dt sc ->
  (length lines < 3 * sum_list_with (samples dt) (splines_ sc))%nat ->
  Z.of_nat (length lines) <= INT_MAX ->
  exists o',
    CreateInequalityContraints start_cog_p start_cog_v lines h dt o
    = (Throw out_of_range, o').
Proof.
  intros sc Hwf Hnodes Hshort Hmax.
  assert (Hsum : forall l : list (ZmpSpline T),
            sum_list_with (fun s => 3 * samples dt s)%nat l
            = (3 * sum_list_with (samples dt) l)%nat).
  { induction l as [|a l IH]; [reflexivity|]. cbn [sum_list_with]. lia. }
  destruct (prefix_sum_split (fun s => 3 * samples dt s)%nat (splines_ sc)
              (length lines)) as (done & s & rest & Hsplit & Hs).
  { rewrite Hsum. assumption. }
  rewrite Hsum in Hs.
  change (throws (CreateInequalityContraints start_cog_p start_cog_v lines h dt)
            o out_of_range).
  unfold CreateInequalityContraints. apply throws_bind_l.
  assert (Hint : to_int (Z.of_nat (length lines)) = Z.of_nat (length lines)).
  { unfold to_int, INT_MAX in *. rewrite Z.mod_small; lia. }
  destruct (MatVec_new_Ok (T := T) (GetOptCoeffCount sc)
              (Z.of_nat (length lines)))
    as (ineq0 & Hnew & Hwf0 & Hr0 & Hc0 & Hv0 & Hz0 & Hzv0).
  { unfold GetOptCoeffCount, kOptCoeff, kDim2d. lia. }
  { lia. }
  unfold GetOptCoeffCount, kOptCoeff, kDim2d in Hr0.
  set (o0 := set_ineq_ipopt_vy_ (v ineq0)
               (set_ineq_ipopt_vx_ (v ineq0)
                  (set_ineq_ipopt_ (M ineq0) o))).
  set (body := segment_constraints sc start_cog_p start_cog_v lines h dt).
  assert (Hgoal : throws (for_each_m (splines_ sc) body (ineq0, 0)) o0
                    out_of_range).
  { destruct (for_each_m_returns
                (fun dn (st : MatVec T * Z) o' =>
                   (exists tail, done = dn ++ tail) ->
                   written sc start_cog_p start_cog_v lines h
                     (flat_map (segment_schedule dt) dn) st o')
                done body (ineq0, 0) o0) as (st1 & o1 & Hrun1 & Hw1).
    - intros _. unfold written. cbn [flat_map length fst snd].
      split; [reflexivity|]. split.
      { repeat split; try apply Hwf0; lia. }
      split.
      { repeat split; simpl; try apply Hwf0; lia. }
      split.
      + intros c _. split; [intros i; apply Hz0|apply Hzv0].
      + intros c prm Hprm. rewrite lookup_nil in Hprm. discriminate.
    - intros dn s' st0 o' [rest' Hsplit'] Hw0.
      assert (Hdn : exists tail, done = dn ++ tail) by eauto.
      specialize (Hw0 Hdn).
      assert (Hwhole : splines_ sc = dn ++ s' :: (rest' ++ s :: rest)).
      { rewrite Hsplit, Hsplit'. rewrite <- !app_assoc. reflexivity. }
      assert (Hs' : splines_ sc !! length dn = Some s').
      { rewrite Hwhole. rewrite lookup_app_r by lia.
        rewrite Nat.sub_diag. reflexivity. }
      eapply returns_weaken.
      + apply (returns_segment_constraints_written sc start_cog_p start_cog_v
                 lines h dt s' (length dn)); try eassumption.
        * apply (nodes_defined_at dt sc dn s' (rest' ++ s :: rest));
            assumption.
        * rewrite length_schedule_prefix.
          assert (Hle : (sum_list_with (samples dt) (dn ++ [s'])
                         <= sum_list_with (samples dt) done)%nat).
          { rewrite Hsplit'. rewrite (sum_list_with_app _ dn (s' :: rest')).
            rewrite sum_list_with_app. cbn [sum_list_with]. lia. }
          rewrite sum_list_with_app in Hle. cbn [sum_list_with] in Hle. lia.
      + intros st2 o2 Hw2 _. rewrite flat_map_app. cbn [flat_map].
        rewrite app_nil_r. exact Hw2.
    - rewrite Hsplit. unfold throws. setoid_rewrite for_each_m_app.
      apply (throws_bind_r _ _ _ _
               (fun st o' => written sc start_cog_p start_cog_v lines h
                               (flat_map (segment_schedule dt) done) st o')).
      + exists st1, o1. split; [assumption|]. apply Hw1. exists [].
        rewrite app_nil_r. reflexivity.
      + intros st2 o2 Hw2. cbn [for_each_m]. apply throws_bind_l.
        apply (segment_constraints_throws sc start_cog_p start_cog_v lines h dt
                 s (length done) (flat_map (segment_schedule dt) done) st2 o2);
          try assumption.
        * rewrite Hsplit. rewrite lookup_app_r by lia.
          rewrite Nat.sub_diag. reflexivity.
        * apply (nodes_defined_at dt sc done s rest); assumption.
        * rewrite length_schedule_prefix. lia. }
  destruct Hgoal as (o' & Hrun). exists o'.
  unfold CreateInequalityContraints_counted.
  cbv [mbind run_bind gets lift modify]. fold sc.
  rewrite Hint, Hnew. exact Hrun.
Qed.

(** With eight lines for the three samples of the one-segment example, the
    ninth constraint finds no line. *)
Lemma inequality_lines_too_short_witness :
  wf_splines (zmp_splines_ (new_optimizer example_single_segment)) /\
  nodes_defined (lit 1 10)
    (zmp_splines_ (new_optimizer example_single_segment)) /\
  (length (replicate 8 example_line)
   < 3 * sum_list_with (samples (lit 1 10))
         (splines_ (zmp_splines_ (new_optimizer example_single_segment))))%nat
  /\
  Z.of_nat (length (replicate 8 example_line)) <= INT_MAX /\
  exists o',
    CreateInequalityContraints (f_of_Z 0, f_of_Z 0) (f_of_Z 1, f_of_Z 0)
      (replicate 8 example_line) (lit 58 100) (lit 1 10)
      (new_optimizer example_single_segment)
    = (Throw out_of_range, o').
Proof.
  assert (H1 : wf_splines
                 (zmp_splines_ (new_optimizer example_single_segment)))
    by reflexivity.
  assert (H2 : nodes_defined (lit 1 10)
                 (zmp_splines_ (new_optimizer example_single_segment))).
  { apply Forall_cons. split; [|apply Forall_nil; exact I].
    intros _. eexists. vm_compute. reflexivity. }
  assert (H3 : (length (replicate 8 example_line)
    < 3 * sum_list_with (samples (lit 1 10))
          (splines_ (zmp_splines_
                       (new_optimizer example_single_segment))))%nat).
  { vm_compute. lia. }
  assert (H4 : Z.of_nat (length (replicate 8 example_line)) <= INT_MAX).
  { vm_compute. discriminate. }
  split; [exact H1|]. split; [exact H2|].
  split; [exact H3|]. split; [exact H4|].
  exact (inequality_lines_too_short (new_optimizer example_single_segment)
           (f_of_Z 0, f_of_Z 0) (f_of_Z 1, f_of_Z 0)
           (replicate 8 example_line) (lit 58 100) (lit 1 10)
           H1 H2 H3 H4).
Defined.

(** *** How the inequality builder can end *)

(** A result is a value that satisfies [Q] or an exception of the class
    [P]. *)
Definition ends {A} (P : exn -> Prop) (Q : A -> Prop) (r : result A) : Prop :=
  match r with Ok a => Q a | Throw e => P e end.

Definition ends_run {St A} (P : exn -> Prop) (Q : A -> Prop) (m : run St A)
  : Prop :=
  forall s, ends P Q (fst (m s)).

Lemma ends_bind {A B} P (Q' : A -> Prop) (Q : B -> Prop) (r : result A)
    (f : A -> result B) :
  ends P Q' r -> (forall a, Q' a -> ends P Q (f a)) -> ends P Q (r ≫= f).
Proof. destruct r as [a|e]; simpl; auto. Qed.

Lemma ends_run_bind {St A B} P (Q' : A -> Prop) (Q : B -> Prop)
    (m : run St A) (f : A -> run St B) :
  ends_run P Q' m -> (forall a, Q' a -> ends_run P Q (f a)) ->
  ends_run P Q (m ≫= f).
Proof.
  intros Hm Hf s. specialize (Hm s). unfold mbind, run_bind.
  destruct (m s) as [[a|e] s']; simpl in *; [apply Hf; assumption|assumption].
Qed.

Lemma ends_run_weaken {St A} P (Q Q' : A -> Prop) (m : run St A) :
  ends_run P Q m -> (forall a, Q a -> Q' a) -> ends_run P Q' m.
Proof.
  intros Hm HQ s. specialize (Hm s). unfold ends in *.
  destruct (fst (m s)); auto.
Qed.

Lemma ends_run_lift {St A} P (Q : A -> Prop) (r : result A) :
  ends P Q r -> ends_run (St := St) P Q (lift r).
Proof. intros Hr s. exact Hr. Qed.

Lemma ends_run_gets {St A} P (Q : A -> Prop) (f : St -> A) :
  (forall s, Q (f s)) -> ends_run P Q (gets f).
Proof. intros HQ s. apply HQ. Qed.

Lemma ends_run_modify {St} P (Q : unit -> Prop) (f : St -> St) :
  Q tt -> ends_run P Q (modify f).
Proof. intros HQ s. exact HQ. Qed.

Lemma ends_run_ret {St A} P (Q : A -> Prop) (a : A) :
  Q a -> ends_run (St := St) P Q (mret a).
Proof. intros HQ s. exact HQ. Qed.

Lemma ends_run_throw {St A} (P : exn -> Prop) (Q : A -> Prop) e :
  P e -> ends_run (St := St) P Q (throw e).
Proof. intros HP s. exact HP. Qed.

Lemma ends_for_each {El St} P (l : list El) (body : El -> St -> result St) s :
  (forall x s0, ends P (fun _ => True) (body x s0)) ->
  ends P (fun _ => True) (for_each l body s).
Proof.
  intros Hbody. revert s. induction l as [|x l IH]; intros s; [exact I|].
  cbn [for_each]. apply (ends_bind P (fun _ => True)); auto.
Qed.

Lemma ends_for_each_m {El A St} P (Q : A -> Prop) (l : list El)
    (body : El -> A -> run St A) (a : A) :
  Q a -> (forall x a0, Q a0 -> ends_run P Q (body x a0)) ->
  ends_run P Q (for_each_m l body a).
Proof.
  intros Ha Hbody. revert a Ha. induction l as [|x l IH]; intros a Ha.
  - apply ends_run_ret. assumption.
  - cbn [for_each_m]. apply (ends_run_bind P Q); auto.
Qed.

Section Ends.
Context {T : Type} `{Double T}.
Variable P : exn -> Prop.
Hypothesis P_eigen : P eigen_assert.
Hypothesis P_range : P out_of_range.

Local Abbreviation fine := (ends P (fun _ => True)).

Lemma fine_vget (u : VectorXd T) i : fine (vget u i).
Proof using P_eigen.
  unfold vget. destruct (in_bounds _ _); [|assumption].
  destruct (u !! _); [exact I|assumption].
Qed.

Lemma fine_vset (u : VectorXd T) i x : fine (vset u i x).
Proof using P_eigen.
  unfold vset. destruct (in_bounds _ _); [exact I|assumption].
Qed.

Lemma fine_vadd_at (u : VectorXd T) i x : fine (vadd_at u i x).
Proof using P_eigen.
  unfold vadd_at. apply (ends_bind P (fun _ => True));
    [apply fine_vget|intros; apply fine_vset].
Qed.

Lemma fine_mset (m : MatrixXd T) r c x : fine (mset m r c x).
Proof using P_eigen.
  unfold mset. destruct (_ && _); [exact I|assumption].
Qed.

Lemma fine_mcol (m : MatrixXd T) c : fine (mcol m c).
Proof using P_eigen.
  unfold mcol. destruct (in_bounds _ _); [|assumption].
  destruct (data m !! _); [exact I|assumption].
Qed.

Lemma fine_mcol_set (m : MatrixXd T) c u : fine (mcol_set m c u).
Proof using P_eigen.
  unfold mcol_set. destruct (_ && _); [exact I|assumption].
Qed.

Lemma fine_mcol_add (m : MatrixXd T) c u : fine (mcol_add m c u).
Proof using P_eigen.
  unfold mcol_add. apply (ends_bind P (fun _ => True)); [apply fine_mcol|].
  intros col _. apply (ends_bind P (fun _ => True)).
  - unfold vplus. destruct (Nat.eqb _ _); [exact I|assumption].
  - intros; apply fine_mcol_set.
Qed.

Lemma fine_MatVec_new r c : fine (MatVec_new (T := T) r c).
Proof using P_eigen.
  unfold MatVec_new, MatrixXd_Zero, VectorXd_Zero.
  destruct (_ && _); [|assumption]. cbn [mbind result_bind].
  destruct (0 <=? c); [exact I|assumption].
Qed.

Lemma fine_add_v (ec : MatVec T) i x : fine (add_v ec i x).
Proof using P_eigen.
  unfold add_v. apply (ends_bind P (fun _ => True));
    [apply fine_vadd_at|intros; exact I].
Qed.

Lemma fine_GetXyDimAlternatingVector (sc : SplineContainer T) x y :
  fine (GetXyDimAlternatingVector sc x y).
Proof using P_eigen.
  unfold GetXyDimAlternatingVector.
  apply (ends_bind P (fun _ => True)).
  { unfold VectorXd_Zero. destruct (0 <=? _); [exact I|assumption]. }
  intros u _. apply ends_for_each. intros s u0.
  assert (Hmid : forall w st b, fine (set_middleRows (T := T) w st b)).
  { intros w st b. unfold set_middleRows.
    destruct (_ && _); [exact I|assumption]. }
  apply (ends_bind P (fun _ => True)); [apply Hmid|intros; apply Hmid].
Qed.

Local Abbreviation fine_run := (ends_run P (fun _ => True)).

Lemma fine_set_ipopt r c x : fine_run (set_ipopt (T := T) r c x).
Proof using P_eigen.
  intros o. unfold set_ipopt. pose proof (fine_mset (ineq_ipopt_ o) r c x) as Hm.
  destruct (mset _ _ _ _); assumption.
Qed.

Lemma fine_add_ipopt_col c u : fine_run (add_ipopt_col (T := T) c u).
Proof using P_eigen.
  intros o. unfold add_ipopt_col.
  pose proof (fine_mcol_add (ineq_ipopt_ o) c u) as Hm.
  destruct (mcol_add _ _ _); assumption.
Qed.

Lemma fine_set_ipopt_vx c x : fine_run (set_ipopt_vx (T := T) c x).
Proof using P_eigen.
  intros o. unfold set_ipopt_vx.
  pose proof (fine_vset (ineq_ipopt_vx_ o) c x) as Hm.
  destruct (vset _ _ _); assumption.
Qed.

Lemma fine_set_ipopt_vy c x : fine_run (set_ipopt_vy (T := T) c x).
Proof using P_eigen.
  intros o. unfold set_ipopt_vy.
  pose proof (fine_vset (ineq_ipopt_vy_ o) c x) as Hm.
  destruct (vset _ _ _); assumption.
Qed.

Ltac fine_bind :=
  apply (ends_run_bind P (fun _ => True)); [|intros ? _].

Lemma fine_zmp_coefficients k h z_acc t c (Ekx Fkx Eky Fky : VectorXd T) dim u :
  fine_run (zmp_coefficients k h z_acc t c Ekx Fkx Eky Fky dim u).
Proof using P_eigen.
  unfold zmp_coefficients. cbv zeta.
  do 4 (fine_bind; [apply fine_set_ipopt|]).
  fine_bind; apply fine_add_ipopt_col.
Qed.

(** A constraint that returns has found its line, and steps the counter. *)
Lemma ends_zmp_constraint (lines : list (hyq.SuppTriangle.TrLine T))
    k h t (Ekx Fkx Eky Fky : VectorXd T) e0x f0x e0y f0y j ineq c :
  ends_run P (fun st => snd st = c + 1 /\
                        (0 <= c -> c + 1 <= Z.of_nat (length lines)))
    (zmp_constraint lines k h t Ekx Fkx Eky Fky e0x f0x e0y f0y j (ineq, c)).
Proof using P_eigen P_range.
  unfold zmp_constraint.
  destruct (lines !! Z.to_nat c) as [l|] eqn:Hl;
    [|apply ends_run_throw; assumption].
  pose proof (lookup_lt_Some _ _ _ Hl) as Hlt. cbv zeta.
  fine_bind.
  { apply ends_for_each_m; [exact I|]. intros dim u _.
    apply fine_zmp_coefficients. }
  fine_bind; [apply ends_run_gets; auto|].
  fine_bind; [apply ends_run_lift, fine_GetXyDimAlternatingVector|].
  fine_bind; [apply ends_run_gets; auto|].
  fine_bind; [apply ends_run_lift, fine_mcol|].
  fine_bind.
  { apply ends_run_lift. unfold cwiseProduct.
    destruct (Nat.eqb _ _); [exact I|assumption]. }
  fine_bind.
  { apply ends_run_lift. apply (ends_bind P (fun _ => True));
      [apply fine_mcol_set|intros; exact I]. }
  fine_bind; [apply fine_set_ipopt_vx|].
  fine_bind; [apply fine_set_ipopt_vy|].
  fine_bind; [apply ends_run_gets; auto|].
  fine_bind; [apply ends_run_gets; auto|].
  fine_bind; [apply ends_run_lift, fine_vget|].
  fine_bind; [apply ends_run_lift, fine_vget|].
  do 3 (fine_bind; [apply ends_run_lift, fine_add_v|]).
  apply ends_run_ret. cbn [snd]. split; [reflexivity|lia].
Qed.

Lemma ends_sample (lines : list (hyq.SuppTriangle.TrLine T))
    k h t (Ekx Fkx Eky Fky : VectorXd T) e0x f0x e0y f0y (st : MatVec T * Z) :
  0 <= snd st ->
  ends_run P (fun st' => snd st' = snd st + 3 /\
                         snd st' <= Z.of_nat (length lines))
    (for_each_m [0; 1; 2]
       (zmp_constraint lines k h t Ekx Fkx Eky Fky e0x f0x e0y f0y) st).
Proof using P_eigen P_range.
  destruct st as [ineq c]. cbn [snd]. intros Hc. cbn [for_each_m].
  eapply ends_run_bind; [apply ends_zmp_constraint|].
  intros [i1 c1] [E1 H1]. cbn [snd] in *. subst c1.
  eapply ends_run_bind; [apply ends_zmp_constraint|].
  intros [i2 c2] [E2 H2]. cbn [snd] in *. subst c2.
  eapply ends_run_bind; [apply ends_zmp_constraint|].
  intros [i3 c3] [E3 H3]. cbn [snd] in *. subst c3.
  apply ends_run_ret. cbn [snd]. lia.
Qed.

(** The loop over the samples cannot use up its fuel: every sample that
    returns has taken three lines. *)
Lemma ends_for_double (lines : list (hyq.SuppTriangle.TrLine T))
    (body : T -> MatVec T * Z -> run (ZmpOptimizer T) (MatVec T * Z))
    (fuel : nat) (i bound : T) (st : MatVec T * Z) :
  (forall i0 st0, 0 <= snd st0 ->
     ends_run P (fun st' => snd st' = snd st0 + 3 /\
                            snd st' <= Z.of_nat (length lines)) (body i0 st0)) ->
  0 <= snd st <= Z.of_nat (length lines) ->
  Z.of_nat (length lines) < 3 * Z.of_nat fuel + snd st ->
  ends_run P (fun st' => 0 <= snd st' <= Z.of_nat (length lines))
    (for_double fuel i bound body st).
Proof using P_eigen P_range.
  intros Hbody. revert i st.
  induction fuel as [|fuel IH]; intros i st Hst Hfuel; [lia|].
  cbn [for_double]. destruct (fltb i bound).
  - eapply ends_run_bind; [apply Hbody; lia|].
    intros st1 [Hst1 Hle]. apply IH; lia.
  - apply ends_run_ret. assumption.
Qed.

Lemma ends_segment_constraints (sc : SplineContainer T)
    (start_cog_p start_cog_v : Vector2d T)
    (lines : list (hyq.SuppTriangle.TrLine T)) (h dt : T) (s : ZmpSpline T)
    (st : MatVec T * Z) :
  0 <= snd st <= Z.of_nat (length lines) ->
  ends_run P (fun st' => 0 <= snd st' <= Z.of_nat (length lines))
    (segment_constraints sc start_cog_p start_cog_v lines h dt s st).
Proof using P_eigen P_range.
  intros Hst. unfold segment_constraints.
  destruct (four_leg_supp_ s); [apply ends_run_ret; assumption|].
  destruct (DescribeEByPrev sc (id_ s) X _) as [Ekx e0x].
  destruct (DescribeFByPrev sc (id_ s) X _ _) as [Fkx f0x].
  destruct (DescribeEByPrev sc (id_ s) Y _) as [Eky e0y].
  destruct (DescribeFByPrev sc (id_ s) Y _ _) as [Fky f0y].
  apply (ends_for_double lines); [|assumption|lia].
  intros i0 st0 Hst0. apply ends_sample. assumption.
Qed.

Lemma ends_CreateInequalityContraints
    (start_cog_p start_cog_v : Vector2d T)
    (lines : list (hyq.SuppTriangle.TrLine T)) (h dt : T) :
  ends_run P (fun _ => True)
    (CreateInequalityContraints start_cog_p start_cog_v lines h dt).
Proof using P_eigen P_range.
  unfold CreateInequalityContraints.
  apply (ends_run_bind P (fun _ => True)); [|intros; apply ends_run_ret; exact I].
  unfold CreateInequalityContraints_counted.
  fine_bind; [apply ends_run_gets; auto|].
  fine_bind; [apply ends_run_lift, fine_MatVec_new|].
  do 3 (fine_bind; [apply ends_run_modify; exact I|]).
  apply ends_run_weaken with (Q := fun st' => 0 <= snd st'
                                            <= Z.of_nat (length lines));
    [|intros; exact I].
  apply ends_for_each_m; [cbn [snd]; lia|].
  intros s st Hst. apply ends_segment_constraints. assumption.
Qed.

End Ends.

(** X18: In every model of the numbers and from every state,
    [CreateInequalityContraints] either returns its constraints or fails in
    one of two ways: an Eigen index or size assertion, or [at()] past the end
    of the lines.  In particular the loop over the samples of a segment
    always ends, whatever the duration and the sampling interval are (also
    when their quotient is infinite or not a number): a sample that does not
    fail has consumed three of the finitely many lines. *)
Theorem inequality_builder_returns_or_fails {T : Type} `{Double T}
    (start_cog_p start_cog_v : Vector2d T)
    (lines : list (hyq.SuppTriangle.TrLine T)) (h dt : T)
    (o : ZmpOptimizer T) :
  let r := fst (CreateInequalityContraints start_cog_p start_cog_v lines h dt o) in
  (exists ineq, r = Ok ineq) \/ r = Throw eigen_assert \/ r = Throw out_of_range.
Proof.
  intros r.
  pose proof (ends_CreateInequalityContraints
                (fun e => e = eigen_assert \/ e = out_of_range)
                (or_introl eq_refl) (or_intror eq_refl)
                start_cog_p start_cog_v lines h dt o) as Hr.
  fold r in Hr. unfold ends in Hr.
  destruct r as [ineq|e]; [left; eauto|right].
  destruct Hr as [->| ->]; auto.
Qed.
